(* ===== verification/_CoqProject ===== *)
-Q . S2P
Prelude.v
Ord.v
RustStd.v
F64.v
Redis.v
WqCore.v
Apwm.v
Examples.v
WqProg.v
Wq.v
WqRoutes.v
WqSpec.v
WqRefine.v
WqInv.v
WqClaim.v
WqReach.v
WqProps.v
WqConc.v
WqDiscipline.v
WqDisciplined.v
WqRuns.v
WqConcProps.v
ApwmFacts.v
ApwmIndex.v
ApwmIndexFacts.v
ApwmChanges.v
ApwmLint.v
ApwmProps.v
WordDiff.v
Apworld.v
DiffLines.v
DiffRender.v
DiffCompute.v
DiffLinesFacts.v
DiffComputeFacts.v
DiffRenderFacts.v
DiffProps.v
Yaml.v
Review.v
ReviewFacts.v
ReviewTriggers.v
ReviewEval.v
ReviewDoc.v
ReviewProps.v
ReviewDb.v
ReviewApi.v
ReviewApiProps.v
LobbyNames.v
LobbyYaml.v
LobbyFeatures.v
LobbyFeaturesFacts.v
LobbyFeaturesProps.v
LobbyFacts.v
LobbyProps.v
LobbyBases.v
LobbyIndex.v
LobbyIndexFacts.v
LobbyIndexProps.v
LobbyOptions.v
LobbyOptionPages.v
LobbyOptionsFacts.v
LobbyOptionsProps.v
LobbyDb.v
LobbySession.v
LobbySettings.v
LobbyRooms.v
LobbyRoomEdit.v
LobbyTemplates.v
LobbyGenerations.v
LobbyApi.v
LobbyPages.v
LobbyRequests.v
LobbyExamples.v
LobbyRoomsProps.v
LobbyStrangers.v
LobbyStrangersProps.v
LobbyGenerationsProps.v
LobbyApiProps.v
LobbyUploads.v
LobbyRoomEditProps.v
