(* ===== verification/Prelude.v ===== *)
(** * Verification of Archipelago XL

    Archipelago XL hosts multiworld randomizer games.  This library models the parts of its Rust
    workspace (under [src/]) that carry its own logic, and proves what makes them correct.

    ** The program and its parts

    - [wq] is a work queue on a key-value server: the lobby enqueues jobs (generation, validation,
      option pages), workers claim them over HTTP, keep their claims alive and resolve them.
    - [apwm] manages an index of worlds (game plugins): which releases exist, which of them run on
      which base version of Archipelago, what a room's manifest resolves to, downloads with
      checksums, reports of changes, and a linter.
    - [apdiff-viewer] shows what changed between two releases of a world: it unpacks archives,
      pairs the files of two trees, and renders highlighted diffs.
    - [lobby], [community-ap-tools], [ap-worker] and [apx] are servers, workers and proxies around
      these.

    ** Files

    Shared: [Prelude] (results and their monad, texts, tactics, lists), [Ord] (ordered keys, the
    iteration order of [BTreeMap]), [RustStd] (character classes, [str] methods, integers as text),
    [F64] (64-bit floats as IEEE 754 defines them, and bounds on what they round to), [Examples] (instances of the interfaces, on which witnesses evaluate the definitions).

    [wq]:
    - [Redis]: the server as an interface.  [rcmd] are the commands, [redis_doc] their documented
      effect, [RedisServer] any server that has it.
    - [WqCore]: the types of [claim.rs], [result.rs], [stats.rs] and [lib.rs], partitions, keys and
      the builder.  [WqProg]: programs of commands, clock readings, messages and new identifiers,
      and how they run.  [Wq]: one program per operation of [lib.rs].  [WqRoutes]: the routes of
      [rocket_routes.rs] around them.
    - [WqSpec]: the abstract queue ([qstate]) and the relation [rep] between it and the keyspace.
      [WqRefine], [WqInv], [WqClaim]: each operation implements an abstract one.  [WqInv],
      [WqReach]: well-formedness is kept and holds in every reachable state.  [WqProps]: the
      theorems.
    - [WqConc]: threads whose commands interleave, lose connections and stop anywhere.
      [WqDiscipline]: the types of the keys and a logic for what a thread may send, whatever the
      others do; [WqDisciplined]: every operation keeps to it.  [WqRuns]: invariants of all runs.
      [WqConcProps]: the theorems.

    [apwm]:
    - [Apwm]: [index/world.rs], [index/mod.rs] and [manifest.rs]: releases, views per base,
      requirements, resolution.  [ApwmIndex]: index sets, downloads and the lock.  [ApwmChanges]:
      [changes.rs].  [ApwmLint]: [lint.rs], the install command of [bin/apwm.rs], and the lobby's
      [base_switch.rs], which reports what moving a room to another base changes.
    - [ApwmFacts], [ApwmIndexFacts]: lemmas.  [ApwmProps]: the theorems.

    [apdiff-viewer]:
    - [WordDiff]: [diff/word_diff.rs].  [Apworld]: [apworld.rs].  [DiffLines] and [DiffRender]:
      [diff/mod.rs].  [DiffCompute]: [diff/compute.rs].
    - [DiffLinesFacts], [DiffComputeFacts], [DiffRenderFacts]: lemmas.  [DiffProps]: the
      theorems.

    [community-ap-tools] (the review of a room's YAMLs):
    - [Yaml]: the YAML crate as an interface.  [Review]: [review/rules.rs], [mod.rs] and
      [builtin.rs].  [ReviewTriggers]: [review/triggers.rs].  [ReviewEval]:
      [review/api/evaluate.rs].
    - [ReviewFacts]: lemmas.  [ReviewDoc]: a small YAML implementation for examples.
      [ReviewProps]: the theorems.
    - [ReviewDb]: the tables, queries, roles and sessions of [review/db.rs], [auth.rs], [error.rs] and
      [schema.rs]; a request is a program on the tables that may fail ([rm]).  [ReviewApi]: the requests of
      [review/api/] and [review/page.rs], and [jobs.rs], where a round of the poller is a step.  [ReviewApiProps]: the changes
      that roles permit ([permitted]), and the theorems.

    [lobby] (the YAMLs of a room):
    - [LobbyNames]: the names of players, in [yaml.rs].  [LobbyYaml]: the rest of [yaml.rs], the
      callback of [jobs.rs], and of [db/yaml.rs], [db/room.rs], [db/types.rs], [session.rs] and
      [index_manager.rs] what they need.  Its programs enqueue jobs and wait for them with the
      operations of [Wq], and resolve games with the index of [Apwm].
    - [LobbyFeatures]: [extractor/], which tells how likely the features of a YAML's games are.
    - [LobbyFacts], [LobbyFeaturesFacts]: lemmas.  [LobbyProps], [LobbyFeaturesProps]: the
      theorems.

    [lobby] (the index and the options of games):
    - [LobbyBases]: which versions of Archipelago are offered, in [index_manager.rs] and
      [views/utils.rs].  [LobbyIndex]: refreshing the index and telling the other processes that
      share its checkout.  [LobbyIndexFacts]: lemmas.  [LobbyIndexProps]: the theorems.
    - [LobbyOptions], [LobbyOptionPages]: [views/options_gen.rs] and its job in [jobs.rs]: the
      definitions of a game's options, the checks of a form, the YAML that is made of it, the
      pages.  [LobbyOptionsFacts]: lemmas.  [LobbyOptionsProps]: the theorems.

    [lobby] (rooms and their requests):
    - [LobbyDb]: the tables, and [db/]: the queries, on which requests are programs ([hm]).
      [LobbySession]: [session.rs].  [LobbySettings]: [views/room_settings.rs] and
      [manifest_editor.rs].  [LobbyRooms]: [views/room/main.rs].  [LobbyRoomEdit]:
      [views/room/edit.rs].  [LobbyTemplates]: [views/room_templates.rs] and [room/list.rs].
      [LobbyGenerations]: [views/room/gen.rs] and the generations of [jobs.rs].  [LobbyApi]:
      [views/api.rs].  [LobbyPages]: [views/auth.rs], [apworlds.rs] and [admin.rs].
    - [LobbyRequests]: how requests end, whatever servers and clocks answer, with tactics that
      follow their steps.  [LobbyStrangers]: the steps and requests that leave others alone.
      [LobbyExamples]: rooms for the witnesses.  [LobbyRoomsProps], [LobbyStrangersProps],
      [LobbyGenerationsProps], [LobbyApiProps], [LobbyUploads], [LobbyRoomEditProps]: the theorems.

    A record stands for each struct, an inductive type for each enum, and a function for each
    function, under the source's name where it is free; a comment above each definition names its
    lines.  Fallible functions return [result], panics are [None].  [BTreeMap] and [HashMap] are
    [gmap]s; a loop over a [BTreeMap] goes through its entries in order ([bt_iter]).  Texts are
    lists of Unicode scalar values, and lengths and offsets count bytes of UTF-8, as in Rust.

    ** What the theorems show

    - The queue: every operation, run on any server that does what the documentation says, does
      what the abstract queue says, and keeps it well formed; claims go to the first job that is
      ready; only the holder of a claim resolves or refreshes it; expired claims are put back where
      they came from; waiting and claiming end within their timeouts; no two things share a key.
      Workers reach it over HTTP with the queue's token only, and get the answer of the operation.
      When operations interleave, the keys keep their types, calls fail only in the ways listed,
      a job is handed out again only after its claim could expire, and whoever holds a job was
      handed it; runs in which a job gets lost or comes back are given.
    - The index: a base sees exactly the releases its tables say; manifests resolve accordingly,
      also after being updated or frozen; locks never change a checksum, whatever the order of the
      downloads; reports of changes are exact; an index without lint errors is safe for lobbies of
      either generation.
    - Diffs: archives are unpacked within limits; every file of two trees is compared exactly once
      and renames are paired best first; the lines of a diff are the lines of both files, numbered;
      words are cut, matched and consolidated without losing text; folding hides exactly the inner
      lines of long runs; and whatever highlighting does, the HTML shows the escaped line.
    - Reviews: predicates mean what their boolean reading says, whatever the cache of regular
      expressions holds and whichever thread evaluates them, and never panic; the result of a rule
      on every branch; random ranges are judged by the integers they can give; the built-in rule
      finds exactly the references to other players; triggers end and change only what they say;
      the reports of a room are the failing rules, in order.
    - Access to reviews: the requests refine a relation of permitted changes, which the roles of a session
      at the time decide, and keep the tables well formed; only super administrators make
      administrators, presets and teams; users change nothing of teams, presets and rooms that they have
      no part in.  A round of the poller queues exactly the YAMLs that wait for an analysis and aren't in
      flight, and the rounds of an hour no YAML twice.

    - The YAMLs of a room: the YAMLs of an accepted upload have names that Archipelago takes, different from
      all others, and stay within the limit of the room; after a change of the room only the YAMLs
      that it concerns are validated again; which results of jobs are written, and where; the
      chances of features stay within bounds, in spite of rounding, if the weights of the YAML make
      sense, and are those of independent events.  Gaps of the code are theorems too: names that
      clash in the end in spite of the check, results that are written for a YAML that was edited
      in between, and weights on which the extraction of features panics or goes beyond certainty.
    - The index manager: every base that is handed out is offered and described; processes serve
      the commit they know and come to the same one once announcements stop.
    - Options: every option of a game is in the edited YAML or reported, and a downloaded YAML is
      read back as what the form said.
    - Rooms: however users go on, the rooms, generations, templates and YAMLs of others stay as they
      are; who a request is from; uploads store all documents or nothing; rooms are made by those
      who may and keep proper settings; generations start when the checklist holds, and freeze the
      manifest; edits keep the game and the player; the slots of a room are the files of its
      archive.

    ** Bounds and fuel

    Loops that wait for messages have fuel; [wait_terminates] and [claim_none_ready] say that one
    round per message (and per pending job) is enough.  The loops over diff lines have one round
    per line as fuel, which is proved to be enough (their results are never [None]).  The counters
    of diff lines are [i32] and wrap around; the theorem on numbering assumes fewer than 2^31 - 1
    changes.  The text of a YAML value has its size as fuel, which is more than its depth; triggers
    have the 50 rounds of the code.  A validation in the lobby has the fuel of [wait_for_job].
    The weights of an option have its size as fuel ([option_probability_fuel]).  The features of
    YAMLs are computed with floats that round as IEEE 754 says, and [u32] that wrap around.
    Similarities are exact rationals: the quotients that the code compares in floating point have
    denominators up to 1000, which [f64] keeps apart.

    ** Not modelled

    What isn't under [src/] is a parameter with its documented behaviour: the key-value server,
    JSON, TOML and UUIDs, HTTP and the file system, digests, [semver], and the crates [similar],
    [strsim], [syntect], [html_escape], [zip], [regex], [saphyr], [serde_saphyr] and [yaml_split],
    and of the standard library the Unicode table of [str::to_lowercase] and the order of a
    [HashMap].  Paths are their components, so that different spellings of a path (a doubled slash,
    a dot) are one.  The callback of the queue doesn't use the queue; interleavings are those of
    the commands of queue operations.  The lobby's requests run one after the other, except for
    what workers and servers do in between; a query is one step and doesn't fail of itself.  Of
    pages the values given to the template are modelled, not the template, the message on the next
    page or the redirect.  Left out as glue around other services: requests to the proxies that
    host rooms ([room/host.rs]) and patches embedded in downloads, streams of logs, metrics and
    the start of the servers; the servers of [apdiff-viewer] and [apx]; [ap-worker]; of the review
    tools the dashboards of [main.rs], the tracker and spheres of a room, and the exchange with
    Discord. *)

From Stdlib Require Export NArith ZArith Ascii Lia.
From stdpp Require Export base tactics list option numbers strings sorting gmap.

(** ** Results

    Rust's [Result<T, E>].  The monad instances give the [?] operator: [x ← e; k] returns the
    error of [e] at once and otherwise continues with its value. *)
Inductive result (E A : Type) : Type :=
| Ok (a : A)
| Err (e : E).
Arguments Ok {E A} a.
Arguments Err {E A} e.

#[export] Instance result_ret {E} : MRet (result E) := fun A a => Ok a.
#[export] Instance result_bind {E} : MBind (result E) :=
  fun A B k r => match r with Ok a => k a | Err e => Err e end.
#[export] Instance result_fmap {E} : FMap (result E) :=
  fun A B f r => match r with Ok a => Ok (f a) | Err e => Err e end.

Definition is_Ok {E A} (r : result E A) : Prop := exists a, r = Ok a.
Definition is_Err {E A} (r : result E A) : Prop := exists e, r = Err e.

Definition ok {E A} (r : result E A) : option A :=
  match r with Ok a => Some a | Err _ => None end.

Definition map_err {E F A} (f : E -> F) (r : result E A) : result F A :=
  match r with Ok a => Ok a | Err e => Err (f e) end.

Definition ok_or {E A} (o : option A) (e : E) : result E A :=
  match o with Some a => Ok a | None => Err e end.

Lemma result_bind_Ok {E A B} (a : A) (k : A -> result E B) : (Ok a ≫= k) = k a.
Proof. reflexivity. Qed.
Lemma result_bind_Err {E A B} (e : E) (k : A -> result E B) : (Err e ≫= k) = Err e.
Proof. reflexivity. Qed.
Lemma result_bind_assoc {E A B C} (r : result E A) (f : A -> result E B) (g : B -> result E C) :
  ((r ≫= f) ≫= g) = (r ≫= fun a => f a ≫= g).
Proof. by destruct r. Qed.
Lemma result_bind_Ok_inv {E A B} (r : result E A) (k : A -> result E B) b :
  (r ≫= k) = Ok b -> exists a, r = Ok a /\ k a = Ok b.
Proof. destruct r; simpl; [eauto | discriminate]. Qed.
Lemma result_bind_Err_inv {E A B} (r : result E A) (k : A -> result E B) e :
  (r ≫= k) = Err e -> r = Err e \/ exists a, r = Ok a /\ k a = Err e.
Proof. destruct r; simpl; [eauto | intros [= ->]; eauto]. Qed.

(** ** Text

    A Rust [str] is a sequence of Unicode scalar values.  [str_len] is its length in bytes of
    UTF-8, which is what [str::len] and string indices count. *)
Abbreviation char := N (only parsing).
Abbreviation str := (list N).

(** The text of an ASCII literal. *)
Definition lit (s : string) : str :=
  (fun c => N_of_ascii c) <$> String.list_ascii_of_string s.
#[global] Arguments lit _%_string : simpl never.

Definition len_utf8 (c : char) : N :=
  if (c <? 128)%N then 1 else if (c <? 2048)%N then 2 else if (c <? 65536)%N then 3 else 4.

Definition str_len (s : str) : N := foldr (fun c n => (len_utf8 c + n)%N) 0%N s.

Lemma len_utf8_pos c : (0 < len_utf8 c)%N.
Proof. unfold len_utf8. repeat case_match; lia. Qed.

Lemma str_len_app s1 s2 : str_len (s1 ++ s2) = (str_len s1 + str_len s2)%N.
Proof. induction s1 as [|c s1 IH]; simpl; [done|]. rewrite IH. lia. Qed.

Lemma str_len_nil_inv s : str_len s = 0%N -> s = [].
Proof. destruct s as [|c s]; [done|]. simpl. pose proof (len_utf8_pos c). lia. Qed.

Definition str_eqb (s1 s2 : str) : bool := bool_decide (s1 = s2).

Lemma str_eqb_spec s1 s2 : str_eqb s1 s2 = true <-> s1 = s2.
Proof. apply bool_decide_eq_true. Qed.

(** ** Tactics *)

(** [lia] knows about quotients and remainders. *)
Ltac Zify.zify_post_hook ::= Z.to_euclidean_division_equations.

(** Opens the existentials and conjunctions of the context, keeping their names. *)
Ltac deex :=
  repeat match goal with
  | H : exists x, _ |- _ => let x' := fresh x in destruct H as [x' H]
  | H : _ /\ _ |- _ => destruct H
  end.

(** Splits every [match] and [if] that the goal or a hypothesis is stuck on. *)
Ltac split_cases :=
  repeat first [ progress simplify_eq/= | case_match | case_decide ].

(** Turns [bool_decide] and the boolean connectives of hypotheses into propositions. *)
Ltac reflect_bools :=
  repeat match goal with
  | H : bool_decide _ = true |- _ => apply bool_decide_eq_true in H
  | H : bool_decide _ = false |- _ => apply bool_decide_eq_false in H
  | H : andb _ _ = true |- _ => apply andb_true_iff in H; destruct H
  | H : orb _ _ = false |- _ => apply orb_false_iff in H; destruct H
  | H : negb _ = true |- _ => apply negb_true_iff in H
  | H : negb _ = false |- _ => apply negb_false_iff in H
  | H : str_eqb _ _ = true |- _ => apply str_eqb_spec in H
  end.

(** Inverts a chain of binds in the result monad. *)
Ltac bind_inv :=
  repeat match goal with
  | H : (mbind _ _) = Ok _ |- _ =>
      apply result_bind_Ok_inv in H; destruct H as [? [? H]]
  end.

(** ** Lists *)

(** A fold that stops at the first error: the body of a [for] loop that uses [?]. *)
Fixpoint try_fold {E A S} (f : S -> A -> result E S) (s : S) (l : list A) : result E S :=
  match l with
  | [] => Ok s
  | x :: l => s' ← f s x; try_fold f s' l
  end.

Lemma try_fold_app {E A S} (f : S -> A -> result E S) s l1 l2 :
  try_fold f s (l1 ++ l2) = (s' ← try_fold f s l1; try_fold f s' l2).
Proof.
  revert s. induction l1 as [|x l1 IH]; intros s; simpl; [done|].
  destruct (f s x); simpl; [apply IH | done].
Qed.

(** An invariant of the loop body is an invariant of the loop. *)
Lemma try_fold_inv {E A S} (P : S -> Prop) (f : S -> A -> result E S) s l s' :
  (forall s x s', x ∈ l -> P s -> f s x = Ok s' -> P s') ->
  P s -> try_fold f s l = Ok s' -> P s'.
Proof.
  revert s. induction l as [|x l IH]; intros s Hstep Hs Hrun; simpl in Hrun.
  - by simplify_eq.
  - destruct (f s x) as [s1|] eqn:E1; simpl in Hrun; [|done].
    apply (IH s1); [|by eapply (Hstep s x); [left| |]|done].
    intros s2 y s3 Hy. apply Hstep. by right.
Qed.

Lemma fold_left_inv {A S} (P : S -> Prop) (f : S -> A -> S) s l :
  (forall s x, x ∈ l -> P s -> P (f s x)) -> P s -> P (fold_left f l s).
Proof.
  revert s. induction l as [|x l IH]; intros s Hstep Hs; simpl; [done|].
  apply IH; [|by apply Hstep; [left|]].
  intros s' y Hy. apply Hstep. by right.
Qed.

(** A stable sort, as [slice::sort_by]: [le x y] is false when [y] has to come before [x]. *)
Fixpoint insert_by {A} (le : A -> A -> bool) (x : A) (l : list A) : list A :=
  match l with
  | [] => [x]
  | y :: l' => if le x y then x :: l else y :: insert_by le x l'
  end.
Definition sort_by {A} (le : A -> A -> bool) (l : list A) : list A := foldr (insert_by le) [] l.

Lemma insert_by_perm {A} (le : A -> A -> bool) x l : insert_by le x l ≡ₚ x :: l.
Proof.
  induction l as [|y l IH]; simpl; [done|]. destruct (le x y); [done|].
  rewrite IH. apply Permutation_swap.
Qed.

Lemma sort_by_perm {A} (le : A -> A -> bool) l : sort_by le l ≡ₚ l.
Proof. induction l as [|x l IH]; simpl; [done|]. by rewrite insert_by_perm, IH. Qed.

Lemma insert_by_sorted {A} (le : A -> A -> bool) x l :
  (forall x y, le x y = true \/ le y x = true) ->
  Sorted (fun x y => le x y = true) l -> Sorted (fun x y => le x y = true) (insert_by le x l).
Proof.
  intros Htotal. induction 1 as [|y l Hs IH Hhd]; simpl; [by repeat constructor|].
  destruct (le x y) eqn:E; [by repeat constructor|]. constructor; [done|].
  destruct (Htotal x y) as [?|Hyx]; [congruence|].
  destruct Hhd as [|z l Hyz]; simpl; [by constructor|].
  by destruct (le x z); constructor.
Qed.

Lemma sort_by_sorted {A} (le : A -> A -> bool) l :
  (forall x y, le x y = true \/ le y x = true) ->
  Sorted (fun x y => le x y = true) (sort_by le l).
Proof.
  intros Htotal. induction l as [|x l IH]; simpl; [constructor|]. by apply insert_by_sorted.
Qed.

Lemma filter_all {A} (f : A -> bool) (l : list A) :
  (forall x, x ∈ l -> f x = true) -> List.filter f l = l.
Proof.
  induction l as [|x l IH]; intros Hall; simpl; [done|].
  rewrite Hall by left. f_equal. apply IH. intros y Hy. apply Hall. by right.
Qed.

Lemma elem_of_filter_bool {A} (f : A -> bool) (l : list A) x :
  x ∈ List.filter f l <-> x ∈ l /\ f x = true.
Proof. rewrite !list_elem_of_In. apply filter_In. Qed.

Lemma NoDup_fmap_filter {A B} (g : A -> B) (f : A -> bool) (l : list A) :
  NoDup (g <$> l) -> NoDup (g <$> List.filter f l).
Proof.
  induction l as [|x l IH]; simpl; [done|]. intros [Hx Hnd]%NoDup_cons.
  destruct (f x); simpl; [|by apply IH]. apply NoDup_cons. split; [|by apply IH].
  intros (y & Hy & [Hin _]%elem_of_filter_bool)%list_elem_of_fmap. apply Hx. rewrite Hy.
  by apply list_elem_of_fmap_2.
Qed.

Lemma last_is_app {A} (l : list A) x : last (l ++ [x]) = Some x.
Proof. by rewrite last_snoc. Qed.
