(* ===== verification/Ord.v ===== *)
(** * Ordered keys and the iteration order of [BTreeMap]

    A [BTreeMap<K, V>] is a finite map ([gmap]) whose iterators go through the keys in the order
    of [K: Ord].  [RustOrd] is that trait; [bt_iter] is the iterator, and the lemmas are what the
    components rely on: each entry once, in increasing order of keys. *)

From S2P Require Import Prelude.

Class RustOrd (K : Type) := {
  ord_le : relation K;
  ord_le_dec :: RelDecision ord_le;
  ord_partial :: PartialOrder ord_le;
  ord_total :: Total ord_le;
}.

Definition ord_lt {K} `{RustOrd K} (x y : K) : Prop := ord_le x y /\ x <> y.

Lemma ord_le_antisym {K} `{RustOrd K} (x y : K) : ord_le x y -> ord_le y x -> x = y.
Proof. apply (anti_symm ord_le). Qed.

Lemma ord_not_le {K} `{RustOrd K} (x y : K) : ~ ord_le x y -> ord_lt y x.
Proof.
  intros Hn. destruct (total ord_le x y) as [?|Hyx]; [done|].
  split; [done|]. intros ->. done.
Qed.

(** ** Texts

    [Ord for str] compares bytes of UTF-8, which orders texts like their scalar values. *)
Fixpoint str_leb (s1 s2 : str) : bool :=
  match s1, s2 with
  | [], _ => true
  | _ :: _, [] => false
  | c1 :: s1, c2 :: s2 => (c1 <? c2)%N || ((c1 =? c2)%N && str_leb s1 s2)
  end.

Lemma str_leb_refl s : str_leb s s = true.
Proof. induction s as [|c s IH]; simpl; [done|]. rewrite N.eqb_refl, IH. by rewrite orb_true_r. Qed.

Lemma str_leb_antisym s1 s2 : str_leb s1 s2 = true -> str_leb s2 s1 = true -> s1 = s2.
Proof.
  revert s2. induction s1 as [|c1 s1 IH]; intros [|c2 s2]; simpl; try done.
  destruct (N.ltb_spec c1 c2), (N.ltb_spec c2 c1), (N.eqb_spec c1 c2), (N.eqb_spec c2 c1);
    simpl; intros; subst; try lia; try done.
  f_equal. by apply IH.
Qed.

Lemma str_leb_trans s1 s2 s3 : str_leb s1 s2 = true -> str_leb s2 s3 = true -> str_leb s1 s3 = true.
Proof.
  revert s2 s3. induction s1 as [|c1 s1 IH]; intros [|c2 s2] [|c3 s3]; simpl; try done.
  destruct (N.ltb_spec c1 c2), (N.ltb_spec c2 c3), (N.ltb_spec c1 c3),
    (N.eqb_spec c1 c2), (N.eqb_spec c2 c3), (N.eqb_spec c1 c3);
    simpl; intros; subst; try lia; try done; by eapply IH.
Qed.

Lemma str_leb_total s1 s2 : str_leb s1 s2 = true \/ str_leb s2 s1 = true.
Proof.
  revert s2. induction s1 as [|c1 s1 IH]; intros [|c2 s2]; simpl; eauto.
  destruct (N.ltb_spec c1 c2), (N.ltb_spec c2 c1), (N.eqb_spec c1 c2), (N.eqb_spec c2 c1);
    simpl; subst; try lia; eauto.
Qed.

Definition str_le (s1 s2 : str) : Prop := str_leb s1 s2 = true.

#[export] Instance str_le_dec : RelDecision str_le.
Proof. intros s1 s2. unfold str_le. apply _. Defined.

#[export] Instance str_le_partial : PartialOrder str_le.
Proof.
  split; [split|].
  - intros s. apply str_leb_refl.
  - intros s1 s2 s3. apply str_leb_trans.
  - intros s1 s2. apply str_leb_antisym.
Qed.

#[export] Instance str_le_total : Total str_le.
Proof. intros s1 s2. apply str_leb_total. Qed.

#[export] Instance str_ord : RustOrd str := { ord_le := str_le }.

(** ** Iteration *)

Section bt_iter.
Context {K : Type} `{EqDecision K} `{!Countable K} `{!RustOrd K} {V : Type}.

Definition entry_le (p q : K * V) : Prop := ord_le p.1 q.1.

#[export] Instance entry_le_dec : RelDecision entry_le.
Proof. intros p q. unfold entry_le. apply _. Defined.

#[export] Instance entry_le_total : Total entry_le.
Proof. intros p q. unfold entry_le. apply ord_total. Qed.

#[export] Instance entry_le_trans : Transitive entry_le.
Proof. intros p q r. unfold entry_le. apply transitivity. Qed.

(** [BTreeMap::iter]. *)
Definition bt_iter (m : gmap K V) : list (K * V) := merge_sort entry_le (map_to_list m).

(** [BTreeMap::keys]. *)
Definition bt_keys (m : gmap K V) : list K := (bt_iter m).*1.

Lemma bt_iter_perm m : bt_iter m ≡ₚ map_to_list m.
Proof. apply merge_sort_Permutation. Qed.

Lemma elem_of_bt_iter m k v : (k, v) ∈ bt_iter m <-> m !! k = Some v.
Proof. rewrite bt_iter_perm. apply elem_of_map_to_list. Qed.

Lemma elem_of_bt_keys m k : k ∈ bt_keys m <-> is_Some (m !! k).
Proof.
  unfold bt_keys. rewrite list_elem_of_fmap. split.
  - intros ([k' v] & -> & Hin%elem_of_bt_iter). eauto.
  - intros [v Hv]. exists (k, v). by rewrite elem_of_bt_iter.
Qed.

Lemma NoDup_bt_keys m : NoDup (bt_keys m).
Proof. unfold bt_keys. rewrite bt_iter_perm. apply NoDup_fst_map_to_list. Qed.

Lemma NoDup_bt_iter m : NoDup (bt_iter m).
Proof. eapply NoDup_fmap_1, NoDup_bt_keys. Qed.

Lemma bt_iter_sorted m : StronglySorted entry_le (bt_iter m).
Proof. apply StronglySorted_merge_sort; apply _. Qed.

Lemma bt_iter_length m : length (bt_iter m) = size m.
Proof. by rewrite bt_iter_perm, length_map_to_list. Qed.

Lemma bt_iter_nil m : bt_iter m = [] <-> m = ∅.
Proof.
  split.
  - intros H. apply map_size_empty_inv. by rewrite <- bt_iter_length, H.
  - intros ->. unfold bt_iter. by rewrite map_to_list_empty.
Qed.

(** The first entry that satisfies a test has the smallest key among those that do. *)
Lemma find_bt_iter (p : K * V -> bool) m k v :
  List.find p (bt_iter m) = Some (k, v) ->
  m !! k = Some v /\ p (k, v) = true /\
  forall k' v', m !! k' = Some v' -> p (k', v') = true -> ord_le k k'.
Proof.
  intros Hf. pose proof (List.find_some _ _ Hf) as [Hin Hp].
  split_and!; [apply elem_of_bt_iter, list_elem_of_In, Hin | done |].
  intros k' v' Hm Hp'. apply elem_of_bt_iter in Hm.
  pose proof (bt_iter_sorted m) as Hs. revert Hf Hm Hs. clear Hin Hp.
  induction (bt_iter m) as [|e l IH]; [by inversion 2|]. simpl.
  intros Hf Hin Hs. inversion Hs as [|? ? Hs' Hall]; subst.
  destruct (p e) eqn:Ee.
  - simplify_eq. apply elem_of_cons in Hin as [Heq|Hin]; [by simplify_eq|].
    rewrite Forall_forall in Hall. by apply (Hall _ Hin).
  - apply IH; [done| |done]. apply elem_of_cons in Hin as [Heq|Hin]; [|done]. congruence.
Qed.

Lemma find_bt_iter_none (p : K * V -> bool) m :
  List.find p (bt_iter m) = None <-> forall k v, m !! k = Some v -> p (k, v) = false.
Proof.
  split.
  - intros Hf k v Hm. eapply List.find_none; [done|].
    by apply list_elem_of_In, elem_of_bt_iter.
  - intros Hall. destruct (List.find p (bt_iter m)) as [[k v]|] eqn:E; [|done].
    apply find_bt_iter in E as (Hm & Hp & _). rewrite (Hall _ _ Hm) in Hp. done.
Qed.

(** [Iterator::max_by_key] over the keys of a map: its last entry. *)
Lemma last_bt_iter m k v :
  last (bt_iter m) = Some (k, v) ->
  m !! k = Some v /\ forall k' v', m !! k' = Some v' -> ord_le k' k.
Proof.
  intros Hl. apply last_Some in Hl as [l Hl].
  pose proof (bt_iter_sorted m) as Hs. rewrite Hl in Hs. split.
  - apply elem_of_bt_iter. rewrite Hl. set_solver.
  - intros k' v' Hm. apply elem_of_bt_iter in Hm. rewrite Hl in Hm.
    apply elem_of_app in Hm as [Hm|Hm%list_elem_of_singleton]; [|by simplify_eq].
    apply list_elem_of_split in Hm as (l1 & l2 & ->).
    rewrite <- (assoc_L (++)), <- app_comm_cons in Hs.
    apply StronglySorted_app_1_r in Hs. inversion Hs as [|? ? _ Hall]; subst.
    rewrite Forall_app, Forall_singleton in Hall. apply Hall.
Qed.

Lemma last_bt_iter_none m : last (bt_iter m) = None <-> m = ∅.
Proof. rewrite last_None. apply bt_iter_nil. Qed.

(** A loop over a map whose body changes another map at the entry's key only. *)
Lemma fold_bt_lookup {A} (f : gmap K A -> K * V -> gmap K A) (g : K -> V -> option A -> option A)
    m acc k :
  (forall acc k1 v1 k, f acc (k1, v1) !! k =
     if decide (k = k1) then g k1 v1 (acc !! k) else acc !! k) ->
  fold_left f (bt_iter m) acc !! k =
    match m !! k with Some v => g k v (acc !! k) | None => acc !! k end.
Proof.
  intros Hf.
  assert (forall l acc, NoDup l.*1 ->
    fold_left f l acc !! k = match list_find (fun e => e.1 = k) l with
                             | Some (_, e) => g k e.2 (acc !! k) | None => acc !! k end) as Hl.
  { clear acc. induction l as [|[k1 v1] l IH]; intros acc Hnd; simpl in *; [done|].
    apply NoDup_cons in Hnd as [Hnin Hnd]. rewrite IH by done. rewrite Hf.
    destruct (decide (k1 = k)) as [->|Hne]; simpl.
    - rewrite decide_True by done.
      destruct (list_find _ l) as [[n e]|] eqn:E; simpl; [|done].
      apply list_find_Some in E as (Hin & <- & _). exfalso. apply Hnin.
      apply list_elem_of_fmap_2, (list_elem_of_lookup_2 _ _ _ Hin).
    - rewrite decide_False by done. by destruct (list_find _ l) as [[n e]|]. }
  rewrite Hl by apply NoDup_bt_keys.
  destruct (list_find (fun e => e.1 = k) (bt_iter m)) as [[n [k' v']]|] eqn:E.
  - apply list_find_Some in E as (Hin & Hk & _). simpl in Hk. subst k'.
    apply list_elem_of_lookup_2, elem_of_bt_iter in Hin. by rewrite Hin.
  - apply list_find_None in E. rewrite Forall_forall in E.
    destruct (m !! k) as [v|] eqn:Ek; [|done]. apply elem_of_bt_iter in Ek. by apply E in Ek.
Qed.

(** A loop over a map that builds a map, entry by entry. *)
Lemma fold_bt_insert {A} (h : K -> V -> option A) m k :
  fold_left (fun (acc : gmap K A) e =>
    match h e.1 e.2 with Some x => <[e.1 := x]> acc | None => acc end) (bt_iter m) ∅ !! k =
  m !! k ≫= h k.
Proof.
  rewrite (fold_bt_lookup _ (fun k v o => match h k v with Some x => Some x | None => o end)).
  - destruct (m !! k) as [v|]; simpl; [|done]. by destruct (h k v).
  - intros acc k1 v1 k'. simpl. case_decide as Hk; subst.
    + destruct (h k1 v1); by simplify_map_eq.
    + destruct (h k1 v1); by simplify_map_eq.
Qed.

(** Two loops with the same body on each entry of the map. *)
Lemma fold_bt_ext {S} (f g : S -> K * V -> S) m acc :
  (forall s k v, m !! k = Some v -> f s (k, v) = g s (k, v)) ->
  fold_left f (bt_iter m) acc = fold_left g (bt_iter m) acc.
Proof.
  intros Hfg.
  assert (forall l acc, (forall k v, (k, v) ∈ l -> m !! k = Some v) ->
    fold_left f l acc = fold_left g l acc) as Hl.
  { clear acc. induction l as [|[k v] l IH]; intros acc Hin; simpl; [done|].
    rewrite Hfg by (apply Hin; left). apply IH. intros k' v' Hk. apply Hin. by right. }
  apply Hl. intros k v. apply elem_of_bt_iter.
Qed.
End bt_iter.

#[export] Hint Resolve NoDup_bt_keys NoDup_bt_iter bt_iter_sorted : core.
