(* ===== verification/RustStd.v ===== *)
(** * The parts of Rust's standard library that the components use

    Character classes, [str] methods, integer parsing and printing, and the bounds of the
    machine integers. *)

From S2P Require Import Prelude Ord.

(** ** Machine integers *)

Definition i64_min : Z := -9223372036854775808.
Definition i64_max : Z := 9223372036854775807.
Definition in_i64 (z : Z) : bool := (i64_min <=? z)%Z && (z <=? i64_max)%Z.
Definition in_u64 (z : Z) : bool := (0 <=? z)%Z && (z <=? 18446744073709551615)%Z.
(** Arithmetic on [i32] wraps around in release builds. *)
Definition wrap_i32 (z : Z) : Z := ((z + 2147483648) mod 4294967296 - 2147483648)%Z.

Definition in_u8 (z : Z) : bool := (0 <=? z)%Z && (z <=? 255)%Z.

(** ** Character classes *)

Definition is_ascii_digit (c : char) : bool := (48 <=? c)%N && (c <=? 57)%N.
Definition is_ascii_alphabetic (c : char) : bool :=
  ((65 <=? c)%N && (c <=? 90)%N) || ((97 <=? c)%N && (c <=? 122)%N).
Definition is_ascii_alphanumeric (c : char) : bool := is_ascii_alphabetic c || is_ascii_digit c.

Definition is_ascii (s : str) : bool := forallb (fun c => (c <? 128)%N) s.
Definition ascii_lower (c : char) : char :=
  if (65 <=? c)%N && (c <=? 90)%N then (c + 32)%N else c.

(** [str::to_lowercase] goes by the Unicode table, which for ASCII changes the letters only. *)
Class Lowercase : Type := {
  to_lowercase : str -> str;
  to_lowercase_ascii s : is_ascii s = true -> to_lowercase s = ascii_lower <$> s;
}.

(** Lower case for ASCII only. *)
Definition ascii_lowercase : Lowercase := {|
  to_lowercase s := ascii_lower <$> s;
  to_lowercase_ascii s _ := eq_refl;
|}.

(** [char::is_whitespace]: the Unicode property White_Space. *)
Definition is_whitespace (c : char) : bool :=
  ((9 <=? c)%N && (c <=? 13)%N) || (c =? 32)%N || (c =? 133)%N || (c =? 160)%N ||
  (c =? 5760)%N || ((8192 <=? c)%N && (c <=? 8202)%N) || (c =? 8232)%N || (c =? 8233)%N ||
  (c =? 8239)%N || (c =? 8287)%N || (c =? 12288)%N.

(** ** Text *)

(** [str::split] with a character: one piece more than there are separators. *)
Fixpoint split_on (sep : char) (s : str) : list str :=
  match s with
  | [] => [[]]
  | c :: s =>
      if (c =? sep)%N then [] :: split_on sep s
      else match split_on sep s with
           | [] => [[c]]
           | p :: ps => (c :: p) :: ps
           end
  end.

(** [slice::join] on texts. *)
Fixpoint join (sep : str) (l : list str) : str :=
  match l with
  | [] => []
  | [s] => s
  | s :: l => s ++ sep ++ join sep l
  end.

Fixpoint trim_start_matches (p : char -> bool) (s : str) : str :=
  match s with
  | [] => []
  | c :: s' => if p c then trim_start_matches p s' else s
  end.
Definition trim_end_matches (p : char -> bool) (s : str) : str :=
  reverse (trim_start_matches p (reverse s)).
Definition trim (s : str) : str :=
  trim_end_matches is_whitespace (trim_start_matches is_whitespace s).

Definition trim_start : str -> str := trim_start_matches is_whitespace.
Definition trim_end : str -> str := trim_end_matches is_whitespace.

Fixpoint starts_with (p s : str) : bool :=
  match p, s with
  | [], _ => true
  | c :: p, d :: s => (c =? d)%N && starts_with p s
  | _ :: _, [] => false
  end.

(** [str::contains] with a text. *)
Fixpoint str_contains (p s : str) : bool :=
  starts_with p s || match s with [] => false | _ :: s => str_contains p s end.

(** [str::replace]: the occurrences of a non-empty [p], from left to right.  [fuel] bounds the
    number of characters looked at. *)
Fixpoint replace_fuel (fuel : nat) (p r s : str) : str :=
  match fuel with
  | O => s
  | S fuel =>
      match s with
      | [] => []
      | c :: s' =>
          if starts_with p s then r ++ replace_fuel fuel p r (drop (length p) s)
          else c :: replace_fuel fuel p r s'
      end
  end.
Definition replace (p r s : str) : str := replace_fuel (length s) p r s.

(** [str::trim_start_matches] and [trim_end_matches] with a non-empty text: it is taken off as
    often as it is there. *)
Fixpoint trim_start_text_fuel (fuel : nat) (p s : str) : str :=
  match fuel with
  | O => s
  | S fuel => if starts_with p s then trim_start_text_fuel fuel p (drop (length p) s) else s
  end.
Definition trim_start_text (p s : str) : str := trim_start_text_fuel (length s) p s.
Definition trim_end_text (p s : str) : str := reverse (trim_start_text (reverse p) (reverse s)).

(** ** Byte positions in texts *)

(** The text before and after a number of bytes, if that is between two characters. *)
Fixpoint byte_split (n : N) (s : str) : option (str * str) :=
  if (n =? 0)%N then Some ([], s)
  else match s with
       | [] => None
       | c :: s =>
           if (len_utf8 c <=? n)%N then
             '(a, b) ← byte_split (n - len_utf8 c) s; Some (c :: a, b)
           else None
       end.

(** [str::get(from..to)]. *)
Definition str_get (from to : N) (s : str) : option str :=
  if (to <? from)%N then None
  else '(_, t) ← byte_split from s; '(m, _) ← byte_split (to - from) t; Some m.

(** ** Integers as text *)

Fixpoint parse_digits (acc : Z) (s : str) : option Z :=
  match s with
  | [] => Some acc
  | c :: s =>
      if is_ascii_digit c then parse_digits (acc * 10 + (Z.of_N c - 48))%Z s else None
  end.

(** [from_str] of the integer types: an optional sign, at least one digit, and a value that the
    type holds.  Only the signed types take a minus sign. *)
Definition parse_int (signed : bool) (in_range : Z -> bool) (s : str) : option Z :=
  let '(sign, digits) :=
    match s with
    | c :: s' =>
        if (c =? 43)%N then (1%Z, s')
        else if (c =? 45)%N && signed then ((-1)%Z, s')
        else (1%Z, s)
    | [] => (1%Z, [])
    end in
  match digits with
  | [] => None
  | _ :: _ =>
      v ← parse_digits 0 digits;
      if in_range (sign * v)%Z then Some (sign * v)%Z else None
  end.

Definition parse_i64 : str -> option Z := parse_int true in_i64.
Definition parse_u64 : str -> option Z := parse_int false in_u64.
Definition parse_u8 : str -> option Z := parse_int false in_u8.

Fixpoint digits_fuel (fuel : nat) (n : N) (acc : str) : str :=
  match fuel with
  | O => acc
  | S fuel =>
      let acc := ((n mod 10 + 48)%N :: acc) in
      if (n / 10 =? 0)%N then acc else digits_fuel fuel (n / 10)%N acc
  end.

(** [Display] of an unsigned integer.  A number has no more digits than bits. *)
Definition N_to_str (n : N) : str := digits_fuel (S (N.to_nat (N.log2 n))) n [].
Definition Z_to_str (z : Z) : str :=
  if (z <? 0)%Z then 45%N :: N_to_str (Z.to_N (- z)) else N_to_str (Z.to_N z).

Definition bool_to_str (b : bool) : str := if b then lit "true" else lit "false".

(** ** Facts about them *)

Lemma in_i64_spec z : in_i64 z = true <-> (i64_min <= z <= i64_max)%Z.
Proof. unfold in_i64. rewrite andb_true_iff, !Z.leb_le. lia. Qed.

Lemma split_on_not_nil sep s : split_on sep s <> [].
Proof. destruct s as [|c s]; simpl; [done|]. repeat case_match; done. Qed.

Lemma join_cons sep s l : l <> [] -> join sep (s :: l) = s ++ sep ++ join sep l.
Proof. by destruct l. Qed.

Lemma join_split_on sep s : join [sep] (split_on sep s) = s.
Proof.
  induction s as [|c s IH]; [done|]. simpl.
  destruct (N.eqb_spec c sep) as [->|Hne].
  - rewrite join_cons by apply split_on_not_nil. by rewrite IH.
  - pose proof (split_on_not_nil sep s).
    destruct (split_on sep s) as [|p ps]; [done|]. simpl in *.
    destruct ps; by rewrite <- IH.
Qed.

Lemma split_on_pieces sep s p : p ∈ split_on sep s -> sep ∉ p.
Proof.
  revert p. induction s as [|c s IH]; intros p; simpl.
  - intros ->%list_elem_of_singleton. set_solver.
  - destruct (N.eqb_spec c sep) as [->|Hne].
    + intros [->|Hp]%elem_of_cons; [set_solver|by apply IH].
    + destruct (split_on sep s) as [|q qs] eqn:E.
      * by destruct (split_on_not_nil sep s).
      * intros [->|Hp]%elem_of_cons; [|apply IH; set_solver].
        intros [->|Hin]%elem_of_cons; [done|]. by apply (IH q); [left|].
Qed.

Lemma split_on_no_sep sep s : sep ∉ s -> split_on sep s = [s].
Proof.
  induction s as [|c s IH]; simpl; [done|]. intros Hn.
  rewrite not_elem_of_cons in Hn. destruct Hn as [Hc Hs].
  destruct (N.eqb_spec c sep); [congruence|]. by rewrite IH.
Qed.

Lemma last_split_on sep s1 s2 : sep ∉ s2 -> last (split_on sep (s1 ++ sep :: s2)) = Some s2.
Proof.
  intros Hn. induction s1 as [|c s1 IH]; simpl.
  - rewrite N.eqb_refl, split_on_no_sep by done. done.
  - pose proof (split_on_not_nil sep (s1 ++ sep :: s2)).
    destruct (split_on sep (s1 ++ sep :: s2)) as [|p ps] eqn:E; [done|].
    destruct (N.eqb_spec c sep); [by rewrite last_cons, IH|].
    destruct ps as [|p' ps]; [|exact IH].
    exfalso. pose proof (f_equal (join [sep]) E) as Hj. rewrite join_split_on in Hj.
    apply (split_on_pieces sep (s1 ++ sep :: s2) p); [rewrite E; by left|].
    rewrite <- (Hj : _ = p). set_solver.
Qed.

Lemma byte_split_app a b : byte_split (str_len a) (a ++ b) = Some (a, b).
Proof.
  induction a as [|c a IH]; simpl; [by destruct b|].
  pose proof (len_utf8_pos c). destruct (N.eqb_spec (len_utf8 c + str_len a) 0); [lia|].
  rewrite (proj2 (N.leb_le _ _)) by lia.
  replace (len_utf8 c + str_len a - len_utf8 c)%N with (str_len a) by lia. by rewrite IH.
Qed.

Lemma str_get_app a b c : str_get (str_len a) (str_len a + str_len b) (a ++ b ++ c) = Some b.
Proof.
  unfold str_get. rewrite (proj2 (N.ltb_ge _ _)) by lia. rewrite byte_split_app. simpl.
  replace (str_len a + str_len b - str_len a)%N with (str_len b) by lia.
  by rewrite byte_split_app.
Qed.

Lemma starts_with_app p s : starts_with p (p ++ s) = true.
Proof. induction p as [|c p IH]; simpl; [done|]. by rewrite N.eqb_refl, IH. Qed.

Lemma starts_with_spec p s : starts_with p s = true <-> exists s', s = p ++ s'.
Proof.
  revert s. induction p as [|c p IH]; intros s; simpl; [naive_solver|].
  destruct s as [|d s]; [split; [congruence|intros [? ?]; congruence]|].
  rewrite andb_true_iff, N.eqb_eq, IH. split.
  - intros [-> [s' ->]]. eauto.
  - intros [s' [= -> ->]]. eauto.
Qed.

Lemma parse_digits_app acc s1 s2 :
  parse_digits acc (s1 ++ s2) = (v ← parse_digits acc s1; parse_digits v s2).
Proof.
  revert acc. induction s1 as [|c s1 IH]; intros acc; simpl; [done|].
  case_match; [apply IH|done].
Qed.

Lemma digit_char n : is_ascii_digit (n mod 10 + 48)%N = true.
Proof.
  unfold is_ascii_digit. pose proof (N.mod_lt n 10 ltac:(lia)).
  apply andb_true_iff. split; apply N.leb_le; lia.
Qed.

Lemma log2_div_10 n : (n / 10 <> 0)%N -> (N.log2 (n / 10) < N.log2 n)%N.
Proof.
  intros Hnz. assert (2 * (n / 10) <= n)%N.
  { pose proof (N.div_mod n 10 ltac:(lia)). lia. }
  apply N.lt_le_trans with (N.log2 (2 * (n / 10))); [|by apply N.log2_le_mono].
  rewrite N.log2_double by lia. lia.
Qed.

(** The digits of a number, most significant first, as Horner's rule reads them. *)
Lemma digits_fuel_parse fuel n acc :
  (N.to_nat (N.log2 n) < fuel)%nat ->
  exists ds, digits_fuel fuel n acc = ds ++ acc /\ ds <> [] /\
    parse_digits 0 ds = Some (Z.of_N n) /\ Forall (fun c => is_ascii_digit c = true) ds.
Proof.
  revert n acc. induction fuel as [|fuel IH]; intros n acc Hf; [lia|]. simpl.
  assert (Hdm : (n = 10 * (n / 10) + n mod 10)%N) by (apply N.div_mod; lia).
  assert (Hlt : (n mod 10 < 10)%N) by (apply N.mod_lt; lia).
  destruct (N.eqb_spec (n / 10) 0) as [Hz|Hnz].
  - exists [(n mod 10 + 48)%N]. split_and!; [done|done| |by constructor; [apply digit_char|]].
    simpl. rewrite digit_char. f_equal. lia.
  - destruct (IH (n / 10)%N ((n mod 10 + 48)%N :: acc)) as (ds & Hds & Hne & Hp & Hall).
    { pose proof (log2_div_10 n Hnz). lia. }
    exists (ds ++ [(n mod 10 + 48)%N]). rewrite Hds, <- app_assoc. split_and!.
    + done.
    + by destruct ds.
    + rewrite parse_digits_app, Hp. simpl. rewrite digit_char. f_equal. lia.
    + apply Forall_app. split; [done|]. by constructor; [apply digit_char|].
Qed.

Lemma N_to_str_parse n :
  N_to_str n <> [] /\ parse_digits 0 (N_to_str n) = Some (Z.of_N n) /\
  Forall (fun c => is_ascii_digit c = true) (N_to_str n).
Proof.
  unfold N_to_str.
  destruct (digits_fuel_parse (S (N.to_nat (N.log2 n))) n []) as (ds & -> & ? & ? & ?); [lia|].
  by rewrite app_nil_r.
Qed.

(** Printing an integer and parsing the text gives the integer back. *)
Lemma parse_int_to_str signed in_range z :
  in_range z = true -> signed = true \/ (0 <= z)%Z ->
  parse_int signed in_range (Z_to_str z) = Some z.
Proof.
  intros Hr Hsign. unfold parse_int, Z_to_str.
  destruct (Z.ltb_spec z 0) as [Hneg|Hpos].
  - destruct Hsign as [->|?]; [|lia]. simpl.
    destruct (N_to_str_parse (Z.to_N (- z))) as (Hne & Hp & _).
    destruct (N_to_str (Z.to_N (- z))) as [|c s]; [done|].
    rewrite Hp. cbn [mbind option_bind]. rewrite Z2N.id by lia.
    replace (-1 * - z)%Z with z by lia. by rewrite Hr.
  - destruct (N_to_str_parse (Z.to_N z)) as (Hne & Hp & Hall).
    destruct (N_to_str (Z.to_N z)) as [|c s]; [done|].
    apply Forall_cons in Hall as [Hc _]. unfold is_ascii_digit in Hc. reflect_bools.
    rewrite N.leb_le in *.
    destruct (N.eqb_spec c 43); [lia|]. destruct (N.eqb_spec c 45); [lia|]. cbn [andb].
    rewrite Hp. cbn [mbind option_bind]. rewrite Z2N.id by lia.
    replace (1 * z)%Z with z by lia. by rewrite Hr.
Qed.

Lemma parse_i64_to_str z : in_i64 z = true -> parse_i64 (Z_to_str z) = Some z.
Proof. intros Hz. apply parse_int_to_str; eauto. Qed.

Lemma parse_u64_to_str z : (0 <= z <= i64_max)%Z -> parse_u64 (Z_to_str z) = Some z.
Proof.
  intros Hz. apply parse_int_to_str; [|lia].
  unfold in_u64, i64_max in *. apply andb_true_iff. rewrite !Z.leb_le. lia.
Qed.
