(* ===== verification/F64.v ===== *)
(** * 64-bit floats

    The [f64] of Rust is binary64 of IEEE 754, which [SpecFloat] defines: its operations on
    concrete numbers, conversions from and to integers, and that roundings don't cross the
    integers that a float has exactly. *)

From Stdlib Require Export SpecFloat.
From S2P Require Import Prelude.

#[local] Open Scope Z_scope.

(** ** Operations *)

Abbreviation f64 := spec_float.

Definition f64_add : f64 -> f64 -> f64 := SFadd 53 1024.
Definition f64_mul : f64 -> f64 -> f64 := SFmul 53 1024.
Definition f64_div : f64 -> f64 -> f64 := SFdiv 53 1024.

(** [z as f64] for an integer [z]. *)
Definition f64_of_Z (z : Z) : f64 := binary_normalize 53 1024 z 0 false.

(** [x as u32]: towards zero, within the range; not a number is zero. *)
Definition f64_to_u32 (x : f64) : Z :=
  match x with
  | S754_zero _ | S754_nan => 0
  | S754_infinity s => if s then 0 else 4294967295
  | S754_finite true _ _ => 0
  | S754_finite false m e =>
      Z.min 4294967295 (if 0 <=? e then Z.pos m * 2 ^ e else Z.pos m / 2 ^ (- e))
  end.

Definition f64_one : f64 := S754_finite false 4503599627370496 (-52).

(** ** Bounds

    [m * 2 ^ e <= n], without fractions. *)
Definition le_at (m e n : Z) : Prop := m * 2 ^ Z.max 0 e <= n * 2 ^ Z.max 0 (- e).

(** A float from zero to [n]. *)
Definition f64_le (x : f64) (n : Z) : Prop :=
  match x with
  | S754_zero _ => True
  | S754_finite false m e => le_at (Z.pos m) e n
  | _ => False
  end.

(** One more, for a number that isn't exact. *)
Definition excess (l : location) : Z := match l with loc_Exact => 0 | loc_Inexact _ => 1 end.

Lemma pow2_pos n : 0 <= n -> 0 < 2 ^ n.
Proof. intros. by apply Z.pow_pos_nonneg. Qed.

Lemma le_at_neg m e n : e <= 0 -> le_at m e n <-> m <= n * 2 ^ (- e).
Proof.
  intros He. unfold le_at. rewrite (Z.max_l 0 e), (Z.max_r 0 (- e)) by lia.
  rewrite Z.pow_0_r. lia.
Qed.

Lemma le_at_pos m e n : 0 <= e -> le_at m e n <-> m * 2 ^ e <= n.
Proof.
  intros He. unfold le_at. rewrite (Z.max_r 0 e), (Z.max_l 0 (- e)) by lia.
  rewrite Z.pow_0_r. lia.
Qed.

Lemma digits2_log2 p : Z.pos (digits2_pos p) = Z.log2 (Z.pos p) + 1.
Proof.
  induction p as [p IH|p IH|]; [| |done]; cbn [digits2_pos]; rewrite Pos2Z.inj_succ, IH.
  - change (Z.pos p~1) with (2 * Z.pos p + 1). rewrite Z.log2_succ_double by lia. lia.
  - change (Z.pos p~0) with (2 * Z.pos p). rewrite Z.log2_double by lia. lia.
Qed.

Lemma Zdigits2_log2 m : 0 < m -> Zdigits2 m = Z.log2 m + 1.
Proof. destruct m as [|p|p]; try lia. intros _. apply digits2_log2. Qed.

(** A number below [2 ^ 53] has its leading digit there. *)
Lemma digits_small m e n :
  0 <= m -> le_at m e n -> 0 < n < 2 ^ 53 -> e <= 53 -> Zdigits2 m + e <= 53.
Proof.
  intros Hm Hle Hn He. destruct (decide (m = 0)) as [->|Hz]; [simpl; lia|].
  rewrite Zdigits2_log2 by lia. pose proof (Z.log2_spec m ltac:(lia)) as [Hlo _].
  cut (Z.log2 m < 53 - e); [lia|]. apply Z.log2_lt_pow2; [lia|].
  destruct (Z.le_ge_cases e 0) as [H0|H0].
  - rewrite le_at_neg in Hle by lia. replace (53 - e) with (53 + - e) by lia.
    rewrite Z.pow_add_r by lia. pose proof (pow2_pos (- e) ltac:(lia)). nia.
  - rewrite le_at_pos in Hle by lia. assert (Hp : 2 ^ 53 = 2 ^ (53 - e) * 2 ^ e).
    { rewrite <- Z.pow_add_r by lia. f_equal. lia. }
    apply (Z.mul_lt_mono_pos_r (2 ^ e)); [by apply pow2_pos; lia|]. rewrite <- Hp. lia.
Qed.

(** ** Shifting to the right *)

Definition shr_exact (r : shr_record) : bool := negb (shr_r r || shr_s r).

Lemma shr_1_spec r :
  0 <= shr_m r ->
  shr_m (shr_1 r) = shr_m r / 2 /\
  shr_exact (shr_1 r) = shr_exact r && (shr_m r mod 2 =? 0).
Proof.
  destruct r as [[|[p|p|]|p] br bs]; intros Hm; cbn [shr_m] in Hm; try lia;
    cbv [shr_exact shr_1]; cbn [shr_m shr_r shr_s].
  - by rewrite andb_true_r.
  - change (Z.pos p~1) with (2 * Z.pos p + 1).
    rewrite (proj2 (Z.eqb_neq _ _)) by lia. rewrite andb_false_r. split; [lia|done].
  - change (Z.pos p~0) with (2 * Z.pos p).
    rewrite (proj2 (Z.eqb_eq _ _)) by lia. rewrite andb_true_r. split; [lia|done].
  - by rewrite andb_false_r.
Qed.

Lemma div_mod_pow2_add m a b :
  0 <= a -> 0 <= b ->
  m / 2 ^ (a + b) = m / 2 ^ a / 2 ^ b /\
  (m mod 2 ^ (a + b) =? 0) = (m mod 2 ^ a =? 0) && (m / 2 ^ a mod 2 ^ b =? 0).
Proof.
  intros Ha Hb. pose proof (pow2_pos a Ha). pose proof (pow2_pos b Hb).
  rewrite Z.pow_add_r by lia. split; [by rewrite Z.div_div by lia|].
  rewrite Z.rem_mul_r by lia.
  pose proof (Z.mod_pos_bound m (2 ^ a) ltac:(lia)).
  pose proof (Z.mod_pos_bound (m / 2 ^ a) (2 ^ b) ltac:(lia)).
  apply eq_true_iff_eq. rewrite andb_true_iff, !Z.eqb_eq. nia.
Qed.

Lemma shr_pos_spec p r :
  0 <= shr_m r ->
  shr_m (SpecFloat.iter_pos shr_1 p r) = shr_m r / 2 ^ Z.pos p /\
  shr_exact (SpecFloat.iter_pos shr_1 p r) = shr_exact r && (shr_m r mod 2 ^ Z.pos p =? 0).
Proof.
  revert r. induction p as [p IH|p IH|]; intros r Hr; cbn [SpecFloat.iter_pos];
    [| |by apply shr_1_spec].
  - destruct (shr_1_spec r Hr) as [H1 H2].
    destruct (IH (shr_1 r)) as [H3 H4]; [rewrite H1; lia|].
    pose proof (pow2_pos (Z.pos p) ltac:(lia)).
    destruct (IH (SpecFloat.iter_pos shr_1 p (shr_1 r))) as [-> ->]; [rewrite H3, H1; apply Z.div_pos; lia|].
    rewrite H3, H4, H1, H2.
    replace (Z.pos p~1) with (1 + (Z.pos p + Z.pos p)) by lia.
    destruct (div_mod_pow2_add (shr_m r) 1 (Z.pos p + Z.pos p)) as [-> ->]; [lia..|].
    destruct (div_mod_pow2_add (shr_m r / 2 ^ 1) (Z.pos p) (Z.pos p)) as [-> ->]; [lia..|].
    rewrite !Z.pow_1_r. by rewrite <- !andb_assoc.
  - destruct (IH r Hr) as [H3 H4]. pose proof (pow2_pos (Z.pos p) ltac:(lia)).
    destruct (IH (SpecFloat.iter_pos shr_1 p r)) as [-> ->]; [rewrite H3; apply Z.div_pos; lia|].
    rewrite H3, H4. replace (Z.pos p~0) with (Z.pos p + Z.pos p) by lia.
    destruct (div_mod_pow2_add (shr_m r) (Z.pos p) (Z.pos p)) as [-> ->]; [lia..|].
    by rewrite <- andb_assoc.
Qed.

Lemma shr_fexp_spec m e l :
  0 <= m ->
  let n := Z.max 0 (fexp 53 1024 (Zdigits2 m + e) - e) in
  let '(r, e') := shr_fexp 53 1024 m e l in
  e' = e + n /\ shr_m r = m / 2 ^ n /\
  (excess (loc_of_shr_record r) = 0 <-> excess l = 0 /\ m mod 2 ^ n = 0).
Proof.
  intros Hm. unfold shr_fexp. set (d := fexp 53 1024 (Zdigits2 m + e) - e). cbv zeta.
  assert (Hl : shr_m (shr_record_of_loc m l) = m /\
    (shr_exact (shr_record_of_loc m l) = true <-> excess l = 0)) by (by destruct l as [|[]]).
  assert (Hloc : forall r, excess (loc_of_shr_record r) = 0 <-> shr_exact r = true)
    by (by intros [? [] []]).
  destruct Hl as [Hl1 Hl2]. unfold shr. destruct d as [|p|p] eqn:Ed; cbv [Z.max Z.compare].
  - rewrite Hl1, Z.pow_0_r, Z.div_1_r, Z.mod_1_r, Hloc, Hl2. split_and!; [lia|done|]. naive_solver.
  - destruct (shr_pos_spec p (shr_record_of_loc m l)) as [H1 H2]; [by rewrite Hl1|].
    rewrite H1, Hl1, Hloc, H2, andb_true_iff, Hl2, Hl1, Z.eqb_eq. done.
  - rewrite Hl1, Z.pow_0_r, Z.div_1_r, Z.mod_1_r, Hloc, Hl2. split_and!; [lia|done|]. naive_solver.
Qed.

(** ** Rounding *)

(** A shift keeps a number below [n], if [n] is an integer and the number isn't large. *)
Lemma shr_fexp_le m e l n :
  0 <= m -> 0 < n < 2 ^ 53 -> le_at (m + excess l) e n ->
  let '(r, e') := shr_fexp 53 1024 m e l in
  0 <= shr_m r /\ le_at (shr_m r + excess (loc_of_shr_record r)) e' n.
Proof.
  intros Hm Hn Hle. pose proof (shr_fexp_spec m e l Hm) as Hspec. cbv zeta in Hspec.
  destruct (shr_fexp 53 1024 m e l) as [r e']. destruct Hspec as (-> & Hr & Hx).
  set (k := Z.max 0 (fexp 53 1024 (Zdigits2 m + e) - e)) in *.
  assert (Hl : 0 <= excess l <= 1) by (by destruct l).
  assert (Hr1 : 0 <= excess (loc_of_shr_record r) <= 1) by (by destruct (loc_of_shr_record r)).
  assert (Hm' : le_at m e n).
  { unfold le_at in *. pose proof (pow2_pos (Z.max 0 e) ltac:(lia)). nia. }
  destruct (decide (k = 0)) as [Hk|Hk].
  { rewrite Hk, Z.pow_0_r, Z.div_1_r, Z.mod_1_r in *. rewrite Hr, Z.add_0_r. split; [done|].
    assert (excess (loc_of_shr_record r) = excess l) as ->; [lia|done]. }
  assert (He : e <= 0).
  { destruct (Z.le_gt_cases e 0) as [?|Hpos]; [done|]. exfalso.
    destruct (Z.le_gt_cases e 53) as [He|He].
    - pose proof (digits_small m e n Hm Hm' Hn He). subst k. unfold fexp, emin in Hk. lia.
    - rewrite le_at_pos in Hm' by lia. destruct (decide (m = 0)) as [->|Hz].
      + subst k. unfold fexp, emin in Hk. simpl in Hk. lia.
      + assert (2 ^ 53 <= 2 ^ e) by (apply Z.pow_le_mono_r; lia). nia. }
  pose proof (digits_small m e n Hm Hm' Hn ltac:(lia)) as Hd.
  assert (Hek : e + k <= 0) by (subst k; unfold fexp, emin in *; lia).
  rewrite le_at_neg in * by lia.
  assert (Hp : 2 ^ (- e) = 2 ^ (- (e + k)) * 2 ^ k) by (rewrite <- Z.pow_add_r by lia; f_equal; lia).
  rewrite Hp, Z.mul_assoc in Hle. set (b := n * 2 ^ (- (e + k))) in *.
  pose proof (pow2_pos k ltac:(lia)) as Hk2. rewrite Hr. split; [apply Z.div_pos; lia|].
  pose proof (Z.mod_pos_bound m (2 ^ k) ltac:(lia)). pose proof (Z.div_mod m (2 ^ k) ltac:(lia)).
  destruct (decide (excess l = 0 /\ m mod 2 ^ k = 0)) as [Hex|Hex].
  - rewrite (proj2 Hx Hex). nia.
  - assert (m / 2 ^ k < b); [|lia]. apply Z.div_lt_upper_bound; [lia|].
    assert (m < b * 2 ^ k \/ m = b * 2 ^ k) as [?|Heq] by lia; [lia|]. exfalso. apply Hex.
    split; [lia|]. rewrite Heq. apply Z.mod_mul. lia.
Qed.

Lemma round_nearest_le m l : 0 <= m -> m <= round_nearest_even m l <= m + excess l.
Proof. intros Hm. destruct l as [|[]]; simpl; try destruct (Z.even m); lia. Qed.

Lemma le_at_mono m m' e n : m <= m' -> le_at m' e n -> le_at m e n.
Proof.
  unfold le_at. intros Hm Hle. pose proof (pow2_pos (Z.max 0 e) ltac:(lia)). nia.
Qed.

Lemma round_aux_le m e l n :
  0 <= m -> 0 < n < 2 ^ 53 -> le_at (m + excess l) e n ->
  f64_le (binary_round_aux 53 1024 false m e l) n.
Proof.
  intros Hm Hn Hle. unfold binary_round_aux. pose proof (shr_fexp_le m e l n Hm Hn Hle) as H1.
  destruct (shr_fexp 53 1024 m e l) as [r1 e1]. destruct H1 as [Hr1 Hle1].
  pose proof (round_nearest_le (shr_m r1) (loc_of_shr_record r1) Hr1) as Hround.
  set (m1 := round_nearest_even (shr_m r1) (loc_of_shr_record r1)) in *.
  pose proof (shr_fexp_le m1 e1 loc_Exact n ltac:(lia) Hn) as H2.
  destruct (shr_fexp 53 1024 m1 e1 loc_Exact) as [r2 e2]. destruct H2 as [Hr2 Hle2].
  { eapply le_at_mono; [|exact Hle1]. simpl. lia. }
  assert (Hr : le_at (shr_m r2) e2 n).
  { eapply le_at_mono; [|exact Hle2]. destruct (loc_of_shr_record r2); simpl; lia. }
  destruct (shr_m r2) as [|p|p]; [done| |lia].
  destruct (Z.leb_spec e2 (1024 - 53)) as [He|He]; [exact Hr|]. exfalso.
  rewrite le_at_pos in Hr by lia.
  assert (2 ^ 53 <= 2 ^ e2) by (apply Z.pow_le_mono_r; lia). nia.
Qed.

(** ** Conversions *)

(** An integer that a float has exactly. *)
Definition f64_is (x : f64) (z : Z) : Prop :=
  (z = 0 /\ x = S754_zero false) \/
  exists k p, 0 <= k <= 53 /\ Z.pos p = z * 2 ^ k /\ Zdigits2 (Z.pos p) = 53 /\
    x = S754_finite false p (- k).

Lemma round_exact m e :
  fexp 53 1024 (Zdigits2 (Z.pos m) + e) <= e -> e <= 971 ->
  binary_round_aux 53 1024 false (Z.pos m) e loc_Exact = S754_finite false m e.
Proof.
  intros He Hmax.
  assert (Hs : shr_fexp 53 1024 (Z.pos m) e loc_Exact = (Build_shr_record (Z.pos m) false false, e)).
  { unfold shr_fexp, shr. destruct (fexp _ _ _ - e) eqn:Ed; [done|lia|done]. }
  unfold binary_round_aux. rewrite Hs. cbn [shr_m loc_of_shr_record round_nearest_even].
  rewrite Hs. cbn [shr_m]. by rewrite (proj2 (Z.leb_le _ _)) by lia.
Qed.

Lemma iter_xO p k : Z.pos (Pos.iter xO p k) = Z.pos p * 2 ^ Z.pos k.
Proof.
  revert p. induction k as [|k IH] using Pos.peano_ind; intros p; [simpl; lia|].
  rewrite Pos.iter_succ, Pos2Z.inj_xO, IH, Pos2Z.inj_succ, Z.pow_succ_r by lia. lia.
Qed.

Lemma f64_of_Z_is z : 0 <= z < 2 ^ 53 -> f64_is (f64_of_Z z) z.
Proof.
  intros Hz. destruct z as [|p|p]; [by left| |lia]. right. unfold f64_of_Z, binary_normalize, binary_round.
  assert (Hd : 1 <= Z.pos (digits2_pos p) <= 53).
  { rewrite digits2_log2. pose proof (Z.log2_nonneg (Z.pos p)).
    assert (Z.log2 (Z.pos p) < 53) by (apply Z.log2_lt_pow2; lia). lia. }
  unfold shl_align. set (d := Z.pos (digits2_pos p)) in *.
  assert (fexp 53 1024 (d + 0) = d - 53) as -> by (unfold fexp, emin; lia).
  destruct (d - 53 - 0) as [|k|k] eqn:Ek; [|lia|].
  - exists 0, p. split_and!; [lia|lia|lia|change (d = 53); lia|]. apply round_exact; [|lia].
    change (Zdigits2 (Z.pos p)) with d. unfold fexp, emin. lia.
  - assert (Hlog : Zdigits2 (Z.pos (Pos.iter xO p k)) = 53).
    { rewrite Zdigits2_log2, iter_xO, Z.log2_mul_pow2 by lia. subst d. rewrite digits2_log2 in *. lia. }
    exists (Z.pos k), (Pos.iter xO p k). split_and!; [lia|lia|apply iter_xO|done|].
    replace (d - 53) with (- Z.pos k) by lia. apply round_exact; [|lia].
    rewrite Hlog. unfold fexp, emin. lia.
Qed.

Lemma f64_is_le x z n : f64_is x z -> 0 <= z <= n -> f64_le x n.
Proof.
  intros [[-> ->]|(k & p & Hk & Hp & _ & ->)] Hn; [done|]. simpl. rewrite le_at_neg by lia.
  rewrite Hp. replace (- - k) with k by lia. pose proof (pow2_pos k ltac:(lia)). nia.
Qed.

Lemma f64_to_u32_le x n : 0 <= n -> f64_le x n -> 0 <= f64_to_u32 x <= n.
Proof.
  intros Hn. destruct x as [| | |[] p e]; simpl; try done; intros Hle.
  destruct (Z.leb_spec 0 e) as [He|He].
  - rewrite le_at_pos in Hle by lia. pose proof (pow2_pos e He). nia.
  - rewrite le_at_neg in Hle by lia. pose proof (pow2_pos (- e) ltac:(lia)).
    assert (0 <= Z.pos p / 2 ^ (- e) <= n); [|lia].
    split; [apply Z.div_pos; lia|]. apply Z.div_le_upper_bound; lia.
Qed.

(** ** Arithmetic *)

Lemma le_at_mul m1 e1 a m2 e2 b :
  0 <= m1 -> 0 <= m2 -> le_at m1 e1 a -> le_at m2 e2 b -> le_at (m1 * m2) (e1 + e2) (a * b).
Proof.
  unfold le_at. intros H1 H2 Ha Hb.
  set (c := Z.max 0 e1 + Z.max 0 e2 - Z.max 0 (e1 + e2)).
  assert (Hc : 0 <= c) by lia.
  assert (Hp : 2 ^ Z.max 0 e1 * 2 ^ Z.max 0 e2 = 2 ^ Z.max 0 (e1 + e2) * 2 ^ c)
    by (rewrite <- !Z.pow_add_r by lia; f_equal; lia).
  assert (Hq : 2 ^ Z.max 0 (- e1) * 2 ^ Z.max 0 (- e2) = 2 ^ Z.max 0 (- (e1 + e2)) * 2 ^ c)
    by (rewrite <- !Z.pow_add_r by lia; f_equal; lia).
  apply (Z.mul_le_mono_pos_r _ _ (2 ^ c)); [by apply pow2_pos|].
  rewrite <- !Z.mul_assoc, <- Hp, <- Hq.
  pose proof (pow2_pos (Z.max 0 e1) ltac:(lia)) as Hp1.
  pose proof (pow2_pos (Z.max 0 e2) ltac:(lia)) as Hp2.
  pose proof (Z.mul_le_mono_nonneg _ _ _ _ (Z.mul_nonneg_nonneg _ _ H1 (Z.lt_le_incl _ _ Hp1)) Ha
    (Z.mul_nonneg_nonneg _ _ H2 (Z.lt_le_incl _ _ Hp2)) Hb) as Hm.
  etrans; [|etrans; [exact Hm|]]; lia.
Qed.

(** A product of numbers up to [a] and [b] is at most [a * b]. *)
Lemma f64_mul_le x y a b :
  0 < a * b < 2 ^ 53 -> f64_le x a -> f64_le y b -> f64_le (f64_mul x y) (a * b).
Proof.
  intros Hab. destruct x as [| | |[] m1 e1], y as [| | |[] m2 e2]; simpl; try done.
  intros Ha Hb. apply (round_aux_le (Z.pos (m1 * m2))); [lia|done|]. simpl.
  rewrite Z.add_0_r, Pos2Z.inj_mul. apply le_at_mul; [lia|lia|done|done].
Qed.

Lemma excess_new_location n r : 0 <= r < n -> excess (new_location n r) = if r =? 0 then 0 else 1.
Proof.
  intros Hr. unfold new_location, new_location_even, new_location_odd.
  destruct (Z.even n); by destruct (r =? 0).
Qed.

(** A quotient of integers is at most [n] if the exact one is. *)
Lemma f64_div_le x y a b n :
  f64_is x a -> f64_is y b -> 0 < n < 2 ^ 53 -> 0 <= a -> 0 < b -> a <= n * b ->
  f64_le (f64_div x y) n.
Proof.
  intros Hx [[-> _]|(k2 & p2 & Hk2 & Hp2 & _ & ->)] Hn Ha Hb Hab; [lia|].
  destruct Hx as [[-> ->]|(k1 & p1 & Hk1 & Hp1 & _ & ->)]; [done|].
  unfold f64_div, SFdiv, SFdiv_core_binary. cbn [xorb].
  set (e' := Z.min _ _). set (s := - k1 - - k2 - e').
  pose proof (pow2_pos k1 ltac:(lia)). pose proof (pow2_pos k2 ltac:(lia)).
  assert (Ha' : 0 < a) by nia.
  assert (Hs : 0 <= s) by lia.
  assert (He : e' <= 0).
  { subst e'. rewrite !Zdigits2_log2, Hp1, Hp2, !Z.log2_mul_pow2 by lia.
    pose proof (Z.log2_le_mono a (n * b) Hab). pose proof (Z.log2_mul_above n b ltac:(lia) ltac:(lia)).
    assert (Z.log2 n < 53) by (apply Z.log2_lt_pow2; lia). unfold fexp, emin. lia. }
  assert (Hm' : match s with Z.pos _ => Z.shiftl (Z.pos p1) s | 0 => Z.pos p1 | Z.neg _ => 0 end =
    Z.pos p1 * 2 ^ s).
  { destruct s; [simpl; lia|by rewrite Z.shiftl_mul_pow2 by lia|lia]. }
  rewrite Hm'. pose proof (Z_div_mod (Z.pos p1 * 2 ^ s) (Z.pos p2) ltac:(lia)) as Hdiv.
  destruct (Z.div_eucl (Z.pos p1 * 2 ^ s) (Z.pos p2)) as [q r]. destruct Hdiv as [Hq Hr].
  pose proof (pow2_pos s Hs).
  assert (Hpow : 2 ^ k1 * 2 ^ s = 2 ^ k2 * 2 ^ (- e')) by (rewrite <- !Z.pow_add_r by lia; f_equal; lia).
  assert (Hbound : Z.pos p1 * 2 ^ s <= Z.pos p2 * (n * 2 ^ (- e'))).
  { rewrite Hp1, Hp2, <- Z.mul_assoc, Hpow. pose proof (pow2_pos (- e') ltac:(lia)). nia. }
  apply round_aux_le; [nia|done|]. rewrite excess_new_location, le_at_neg by lia.
  set (c := n * 2 ^ (- e')) in *. destruct (Z.eqb_spec r 0); nia.
Qed.

Lemma f64_to_u32_is x z : f64_is x z -> 0 <= z < 4294967296 -> f64_to_u32 x = z.
Proof.
  intros [[-> ->]|(k & p & Hk & Hp & _ & ->)] Hz; [done|]. unfold f64_to_u32.
  pose proof (pow2_pos k ltac:(lia)). replace (- - k) with k by lia. destruct (Z.leb_spec 0 (- k)).
  - assert (k = 0) as -> by lia. rewrite Z.pow_0_r in *. simpl. lia.
  - rewrite Hp, Z.div_mul by lia. lia.
Qed.

(** Multiplying by one is exact. *)
Lemma f64_mul_one x z : f64_is x z -> f64_mul x f64_one = x.
Proof.
  intros [[_ ->]|(k & p & Hk & _ & Hd & ->)]; [done|].
  unfold f64_mul, f64_one, SFmul, binary_round_aux.
  assert (H1 : shr_fexp 53 1024 (Z.pos (p * 4503599627370496)) (- k + -52) loc_Exact =
    (Build_shr_record (Z.pos p) false false, - k)).
  { pose proof (shr_fexp_spec (Z.pos (p * 4503599627370496)) (- k + -52) loc_Exact ltac:(lia)) as Hs.
    cbv zeta in Hs. destruct (shr_fexp _ _ _ _ _) as [r e'].
    rewrite Pos2Z.inj_mul in Hs. change (Z.pos 4503599627370496) with (2 ^ 52) in Hs.
    assert (Hd' : Zdigits2 (Z.pos p * 2 ^ 52) = 105).
    { rewrite Zdigits2_log2 in * by lia. rewrite Z.log2_mul_pow2 by lia. lia. }
    rewrite Hd' in Hs.
    assert (Z.max 0 (fexp 53 1024 (105 + (- k + -52)) - (- k + -52)) = 52) as Hn
      by (unfold fexp, emin; lia).
    rewrite Hn, Z.div_mul, Z.mod_mul in Hs by lia. destruct Hs as (-> & Hr & Hx).
    f_equal; [|lia]. destruct r as [rm rr rs]. simpl in *. subst rm.
    destruct rr, rs; simpl in Hx; try (exfalso; lia). done. }
  rewrite H1. cbn [shr_m loc_of_shr_record round_nearest_even].
  assert (H2 : shr_fexp 53 1024 (Z.pos p) (- k) loc_Exact =
    (Build_shr_record (Z.pos p) false false, - k)).
  { unfold shr_fexp, shr. rewrite Hd.
    assert (fexp 53 1024 (53 + - k) - - k = 0) as -> by (unfold fexp, emin; lia). done. }
  rewrite H2. cbn [shr_m]. rewrite (proj2 (Z.leb_le _ _)) by lia. done.
Qed.
