(* ===== verification/Redis.v ===== *)
(** * The key-value server as the work queue relies on it

    The server (Valkey, spoken to with the [redis] crate) is not part of the repository.  This
    file names the commands the queue sends ([rcmd], one constructor per command with the type
    of its reply), the documented effect of each of them on a keyspace ([redis_doc]), and the
    interface [RedisServer]: a server is any state type with an [exec] function and a view of
    its keyspace on which [exec] acts as documented.  The queue's theorems are proved against
    the interface; [documented_server] shows that it has an instance. *)

From S2P Require Import Prelude Ord RustStd.

(** ** Data *)

(** A value of the keyspace.  A text may have a time to live, in seconds. *)
Inductive rvalue :=
| RString (s : str) (ttl : option N)
| RHash (h : gmap str str)
| RZset (z : gmap str Z)
| RSet (s : gset str).

Inductive rerror :=
| WrongType          (* the key holds another type *)
| NotAnInteger       (* INCR on a text that is no number *)
| Conversion         (* the reply doesn't have the type the caller asked for *)
| Transport.         (* the connection failed *)

Record rstate := RState {
  data : gmap str rvalue;
  published : list (str * str);   (* every message published so far, with its channel *)
}.

(** ** Commands *)

Inductive rcmd : Type -> Type :=
| GET (k : str) : rcmd (option str)
| SET (k v : str) : rcmd unit
| SETEX (k v : str) (ttl : N) : rcmd unit
| DEL (k : str) : rcmd unit
| EXISTS (k : str) : rcmd bool
| INCR (k : str) (n : Z) : rcmd unit
| KEYS_STAR (prefix : str) : rcmd (list str)   (* KEYS with the pattern [prefix*] *)
| HGET (k f : str) : rcmd (option str)
| HSET (k f v : str) : rcmd unit
| HDEL (k f : str) : rcmd unit
| HEXISTS (k f : str) : rcmd bool
| HGETALL (k : str) : rcmd (list (str * str))
| HLEN (k : str) : rcmd N
| ZADD (k m : str) (score : Z) : rcmd unit
| ZREM (k m : str) : rcmd unit
| ZPOPMIN (k : str) : rcmd (option (str * Z))
| ZCOUNT (k : str) (lo hi : Z) : rcmd N
| SADD (k m : str) : rcmd unit
| SMEMBERS (k : str) : rcmd (list str)
| PUBLISH (ch msg : str) : rcmd unit.

(** ** Documented behaviour *)

Section documented.
Implicit Types (d : gmap str rvalue) (k : str).

(** What a command sees at a key: nothing counts as an empty aggregate, and another type is an
    error. *)
Definition read_string d k : result rerror (option str) :=
  match d !! k with
  | None => Ok None
  | Some (RString s _) => Ok (Some s)
  | Some _ => Err WrongType
  end.
Definition read_hash d k : result rerror (gmap str str) :=
  match d !! k with None => Ok ∅ | Some (RHash h) => Ok h | Some _ => Err WrongType end.
Definition read_zset d k : result rerror (gmap str Z) :=
  match d !! k with None => Ok ∅ | Some (RZset z) => Ok z | Some _ => Err WrongType end.
Definition read_set d k : result rerror (gset str) :=
  match d !! k with None => Ok ∅ | Some (RSet s) => Ok s | Some _ => Err WrongType end.

(** An aggregate that gets empty is removed from the keyspace. *)
Definition write_hash d k (h : gmap str str) :=
  if decide (h = ∅) then delete k d else <[k := RHash h]> d.
Definition write_zset d k (z : gmap str Z) :=
  if decide (z = ∅) then delete k d else <[k := RZset z]> d.

(** A sorted set is ordered by score, and by member among equal scores. *)
Definition zset_le (p q : str * Z) : bool :=
  (p.2 <? q.2)%Z || ((p.2 =? q.2)%Z && str_leb p.1 q.1).

Fixpoint zset_min (l : list (str * Z)) : option (str * Z) :=
  match l with
  | [] => None
  | p :: l =>
      match zset_min l with
      | None => Some p
      | Some q => Some (if zset_le p q then p else q)
      end
  end.

Definition zset_count (z : gmap str Z) (lo hi : Z) : N :=
  N.of_nat (length (List.filter (fun p => (lo <=? p.2)%Z && (p.2 <=? hi)%Z) (map_to_list z))).

(** A command on one aggregate: read, compute a reply and a new value, write back. *)
Definition reading {B A} (r : result rerror B) (s : rstate) (f : B -> A * gmap str rvalue) :
    result rerror A * rstate :=
  match r with
  | Err e => (Err e, s)
  | Ok b => let '(a, d) := f b in (Ok a, RState d (published s))
  end.

Definition redis_doc {A} (c : rcmd A) (s : rstate) : result rerror A * rstate :=
  let d := data s in
  match c in rcmd A return result rerror A * rstate with
  | GET k => reading (read_string d k) s (fun o => (o, d))
  | SET k v => (Ok tt, RState (<[k := RString v None]> d) (published s))
  | SETEX k v ttl => (Ok tt, RState (<[k := RString v (Some ttl)]> d) (published s))
  | DEL k => (Ok tt, RState (delete k d) (published s))
  | EXISTS k => (Ok (bool_decide (is_Some (d !! k))), s)
  | INCR k n =>
      match read_string d k with
      | Err e => (Err e, s)
      | Ok o =>
          match parse_i64 (default (lit "0") o) with
          | None => (Err NotAnInteger, s)
          | Some z =>
              if in_i64 (z + n) then
                (Ok tt, RState (<[k := RString (Z_to_str (z + n)) None]> d) (published s))
              else (Err NotAnInteger, s)
          end
      end
  | KEYS_STAR p => (Ok (List.filter (starts_with p) (map_to_list d).*1), s)
  | HGET k f => reading (read_hash d k) s (fun h => (h !! f, d))
  | HSET k f v => reading (read_hash d k) s (fun h => (tt, write_hash d k (<[f := v]> h)))
  | HDEL k f => reading (read_hash d k) s (fun h => (tt, write_hash d k (delete f h)))
  | HEXISTS k f => reading (read_hash d k) s (fun h => (bool_decide (is_Some (h !! f)), d))
  | HGETALL k => reading (read_hash d k) s (fun h => (map_to_list h, d))
  | HLEN k => reading (read_hash d k) s (fun h => (N.of_nat (size h), d))
  | ZADD k m sc => reading (read_zset d k) s (fun z => (tt, write_zset d k (<[m := sc]> z)))
  | ZREM k m => reading (read_zset d k) s (fun z => (tt, write_zset d k (delete m z)))
  | ZPOPMIN k =>
      reading (read_zset d k) s (fun z =>
        match zset_min (map_to_list z) with
        | None => (None, d)
        | Some (m, sc) => (Some (m, sc), write_zset d k (delete m z))
        end)
  | ZCOUNT k lo hi => reading (read_zset d k) s (fun z => (zset_count z lo hi, d))
  | SADD k m => reading (read_set d k) s (fun z => (tt, <[k := RSet ({[m]} ∪ z)]> d))
  | SMEMBERS k => reading (read_set d k) s (fun z => (elements z, d))
  | PUBLISH ch msg => (Ok tt, RState d (published s ++ [(ch, msg)]))
  end.
End documented.

(** ** The interface *)

Class RedisServer (St : Type) := {
  view : St -> rstate;
  exec : forall {A}, rcmd A -> St -> result rerror A * St;
  exec_documented : forall A (c : rcmd A) s,
    ((exec c s).1, view (exec c s).2) = redis_doc c (view s);
}.

#[export] Program Instance documented_server : RedisServer rstate := {
  view := fun s => s;
  exec := fun A c s => redis_doc c s;
}.
Next Obligation. intros A c s. simpl. by destruct (redis_doc c s). Qed.

(** ** Reading the keyspace *)

Definition string_at (s : rstate) (k : str) : option str :=
  match data s !! k with Some (RString v _) => Some v | _ => None end.
Definition hash_at (s : rstate) (k : str) : gmap str str :=
  match data s !! k with Some (RHash h) => h | _ => ∅ end.
Definition zset_at (s : rstate) (k : str) : gmap str Z :=
  match data s !! k with Some (RZset z) => z | _ => ∅ end.
Definition set_at (s : rstate) (k : str) : gset str :=
  match data s !! k with Some (RSet z) => z | _ => ∅ end.

Definition is_string_key (s : rstate) (k : str) : Prop :=
  match data s !! k with None | Some (RString _ _) => True | _ => False end.
Definition is_hash_key (s : rstate) (k : str) : Prop :=
  match data s !! k with None | Some (RHash _) => True | _ => False end.
Definition is_zset_key (s : rstate) (k : str) : Prop :=
  match data s !! k with None | Some (RZset _) => True | _ => False end.
Definition is_set_key (s : rstate) (k : str) : Prop :=
  match data s !! k with None | Some (RSet _) => True | _ => False end.

Lemma zset_le_refl p : zset_le p p = true.
Proof. unfold zset_le. rewrite Z.eqb_refl, str_leb_refl. by rewrite orb_true_r. Qed.

Lemma zset_le_total p q : zset_le p q = true \/ zset_le q p = true.
Proof.
  unfold zset_le. destruct (str_leb_total p.1 q.1) as [-> | ->];
    destruct (Z.ltb_spec p.2 q.2), (Z.ltb_spec q.2 p.2), (Z.eqb_spec p.2 q.2),
      (Z.eqb_spec q.2 p.2); simpl; try lia; eauto.
Qed.

Lemma zset_le_trans p q r : zset_le p q = true -> zset_le q r = true -> zset_le p r = true.
Proof.
  unfold zset_le. rewrite !orb_true_iff, !andb_true_iff, !Z.ltb_lt, !Z.eqb_eq.
  intros [?|[? H1]] [?|[? H2]]; try (left; lia).
  right. split; [lia|]. by eapply str_leb_trans.
Qed.

(** The entry [ZPOPMIN] takes is an entry of the set, and no entry comes before it. *)
Lemma zset_min_spec l p :
  zset_min l = Some p -> p ∈ l /\ forall q, q ∈ l -> zset_le p q = true.
Proof.
  revert p. induction l as [|p0 l IH]; intros p; simpl; [done|].
  destruct (zset_min l) as [q|] eqn:E; intros [= <-].
  - destruct (IH q eq_refl) as [Hq Hmin].
    destruct (zset_le p0 q) eqn:El.
    + split; [by left|]. intros r [->|Hr]%elem_of_cons; [apply zset_le_refl|].
      eapply zset_le_trans; [done|auto].
    + split; [by right|]. intros r [->|Hr]%elem_of_cons; [|auto].
      by destruct (zset_le_total p0 q); [congruence|].
  - destruct l as [|p1 l]; [|simpl in E; by destruct (zset_min l)].
    split; [by left|]. intros r ->%list_elem_of_singleton. apply zset_le_refl.
Qed.

Lemma zset_min_none l : zset_min l = None <-> l = [].
Proof. destruct l as [|p l]; simpl; [done|]. by destruct (zset_min l). Qed.
