(* ===== verification/WqCore.v ===== *)
(** * The work queue: data, partitions and keys (crate [wq])

    The types of [wq/src/lib.rs], [claim.rs], [result.rs], [stats.rs] and [builder.rs], the rules
    for partition names, and the keys the queue uses on the server.  The theorems say that the
    keys of different things are different keys, whatever the name of the partition. *)

From S2P Require Import Prelude Ord RustStd Redis.

(** ** Data *)

(* src: wq/src/lib.rs:21-43 WorkQueueError *)
Inductive WorkQueueError :=
| JobCancelled
| JobNotFound
| JobAlreadyClaimed
| WorkerMismatch
| InvalidJobStatus (msg : str)
| InvalidPartition (name : str)
| RedisError (e : rerror)
| PoolError
| Serialization
| Other (msg : str).

(* src: wq/src/lib.rs:57-63 Priority *)
Inductive Priority := High | Normal | Low.

(** [priority as i8]. *)
(* src: wq/src/lib.rs:57-63 Priority *)
Definition priority_code (p : Priority) : Z :=
  match p with High => -10 | Normal => -5 | Low => -1 end.

(* src: wq/src/lib.rs:187-204 Priority::from_redis_value *)
Definition priority_from_redis_value (v : Z) : result rerror Priority :=
  if (v =? -10)%Z then Ok High
  else if (v =? -5)%Z then Ok Normal
  else if (v =? -1)%Z then Ok Low
  else Err Conversion.

(* src: wq/src/lib.rs:65-73 JobStatus *)
Inductive JobStatus := Pending | Running | Success | Failure | InternalError.

(** [status as u8]. *)
(* src: wq/src/lib.rs:65-73 JobStatus *)
Definition status_code (s : JobStatus) : Z :=
  match s with
  | Pending => 0 | Running => 1 | Success => 10 | Failure => 11 | InternalError => 12
  end.

(* src: wq/src/lib.rs:157-159 JobStatus::is_resolved *)
Definition is_resolved (s : JobStatus) : bool :=
  match s with Success | Failure | InternalError => true | _ => false end.

(** [None] is the panic of the assertion. *)
(* src: wq/src/lib.rs:161-169 JobStatus::as_stat_name *)
Definition as_stat_name (s : JobStatus) : option str :=
  match s with
  | Success => Some (lit "succeeded")
  | Failure => Some (lit "failed")
  | InternalError => Some (lit "errored")
  | _ => None
  end.

(* src: wq/src/lib.rs:172-185 JobStatus::try_from *)
Definition status_try_from (value : Z) : result WorkQueueError JobStatus :=
  if (value =? 0)%Z then Ok Pending
  else if (value =? 1)%Z then Ok Running
  else if (value =? 10)%Z then Ok Success
  else if (value =? 11)%Z then Ok Failure
  else if (value =? 12)%Z then Ok InternalError
  else Err (Other (lit "Invalid job status: " ++ Z_to_str value)).

#[export] Instance JobStatus_eq_dec : EqDecision JobStatus.
Proof. solve_decision. Defined.
#[export] Instance Priority_eq_dec : EqDecision Priority.
Proof. solve_decision. Defined.

(** Times and durations are in nanoseconds. *)
(* src: wq/src/lib.rs:81-90 JobDesc *)
Record JobDesc (P : Type) := {
  desc_params : P;
  submitted_at : Z;
  deadline : Z;
  desc_partition : option str;
}.
Arguments desc_params {P} _.
Arguments submitted_at {P} _.
Arguments deadline {P} _.
Arguments desc_partition {P} _.

(* src: wq/src/result.rs:6-10 JobResult *)
Record JobResult (R : Type) := {
  res_status : JobStatus;
  res_result : option R;
}.
Arguments res_status {R} _.
Arguments res_result {R} _.

(* src: wq/src/stats.rs:1-8 QueueStats *)
Record QueueStats := {
  jobs_failed : Z;
  jobs_succeeded : Z;
  jobs_errored : Z;
  jobs_scheduled : Z;
  jobs_claimed : Z;
}.

(** ** Job identifiers

    The [uuid] crate: identifiers print as texts that parse back, without a colon, and each call
    of [now_v7] gives a new one. *)
Class JobIds := {
  JobId : Type;
  JobId_eq_dec :: EqDecision JobId;
  JobId_countable :: Countable JobId;
  id_to_string : JobId -> str;
  id_parse : str -> option JobId;
  now_v7 : nat -> JobId;   (* the identifier of the n-th call *)
  id_parse_to_string : forall j, id_parse (id_to_string j) = Some j;
  id_no_colon : forall j, 58%N ∉ id_to_string j;
  now_v7_inj : Inj (=) (=) now_v7;
}.

#[export] Instance id_to_string_inj `{JobIds} : Inj (=) (=) id_to_string.
Proof.
  intros j1 j2 Heq. pose proof (id_parse_to_string j1) as H1.
  rewrite Heq, id_parse_to_string in H1. congruence.
Qed.

(* src: wq/src/lib.rs:75-79 Job *)
Record Job `{JobIds} (P : Type) := { job_id : JobId; job_params : P }.
Arguments job_id {_ P} _.
Arguments job_params {_ P} _.

(* src: wq/src/claim.rs:8-19 Claim *)
Record Claim `{JobIds} := {
  claim_job_id : JobId;
  claim_priority : Priority;
  claim_worker_id : str;
  claim_time : Z;
  claim_partition : option str;
}.

(** [now] is what [Utc::now] returns. *)
(* src: wq/src/claim.rs:22-30 Claim::new *)
Definition claim_new `{JobIds} (worker_id : str) (j : JobId) (priority : Priority) (now : Z) :=
  {| claim_job_id := j; claim_priority := priority; claim_worker_id := worker_id;
     claim_time := now; claim_partition := None |}.

(* src: wq/src/claim.rs:32-35 Claim::in_partition *)
Definition in_partition `{JobIds} (c : Claim) (partition : option str) : Claim :=
  {| claim_job_id := claim_job_id c; claim_priority := claim_priority c;
     claim_worker_id := claim_worker_id c; claim_time := claim_time c;
     claim_partition := partition |}.

(* src: wq/src/claim.rs:37-49 Claim::refresh *)
Definition refresh `{JobIds} (c : Claim) (worker_id : str) (now : Z) :
    result WorkQueueError Claim :=
  if negb (str_eqb worker_id (claim_worker_id c)) then
    Err (Other (lit "Worker " ++ worker_id ++
      lit " tried to refresh a claim that isn't theirs (owner is " ++
      claim_worker_id c ++ lit ")"))
  else
    Ok {| claim_job_id := claim_job_id c; claim_priority := claim_priority c;
          claim_worker_id := claim_worker_id c; claim_time := now;
          claim_partition := claim_partition c |}.

(** ** Serialization

    [serde_json] and the [Serialize] and [Deserialize] of the job's parameters and result: what
    was written reads back as it was, and the partition of a description can be read without
    knowing the type of its parameters ([JobPartition]).  Claims and results are written with
    [expect]: writing them is taken not to fail. *)
Class Codecs `{JobIds} (P R : Type) := {
  desc_to_string : JobDesc P -> option str;
  desc_from_str : str -> option (JobDesc P);
  partition_from_str : str -> option (option str);
  claim_to_string : Claim -> str;
  claim_from_str : str -> option Claim;
  result_to_string : JobResult R -> str;
  result_from_str : str -> option (JobResult R);
  desc_roundtrip : forall d s, desc_to_string d = Some s -> desc_from_str s = Some d;
  partition_roundtrip : forall d s,
    desc_to_string d = Some s -> partition_from_str s = Some (desc_partition d);
  claim_roundtrip : forall c, claim_from_str (claim_to_string c) = Some c;
  result_roundtrip : forall r, result_from_str (result_to_string r) = Some r;
}.

(** ** Partitions *)

(* src: wq/src/lib.rs:99-99 MAX_PARTITION_LEN *)
Definition MAX_PARTITION_LEN : N := 64.
(* src: wq/src/lib.rs:101-102 RESOLVED_TTL_SECS *)
Definition RESOLVED_TTL_SECS : N := 60.

(* src: wq/src/lib.rs:108-110 validate_partition *)
Definition partition_char (c : char) : bool :=
  is_ascii_alphanumeric c || (c =? 46)%N || (c =? 95)%N || (c =? 45)%N || (c =? 43)%N.

(* src: wq/src/lib.rs:104-116 validate_partition *)
Definition validate_partition (partition : str) : result WorkQueueError unit :=
  let valid := negb (str_eqb partition []) && (str_len partition <=? MAX_PARTITION_LEN)%N &&
               forallb partition_char partition in
  if negb valid then Err (InvalidPartition partition) else Ok tt.

(* src: wq/src/lib.rs:118-129 PendingKeys *)
Record PendingKeys := {
  default_key : str;
  partitions_key : str;
  partition_prefix : str;
  default_partition : option str;
}.

(* src: wq/src/lib.rs:132-144 PendingKeys::normalize *)
Definition normalize (pk : PendingKeys) (partition : option str) :
    result WorkQueueError (option str) :=
  match partition with
  | None => Ok None
  | Some partition =>
      _ ← validate_partition partition;
      if decide (default_partition pk = Some partition) then Ok None else Ok (Some partition)
  end.

(* src: wq/src/lib.rs:146-153 PendingKeys::key *)
Definition pending_key_of (pk : PendingKeys) (partition : option str) : str :=
  match partition with
  | None => default_key pk
  | Some partition => partition_prefix pk ++ lit ":" ++ partition ++ lit ":queue"
  end.

(** ** The queue and its keys *)

Section queue.
Context `{JobIds} {P R : Type}.

(** The callback is the embedding program's: it says whether the result was processed. *)
Definition ResolveCallback : Type := JobDesc P -> JobResult R -> result WorkQueueError bool.

(** The connection pool and the client are the server of [Redis.v]. *)
(* src: wq/src/lib.rs:255-271 WorkQueue *)
Record WorkQueue := {
  queue_key : str;
  claims_key : str;
  results_key : str;
  resolved_key : str;
  stats_key : str;
  pending : PendingKeys;
  reclaim_timeout : Z;
  claim_timeout : Z;
  result_callback : option ResolveCallback;
}.

(* src: wq/src/builder.rs:9-16 WorkQueueBuilder *)
Record WorkQueueBuilder := {
  queue_name : str;
  b_default_partition : option str;
  b_reclaim_timeout : Z;
  b_claim_timeout : Z;
  b_result_callback : option ResolveCallback;
}.

Definition seconds (n : Z) : Z := n * 1000000000.

(* src: wq/src/builder.rs:23-32 WorkQueueBuilder::new *)
Definition builder_new (name : str) : WorkQueueBuilder :=
  {| queue_name := name; b_default_partition := None; b_reclaim_timeout := seconds 30;
     b_claim_timeout := seconds 30; b_result_callback := None |}.

(* src: wq/src/builder.rs:66-72 WorkQueueBuilder::with_default_partition *)
Definition with_default_partition (partition : str) (b : WorkQueueBuilder) : WorkQueueBuilder :=
  {| queue_name := queue_name b; b_default_partition := Some partition;
     b_reclaim_timeout := b_reclaim_timeout b; b_claim_timeout := b_claim_timeout b;
     b_result_callback := b_result_callback b |}.

(* src: wq/src/builder.rs:74-77 WorkQueueBuilder::with_reclaim_timeout *)
Definition with_reclaim_timeout (timeout : Z) (b : WorkQueueBuilder) : WorkQueueBuilder :=
  {| queue_name := queue_name b; b_default_partition := b_default_partition b;
     b_reclaim_timeout := timeout; b_claim_timeout := b_claim_timeout b;
     b_result_callback := b_result_callback b |}.

(* src: wq/src/builder.rs:79-82 WorkQueueBuilder::with_claim_timeout *)
Definition with_claim_timeout (timeout : Z) (b : WorkQueueBuilder) : WorkQueueBuilder :=
  {| queue_name := queue_name b; b_default_partition := b_default_partition b;
     b_reclaim_timeout := b_reclaim_timeout b; b_claim_timeout := timeout;
     b_result_callback := b_result_callback b |}.

(* src: wq/src/builder.rs:84-87 WorkQueueBuilder::with_callback *)
Definition with_callback (callback : ResolveCallback) (b : WorkQueueBuilder) : WorkQueueBuilder :=
  {| queue_name := queue_name b; b_default_partition := b_default_partition b;
     b_reclaim_timeout := b_reclaim_timeout b; b_claim_timeout := b_claim_timeout b;
     b_result_callback := Some callback |}.

(** [opened] is what creating the pool and the client gives. *)
(* src: wq/src/builder.rs:34-64 WorkQueueBuilder::build *)
Definition build (opened : result WorkQueueError unit) (b : WorkQueueBuilder) :
    result WorkQueueError WorkQueue :=
  _ ← opened;
  _ ← match b_default_partition b with
      | Some default_partition => validate_partition default_partition
      | None => Ok tt
      end;
  let key (suffix : string) := lit "wq:" ++ queue_name b ++ lit suffix in
  Ok {| claims_key := key ":claims";
        results_key := key ":results";
        resolved_key := key ":resolved";
        stats_key := key ":stats";
        queue_key := key ":queue";
        pending := {| default_key := key ":queue";
                      partitions_key := key ":partitions";
                      partition_prefix := key ":partition";
                      default_partition := b_default_partition b |};
        reclaim_timeout := b_reclaim_timeout b;
        claim_timeout := b_claim_timeout b;
        result_callback := b_result_callback b |}.

(* src: wq/src/lib.rs:957-959 WorkQueue::get_job_key *)
Definition get_job_key (q : WorkQueue) (j : JobId) : str :=
  queue_key q ++ lit ":" ++ id_to_string j.

(* src: wq/src/lib.rs:961-963 WorkQueue::get_result_key *)
Definition get_result_key (q : WorkQueue) (j : JobId) : str :=
  results_key q ++ lit ":" ++ id_to_string j.

(* src: wq/src/lib.rs:965-967 WorkQueue::get_resolved_key *)
Definition get_resolved_key (q : WorkQueue) (j : JobId) : str :=
  resolved_key q ++ lit ":" ++ id_to_string j.

(* src: wq/src/lib.rs:969-971 WorkQueue::get_stats_key *)
Definition get_stats_key (q : WorkQueue) (stat_name : str) : str :=
  stats_key q ++ lit ":" ++ stat_name.

Definition pending_key (q : WorkQueue) (partition : option str) : str :=
  pending_key_of (pending q) partition.

(** ** Which keys the queue uses, and for what *)

(** One constructor per kind of key. *)
Inductive key :=
| KPending (partition : option str)
| KPartitions
| KClaims
| KJobClaim (j : JobId)   (* deleted with an expired claim, and never written *)
| KJob (j : JobId)
| KResult (j : JobId)
| KResolved (j : JobId)
| KStat (name : str).

Definition key_text (q : WorkQueue) (k : key) : str :=
  match k with
  | KPending p => pending_key q p
  | KPartitions => partitions_key (pending q)
  | KClaims => claims_key q
  | KJobClaim j => claims_key q ++ lit ":" ++ id_to_string j
  | KJob j => get_job_key q j
  | KResult j => get_result_key q j
  | KResolved j => get_resolved_key q j
  | KStat n => get_stats_key q n
  end.

(** A partition as the queue stores it: the default one, or an accepted name. *)
Definition partition_ok (p : option str) : Prop :=
  match p with None => True | Some s => validate_partition s = Ok tt end.

Definition key_ok (k : key) : Prop :=
  match k with KPending p => partition_ok p | _ => True end.

(** A queue that a builder built. *)
Definition built (q : WorkQueue) : Prop := exists o b, build o b = Ok q.

Lemma validate_partition_Ok s :
  validate_partition s = Ok tt <->
  s <> [] /\ (str_len s <= 64)%N /\ Forall (fun c => partition_char c = true) s.
Proof.
  unfold validate_partition, MAX_PARTITION_LEN.
  destruct (_ && forallb _ _) eqn:E; simpl.
  - split; [intros _|done]. reflect_bools. rewrite N.leb_le in *.
    split_and!; [|done|].
    + intros ->. done.
    + apply Forall_forall. intros c Hc. eapply forallb_forall; [done|].
      by apply list_elem_of_In.
  - split; [done|]. intros (Hne & Hlen & Hall). exfalso.
    apply not_true_iff_false in E. apply E.
    rewrite !andb_true_iff, negb_true_iff. split_and!.
    + unfold str_eqb. by apply bool_decide_eq_false.
    + by apply N.leb_le.
    + apply forallb_forall. intros c Hc%list_elem_of_In.
      rewrite Forall_forall in Hall. auto.
Qed.

Lemma partition_no_colon s : validate_partition s = Ok tt -> 58%N ∉ s.
Proof.
  intros (_ & _ & Hall)%validate_partition_Ok Hin.
  rewrite Forall_forall in Hall. by specialize (Hall _ Hin).
Qed.

Lemma built_keys q :
  built q -> exists pre dp,
    (forall k, key_text q k = pre ++
      match k with
      | KPending None => lit ":queue"
      | KPending (Some p) => lit ":partition:" ++ p ++ lit ":queue"
      | KPartitions => lit ":partitions"
      | KClaims => lit ":claims"
      | KJobClaim j => lit ":claims:" ++ id_to_string j
      | KJob j => lit ":queue:" ++ id_to_string j
      | KResult j => lit ":results:" ++ id_to_string j
      | KResolved j => lit ":resolved:" ++ id_to_string j
      | KStat n => lit ":stats:" ++ n
      end) /\ default_partition (pending q) = dp /\
    match dp with Some s => validate_partition s = Ok tt | None => True end.
Proof.
  intros (o & b & Hb). unfold build in Hb.
  destruct o as [[]|]; [|done]. simpl in Hb.
  exists (lit "wq:" ++ queue_name b), (b_default_partition b).
  destruct (b_default_partition b) as [dp|] eqn:Edp.
  1: destruct (validate_partition dp) as [[]|] eqn:Evp; [|done].
  all: simpl in Hb; injection Hb as <-; split; [|done].
  all: intros [[p|]| | |j|j|j|j|n];
    unfold key_text, pending_key, pending_key_of, get_job_key, get_result_key,
      get_resolved_key, get_stats_key; cbn -[lit];
    rewrite <- ?(assoc_L (++)); try reflexivity;
    do 2 f_equal; rewrite ?(assoc_L (++)); reflexivity.
Qed.

Lemma app_sep_inj (x1 x2 y1 y2 : str) :
  58%N ∉ x1 -> 58%N ∉ x2 -> x1 ++ 58%N :: y1 = x2 ++ 58%N :: y2 -> x1 = x2.
Proof.
  revert x2. induction x1 as [|c x1 IH]; intros [|c2 x2] H1 H2 Heq; simpl in *;
    injection Heq; intros; subst; [done|set_solver|set_solver|].
  f_equal. apply IH; set_solver.
Qed.

(** Distinct things have distinct keys. *)
Lemma key_text_inj q k1 k2 :
  built q -> key_ok k1 -> key_ok k2 -> key_text q k1 = key_text q k2 -> k1 = k2.
Proof.
  intros (pre & dp & Hk & _ & _)%built_keys H1 H2 Heq.
  rewrite !Hk in Heq. apply app_inv_head in Heq.
  destruct k1 as [[p1|]| | |j1|j1|j1|j1|n1], k2 as [[p2|]| | |j2|j2|j2|j2|n2];
    cbn in Heq; try discriminate Heq; simplify_eq; try done; f_equal.
  all: try by apply (inj id_to_string).
  f_equal. eapply app_sep_inj; [by apply partition_no_colon..|exact Heq].
Qed.

Lemma key_text_ne q k1 k2 :
  built q -> key_ok k1 -> key_ok k2 -> k1 <> k2 -> key_text q k1 <> key_text q k2.
Proof. intros Hb H1 H2 Hne Heq. by apply Hne, (key_text_inj q). Qed.

Lemma built_queue_key q : built q -> queue_key q = pending_key q None.
Proof.
  intros (o & b & Hb). unfold build in Hb. bind_inv. by simplify_eq.
Qed.

Lemma normalize_Ok pk p p' :
  normalize pk p = Ok p' -> partition_ok p' /\ (p' <> None -> p' <> default_partition pk).
Proof.
  unfold normalize. destruct p as [s|]; [|by intros [= <-]].
  destruct (validate_partition s) as [[]|] eqn:E; simpl; [|done].
  case_decide; intros [= <-]; [done|]. split; [done|]. congruence.
Qed.
End queue.
Arguments ResolveCallback : clear implicits.
Arguments WorkQueue : clear implicits.
Arguments WorkQueueBuilder : clear implicits.

Create HintDb wq.

#[export] Hint Resolve key_text_ne : wq.
