(* ===== verification/Apwm.v ===== *)
(** * Worlds, releases and manifests (crate [apwm])

    The types and pure operations of [apwm/src/index/world.rs], [apwm/src/manifest.rs] and the
    deserializers of [apwm/src/utils.rs]: what a world file says, what one Archipelago base sees
    of it, and which release a manifest resolves to. *)

From S2P Require Import Prelude Ord RustStd.

(** ** Errors

    [anyhow::Error]: a message and the contexts added to it, the outermost first. *)
Definition error : Type := list str.
Definition bail {A} (m : str) : result error A := Err [m].
Definition context {A} (m : str) (r : result error A) : result error A := map_err (cons m) r.
(** [Context] of an [Option]. *)
Definition some_or {A} (m : str) (o : option A) : result error A := ok_or o [m].

(** ** Semantic versions

    The [semver] crate: versions are totally ordered and print as texts that parse back, which
    start with a digit; a requirement matches a version or doesn't. *)
Class SemVer := {
  Version : Type;
  Version_eq_dec :: EqDecision Version;
  Version_countable :: Countable Version;
  Version_ord :: RustOrd Version;
  version_to_string : Version -> str;
  version_parse : str -> result error Version;
  version_parse_to_string : forall v, version_parse (version_to_string v) = Ok v;
  version_starts_with_digit : forall s v,
    version_parse s = Ok v -> exists c s', s = c :: s' /\ is_ascii_digit c = true;
  Requirement : Type;
  requirement_parse : str -> result error Requirement;
  requirement_to_string : Requirement -> str;
  requirement_matches : Requirement -> Version -> bool;
}.

(** ** Paths

    [std::path::Path]: the components of a path, and whether it starts at the root. *)
Record path := Path { absolute : bool; components : list str }.

Definition path_join (p r : path) : path :=
  if absolute r then r else Path (absolute p) (components p ++ components r).

Definition path_parent (p : path) : option path :=
  match components p with
  | [] => None
  | c :: cs => Some (Path (absolute p) (removelast (c :: cs)))
  end.

(** [Path::display], and [{:?}] of a path without characters that are escaped. *)
Definition path_display (p : path) : str :=
  (if absolute p then [47%N] else []) ++ join [47%N] (components p).
Definition path_debug (p : path) : str := [34%N] ++ path_display p ++ [34%N].

(** The name without its last extension; a name that starts with its only dot has none. *)
Definition stem (name : str) : str :=
  match reverse (split_on 46 name) with
  | _ :: (p :: ps) as rest =>
      let s := join [46%N] (reverse rest) in if decide (s = []) then name else s
  | _ => name
  end.

Definition file_stem (p : path) : option str := stem <$> last (components p).

Definition in_dir (dir : path) (name : str) : path := path_join dir (Path false [name]).

Section apwm.
Context `{SemVer}.
Implicit Types (v base : Version).

(** ** Version requirements *)

(* src: apwm/src/manifest.rs:9-16 VersionReq *)
Inductive VersionReq :=
| Disabled
| Latest
| LatestSupported
| Specific (v : Version).

(* src: apwm/src/manifest.rs:11-13 VersionReq::default *)
Definition VersionReq_default : VersionReq := Latest.

#[export] Instance VersionReq_eq_dec : EqDecision VersionReq.
Proof. solve_decision. Defined.

(* src: apwm/src/manifest.rs:57-64 VersionReq::parse *)
Definition VersionReq_parse (s : str) : result error VersionReq :=
  if str_eqb s (lit "Latest") then Ok Latest
  else if str_eqb s (lit "Latest Supported") then Ok LatestSupported
  else if str_eqb s (lit "Disabled") then Ok Disabled
  else v ← version_parse s; Ok (Specific v).

(* src: apwm/src/manifest.rs:85-94 VersionReq::fmt *)
Definition VersionReq_to_string (r : VersionReq) : str :=
  match r with
  | Latest => lit "Latest"
  | LatestSupported => lit "Latest Supported"
  | Specific v => version_to_string v
  | Disabled => lit "Disabled"
  end.

(** How the index writes a requirement. *)
(* src: apwm/src/utils.rs:22-31 version_req_external *)
Definition version_req_external (s : str) : result error VersionReq :=
  if str_eqb s (lit "latest") then Ok Latest
  else if str_eqb s (lit "latest_supported") then Ok LatestSupported
  else if str_eqb s (lit "disabled") then Ok Disabled
  else v ← version_parse s; Ok (Specific v).

(* src: apwm/src/utils.rs:33-37 option_version_req_external *)
Definition option_version_req_external (s : str) : result error (option VersionReq) :=
  r ← version_req_external s; Ok (Some r).

(* src: apwm/src/utils.rs:15-20 empty_string_as_none *)
Definition empty_string_as_none (o : option str) : option str :=
  match o with Some s => if str_eqb s [] then None else Some s | None => None end.

(** A map whose values that can't be read get the default.  The entries are what the format
    gives, in order: a key, or an error, and the value read for it. *)
(* src: apwm/src/utils.rs:62-74 DefaultMapVisitor::visit_map *)
Definition visit_map {K V} `{Countable K} (default_value : V)
    (entries : list (result error K * result error V)) : result error (gmap K V) :=
  try_fold (fun (m : gmap K V) e =>
    k ← e.1;
    Ok (<[k := match e.2 with Ok v => v | Err _ => default_value end]> m)) ∅ entries.

(** ** Worlds *)

(** [http::Uri], as the text it prints. *)
Definition Uri : Type := str.

(* src: apwm/src/index/world.rs:100-109 WorldOrigin *)
Inductive WorldOrigin :=
| OUrl (url : Uri)
| OLocal (p : path)
| OSupported
| ODefault.

(* src: apwm/src/index/world.rs:112-114 WorldOrigin::is_local *)
Definition is_local (o : WorldOrigin) : bool := match o with OLocal _ => true | _ => false end.

(* src: apwm/src/index/world.rs:116-118 WorldOrigin::is_supported *)
Definition is_supported (o : WorldOrigin) : bool :=
  match o with OSupported => true | _ => false end.

(* src: apwm/src/index/world.rs:121-123 WorldOrigin::has_patches *)
Definition has_patches (o : WorldOrigin) : bool := false.

(* src: apwm/src/index/world.rs:126-130 WorldTag *)
Inductive WorldTag := AfterDark.

(* src: apwm/src/index/world.rs:134-146 Release *)
Record Release := {
  min_ap_version : option Version;
  max_ap_version : option Version;
  url : option Uri;
  local : option path;
}.

(** [Option::is_none_or]. *)
Definition is_none_or {A} (f : A -> bool) (o : option A) : bool :=
  match o with None => true | Some a => f a end.

(* src: apwm/src/index/world.rs:150-153 Release::runs_on *)
Definition runs_on (r : Release) base : bool :=
  is_none_or (fun min => bool_decide (ord_le min base)) (min_ap_version r) &&
  is_none_or (fun max => bool_decide (ord_le base max)) (max_ap_version r).

(* src: apwm/src/index/world.rs:155-161 Release::origin *)
Definition origin (r : Release) : option WorldOrigin :=
  match url r with
  | Some u => Some (OUrl u)
  | None => OLocal <$> local r
  end.

(* src: apwm/src/index/world.rs:165-173 BaseOverride *)
Record BaseOverride := {
  o_supported : option bool;
  o_disabled : option bool;
  o_default_version : option VersionReq;
}.

(* src: apwm/src/index/world.rs:177-204 WorldDef *)
Record WorldDef := {
  d_path : path;
  d_name : str;
  d_display_name : str;
  d_default_url : option Uri;
  d_default_version : VersionReq;
  d_home : option str;
  d_versions : gmap Version WorldOrigin;
  releases : gmap Version Release;
  d_disabled : bool;
  d_supported : bool;
  d_tags : list WorldTag;
  raw_base_overrides : gmap str BaseOverride;
  base_overrides : list (Requirement * BaseOverride);
}.

(* src: apwm/src/index/world.rs:323-335 World *)
Record World := {
  w_path : path;
  name : str;
  display_name : str;
  default_url : option Uri;
  default_version : VersionReq;
  home : option str;
  versions : gmap Version WorldOrigin;
  disabled : bool;
  supported : bool;
  tags : list WorldTag;
}.

(** A world file once its TOML is read: [parsed] is what the deserializer gives. *)
(* src: apwm/src/index/world.rs:207-236 WorldDef::new *)
Definition WorldDef_new (world_path : path) (parsed : result error WorldDef) :
    result error WorldDef :=
  world ← parsed;
  let display := if str_eqb (d_display_name world) [] then d_name world
                 else d_display_name world in
  overrides ← try_fold (fun acc e =>
      req ← context (lit "World " ++ d_name world ++ lit ": `" ++ e.1 ++
                     lit "` in [base] isn't a version requirement") (requirement_parse e.1);
      Ok (acc ++ [(req, e.2)]))
    (base_overrides world) (bt_iter (raw_base_overrides world));
  _ ← try_fold (fun (_ : unit) e =>
      if bool_decide (is_Some (url e.2)) && bool_decide (is_Some (local e.2)) then
        bail (lit "World " ++ d_name world ++ lit ": release " ++ version_to_string e.1 ++
              lit " has both a `url` and a `local` path")
      else Ok tt) tt (bt_iter (releases world));
  Ok {| d_path := world_path; d_name := d_name world; d_display_name := display;
        d_default_url := d_default_url world; d_default_version := d_default_version world;
        d_home := d_home world; d_versions := d_versions world; releases := releases world;
        d_disabled := d_disabled world; d_supported := d_supported world;
        d_tags := d_tags world; raw_base_overrides := ∅; base_overrides := overrides |}.

(* src: apwm/src/index/world.rs:238-255 WorldDef::override_for *)
Definition override_for (w : WorldDef) base : result error (option BaseOverride) :=
  match List.filter (fun e => requirement_matches e.1 base) (base_overrides w) with
  | [] => Ok None
  | [(_, o)] => Ok (Some o)
  | (first, _) :: (second, _) :: _ =>
      bail (lit "World " ++ d_name w ++ lit ": both [base." ++ [34%N] ++
            requirement_to_string first ++ [34%N] ++ lit "] and [base." ++ [34%N] ++
            requirement_to_string second ++ [34%N] ++ lit "] apply to Archipelago " ++
            version_to_string base)
  end.

(** The releases that can run on a base: those of [versions] that [releases] doesn't rule out,
    then those of [releases], and the one that comes with the base. *)
(* src: apwm/src/index/world.rs:276-302 WorldDef::for_base *)
Definition versions_for_base (w : WorldDef) base (supported : bool) : gmap Version WorldOrigin :=
  let vs := fold_left (fun (vs : gmap Version WorldOrigin) e =>
      if is_none_or (fun r => runs_on r base) (releases w !! e.1) then <[e.1 := e.2]> vs else vs)
    (bt_iter (d_versions w)) ∅ in
  let vs := fold_left (fun (vs : gmap Version WorldOrigin) e =>
      if negb (runs_on e.2 base) then vs
      else match origin e.2 with
           | Some o => <[e.1 := o]> vs
           | None => match vs !! e.1 with Some _ => vs | None => <[e.1 := ODefault]> vs end
           end)
    (bt_iter (releases w)) vs in
  if supported then <[base := OSupported]> vs else vs.

(* src: apwm/src/index/world.rs:259-319 WorldDef::for_base *)
Definition for_base (w : WorldDef) base : result error (option World) :=
  base_override ← override_for w base;
  let disabled := default (d_disabled w) (base_override ≫= o_disabled) in
  if disabled : bool then Ok None
  else
    let supported := default (d_supported w) (base_override ≫= o_supported) in
    let default_version := default (d_default_version w) (base_override ≫= o_default_version) in
    let versions := versions_for_base w base supported in
    if bool_decide (versions = ∅) then Ok None
    else Ok (Some {| w_path := d_path w; name := d_name w; display_name := d_display_name w;
                     default_url := d_default_url w; default_version := default_version;
                     home := d_home w; versions := versions; disabled := disabled;
                     supported := supported; tags := d_tags w |}).

(* src: apwm/src/index/world.rs:338-340 World::get_latest_release *)
Definition get_latest_release (w : World) : option (Version * WorldOrigin) :=
  last (bt_iter (versions w)).

(* src: apwm/src/index/world.rs:342-346 World::get_latest_supported_release *)
Definition get_latest_supported_release (w : World) : option (Version * WorldOrigin) :=
  List.find (fun e => is_supported e.2) (bt_iter (versions w)).

(* src: apwm/src/index/world.rs:348-350 World::get_version *)
Definition get_version (w : World) v : option WorldOrigin := versions w !! v.

(* src: apwm/src/index/world.rs:432-439 World::get_ap_name *)
Definition get_ap_name (w : World) : result error str :=
  some_or (lit "Invalid path for world") (file_stem (w_path w)).

Definition version_missing (w : World) v : str :=
  lit "Unable to find version " ++ name w ++ lit " for world " ++ version_to_string v.

(* src: apwm/src/index/world.rs:441-464 World::get_url_for_version *)
Definition get_url_for_version (w : World) v : result error str :=
  o ← some_or (version_missing w v) (versions w !! v);
  match o with
  | ODefault =>
      u ← some_or (lit "World " ++ name w ++
            lit " has no default URL but contains a release (" ++ version_to_string v ++
            lit ") without a set URL") (default_url w);
      Ok (replace (lit "{{version}}") (version_to_string v) u)
  | OUrl u => Ok (replace (lit "{{version}}") (version_to_string v) u)
  | OLocal _ => Ok []
  | OSupported => Ok (lit "https://archipelago.gg/games")
  end.

(* src: apwm/src/index/world.rs:466-474 World::get_path_for_origin *)
Definition get_path_for_origin (w : World) (o : WorldOrigin) : result error path :=
  match o with
  | OLocal p =>
      dir ← some_or (lit "Invalid world path") (path_parent (w_path w));
      Ok (path_join dir p)
  | _ => bail (lit "This isn't a local world origin, no path")
  end.

(* src: apwm/src/manifest.rs:66-82 VersionReq::to_string_pretty *)
Definition to_string_pretty (r : VersionReq) (w : World) : str :=
  match r with
  | Latest =>
      match get_latest_release w with
      | None => VersionReq_to_string r
      | Some (v, _) => lit "Latest (" ++ version_to_string v ++ lit ")"
      end
  | LatestSupported =>
      match get_latest_supported_release w with
      | None => VersionReq_to_string r
      | Some (v, _) => lit "Supported (" ++ version_to_string v ++ lit ")"
      end
  | _ => VersionReq_to_string r
  end.

(** ** The index one base sees *)

(* src: apwm/src/index/mod.rs:175-183 Index *)
Record Index := {
  i_path : path;
  archipelago_repo : Uri;
  archipelago_version : Version;
  index_homepage : str;
  index_dir : path;
  worlds : gmap str World;
}.

(* src: apwm/src/index/mod.rs:332-339 Index::get_world_local_path *)
Definition get_world_local_path (apworld_root : path) (apworld_name : str) v : path :=
  in_dir apworld_root (apworld_name ++ lit "-" ++ version_to_string v ++ lit ".apworld").

(** The first world of that name, in the order of the apworlds' names. *)
Definition find_world (i : Index) (game_name : str) : option (str * World) :=
  List.find (fun e => str_eqb (name e.2) game_name) (bt_iter (worlds i)).

(* src: apwm/src/index/mod.rs:341-343 Index::get_world_by_name *)
Definition get_world_by_name (i : Index) (game_name : str) : option World :=
  snd <$> find_world i game_name.

(** ** Manifests *)

(* src: apwm/src/manifest.rs:18-23 NewApworldPolicy *)
Inductive NewApworldPolicy := Enable | Disable.

(* src: apwm/src/manifest.rs:25-31 Manifest *)
Record Manifest := {
  m_worlds : gmap str VersionReq;
  new_apworld_policy : NewApworldPolicy;
}.

(* src: apwm/src/manifest.rs:33-38 ResolveError *)
Inductive ResolveError :=
| WorldNotFound (world : str)
| VersionNotFound (world : str) (r : VersionReq)
| WorldDisabled (world : str).

(* src: apwm/src/manifest.rs:40-54 ResolveError::fmt *)
Definition ResolveError_to_string (e : ResolveError) : str :=
  match e with
  | WorldNotFound world => lit "Couldn't find world " ++ world
  | VersionNotFound world r =>
      lit "Couldn't resolve version " ++ VersionReq_to_string r ++ lit " for world " ++ world
  | WorldDisabled world => lit "The world " ++ world ++ lit " is disabled"
  end.

(* src: apwm/src/manifest.rs:97-102 Manifest::new *)
Definition Manifest_new : Manifest := {| m_worlds := ∅; new_apworld_policy := Enable |}.

(* src: apwm/src/manifest.rs:275-277 Manifest::add_version_req *)
Definition add_version_req (m : Manifest) (apworld_name : str) (r : VersionReq) : Manifest :=
  {| m_worlds := <[apworld_name := r]> (m_worlds m);
     new_apworld_policy := new_apworld_policy m |}.

Definition no_known_release (apworld_name : str) : str :=
  lit "World `" ++ apworld_name ++ lit "` has no known release".

(* src: apwm/src/manifest.rs:104-116 Manifest::from_index_with_latest_versions *)
Definition from_index_with_latest_versions (i : Index) : result error Manifest :=
  try_fold (fun m e =>
    match get_latest_release e.2 with
    | None => bail (no_known_release e.1)
    | Some _ => Ok (add_version_req m e.1 Latest)
    end) Manifest_new (bt_iter (worlds i)).

(* src: apwm/src/manifest.rs:118-132 Manifest::from_index_with_default_versions *)
Definition from_index_with_default_versions (i : Index) : result error Manifest :=
  try_fold (fun m e =>
    match get_latest_release e.2 with
    | None => bail (no_known_release e.1)
    | Some _ => Ok (add_version_req m e.1 (default_version e.2))
    end) Manifest_new (bt_iter (worlds i)).

(* src: apwm/src/manifest.rs:262-273 Manifest::get_version_req *)
Definition get_version_req (m : Manifest) (apworld_name : str) (i : Index) : VersionReq :=
  match m_worlds m !! apworld_name with
  | Some r => r
  | None =>
      match new_apworld_policy m with
      | Enable => default VersionReq_default (default_version <$> get_world_by_name i apworld_name)
      | Disable => Disabled
      end
  end.

(* src: apwm/src/manifest.rs:247-260 Manifest::is_enabled *)
Definition is_enabled (m : Manifest) (apworld_name : str) : bool :=
  match new_apworld_policy m with
  | Enable => default true ((fun r => negb (bool_decide (r = Disabled))) <$> m_worlds m !! apworld_name)
  | Disable => default false ((fun r => negb (bool_decide (r = Disabled))) <$> m_worlds m !! apworld_name)
  end.

(* src: apwm/src/manifest.rs:147-159 Manifest::updated_with_index *)
Definition updated_with_index (m : Manifest) (i : Index) : Manifest :=
  fold_left (fun r apworld_name => add_version_req r apworld_name (get_version_req m apworld_name i))
    (bt_keys (worlds i)) {| m_worlds := ∅; new_apworld_policy := new_apworld_policy m |}.

(* src: apwm/src/manifest.rs:203-245 Manifest::resolve_world_version *)
Definition resolve_world_version (w : World) (r : VersionReq) :
    result ResolveError (World * Version) :=
  let found (resolved : option (Version * WorldOrigin)) (actual : VersionReq) :=
    match resolved with
    | None => Err (VersionNotFound (name w) actual)
    | Some (v, _) => Ok (w, v)
    end in
  let specific v := (fun o => (v, o)) <$> get_version w v in
  match r with
  | LatestSupported => found (get_latest_supported_release w) r
  | Latest =>
      found match default_version w with
            | Latest => get_latest_release w
            | LatestSupported => get_latest_supported_release w
            | Specific v => specific v
            | Disabled => None
            end (default_version w)
  | Specific v =>
      found match specific v with Some e => Some e | None => get_latest_release w end r
  | Disabled => Err (WorldDisabled (display_name w))
  end.

(** One world of the loop of [resolve_with]. *)
(* src: apwm/src/manifest.rs:168-183 Manifest::resolve_with *)
Definition resolve_step (m : Manifest) (i : Index)
    (acc : gmap str (World * Version) * list ResolveError) (e : str * World) :
    gmap str (World * Version) * list ResolveError :=
  let '(ret, resolve_errors) := acc in
  let r := get_version_req m e.1 i in
  if bool_decide (r = Disabled) then acc
  else match resolve_world_version e.2 r with
       | Ok (_, v) => (<[e.1 := (e.2, v)]> ret, resolve_errors)
       | Err err => (ret, resolve_errors ++ [err])
       end.

(* src: apwm/src/manifest.rs:161-186 Manifest::resolve_with *)
Definition resolve_with (m : Manifest) (i : Index) :
    gmap str (World * Version) * list ResolveError :=
  fold_left (resolve_step m i) (bt_iter (worlds i)) (∅, []).

(* src: apwm/src/manifest.rs:188-201 Manifest::resolve_from_game_name *)
Definition resolve_from_game_name (m : Manifest) (game_name : str) (i : Index) :
    result ResolveError (World * Version) :=
  match find_world i game_name with
  | None => Err (WorldNotFound game_name)
  | Some (apworld_name, w) => resolve_world_version w (get_version_req m apworld_name i)
  end.

(** [None] is the panic of [unwrap] on a world without a release. *)
(* src: apwm/src/manifest.rs:279-290 Manifest::freeze *)
Definition freeze (m : Manifest) (i : Index) : option Manifest :=
  ws ← fold_left (fun (acc : option (gmap str VersionReq)) e =>
      ws ← acc;
      if bool_decide (e.2 = Latest) then
        match worlds i !! e.1 with
        | None => Some ws
        | Some w => '(v, _) ← get_latest_release w; Some (<[e.1 := Specific v]> ws)
        end
      else Some ws) (bt_iter (m_worlds m)) (Some (m_worlds m));
  Some {| m_worlds := ws; new_apworld_policy := new_apworld_policy m |}.
End apwm.
