(* ===== verification/Examples.v ===== *)
(** * Concrete surroundings for examples

    Instances of the interfaces, on which the witnesses evaluate the definitions: job identifiers
    that are numbers, texts that carry any countable value, versions that are numbers. *)

From S2P Require Import Prelude Ord RustStd WqCore Apwm.

(** ** Job identifiers and codecs *)

Section example.
Definition unary (n : nat) : str := repeat 97%N n.

Lemma forallb_repeat_97 n : forallb (N.eqb 97) (repeat 97%N n) = true.
Proof. induction n; simpl; auto. Qed.

Program Definition example_ids : JobIds := {|
  JobId := nat;
  id_to_string := unary;
  id_parse := fun s => if forallb (N.eqb 97) s then Some (length s) else None;
  now_v7 := fun n => n;
|}.
Next Obligation. intros n. simpl. unfold unary. by rewrite forallb_repeat_97, repeat_length. Qed.
Next Obligation.
  intros n Hin. simpl in Hin. apply list_elem_of_In, repeat_spec in Hin. discriminate.
Qed.

#[local] Existing Instance example_ids.

(** A text that carries any countable value. *)
Definition pack {A} `{Countable A} (x : A) : str := [N.pos (encode x)].
Definition unpack {A} `{Countable A} (s : str) : option A :=
  match s with [N.pos p] => decode p | _ => None end.

Lemma unpack_pack {A} `{Countable A} (x : A) : unpack (pack x) = Some x.
Proof. unfold unpack, pack. apply decode_encode. Qed.

Definition prio_of (n : Z) : Priority :=
  if (n =? -10)%Z then High else if (n =? -5)%Z then Normal else Low.
Definition status_of (n : Z) : JobStatus :=
  if (n =? 0)%Z then Pending else if (n =? 1)%Z then Running else if (n =? 10)%Z then Success
  else if (n =? 11)%Z then Failure else InternalError.

Definition claim_tuple (c : Claim) : nat * Z * str * Z * option str :=
  (claim_job_id c, priority_code (claim_priority c), claim_worker_id c, claim_time c,
   claim_partition c).
Definition claim_of_tuple (x : nat * Z * str * Z * option str) : Claim :=
  {| claim_job_id := x.1.1.1.1 : JobId; claim_priority := prio_of x.1.1.1.2;
     claim_worker_id := x.1.1.2; claim_time := x.1.2; claim_partition := x.2 |}.

Context {P R : Type} `{Countable P} `{Countable R}.

Definition desc_tuple (d : JobDesc P) : P * Z * Z * option str :=
  (desc_params d, submitted_at d, deadline d, desc_partition d).
Definition result_tuple (r : JobResult R) : Z * option R := (status_code (res_status r), res_result r).

Definition desc_of (x : P * Z * Z * option str) : JobDesc P :=
  {| desc_params := x.1.1.1; submitted_at := x.1.1.2; deadline := x.1.2; desc_partition := x.2 |}.
Definition result_of (x : Z * option R) : JobResult R :=
  {| res_status := status_of x.1; res_result := x.2 |}.

Program Definition example_codecs : Codecs P R := {|
  desc_to_string := fun d => Some (pack (desc_tuple d));
  desc_from_str := fun s => desc_of <$> unpack s;
  partition_from_str := fun s => (fun x => desc_partition (desc_of x)) <$> unpack s;
  claim_to_string := fun c => pack (claim_tuple c);
  claim_from_str := fun s => claim_of_tuple <$> unpack s;
  result_to_string := fun r => pack (result_tuple r);
  result_from_str := fun s => result_of <$> unpack s;
|}.
Next Obligation. intros d s [= <-]. rewrite unpack_pack. by destruct d. Qed.
Next Obligation. intros d s [= <-]. rewrite unpack_pack. by destruct d. Qed.
Next Obligation.
  intros c. change (claim_of_tuple <$> unpack (pack (claim_tuple c)) = Some c).
  rewrite unpack_pack. by destruct c as [? []].
Qed.
Next Obligation.
  intros r. change (result_of <$> unpack (pack (result_tuple r)) = Some r).
  rewrite unpack_pack. by destruct r as [[]].
Qed.
End example.

(** ** Versions *)

Definition read_number (s : str) : option N :=
  match s with
  | c :: _ => if is_ascii_digit c then Z.to_N <$> parse_digits 0 s else None
  | [] => None
  end.

#[export] Instance number_ord : RustOrd N := { ord_le := N.le }.

Program Definition example_semver : SemVer := {|
  Version := N;
  version_to_string := N_to_str;
  version_parse := fun s => ok_or (read_number s) [lit "not a version"];
  Requirement := N;
  requirement_parse := fun s => ok_or (read_number s) [lit "not a requirement"];
  requirement_to_string := N_to_str;
  requirement_matches := N.eqb;
|}.
Next Obligation.
  intros n. simpl. destruct (N_to_str_parse n) as (Hne & Hp & Hall). unfold read_number.
  destruct (N_to_str n) as [|c s]; [done|]. apply Forall_cons in Hall as [-> _].
  rewrite Hp. simpl. by rewrite N2Z.id.
Qed.
Next Obligation.
  intros [|c s] v Hv; simpl in Hv; [done|]. destruct (is_ascii_digit c) eqn:E; [|done].
  by exists c, s.
Qed.
