(* ===== verification/WqProg.v ===== *)
(** * Queue operations as programs

    An operation of the queue is a program that talks to the server, reads clocks, takes new job
    identifiers and waits for messages.  [prog] is a program as a tree of such events: the tree
    doesn't depend on a server; [run] runs it from start to end on one.  [Spin] is a loop that
    used up its fuel.

    [qm] is [async fn ... -> Result<_, WorkQueueError>]: a program that returns a result, with
    the [?] operator as its bind. *)

From S2P Require Import Prelude Ord RustStd Redis WqCore.

(** ** Programs *)

(** What a subscription delivers ([redis::PushInfo]): its kind, and the data as texts, [None]
    for a text that isn't valid UTF-8. *)
Inductive push_kind := KindMessage | KindOther.
Inductive push_datum := BulkString (s : option str) | OtherDatum.
Record push := Push { kind : push_kind; push_data : list push_datum }.

(** [tokio::time::timeout(_, rx.recv())]: the time is up, the channel gives an error, or it gives
    a message. *)
Inductive received := TimedOut | RecvError | Received (m : push).

Inductive ev `{JobIds} : Type -> Type :=
| Redis {A} (c : rcmd A) : ev (result rerror A)
| UtcNow : ev Z
| InstantNow : ev Z
| NewUuid : ev JobId
| Subscribe (ch : str) : ev unit
| Unsubscribe (ch : str) : ev unit
| Recv (timeout : Z) : ev received.

Inductive prog `{JobIds} (A : Type) : Type :=
| Ret (a : A)
| Spin
| Vis {X : Type} (e : ev X) (k : X -> prog A).
Arguments Ret {_ A} a.
Arguments Spin {_ A}.
Arguments Vis {_ A X} e k.

Section prog.
Context `{JobIds}.

Fixpoint prog_bind {A B} (f : A -> prog B) (p : prog A) : prog B :=
  match p with
  | Ret a => f a
  | Spin => Spin
  | Vis e k => Vis e (fun x => prog_bind f (k x))
  end.

Definition qm (A : Type) : Type := prog (result WorkQueueError A).

#[export] Instance qm_ret : MRet qm := fun A a => Ret (Ok a).
#[export] Instance qm_bind : MBind qm := fun A B f m =>
  prog_bind (fun r => match r with Ok a => f a | Err e => Ret (Err e) end) m.

Definition qerr {A} (e : WorkQueueError) : qm A := Ret (Err e).
Definition qlift {A} (r : result WorkQueueError A) : qm A := Ret r.
Definition qev {X} (e : ev X) : qm X := Vis e (fun x => Ret (Ok x)).

(** One command, with the server's error as the queue's. *)
Definition call {A} (c : rcmd A) : qm A :=
  Vis (Redis c) (fun r => Ret (map_err RedisError r)).

(** [conn.get::<_, String>]: nothing at the key is a reply of the wrong type. *)
Definition get_text (k : str) : qm str :=
  o ← call (GET k);
  match o with Some s => mret s | None => qerr (RedisError Conversion) end.

(** [redis::pipe()]: every command is sent whatever the replies to the ones before it, and the
    pipeline fails with the first of their errors.  Other clients' commands can come between
    two of them. *)
Inductive any_cmd :=
| Any {A} (c : rcmd A).

Fixpoint pipe_from (first : option rerror) (cs : list any_cmd) : qm unit :=
  match cs with
  | [] => match first with None => mret tt | Some e => qerr (RedisError e) end
  | Any c :: cs =>
      Vis (Redis c) (fun r =>
        pipe_from (match first, r with None, Err e => Some e | _, _ => first end) cs)
  end.
Definition pipe : list any_cmd -> qm unit := pipe_from None.
End prog.

(** ** Running a program alone *)

(** The surroundings of a program: the server, a clock, the number of job identifiers given out,
    the channels it listens to, and the messages that will arrive on them, each with the time it
    does. *)
Record world (St : Type) := World {
  srv : St;
  now : Z;
  uuids : nat;
  subscribed : list str;
  inbox : list (Z * push);
}.
Arguments World {St}.
Arguments srv {St}.
Arguments now {St}.
Arguments uuids {St}.
Arguments subscribed {St}.
Arguments inbox {St}.

Section run.
Context `{JobIds} {St : Type} `{!RedisServer St}.

Definition set_srv (w : world St) (s : St) : world St :=
  World s (now w) (uuids w) (subscribed w) (inbox w).

(** A message that arrives in time is received when it arrives. *)
Definition receive (timeout : Z) (w : world St) : received * world St :=
  match inbox w with
  | (t, m) :: rest =>
      if (t <=? now w + timeout)%Z then
        (Received m, World (srv w) (Z.max (now w) t) (uuids w) (subscribed w) rest)
      else (TimedOut, World (srv w) (now w + timeout) (uuids w) (subscribed w) (inbox w))
  | [] => (TimedOut, World (srv w) (now w + timeout) (uuids w) (subscribed w) [])
  end.

Definition handle {X} (e : ev X) (w : world St) : X * world St :=
  match e in ev X return X * world St with
  | Redis c => let '(r, s) := exec c (srv w) in (r, set_srv w s)
  | UtcNow => (now w, w)
  | InstantNow => (now w, w)
  | NewUuid => (now_v7 (uuids w),
                World (srv w) (now w) (S (uuids w)) (subscribed w) (inbox w))
  | Subscribe ch => (tt, World (srv w) (now w) (uuids w) (ch :: subscribed w) (inbox w))
  | Unsubscribe ch =>
      (tt, World (srv w) (now w) (uuids w) (List.filter (fun c => negb (str_eqb c ch)) (subscribed w))
             (inbox w))
  | Recv timeout => receive timeout w
  end.

Fixpoint run {A} (p : prog A) (w : world St) : option (A * world St) :=
  match p with
  | Ret a => Some (a, w)
  | Spin => None
  | Vis e k => let '(x, w) := handle e w in run (k x) w
  end.

Lemma run_prog_bind {A B} (f : A -> prog B) (p : prog A) w :
  run (prog_bind f p) w = '(a, w) ← run p w; run (f a) w.
Proof.
  revert w. induction p as [a| |X e k IH]; intros w; simpl; [done|done|].
  destruct (handle e w) as [x w']. apply IH.
Qed.

Lemma run_bind {A B} (f : A -> qm B) (m : qm A) w :
  run (m ≫= f) w =
  match run m w with
  | Some (Ok a, w) => run (f a) w
  | Some (Err e, w) => Some (Err e, w)
  | None => None
  end.
Proof.
  unfold mbind, qm_bind. rewrite run_prog_bind.
  destruct (run m w) as [[[a|e] w']|]; reflexivity.
Qed.
End run.

(** ** From any server to the documented one

    [abs_world] looks at a world through the server's view.  A run on any server is, through that
    view, the run on the documented server: results about the latter hold for all of them. *)
Section abstraction.
Context `{JobIds} {St : Type} `{!RedisServer St}.

Definition wview (w : world St) : rstate := view (srv w).

Definition abs_world (w : world St) : world rstate :=
  World (wview w) (now w) (uuids w) (subscribed w) (inbox w).

Lemma handle_abs {X} (e : ev X) (w : world St) :
  handle e (abs_world w) = ((handle e w).1, abs_world (handle e w).2).
Proof.
  destruct e; simpl; try done.
  - pose proof (exec_documented _ c (srv w)) as Hd. unfold wview.
    destruct (exec c (srv w)) as [r s]. rewrite <- Hd. done.
  - unfold receive. simpl. destruct (inbox w) as [|[t m] rest]; [done|].
    by destruct (t <=? now w + timeout)%Z.
Qed.

Lemma run_abs {A} (p : prog A) (w : world St) :
  run p (abs_world w) = (fun '(a, w) => (a, abs_world w)) <$> run p w.
Proof.
  revert w. induction p as [a| |X e k IH]; intros w; simpl; [done|done|].
  rewrite handle_abs. destruct (handle e w) as [x w']. apply IH.
Qed.

Lemma run_abs_Some {A} (p : prog A) (w : world St) a w' :
  run p w = Some (a, w') -> run p (abs_world w) = Some (a, abs_world w').
Proof. intros Hr. by rewrite run_abs, Hr. Qed.

Lemma run_abs_inv {A} (p : prog A) (w : world St) a v :
  run p (abs_world w) = Some (a, v) -> exists w', run p w = Some (a, w') /\ abs_world w' = v.
Proof.
  rewrite run_abs. destruct (run p w) as [[b w']|]; simpl; [|done].
  intros [= -> <-]. eauto.
Qed.
End abstraction.
