(* ===== verification/Wq.v ===== *)
(** * The operations of the work queue (crate [wq], [WorkQueue])

    One program per method of [WorkQueue] in [wq/src/lib.rs], command by command.  The connection
    pool's [get] is part of the server: its failure is the [Transport] error of the first command.
    Logging is left out.

    Loops take fuel: [claim_loop] and [wait_loop] go round once per expired job and once per
    message received. *)

From S2P Require Import Prelude Ord RustStd Redis WqCore WqProg.

Section operations.
Context `{JobIds} {P R : Type} `{!Codecs P R}.
Implicit Types (q : WorkQueue P R) (j : JobId) (worker_id : str).

(** The reply of a command as a type that reads texts: [FromRedisValue] of [Claim] and
    [JobResult]. *)
(* src: wq/src/claim.rs:64-75 Claim::from_redis_value *)
Definition claim_from_redis_value (s : str) : result WorkQueueError Claim :=
  ok_or (claim_from_str s) (RedisError Conversion).

(* src: wq/src/result.rs:24-35 JobResult::from_redis_value *)
Definition result_from_redis_value (s : str) : result WorkQueueError (JobResult R) :=
  ok_or (result_from_str s) (RedisError Conversion).

(* src: wq/src/lib.rs:234-246 JobId::from_redis_value *)
Definition id_from_redis_value (s : str) : result WorkQueueError JobId :=
  ok_or (id_parse s) (RedisError Conversion).

Definition read_optional {A} (f : str -> result WorkQueueError A) (o : option str) :
    result WorkQueueError (option A) :=
  match o with None => Ok None | Some s => a ← f s; Ok (Some a) end.

(** ** Enqueuing and cancelling *)

(* src: wq/src/lib.rs:837-886 WorkQueue::enqueue_job_in *)
Definition enqueue_job_in q (partition : option str) (params : P) (priority : Priority)
    (deadline_in : Z) : qm JobId :=
  partition ← qlift (normalize (pending q) partition);
  let key := pending_key q partition in
  j ← qev NewUuid;
  t1 ← qev UtcNow;
  t2 ← qev UtcNow;
  let desc := {| desc_params := params; submitted_at := t1; deadline := (t2 + deadline_in)%Z;
                 desc_partition := partition |} in
  desc_str ← qlift (ok_or (desc_to_string desc) Serialization);
  _ ← pipe ([Any (SET (get_job_key q j) desc_str)] ++
            match partition with
            | Some p => [Any (SADD (partitions_key (pending q)) p)]
            | None => []
            end ++
            [Any (ZADD key (id_to_string j) (priority_code priority));
             Any (PUBLISH key (lit "0"))]);
  mret j.

(* src: wq/src/lib.rs:824-835 WorkQueue::enqueue_job *)
Definition enqueue_job q (params : P) (priority : Priority) (deadline_in : Z) : qm JobId :=
  enqueue_job_in q None params priority deadline_in.

(* src: wq/src/lib.rs:888-912 WorkQueue::cancel_job *)
Definition cancel_job q j : qm unit :=
  stored ← call (GET (get_job_key q j));
  let partition := (s ← stored; partition_from_str s) ≫= (fun p => p) in
  pipe [Any (ZREM (pending_key q partition) (id_to_string j));
        Any (DEL (get_job_key q j));
        Any (HDEL (claims_key q) (id_to_string j))].

(** ** Claiming *)

(** [Duration::checked_sub]: durations aren't negative. *)
Definition checked_sub (a b : Z) : option Z := if (b <=? a)%Z then Some (a - b)%Z else None.

(** The loop of [claim_job_in]: [start] is when it began, [remaining_time] what is left. *)
(* src: wq/src/lib.rs:780-812 WorkQueue::claim_job_in *)
Fixpoint claim_loop (fuel : nat) q (key : str) (start remaining_time : Z) :
    qm (option (JobId * Priority * P)) :=
  match fuel with
  | O => Spin
  | S fuel =>
      popped ← call (ZPOPMIN key);
      match popped with
      | Some (member, score) =>
          j ← qlift (id_from_redis_value member);
          priority ← qlift (map_err RedisError (priority_from_redis_value score));
          params_str ← get_text (get_job_key q j);
          desc ← qlift (ok_or (desc_from_str params_str) Serialization);
          t ← qev UtcNow;
          if (deadline desc <? t)%Z then
            _ ← cancel_job q j;
            claim_loop fuel q key start remaining_time
          else mret (Some (j, priority, desc_params desc))
      | None =>
          r ← qev (Recv remaining_time);
          match r with
          | TimedOut => mret None
          | _ =>
              t ← qev InstantNow;
              match checked_sub remaining_time (t - start) with
              | None => mret None
              | Some remaining_time => claim_loop fuel q key start remaining_time
              end
          end
      end
  end.

(* src: wq/src/lib.rs:755-822 WorkQueue::claim_job_in *)
Definition claim_job_in (fuel : nat) q (partition : option str) worker_id : qm (option (Job P)) :=
  partition ← qlift (normalize (pending q) partition);
  let key := pending_key q partition in
  _ ← qev (Subscribe key);
  start ← qev InstantNow;
  found ← claim_loop fuel q key start (claim_timeout q);
  match found with
  | None => mret None
  | Some (j, priority, params) =>
      t ← qev UtcNow;
      let claim := in_partition (claim_new worker_id j priority t) partition in
      _ ← call (HSET (claims_key q) (id_to_string j) (claim_to_string claim));
      mret (Some {| job_id := j; job_params := params |})
  end.

(* src: wq/src/lib.rs:749-753 WorkQueue::claim_job *)
Definition claim_job (fuel : nat) q worker_id : qm (option (Job P)) :=
  claim_job_in fuel q None worker_id.

(* src: wq/src/lib.rs:440-458 WorkQueue::reclaim_job *)
Definition reclaim_job q j worker_id : qm unit :=
  stored ← call (HGET (claims_key q) (id_to_string j));
  current ← qlift (read_optional claim_from_redis_value stored);
  match current with
  | None => qerr JobCancelled
  | Some current_claim =>
      t ← qev UtcNow;
      refreshed ← qlift (refresh current_claim worker_id t);
      call (HSET (claims_key q) (id_to_string j) (claim_to_string refreshed))
  end.

(** ** Resolving *)

(* src: wq/src/lib.rs:460-551 WorkQueue::resolve_job *)
Definition resolve_job q worker_id j (status : JobStatus) (res : option R) : qm unit :=
  if negb (is_resolved status) then
    qerr (InvalidJobStatus (lit "Trying to report a status that doesn't resolve the job"))
  else
    stored ← call (HGET (claims_key q) (id_to_string j));
    current ← qlift (read_optional claim_from_redis_value stored);
    match current with
    | None => qerr JobCancelled
    | Some current_claim =>
        if negb (str_eqb (claim_worker_id current_claim) worker_id) then qerr WorkerMismatch
        else
          let job_result := {| res_status := status; res_result := res |} in
          params_str ← get_text (get_job_key q j);
          desc ← qlift (ok_or (desc_from_str params_str) Serialization);
          let job_key := get_job_key q j in
          let result_key := get_result_key q j in
          _ ← call (HDEL (claims_key q) (id_to_string j));
          let '(should_cleanup, final_status) :=
            match result_callback q with
            | None => (false, status)
            | Some callback =>
                match callback desc job_result with
                | Ok processed => (processed, status)
                | Err _ => (true, InternalError)
                end
            end in
          let final_result := {| res_status := final_status;
                                 res_result := res_result job_result |} in
          _ ← pipe [Any (SET result_key (result_to_string final_result));
                    Any (SETEX (get_resolved_key q j) (Z_to_str (status_code final_status))
                           RESOLVED_TTL_SECS);
                    Any (INCR (get_stats_key q (default [] (as_stat_name final_status))) 1);
                    Any (PUBLISH result_key (Z_to_str (status_code final_status)))];
          if should_cleanup : bool then pipe [Any (DEL job_key); Any (DEL result_key)]
          else mret tt
    end.

(* src: wq/src/lib.rs:734-747 WorkQueue::delete_job_result *)
Definition delete_job_result q j : qm unit :=
  pipe [Any (DEL (get_result_key q j)); Any (DEL (get_job_key q j))].

(* src: wq/src/lib.rs:725-732 WorkQueue::get_job_result *)
Definition get_job_result q j : qm (option R) :=
  result_str ← get_text (get_result_key q j);
  r ← qlift (ok_or (result_from_str result_str) Serialization);
  mret (res_result r).

(** ** Status *)

(** The three replies come from one pipeline: the first error among them is the error. *)
Definition pipe3 {A B C} (a : rcmd A) (b : rcmd B) (c : rcmd C) : qm (A * B * C) :=
  Vis (Redis a) (fun ra => Vis (Redis b) (fun rb => Vis (Redis c) (fun rc =>
    qlift (map_err RedisError (x ← ra; y ← rb; z ← rc; Ok (x, y, z)))))).

(* src: wq/src/lib.rs:553-581 WorkQueue::get_job_status *)
Definition get_job_status q j : qm (option JobStatus) :=
  '(is_resolved, is_claimed, is_queued) ←
    pipe3 (EXISTS (get_result_key q j)) (HEXISTS (claims_key q) (id_to_string j))
          (EXISTS (get_job_key q j));
  found ← (if is_resolved : bool then
             stored ← call (GET (get_result_key q j));
             qlift (read_optional result_from_redis_value stored)
           else mret None);
  match found with
  | Some job_result => mret (Some (res_status job_result))
  | None =>
      if is_claimed : bool then mret (Some Running)
      else if is_queued : bool then mret (Some Pending)
      else mret None
  end.

(* src: wq/src/lib.rs:583-598 WorkQueue::get_resolved_status *)
Definition get_resolved_status q j : qm (option JobStatus) :=
  stored ← call (GET (get_resolved_key q j));
  match stored with
  | None => mret None
  | Some s =>
      code ← qlift (ok_or (parse_u8 s) (RedisError Conversion));
      status ← qlift (status_try_from code);
      mret (Some status)
  end.

(** The loop of [wait_for_job]: it ends with the status of the first message on the channel, or
    with [None] when the time is up.  [inr] is a return from inside the loop, after which there
    may be nothing left to unsubscribe from. *)
(* src: wq/src/lib.rs:661-714 WorkQueue::wait_for_job *)
Fixpoint wait_loop (fuel : nat) (channel_name : str) (start remaining_time : Z) :
    qm (Z + option JobStatus) :=
  match fuel with
  | O => Spin
  | S fuel =>
      r ← qev (Recv remaining_time);
      match r with
      | TimedOut => mret (inr None)
      | RecvError => qerr (Other (lit "channel"))
      | Received m =>
          t ← qev InstantNow;
          match checked_sub remaining_time (t - start) with
          | None => mret (inr None)
          | Some remaining_time =>
              let continue := wait_loop fuel channel_name start remaining_time in
              match kind m, push_data m with
              | KindMessage, BulkString (Some recv_channel) :: data =>
                  if negb (str_eqb recv_channel channel_name) then continue
                  else
                    match data with
                    | BulkString raw_status :: _ =>
                        match raw_status ≫= parse_u8 with
                        | Some status => mret (inl status)
                        | None =>
                            _ ← qev (Unsubscribe channel_name);
                            mret (inr (Some InternalError))
                        end
                    | _ => continue
                    end
              | _, _ => continue
              end
          end
      end
  end.

(* src: wq/src/lib.rs:600-723 WorkQueue::wait_for_job *)
Definition wait_for_job (fuel : nat) q j (timeout : option Z) : qm (option JobStatus) :=
  job_status ← get_job_status q j;
  match job_status with
  | None =>
      resolved ← get_resolved_status q j;
      match resolved with
      | Some status => mret (Some status)
      | None => qerr JobNotFound
      end
  | Some _ =>
      let remaining_time := default (seconds (3600 * 24)) timeout in
      start ← qev InstantNow;
      let channel_name := get_result_key q j in
      _ ← qev (Subscribe channel_name);
      stored ← call (GET (get_result_key q j));
      job_result ← qlift (read_optional result_from_redis_value stored);
      match job_result with
      | Some result => _ ← qev (Unsubscribe channel_name); mret (Some (res_status result))
      | None =>
          resolved ← get_resolved_status q j;
          match resolved with
          | Some status => _ ← qev (Unsubscribe channel_name); mret (Some status)
          | None =>
              ended ← wait_loop fuel channel_name start remaining_time;
              match ended with
              | inr ret => mret ret
              | inl status =>
                  _ ← qev (Unsubscribe channel_name);
                  status ← qlift (status_try_from status);
                  mret (Some status)
              end
          end
      end
  end.

(** ** Expired claims *)

(** [signed_duration_since(..).abs() > reclaim_timeout] *)
(* src: wq/src/lib.rs:331-336 WorkQueue::reclaim_checker_inner *)
Definition claim_expired (timeout t : Z) (c : Claim) : bool :=
  (timeout <? Z.abs (t - claim_time c))%Z.

(** What is done about one expired claim.  An error is logged and doesn't stop the loop. *)
(* src: wq/src/lib.rs:338-362 WorkQueue::reclaim_checker_inner *)
Definition reinsert q (c : Claim) : prog unit :=
  let key := pending_key q (claim_partition c) in
  let job_claim_key := claims_key q ++ lit ":" ++ id_to_string (claim_job_id c) in
  prog_bind (fun _ => Ret tt)
    (pipe [Any (ZADD key (id_to_string (claim_job_id c)) (priority_code (claim_priority c)));
           Any (DEL job_claim_key);
           Any (HDEL (claims_key q) (id_to_string (claim_job_id c)));
           Any (PUBLISH key (lit "0"))]).

(* src: wq/src/lib.rs:328-364 WorkQueue::reclaim_checker_inner *)
Fixpoint reinsert_expired q (t : Z) (claims : list Claim) : prog unit :=
  match claims with
  | [] => Ret tt
  | c :: claims =>
      if claim_expired (reclaim_timeout q) t c then
        prog_bind (fun _ => reinsert_expired q t claims) (reinsert q c)
      else reinsert_expired q t claims
  end.

(** One round of the reclaim checker, after its sleep. *)
(* src: wq/src/lib.rs:301-366 WorkQueue::reclaim_checker_inner *)
Definition reclaim_checker_round q : prog unit :=
  Vis (Redis (HGETALL (claims_key q))) (fun r =>
    match r with
    | Err _ => Ret tt
    | Ok entries =>
        match mapM (fun e => claim_from_str e.2) entries with
        | None => Ret tt
        | Some [] => Ret tt
        | Some queue_claims => Vis UtcNow (fun t => reinsert_expired q t queue_claims)
        end
    end).

(** ** Results left by a process that stopped *)

(** The job that a result's key names: what follows its last colon. *)
(* src: wq/src/lib.rs:386-393 WorkQueue::process_orphaned_job_results *)
Definition result_key_job (result_key : str) : option JobId :=
  last (split_on 58 result_key) ≫= id_parse.

(** The callbacks run in tasks of their own; here each runs where it is spawned.  A task's
    error ends that task only. *)
(* src: wq/src/lib.rs:415-433 WorkQueue::process_orphaned_job_results *)
Definition orphan_task (callback : ResolveCallback P R) (desc : JobDesc P)
    (job_result : JobResult R) (job_key result_key : str) : qm unit :=
  match callback desc job_result with
  | Err e => qerr e
  | Ok false => mret tt
  | Ok true =>
      _ ← call (DEL job_key);
      call (DEL result_key)
  end.

(* src: wq/src/lib.rs:385-434 WorkQueue::process_orphaned_job_results *)
Definition process_orphan q (result_key : str) : qm unit :=
  match result_key_job result_key with
  | None => mret tt
  | Some j =>
      match result_callback q with
      | None => delete_job_result q j
      | Some callback =>
          stored ← call (GET (get_job_key q j));
          match stored with
          | None => delete_job_result q j
          | Some params_str =>
              desc ← qlift (ok_or (desc_from_str params_str) Serialization);
              result_str ← get_text result_key;
              job_result ← qlift (result_from_redis_value result_str);
              prog_bind (fun _ => Ret (Ok tt))
                (orphan_task callback desc job_result (get_job_key q j) result_key)
          end
      end
  end.

(* src: wq/src/lib.rs:385-437 WorkQueue::process_orphaned_job_results *)
Fixpoint process_orphans q (result_keys : list str) : qm unit :=
  match result_keys with
  | [] => mret tt
  | k :: result_keys => _ ← process_orphan q k; process_orphans q result_keys
  end.

(* src: wq/src/lib.rs:379-438 WorkQueue::process_orphaned_job_results *)
Definition process_orphaned_job_results q : qm unit :=
  result_keys ← call (KEYS_STAR (results_key q ++ lit ":"));
  process_orphans q result_keys.

(** ** Statistics *)

(* src: wq/src/lib.rs:917-920 WorkQueue::get_stats *)
Definition get_counter (k : str) : qm Z :=
  stored ← call (GET k);
  match stored with
  | None => mret 0%Z
  | Some s => qlift (ok_or (parse_u64 s) (RedisError Conversion))
  end.

(* src: wq/src/lib.rs:937-945 WorkQueue::get_stats *)
Fixpoint count_partitions q (partitions : list str) (jobs_scheduled : Z) : qm Z :=
  match partitions with
  | [] => mret jobs_scheduled
  | p :: partitions =>
      n ← call (ZCOUNT (pending_key q (Some p)) (priority_code High) (priority_code Low));
      count_partitions q partitions (jobs_scheduled + Z.of_N n)%Z
  end.

(* src: wq/src/lib.rs:914-955 WorkQueue::get_stats *)
Definition get_stats q : qm QueueStats :=
  failed ← get_counter (get_stats_key q (lit "failed"));
  succeeded ← get_counter (get_stats_key q (lit "succeeded"));
  errored ← get_counter (get_stats_key q (lit "errored"));
  partitions ← call (SMEMBERS (partitions_key (pending q)));
  in_default ← call (ZCOUNT (queue_key q) (priority_code High) (priority_code Low));
  scheduled ← count_partitions q partitions (Z.of_N in_default);
  claimed ← call (HLEN (claims_key q));
  mret {| jobs_failed := failed; jobs_succeeded := succeeded; jobs_errored := errored;
          jobs_scheduled := scheduled; jobs_claimed := Z.of_N claimed |}.
End operations.
