(* ===== verification/WqRoutes.v ===== *)
(** * The HTTP routes of the work queue

    [wq/src/rocket_routes.rs]: how a worker authenticates, the three routes that a declared queue
    has, and the answers that its errors become.  Rocket reads the body of a request into the
    forms below before a handler runs. *)

From S2P Require Import Prelude Ord RustStd Redis WqCore WqProg Wq.

(** ** Answers *)

(** Status codes of HTTP. *)
Definition BadRequest : N := 400.
Definition Unauthorized : N := 401.
Definition Forbidden : N := 403.
Definition NotFound : N := 404.
Definition Gone : N := 410.
Definition InternalServerError : N := 500.

(** A status and the text of the error. *)
(* src: wq/src/rocket_routes.rs:11-18 QueueApiError *)
Record QueueApiError : Type := { status : N; message : str }.

Section routes.
Context `{JobIds} {P R : Type} `{!Codecs P R}.

(** [{:?}] of a text, and the texts of the errors that come from other crates. *)
Context (debug : str -> str) (redis_text : rerror -> str) (pool_text serialization_text : str).

(* src: wq/src/lib.rs:21-43 WorkQueueError *)
Definition WorkQueueError_to_string (e : WorkQueueError) : str :=
  match e with
  | JobCancelled => lit "Job has been cancelled"
  | JobNotFound => lit "Job not found"
  | JobAlreadyClaimed => lit "Job already claimed by another worker"
  | WorkerMismatch => lit "Worker does not own this job"
  | InvalidJobStatus msg => lit "Invalid job status: " ++ msg
  | InvalidPartition name => lit "Invalid partition name: " ++ debug name
  | RedisError e => lit "Redis error: " ++ redis_text e
  | PoolError => lit "Pool error: " ++ pool_text
  | Serialization => lit "Serialization error: " ++ serialization_text
  | Other msg => lit "Other error: " ++ msg
  end.

(* src: wq/src/rocket_routes.rs:32-50 QueueApiError::from *)
Definition from_queue_error (err : WorkQueueError) : QueueApiError :=
  match err with
  | JobCancelled => {| status := Gone; message := lit "Job has been cancelled" |}
  | JobNotFound => {| status := NotFound; message := lit "Job not found" |}
  | WorkerMismatch => {| status := Forbidden; message := lit "Worker does not own this job" |}
  | InvalidJobStatus msg =>
      {| status := BadRequest; message := lit "Invalid job status: " ++ msg |}
  | InvalidPartition partition =>
      {| status := BadRequest; message := lit "Invalid partition name: " ++ debug partition |}
  | e => {| status := InternalServerError; message := WorkQueueError_to_string e |}
  end.

(** The status and the body of the response. *)
(* src: wq/src/rocket_routes.rs:52-60 QueueApiError::respond_to *)
Definition respond_to (e : QueueApiError) : N * str := (status e, message e).

(** ** Requests *)

(* src: wq/src/rocket_routes.rs:67-72 ClaimJobForm *)
Record ClaimJobForm : Type := { c_worker_id : str; c_partition : option str }.

(* src: wq/src/rocket_routes.rs:74-80 ReclaimJobForm *)
Record ReclaimJobForm : Type := {
  rc_worker_id : str; rc_job_id : JobId; rc_partition : option str
}.

(* src: wq/src/rocket_routes.rs:82-90 ResolveJobForm *)
Record ResolveJobForm : Type := {
  rs_worker_id : str; rs_job_id : JobId; rs_status : JobStatus; rs_result : option R;
  rs_partition : option str
}.

(** [tokens] is the state that the server manages, if it does; [current_token] is the first
    [X-Worker-Auth] header. *)
(* src: wq/src/rocket_routes.rs:107-144 QueueAuth::from_request *)
Definition from_request (mod_name : str) (tokens : option (gmap str str))
    (current_token : option str) : result QueueApiError unit :=
  match tokens with
  | None => Err {| status := InternalServerError;
                   message := lit "Internal error during authentication" |}
  | Some queue_auth =>
      match queue_auth !! mod_name with
      | None =>
          Err {| status := InternalServerError;
                 message := lit "Internal error during authentication. That queue wasn't declared properly." |}
      | Some expected_token =>
          if bool_decide (current_token = Some expected_token) then Ok tt
          else Err {| status := Unauthorized;
                      message := lit "Invalid token passed as `X-Worker-Auth` or header missing" |}
      end
  end.

(** ** Handlers *)

(** A handler is a program that answers with a value or an error. *)
Definition route (A : Type) : Type := prog (result QueueApiError A).

#[export] Instance route_ret : MRet route := fun A a => Ret (Ok a).
#[export] Instance route_bind : MBind route := fun A B f m =>
  prog_bind (fun r => match r with Ok a => f a | Err e => Ret (Err e) end) m.

Definition checked {A} (r : result QueueApiError A) : route A := Ret r.

(** [op.await.map_err(QueueApiError::from)?] *)
Definition answered {A} (m : qm A) : route A :=
  prog_bind (fun r => Ret (map_err from_queue_error r)) m.

(* src: wq/src/rocket_routes.rs:146-157 claim_job *)
Definition claim_job_route (fuel : nat) (auth : result QueueApiError unit) (queue : WorkQueue P R)
    (data : ClaimJobForm) : route (option (Job P)) :=
  _ ← checked auth;
  _ ← match c_partition data with
      | Some partition => checked (map_err from_queue_error (validate_partition partition))
      | None => mret tt
      end;
  answered (claim_job_in fuel queue (c_partition data) (c_worker_id data)).

(* src: wq/src/rocket_routes.rs:159-168 reclaim_job *)
Definition reclaim_job_route (auth : result QueueApiError unit) (queue : WorkQueue P R)
    (data : ReclaimJobForm) : route unit :=
  _ ← checked auth;
  _ ← answered (reclaim_job queue (rc_job_id data) (rc_worker_id data));
  mret tt.

(* src: wq/src/rocket_routes.rs:170-179 resolve_job *)
Definition resolve_job_route (auth : result QueueApiError unit) (queue : WorkQueue P R)
    (data : ResolveJobForm) : route unit :=
  _ ← checked auth;
  _ ← answered (resolve_job queue (rs_worker_id data) (rs_job_id data) (rs_status data)
                  (rs_result data));
  mret tt.

(** The routes of a queue, under the path that it is mounted at. *)
(* src: wq/src/rocket_routes.rs:181-202 routes *)
Definition route_paths (mod_names : list str) : list str :=
  mod_names ≫= fun mod_name =>
    (fun base => lit "/" ++ mod_name ++ base) <$>
      [lit "/claim_job"; lit "/reclaim_job"; lit "/resolve_job"].
End routes.
