(* ===== verification/WqSpec.v ===== *)
(** * The abstract work queue, and how the server's keyspace represents it

    [qstate] is the queue as its users think of it: what is pending in each partition, the
    claims, and the description, result, last status and counters by name.  [rep q s a] says that
    the keyspace [s] represents [a] for the queue [q].  One lemma per kind of command and key
    says what the command does to the abstract queue; the tactic [doc_steps] chains them through
    a program. *)

From S2P Require Import Prelude Ord RustStd Redis WqCore WqProg Wq.

#[global] Arguments pending_key : simpl never.
#[global] Arguments get_job_key : simpl never.
#[global] Arguments get_result_key : simpl never.
#[global] Arguments get_resolved_key : simpl never.
#[global] Arguments get_stats_key : simpl never.
#[global] Arguments pipe : simpl never.

(** A function updated at a point. *)
Definition fn_set {A B} `{EqDecision A} (f : A -> B) (x : A) (v : B) : A -> B :=
  fun y => if decide (y = x) then v else f y.

Lemma fn_set_eq {A B} `{EqDecision A} (f : A -> B) x v : fn_set f x v x = v.
Proof. unfold fn_set. by case_decide. Qed.
Lemma fn_set_ne {A B} `{EqDecision A} (f : A -> B) x y v : y <> x -> fn_set f x v y = f y.
Proof. intros. unfold fn_set. by case_decide. Qed.

Record qstate `{JobIds} := QState {
  q_pending : option str -> gmap str Z;
  q_partitions : gset str;
  q_claims : gmap str str;
  q_desc : JobId -> option str;
  q_result : JobId -> option str;
  q_resolved : JobId -> option str;
  q_stat : str -> option str;
  q_published : list (str * str);
}.

Section updates.
Context `{JobIds}.
Implicit Types (a : qstate) (j : JobId).

Definition set_pending a p z :=
  QState _ (fn_set (q_pending a) p z) (q_partitions a) (q_claims a) (q_desc a) (q_result a)
    (q_resolved a) (q_stat a) (q_published a).
Definition set_partitions a ps :=
  QState _ (q_pending a) ps (q_claims a) (q_desc a) (q_result a)
    (q_resolved a) (q_stat a) (q_published a).
Definition set_claims a h :=
  QState _ (q_pending a) (q_partitions a) h (q_desc a) (q_result a)
    (q_resolved a) (q_stat a) (q_published a).
Definition set_desc a j o :=
  QState _ (q_pending a) (q_partitions a) (q_claims a) (fn_set (q_desc a) j o) (q_result a)
    (q_resolved a) (q_stat a) (q_published a).
Definition set_result a j o :=
  QState _ (q_pending a) (q_partitions a) (q_claims a) (q_desc a) (fn_set (q_result a) j o)
    (q_resolved a) (q_stat a) (q_published a).
Definition set_resolved a j o :=
  QState _ (q_pending a) (q_partitions a) (q_claims a) (q_desc a) (q_result a)
    (fn_set (q_resolved a) j o) (q_stat a) (q_published a).
Definition set_stat a n o :=
  QState _ (q_pending a) (q_partitions a) (q_claims a) (q_desc a) (q_result a)
    (q_resolved a) (fn_set (q_stat a) n o) (q_published a).
Definition add_published a ch msg :=
  QState _ (q_pending a) (q_partitions a) (q_claims a) (q_desc a) (q_result a)
    (q_resolved a) (q_stat a) (q_published a ++ [(ch, msg)]).
End updates.

Section representation.
Context `{JobIds} {P R : Type} `{!Codecs P R}.
Implicit Types (q : WorkQueue P R) (a : qstate) (s : rstate) (j : JobId) (k : key) (x y : str).

(** What the keyspace holds at one of the queue's keys. *)
Definition slot_ok q (d : gmap str rvalue) a k : Prop :=
  match k with
  | KPending p => read_zset d (key_text q k) = Ok (q_pending a p)
  | KPartitions => read_set d (key_text q k) = Ok (q_partitions a)
  | KClaims => read_hash d (key_text q k) = Ok (q_claims a)
  | KJobClaim _ => True
  | KJob j => read_string d (key_text q k) = Ok (q_desc a j)
  | KResult j => read_string d (key_text q k) = Ok (q_result a j)
  | KResolved j => read_string d (key_text q k) = Ok (q_resolved a j)
  | KStat n => read_string d (key_text q k) = Ok (q_stat a n)
  end.

Definition rep q s a : Prop :=
  built q /\ (forall k, key_ok k -> slot_ok q (data s) a k) /\ published s = q_published a.

(** Two abstract queues that agree on what [k] stands for. *)
Definition agree k a a' : Prop :=
  match k with
  | KPending p => q_pending a p = q_pending a' p
  | KPartitions => q_partitions a = q_partitions a'
  | KClaims => q_claims a = q_claims a'
  | KJobClaim _ => True
  | KJob j => q_desc a j = q_desc a' j
  | KResult j => q_result a j = q_result a' j
  | KResolved j => q_resolved a j = q_resolved a' j
  | KStat n => q_stat a n = q_stat a' n
  end.

(** A command that changes the keyspace at one key changes the abstract queue there only. *)
Lemma rep_update q s a a' k0 (d' : gmap str rvalue) :
  rep q s a -> key_ok k0 ->
  (forall x, x <> key_text q k0 -> d' !! x = data s !! x) ->
  slot_ok q d' a' k0 ->
  (forall k, k <> k0 -> agree k a a') ->
  q_published a' = q_published a ->
  rep q (RState d' (published s)) a'.
Proof.
  intros (Hb & Hslots & Hpub) Hk0 Hother Hslot Hagree Hpub'.
  split_and!; [done| |simpl; congruence].
  intros k Hk. destruct (decide (key_text q k = key_text q k0)) as [Heq|Hne].
  - apply key_text_inj in Heq; [by subst|done..].
  - specialize (Hslots k Hk). specialize (Hother _ Hne).
    assert (k <> k0) as Hkk by congruence. specialize (Hagree k Hkk).
    unfold slot_ok, read_zset, read_set, read_hash, read_string in *.
    destruct k; try exact I; simpl in *; rewrite Hother, <- Hagree; done.
Qed.

Lemma rep_slot q s a k : rep q s a -> key_ok k -> slot_ok q (data s) a k.
Proof. intros (_ & Hslots & _). auto. Qed.

Lemma read_write_zset (d : gmap str rvalue) x (z : gmap str Z) : read_zset (write_zset d x z) x = Ok z.
Proof.
  unfold write_zset, read_zset. case_decide; subst; by simplify_map_eq.
Qed.
Lemma read_write_hash (d : gmap str rvalue) x (h : gmap str str) : read_hash (write_hash d x h) x = Ok h.
Proof.
  unfold write_hash, read_hash. case_decide; subst; by simplify_map_eq.
Qed.
Lemma write_zset_ne (d : gmap str rvalue) x y z : y <> x -> write_zset d x z !! y = d !! y.
Proof. intros. unfold write_zset. case_decide; by simplify_map_eq. Qed.
Lemma write_hash_ne (d : gmap str rvalue) x y h : y <> x -> write_hash d x h !! y = d !! y.
Proof. intros. unfold write_hash. case_decide; by simplify_map_eq. Qed.

(** What a command replies, and the abstract queue after it. *)
Definition does q s {A} (c : rcmd A) (r : A) (a' : qstate) : Prop :=
  exists s', redis_doc c s = (Ok r, s') /\ rep q s' a'.

Lemma rep_same_data q s a : rep q s a -> rep q (RState (data s) (published s)) a.
Proof. by destruct s. Qed.
End representation.

(** The frame of [rep_update]: another key of the queue stands for something unchanged. *)
Ltac solve_agree :=
  let k := fresh "k" in let Hne := fresh "Hne" in
  intros k Hne; destruct k; simpl; try reflexivity;
  try (symmetry; apply fn_set_ne; congruence); congruence.

Section commands.
Context `{JobIds} {P R : Type} `{!Codecs P R}.
Implicit Types (q : WorkQueue P R) (a : qstate) (s : rstate) (j : JobId) (k : key) (x y : str).

Lemma does_get_job q s a j :
  rep q s a -> does q s (GET (get_job_key q j)) (q_desc a j) a.
Proof.
  intros Hr. pose proof (rep_slot q s a (KJob j) Hr I) as Hs. simpl in Hs.
  unfold does. simpl. rewrite Hs. simpl. eauto using rep_same_data.
Qed.
Lemma does_get_result q s a j :
  rep q s a -> does q s (GET (get_result_key q j)) (q_result a j) a.
Proof.
  intros Hr. pose proof (rep_slot q s a (KResult j) Hr I) as Hs. simpl in Hs.
  unfold does. simpl. rewrite Hs. simpl. eauto using rep_same_data.
Qed.
Lemma does_get_resolved q s a j :
  rep q s a -> does q s (GET (get_resolved_key q j)) (q_resolved a j) a.
Proof.
  intros Hr. pose proof (rep_slot q s a (KResolved j) Hr I) as Hs. simpl in Hs.
  unfold does. simpl. rewrite Hs. simpl. eauto using rep_same_data.
Qed.
Lemma does_get_stat q s a n :
  rep q s a -> does q s (GET (get_stats_key q n)) (q_stat a n) a.
Proof.
  intros Hr. pose proof (rep_slot q s a (KStat n) Hr I) as Hs. simpl in Hs.
  unfold does. simpl. rewrite Hs. simpl. eauto using rep_same_data.
Qed.

Lemma read_string_exists (d : gmap str rvalue) x o :
  read_string d x = Ok o -> bool_decide (is_Some (d !! x)) = bool_decide (is_Some o).
Proof.
  unfold read_string. intros Hr. apply bool_decide_ext.
  destruct (d !! x) as [[]|]; simplify_eq; split; intros [? ?]; eauto; done.
Qed.

Lemma does_exists_job q s a j :
  rep q s a -> does q s (EXISTS (get_job_key q j)) (bool_decide (is_Some (q_desc a j))) a.
Proof.
  intros Hr. pose proof (rep_slot q s a (KJob j) Hr I) as Hs.
  unfold does. simpl in *. rewrite (read_string_exists _ _ _ Hs). eauto.
Qed.
Lemma does_exists_result q s a j :
  rep q s a -> does q s (EXISTS (get_result_key q j)) (bool_decide (is_Some (q_result a j))) a.
Proof.
  intros Hr. pose proof (rep_slot q s a (KResult j) Hr I) as Hs.
  unfold does. simpl in *. rewrite (read_string_exists _ _ _ Hs). eauto.
Qed.

(** Writing a text at one of the keys that hold texts. *)
Lemma rep_write_string q s a a' k (o : option rvalue) :
  rep q s a -> key_ok k ->
  slot_ok q (partial_alter (fun _ => o) (key_text q k) (data s)) a' k ->
  (forall k', k' <> k -> agree k' a a') -> q_published a' = q_published a ->
  rep q (RState (partial_alter (fun _ => o) (key_text q k) (data s)) (published s)) a'.
Proof.
  intros Hr Hk Hs Ha Hp. eapply rep_update; [done|done| |done|done|done].
  intros x Hx. by apply lookup_partial_alter_ne.
Qed.

Lemma does_set_job q s a j v :
  rep q s a -> does q s (SET (get_job_key q j) v) tt (set_desc a j (Some v)).
Proof.
  intros Hr. unfold does. simpl. eexists. split; [done|].
  apply (rep_write_string q s a _ (KJob j) (Some (RString v None))); [done|done| |solve_agree|done].
  simpl. unfold read_string. by rewrite lookup_partial_alter_eq, fn_set_eq.
Qed.
Lemma does_set_result q s a j v :
  rep q s a -> does q s (SET (get_result_key q j) v) tt (set_result a j (Some v)).
Proof.
  intros Hr. unfold does. simpl. eexists. split; [done|].
  apply (rep_write_string q s a _ (KResult j) (Some (RString v None))); [done|done| |solve_agree|done].
  simpl. unfold read_string. by rewrite lookup_partial_alter_eq, fn_set_eq.
Qed.
Lemma does_setex_resolved q s a j v ttl :
  rep q s a -> does q s (SETEX (get_resolved_key q j) v ttl) tt (set_resolved a j (Some v)).
Proof.
  intros Hr. unfold does. simpl. eexists. split; [done|].
  apply (rep_write_string q s a _ (KResolved j) (Some (RString v (Some ttl)))); [done|done| |solve_agree|done].
  simpl. unfold read_string. by rewrite lookup_partial_alter_eq, fn_set_eq.
Qed.
Lemma does_del_job q s a j :
  rep q s a -> does q s (DEL (get_job_key q j)) tt (set_desc a j None).
Proof.
  intros Hr. unfold does. simpl. eexists. split; [done|].
  apply (rep_write_string q s a _ (KJob j) None); [done|done| |solve_agree|done].
  simpl. unfold read_string. by rewrite lookup_partial_alter_eq, fn_set_eq.
Qed.
Lemma does_del_result q s a j :
  rep q s a -> does q s (DEL (get_result_key q j)) tt (set_result a j None).
Proof.
  intros Hr. unfold does. simpl. eexists. split; [done|].
  apply (rep_write_string q s a _ (KResult j) None); [done|done| |solve_agree|done].
  simpl. unfold read_string. by rewrite lookup_partial_alter_eq, fn_set_eq.
Qed.
Lemma does_del_job_claim q s a j :
  rep q s a -> does q s (DEL (claims_key q ++ lit ":" ++ id_to_string j)) tt a.
Proof.
  intros Hr. unfold does. simpl. eexists. split; [done|].
  apply (rep_write_string q s a _ (KJobClaim j) None); [done..|by intros []|done].
Qed.
Lemma does_incr_stat q s a n z :
  rep q s a -> parse_i64 (default (lit "0") (q_stat a n)) = Some z -> in_i64 (z + 1) = true ->
  does q s (INCR (get_stats_key q n) 1) tt (set_stat a n (Some (Z_to_str (z + 1)))).
Proof.
  intros Hr Hz Hrange. pose proof (rep_slot q s a (KStat n) Hr I) as Hs. simpl in Hs.
  unfold does. simpl. rewrite Hs, Hz, Hrange. eexists. split; [done|].
  apply (rep_write_string q s a _ (KStat n) (Some (RString (Z_to_str (z + 1)) None)));
    [done|done| |solve_agree|done].
  simpl. unfold read_string. by rewrite lookup_partial_alter_eq, fn_set_eq.
Qed.

Lemma does_hget q s a f :
  rep q s a -> does q s (HGET (claims_key q) f) (q_claims a !! f) a.
Proof.
  intros Hr. pose proof (rep_slot q s a KClaims Hr I) as Hs. simpl in Hs.
  unfold does. simpl. rewrite Hs. simpl. eauto using rep_same_data.
Qed.
Lemma does_hexists q s a f :
  rep q s a -> does q s (HEXISTS (claims_key q) f) (bool_decide (is_Some (q_claims a !! f))) a.
Proof.
  intros Hr. pose proof (rep_slot q s a KClaims Hr I) as Hs. simpl in Hs.
  unfold does. simpl. rewrite Hs. simpl. eauto using rep_same_data.
Qed.
Lemma does_hgetall q s a :
  rep q s a -> does q s (HGETALL (claims_key q)) (map_to_list (q_claims a)) a.
Proof.
  intros Hr. pose proof (rep_slot q s a KClaims Hr I) as Hs. simpl in Hs.
  unfold does. simpl. rewrite Hs. simpl. eauto using rep_same_data.
Qed.
Lemma does_hlen q s a :
  rep q s a -> does q s (HLEN (claims_key q)) (N.of_nat (size (q_claims a))) a.
Proof.
  intros Hr. pose proof (rep_slot q s a KClaims Hr I) as Hs. simpl in Hs.
  unfold does. simpl. rewrite Hs. simpl. eauto using rep_same_data.
Qed.

Lemma rep_write_claims q s a h :
  rep q s a -> rep q (RState (write_hash (data s) (claims_key q) h) (published s)) (set_claims a h).
Proof.
  intros Hr. apply (rep_update q s a _ KClaims); [done|done| | |solve_agree|done].
  - intros x Hx. by apply write_hash_ne.
  - simpl. apply read_write_hash.
Qed.
Lemma does_hset q s a f v :
  rep q s a -> does q s (HSET (claims_key q) f v) tt (set_claims a (<[f := v]> (q_claims a))).
Proof.
  intros Hr. pose proof (rep_slot q s a KClaims Hr I) as Hs. simpl in Hs.
  unfold does. simpl. rewrite Hs. simpl. eauto using rep_write_claims.
Qed.
Lemma does_hdel q s a f :
  rep q s a -> does q s (HDEL (claims_key q) f) tt (set_claims a (delete f (q_claims a))).
Proof.
  intros Hr. pose proof (rep_slot q s a KClaims Hr I) as Hs. simpl in Hs.
  unfold does. simpl. rewrite Hs. simpl. eauto using rep_write_claims.
Qed.

Lemma rep_write_pending q s a p z :
  rep q s a -> partition_ok p ->
  rep q (RState (write_zset (data s) (pending_key q p) z) (published s)) (set_pending a p z).
Proof.
  intros Hr Hp. apply (rep_update q s a _ (KPending p)); [done|done| | |solve_agree|done].
  - intros x Hx. by apply write_zset_ne.
  - simpl. rewrite fn_set_eq. apply read_write_zset.
Qed.
Lemma does_zadd q s a p m sc :
  rep q s a -> partition_ok p ->
  does q s (ZADD (pending_key q p) m sc) tt (set_pending a p (<[m := sc]> (q_pending a p))).
Proof.
  intros Hr Hp. pose proof (rep_slot q s a (KPending p) Hr Hp) as Hs. simpl in Hs.
  unfold does. simpl. rewrite Hs. simpl. eauto using rep_write_pending.
Qed.
Lemma does_zrem q s a p m :
  rep q s a -> partition_ok p ->
  does q s (ZREM (pending_key q p) m) tt (set_pending a p (delete m (q_pending a p))).
Proof.
  intros Hr Hp. pose proof (rep_slot q s a (KPending p) Hr Hp) as Hs. simpl in Hs.
  unfold does. simpl. rewrite Hs. simpl. eauto using rep_write_pending.
Qed.
Lemma does_zpopmin_none q s a p :
  rep q s a -> partition_ok p -> q_pending a p = ∅ ->
  does q s (ZPOPMIN (pending_key q p)) None a.
Proof.
  intros Hr Hp He. pose proof (rep_slot q s a (KPending p) Hr Hp) as Hs. simpl in Hs.
  unfold does. simpl. rewrite Hs. simpl. rewrite He, map_to_list_empty. simpl.
  eauto using rep_same_data.
Qed.
Lemma does_zpopmin_some q s a p m sc :
  rep q s a -> partition_ok p -> zset_min (map_to_list (q_pending a p)) = Some (m, sc) ->
  does q s (ZPOPMIN (pending_key q p)) (Some (m, sc))
    (set_pending a p (delete m (q_pending a p))).
Proof.
  intros Hr Hp He. pose proof (rep_slot q s a (KPending p) Hr Hp) as Hs. simpl in Hs.
  unfold does. simpl. rewrite Hs. simpl. rewrite He. simpl. eauto using rep_write_pending.
Qed.
Lemma does_zcount q s a p lo hi :
  rep q s a -> partition_ok p ->
  does q s (ZCOUNT (pending_key q p) lo hi) (zset_count (q_pending a p) lo hi) a.
Proof.
  intros Hr Hp. pose proof (rep_slot q s a (KPending p) Hr Hp) as Hs. simpl in Hs.
  unfold does. simpl. rewrite Hs. simpl. eauto using rep_same_data.
Qed.

Lemma does_sadd q s a m :
  rep q s a ->
  does q s (SADD (partitions_key (pending q)) m) tt (set_partitions a ({[m]} ∪ q_partitions a)).
Proof.
  intros Hr. pose proof (rep_slot q s a KPartitions Hr I) as Hs. simpl in Hs.
  unfold does. simpl. rewrite Hs. simpl. eexists. split; [done|].
  apply (rep_update q s a _ KPartitions); [done|done| | |solve_agree|done].
  - intros x Hx. by apply lookup_insert_ne.
  - simpl. unfold read_set. by rewrite lookup_insert_eq.
Qed.
Lemma does_smembers q s a :
  rep q s a -> does q s (SMEMBERS (partitions_key (pending q))) (elements (q_partitions a)) a.
Proof.
  intros Hr. pose proof (rep_slot q s a KPartitions Hr I) as Hs. simpl in Hs.
  unfold does. simpl. rewrite Hs. simpl. eauto using rep_same_data.
Qed.

Lemma does_publish q s a ch msg :
  rep q s a -> does q s (PUBLISH ch msg) tt (add_published a ch msg).
Proof.
  intros (Hb & Hs & Hp). unfold does. simpl. eexists. split; [done|].
  split_and!; [done|intros k Hk; by specialize (Hs k Hk); destruct k|]. simpl. by rewrite Hp.
Qed.

End commands.

#[export] Hint Resolve
  does_get_job does_get_result does_get_resolved does_get_stat does_exists_job does_exists_result
  does_del_job_claim does_set_job does_set_result does_setex_resolved does_del_job does_del_result does_hget
  does_hexists does_hgetall does_hlen does_hset does_hdel does_zadd does_zrem does_zcount
  does_sadd does_smembers does_publish : wq.

(** ** What a program does to the abstract queue

    [yields q p v r v']: on every server, whenever its keyspace represents the queue of [v], the
    program [p] ends with [r] and leaves a keyspace that represents the queue of [v'].  The clock,
    the supply of identifiers and the messages to come are part of [v]; the list of channels
    listened to is not. *)
#[projections(primitive)] Record aworld `{JobIds} := AWorld {
  aq : qstate;
  a_now : Z;
  a_uuids : nat;
  a_inbox : list (Z * push);
}.

Section yields.
Context `{JobIds} {P R : Type} `{!Codecs P R}.
Implicit Types (q : WorkQueue P R) (v : aworld).

Definition with_q v (a : qstate) : aworld := AWorld _ a (a_now v) (a_uuids v) (a_inbox v).

Lemma with_q_same v : with_q v (aq v) = v.
Proof. by destruct v. Qed.

Lemma with_q_twice v a a' : with_q (with_q v a) a' = with_q v a'.
Proof. reflexivity. Qed.

Definition wrep {St} `{!RedisServer St} q (w : world St) v : Prop :=
  rep q (wview w) (aq v) /\ now w = a_now v /\ uuids w = a_uuids v /\ inbox w = a_inbox v.

Definition yields {A} q (p : prog A) v (r : A) v' : Prop :=
  forall (St : Type) (server : RedisServer St) (w : world St),
    wrep q w v -> exists w', run p w = Some (r, w') /\ wrep q w' v'.

Lemma y_ret {A} q (r : A) v : yields q (Ret r) v r v.
Proof. intros St server w Hw. simpl. eauto. Qed.

Lemma y_prog_bind {A B} q (f : A -> prog B) (p : prog A) v x v1 r v2 :
  yields q p v x v1 -> yields q (f x) v1 r v2 -> yields q (prog_bind f p) v r v2.
Proof.
  intros H1 H2 St server w Hw. destruct (H1 _ _ w Hw) as (w1 & Hr1 & Hw1).
  destruct (H2 _ _ w1 Hw1) as (w2 & Hr2 & Hw2).
  exists w2. by rewrite run_prog_bind, Hr1.
Qed.

Lemma y_bind {A B} q (f : A -> qm B) (m : qm A) v x v1 r v2 :
  yields q m v (Ok x) v1 -> yields q (f x) v1 r v2 -> yields q (m ≫= f) v r v2.
Proof. intros H1 H2. by eapply y_prog_bind. Qed.

Lemma y_bind_err {A B} q (f : A -> qm B) (m : qm A) v e v1 :
  yields q m v (Err e) v1 -> yields q (m ≫= f) v (Err e) v1.
Proof. intros H1. eapply y_prog_bind; [done|apply y_ret]. Qed.

Lemma y_lift {A B} q (f : A -> qm B) x v r v' :
  yields q (f x) v r v' -> yields q (qlift (Ok x) ≫= f) v r v'.
Proof. intros Hf. eapply y_bind; [apply y_ret|done]. Qed.

Lemma y_lift_err {A B} q (f : A -> qm B) e v : yields q (qlift (Err e) ≫= f) v (Err e) v.
Proof. apply y_bind_err, y_ret. Qed.

Lemma y_mret {A} q (x : A) v : yields q (mret x : qm A) v (Ok x) v.
Proof. apply y_ret. Qed.

(** One command of the server, as the abstract queue sees it. *)
Lemma y_redis {A B} q (c : rcmd A) (k : result rerror A -> prog B) v x a' r v' :
  (forall s, rep q s (aq v) -> does q s c x a') ->
  yields q (k (Ok x)) (with_q v a') r v' -> yields q (Vis (Redis c) k) v r v'.
Proof.
  intros Hc Hk St server w (Hr & Ht & Hn & Hi). simpl.
  destruct (Hc _ Hr) as (s' & Hd & Hr').
  pose proof (exec_documented _ c (srv w)) as Hdoc. unfold wview in *.
  destruct (exec c (srv w)) as [x' sw]. rewrite Hd in Hdoc. simplify_eq/=.
  apply Hk. split_and!; simpl; done.
Qed.

Lemma y_call {A B} q (c : rcmd A) (f : A -> qm B) v x a' r v' :
  (forall s, rep q s (aq v) -> does q s c x a') ->
  yields q (f x) (with_q v a') r v' -> yields q (call c ≫= f) v r v'.
Proof. intros Hc Hf. eapply y_bind; [by eapply y_redis, y_ret|done]. Qed.

Lemma y_call_last {A} q (c : rcmd A) v x a' v' :
  (forall s, rep q s (aq v) -> does q s c x a') -> with_q v a' = v' ->
  yields q (call c) v (Ok x) v'.
Proof. intros Hc <-. by eapply y_redis, y_ret. Qed.

Lemma y_pipe_nil q v : yields q (pipe []) v (Ok tt) v.
Proof. apply y_ret. Qed.

Lemma y_pipe {A} q (c : rcmd A) cs v x a' r v' :
  (forall s, rep q s (aq v) -> does q s c x a') ->
  yields q (pipe cs) (with_q v a') r v' -> yields q (pipe (Any c :: cs)) v r v'.
Proof. intros Hc Hf. by eapply y_redis. Qed.

Lemma y_pipe_nil_bind {B} q (f : unit -> qm B) v r v' :
  yields q (f tt) v r v' -> yields q (pipe [] ≫= f) v r v'.
Proof. done. Qed.

Lemma y_pipe_bind {A B} q (c : rcmd A) cs (f : unit -> qm B) v x a' r v' :
  (forall s, rep q s (aq v) -> does q s c x a') ->
  yields q (pipe cs ≫= f) (with_q v a') r v' -> yields q (pipe (Any c :: cs) ≫= f) v r v'.
Proof. intros Hc Hf. by eapply y_redis. Qed.

Lemma y_utc {B} q (f : Z -> qm B) v r v' :
  yields q (f (a_now v)) v r v' -> yields q (qev UtcNow ≫= f) v r v'.
Proof.
  intros Hf. eapply y_bind; [|done]. intros St server w Hw. simpl.
  exists w. pose proof Hw as (_ & Ht & _). by rewrite Ht.
Qed.
Lemma y_instant {B} q (f : Z -> qm B) v r v' :
  yields q (f (a_now v)) v r v' -> yields q (qev InstantNow ≫= f) v r v'.
Proof.
  intros Hf. eapply y_bind; [|done]. intros St server w Hw. simpl.
  exists w. pose proof Hw as (_ & Ht & _). by rewrite Ht.
Qed.
Lemma y_uuid {B} q (f : JobId -> qm B) v r v' :
  yields q (f (now_v7 (a_uuids v))) (AWorld _ (aq v) (a_now v) (S (a_uuids v)) (a_inbox v)) r v' ->
  yields q (qev NewUuid ≫= f) v r v'.
Proof.
  intros Hf. eapply y_bind; [|done]. intros St server w (Hr & Ht & Hn & Hi). simpl.
  rewrite Hn. eexists. split; [done|]. split_and!; [exact Hr|simpl; congruence..].
Qed.
Lemma y_subscribe {B} q ch (f : unit -> qm B) v r v' :
  yields q (f tt) v r v' -> yields q (qev (Subscribe ch) ≫= f) v r v'.
Proof.
  intros Hf. eapply y_bind; [|done]. intros St server w (Hr & Ht & Hn & Hi). simpl.
  eexists. split; [done|]. split_and!; [exact Hr|simpl; congruence..].
Qed.
Lemma y_unsubscribe {B} q ch (f : unit -> qm B) v r v' :
  yields q (f tt) v r v' -> yields q (qev (Unsubscribe ch) ≫= f) v r v'.
Proof.
  intros Hf. eapply y_bind; [|done]. intros St server w (Hr & Ht & Hn & Hi). simpl.
  eexists. split; [done|]. split_and!; [exact Hr|simpl; congruence..].
Qed.

(** What waiting for a message gives, and the time and the messages left afterwards. *)
Definition a_receive (timeout : Z) v : received * aworld :=
  match a_inbox v with
  | (t, m) :: rest =>
      if (t <=? a_now v + timeout)%Z then
        (Received m, AWorld _ (aq v) (Z.max (a_now v) t) (a_uuids v) rest)
      else (TimedOut, AWorld _ (aq v) (a_now v + timeout) (a_uuids v) (a_inbox v))
  | [] => (TimedOut, AWorld _ (aq v) (a_now v + timeout) (a_uuids v) [])
  end.

Lemma y_recv {B} q timeout (f : received -> qm B) v r v' :
  yields q (f (a_receive timeout v).1) (a_receive timeout v).2 r v' ->
  yields q (qev (Recv timeout) ≫= f) v r v'.
Proof.
  intros Hf. eapply y_bind; [|done]. intros St server w (Hr & Ht & Hn & Hi).
  unfold a_receive. simpl. unfold receive. rewrite Hi, Ht.
  destruct (a_inbox v) as [|[t m] rest]; simpl; [eexists; split; [done|]; by split_and!|].
  destruct (t <=? a_now v + timeout)%Z; simpl; (eexists; split; [done|]; by split_and!).
Qed.
End yields.

(** Runs a program through its commands, clocks and subscriptions as far as they are determined. *)
Ltac y_solve_cmd := intros; cbn [aq with_q] in *; eauto with wq.
Ltac y_step :=
  lazymatch goal with
  | |- yields _ (mret _) _ _ _ => apply y_mret
  | |- yields _ (qerr _) _ _ _ => apply y_ret
  | |- yields _ (pipe []) _ _ _ => apply y_pipe_nil
  | |- yields _ (pipe [] ≫= _) _ _ _ => apply y_pipe_nil_bind
  | |- yields _ (mret _ ≫= _) _ _ _ => apply y_lift
  | |- yields _ (qlift (Ok _) ≫= _) _ _ _ => apply y_lift
  | |- yields _ (qlift (ok_or (Some _) _) ≫= _) _ _ _ => apply y_lift
  | |- yields _ (qlift (Err _) ≫= _) _ _ _ => apply y_lift_err
  | |- yields _ (qev UtcNow ≫= _) _ _ _ => apply y_utc
  | |- yields _ (qev InstantNow ≫= _) _ _ _ => apply y_instant
  | |- yields _ (qev NewUuid ≫= _) _ _ _ => apply y_uuid
  | |- yields _ (qev (Subscribe _) ≫= _) _ _ _ => apply y_subscribe
  | |- yields _ (qev (Unsubscribe _) ≫= _) _ _ _ => apply y_unsubscribe
  | |- yields _ (call _ ≫= _) _ _ _ => eapply y_call; [solve [y_solve_cmd]|]
  | |- yields _ (call _) _ _ _ => eapply y_call_last; [solve [y_solve_cmd]|reflexivity]
  | |- yields _ (pipe (Any _ :: _)) _ _ _ => eapply y_pipe; [solve [y_solve_cmd]|]
  | |- yields _ (pipe (Any _ :: _) ≫= _) _ _ _ => eapply y_pipe_bind; [solve [y_solve_cmd]|]
  end;
  cbn [aq with_q a_now a_uuids a_inbox ok_or].
Ltac y_steps := repeat y_step.
