(* ===== verification/WqRefine.v ===== *)
(** * The operations refine the abstract queue

    For each operation of [Wq.v], a function on the abstract queue that says what it is meant to
    do, and the lemma that the program does that, and nothing else, on every server.  [q_wf] is
    the well-formedness of the abstract queue; every operation keeps it. *)

From S2P Require Import Prelude Ord RustStd Redis WqCore WqProg Wq WqSpec.

Section wf.
Context `{JobIds} {P R : Type} `{!Codecs P R}.
Implicit Types (q : WorkQueue P R) (a : qstate) (v : aworld) (j : JobId).

(** A stored description, and what is in it. *)
Definition described a j (d : JobDesc P) : Prop :=
  exists s, q_desc a j = Some s /\ desc_to_string d = Some s.

Definition claimed a j : Prop := is_Some (q_claims a !! id_to_string j).
Definition pending_in a p j : Prop := is_Some (q_pending a p !! id_to_string j).

(** A partition that [get_stats] counts. *)
Definition listed a (p : option str) : Prop := forall n, p = Some n -> n ∈ q_partitions a.

Record q_wf a : Prop := {
  (** A description can be read, and its partition is one the queue can have, and listed. *)
  wf_desc : forall j s, q_desc a j = Some s ->
    exists d, desc_to_string d = Some s /\ partition_ok (desc_partition d) /\
      listed a (desc_partition d);
  (** What is pending has a description, in the partition that says so, and a priority. *)
  wf_pending : forall p m sc, partition_ok p -> q_pending a p !! m = Some sc ->
    exists j d prio, m = id_to_string j /\ described a j d /\ desc_partition d = p /\
      sc = priority_code prio;
  (** A claim is about a job that has a description, in the claim's partition. *)
  wf_claims : forall m s, q_claims a !! m = Some s ->
    exists c d, s = claim_to_string c /\ m = id_to_string (claim_job_id c) /\
      described a (claim_job_id c) d /\ desc_partition d = claim_partition c;
  (** A job isn't both pending and claimed. *)
  wf_excl : forall m p, is_Some (q_claims a !! m) -> partition_ok p -> q_pending a p !! m = None;
  (** A result has a final status, and its job is neither pending nor claimed. *)
  wf_result : forall j s, q_result a j = Some s ->
    (exists r : JobResult R, s = result_to_string r /\ is_resolved (res_status r) = true) /\
    ~ claimed a j /\ forall p, partition_ok p -> ~ pending_in a p j;
  wf_resolved : forall j s, q_resolved a j = Some s ->
    exists st, is_resolved st = true /\ s = Z_to_str (status_code st);
  (** What is listed can be a partition. *)
  wf_partitions : forall s, s ∈ q_partitions a -> validate_partition s = Ok tt;
  wf_stat : forall n s, q_stat a n = Some s ->
    exists z, s = Z_to_str z /\ (0 <= z <= i64_max)%Z;
}.

(** Identifiers that were not given out yet name nothing. *)
Definition ids_fresh a (n : nat) : Prop :=
  forall k, (n <= k)%nat -> q_desc a (now_v7 k) = None /\ q_result a (now_v7 k) = None.

Lemma described_inj a j d1 d2 : described a j d1 -> described a j d2 -> d1 = d2.
Proof.
  intros (s1 & Hs1 & Hd1) (s2 & Hs2 & Hd2). simplify_eq.
  apply desc_roundtrip in Hd1. apply desc_roundtrip in Hd2. congruence.
Qed.

Lemma described_read a j d s : described a j d -> q_desc a j = Some s -> desc_from_str s = Some d.
Proof. intros (s' & Hs' & Hd) Hs. simplify_eq. by apply desc_roundtrip. Qed.

Lemma described_partition a j d s :
  described a j d -> q_desc a j = Some s -> partition_from_str s = Some (desc_partition d).
Proof. intros (s' & Hs' & Hd) Hs. simplify_eq. by apply partition_roundtrip. Qed.

Lemma not_described_pending a p j :
  q_wf a -> partition_ok p -> q_desc a j = None -> q_pending a p !! id_to_string j = None.
Proof.
  intros Hwf Hp Hd. destruct (q_pending a p !! id_to_string j) as [sc|] eqn:E; [|done].
  apply (wf_pending a Hwf) in E as (j' & d & prio & Hj & (s & Hs & _) & _); [|done].
  apply (inj id_to_string) in Hj. congruence.
Qed.

Lemma not_described_claimed a j :
  q_wf a -> q_desc a j = None -> q_claims a !! id_to_string j = None.
Proof.
  intros Hwf Hd. destruct (q_claims a !! id_to_string j) as [s|] eqn:E; [|done].
  apply (wf_claims a Hwf) in E as (c & d & _ & Hj & (s' & Hs & _) & _).
  apply (inj id_to_string) in Hj. congruence.
Qed.

(** Every partition with a pending job is listed. *)
Lemma wf_listed a p m sc :
  q_wf a -> partition_ok p -> q_pending a p !! m = Some sc -> listed a p.
Proof.
  intros Hwf Hp Hm.
  destruct (wf_pending a Hwf p m sc Hp Hm) as (j & d & prio & _ & (s & Hs & Hd) & <- & _).
  destruct (wf_desc a Hwf j s Hs) as (d' & Hd' & _ & Hl).
  apply desc_roundtrip in Hd. apply desc_roundtrip in Hd'. by simplify_eq.
Qed.

(** The partition a job is pending in is the one its description says. *)
Lemma pending_partition a p j d :
  q_wf a -> partition_ok p -> pending_in a p j -> described a j d -> desc_partition d = p.
Proof.
  intros Hwf Hp [sc Hsc] Hd.
  destruct (wf_pending a Hwf p _ sc Hp Hsc) as (j' & d' & prio & Hj & Hd' & Hp' & _).
  apply (inj id_to_string) in Hj. subst. by rewrite (described_inj a j' d d').
Qed.

(** ** What the operations are meant to do *)

Definition list_partition a (p : option str) : qstate :=
  match p with Some s => set_partitions a ({[s]} ∪ q_partitions a) | None => a end.

Definition spec_enqueue q a j (desc_str : str) (p : option str) (prio : Priority) : qstate :=
  let a := list_partition (set_desc a j (Some desc_str)) p in
  add_published
    (set_pending a p (<[id_to_string j := priority_code prio]> (q_pending a p)))
    (pending_key q p) (lit "0").

(** Where the description says the job waits. *)
Definition stored_partition a j : option str :=
  (s ← q_desc a j; partition_from_str s) ≫= (fun p => p).

Definition spec_cancel a j : qstate :=
  let p := stored_partition a j in
  let a := set_desc (set_pending a p (delete (id_to_string j) (q_pending a p))) j None in
  set_claims a (delete (id_to_string j) (q_claims a)).

Definition take_pending a p j : qstate :=
  set_pending a p (delete (id_to_string j) (q_pending a p)).

Definition spec_claim a j (c : Claim) : qstate :=
  set_claims a (<[id_to_string j := claim_to_string c]> (q_claims a)).

(** A counter that was never incremented counts 0. *)
Definition counter a (n : str) : Z :=
  match q_stat a n with Some s => default 0%Z (parse_u64 s) | None => 0%Z end.

Definition bump_stat a (st : JobStatus) : qstate :=
  let n := default [] (as_stat_name st) in
  set_stat a n (Some (Z_to_str (counter a n + 1)%Z)).

Definition spec_resolve q a j (final_status : JobStatus) (res : option R) (cleanup : bool) :
    qstate :=
  let a := set_claims a (delete (id_to_string j) (q_claims a)) in
  let a := set_result a j (Some (result_to_string {| res_status := final_status;
                                                     res_result := res |})) in
  let a := set_resolved a j (Some (Z_to_str (status_code final_status))) in
  let a := bump_stat a final_status in
  let a := add_published a (get_result_key q j) (Z_to_str (status_code final_status)) in
  if cleanup then set_result (set_desc a j None) j None else a.

Definition spec_reinsert q a (c : Claim) : qstate :=
  let p := claim_partition c in
  let j := claim_job_id c in
  let a := set_pending a p (<[id_to_string j := priority_code (claim_priority c)]> (q_pending a p)) in
  let a := set_claims a (delete (id_to_string j) (q_claims a)) in
  add_published a (pending_key q p) (lit "0").

(** Where [get_job_status] finds the job. *)
Definition job_phase a j : option JobStatus :=
  match q_result a j ≫= result_from_str with
  | Some r => Some (res_status r)
  | None =>
      if decide (claimed a j) then Some Running
      else if decide (is_Some (q_desc a j)) then Some Pending
      else None
  end.
End wf.

Section refine.
Context `{JobIds} {P R : Type} `{!Codecs P R}.
Implicit Types (q : WorkQueue P R) (a : qstate) (v : aworld) (j : JobId).

Lemma stored_partition_ok a j : q_wf a -> partition_ok (stored_partition a j).
Proof.
  intros Hwf. unfold stored_partition. destruct (q_desc a j) as [s|] eqn:E; [|done].
  destruct (wf_desc a Hwf j s E) as (d & Hd & Hp & _). simpl.
  by rewrite (partition_roundtrip d s Hd).
Qed.

Lemma stored_partition_described a j d :
  described a j d -> stored_partition a j = desc_partition d.
Proof.
  intros (s & Hs & Hd). unfold stored_partition. rewrite Hs. simpl.
  by rewrite (partition_roundtrip d s Hd).
Qed.

Lemma enqueue_refines q v partition p params prio deadline_in desc_str :
  normalize (pending q) partition = Ok p ->
  desc_to_string {| desc_params := params; submitted_at := a_now v;
                    deadline := (a_now v + deadline_in)%Z; desc_partition := p |} = Some desc_str ->
  yields q (enqueue_job_in q partition params prio deadline_in) v (Ok (now_v7 (a_uuids v)))
    (AWorld _ (spec_enqueue q (aq v) (now_v7 (a_uuids v)) desc_str p prio)
       (a_now v) (S (a_uuids v)) (a_inbox v)).
Proof.
  intros Hn Hs. destruct (normalize_Ok _ _ _ Hn) as [Hp _].
  unfold enqueue_job_in. rewrite Hn. y_steps. rewrite Hs. y_steps.
  unfold spec_enqueue. destruct p as [s|]; cbn [app list_partition]; y_steps.
Qed.

Lemma enqueue_invalid q v partition params prio deadline_in e :
  normalize (pending q) partition = Err e ->
  yields q (enqueue_job_in q partition params prio deadline_in) v (Err e) v.
Proof. intros Hn. unfold enqueue_job_in. rewrite Hn. apply y_lift_err. Qed.

Lemma cancel_refines q v j :
  q_wf (aq v) -> yields q (cancel_job q j) v (Ok tt) (with_q v (spec_cancel (aq v) j)).
Proof.
  intros Hwf. pose proof (stored_partition_ok _ j Hwf) as Hp.
  unfold cancel_job. y_step. unfold stored_partition in Hp. unfold spec_cancel, stored_partition.
  y_steps.
Qed.

Lemma delete_result_refines q v j :
  yields q (delete_job_result q j) v (Ok tt)
    (with_q v (set_desc (set_result (aq v) j None) j None)).
Proof. unfold delete_job_result. y_steps. Qed.

Lemma read_claim c :
  read_optional claim_from_redis_value (Some (claim_to_string c)) = Ok (Some c).
Proof. simpl. unfold claim_from_redis_value. by rewrite claim_roundtrip. Qed.

Lemma read_result (r : JobResult R) :
  read_optional result_from_redis_value (Some (result_to_string r)) = Ok (Some r).
Proof. simpl. unfold result_from_redis_value. by rewrite result_roundtrip. Qed.

Lemma refresh_owner c t :
  refresh c (claim_worker_id c) t =
  Ok {| claim_job_id := claim_job_id c; claim_priority := claim_priority c;
        claim_worker_id := claim_worker_id c; claim_time := t;
        claim_partition := claim_partition c |}.
Proof. unfold refresh, str_eqb. by rewrite bool_decide_true. Qed.

Lemma reclaim_cancelled q v j worker :
  q_claims (aq v) !! id_to_string j = None ->
  yields q (reclaim_job q j worker) v (Err JobCancelled) v.
Proof.
  intros Hc. unfold reclaim_job. y_step. rewrite Hc. cbn [read_optional]. y_steps.
Qed.

Lemma reclaim_refines q v j worker c :
  q_claims (aq v) !! id_to_string j = Some (claim_to_string c) ->
  claim_worker_id c = worker ->
  yields q (reclaim_job q j worker) v (Ok tt)
    (with_q v (spec_claim (aq v) j
       {| claim_job_id := claim_job_id c; claim_priority := claim_priority c;
          claim_worker_id := worker; claim_time := a_now v;
          claim_partition := claim_partition c |})).
Proof.
  intros Hc <-. unfold reclaim_job. y_step. rewrite Hc, read_claim. y_steps.
  rewrite refresh_owner. unfold spec_claim. y_steps.
Qed.

Lemma reclaim_other_worker q v j worker c :
  q_claims (aq v) !! id_to_string j = Some (claim_to_string c) ->
  claim_worker_id c <> worker ->
  exists msg, yields q (reclaim_job q j worker) v (Err (Other msg)) v.
Proof.
  intros Hc Hw. unfold reclaim_job. eexists. y_step. rewrite Hc, read_claim. y_steps.
  unfold refresh, str_eqb. rewrite bool_decide_false by congruence.
  apply y_lift_err.
Qed.

(** The callback's verdict on a result. *)
Definition verdict q (d : JobDesc P) (st : JobStatus) (res : option R) : bool * JobStatus :=
  match result_callback q with
  | None => (false, st)
  | Some callback =>
      match callback d {| res_status := st; res_result := res |} with
      | Ok processed => (processed, st)
      | Err _ => (true, InternalError)
      end
  end.

Lemma verdict_resolved q d st res :
  is_resolved st = true -> is_resolved (verdict q d st res).2 = true.
Proof. intros Hst. unfold verdict. repeat case_match; done. Qed.

Lemma resolved_stat_name st :
  is_resolved st = true -> exists n, as_stat_name st = Some n.
Proof. destruct st; simpl; try done; eauto. Qed.

(** The counter of a final status can still count. *)
Definition stat_room a (st : JobStatus) : Prop :=
  (counter a (default [] (as_stat_name st)) < i64_max)%Z.

Lemma counter_parse a n :
  q_wf a -> (0 <= counter a n <= i64_max)%Z /\
    parse_i64 (default (lit "0") (q_stat a n)) = Some (counter a n).
Proof.
  intros Hwf. unfold counter. destruct (q_stat a n) as [s|] eqn:E; simpl; [|done].
  destruct (wf_stat a Hwf n s E) as (z & -> & Hz).
  rewrite parse_u64_to_str by done.
  cbn [default from_option id]. split; [done|].
  apply parse_i64_to_str, in_i64_spec. unfold i64_min, i64_max in *. lia.
Qed.

Lemma does_bump a st :
  q_wf a -> stat_room a st -> forall q s, rep q s a ->
  does q s (INCR (get_stats_key q (default [] (as_stat_name st))) 1) tt (bump_stat a st).
Proof.
  intros Hwf Hroom q s Hr. unfold stat_room in Hroom.
  destruct (counter_parse a (default [] (as_stat_name st)) Hwf) as (Hpos & Hz).
  unfold bump_stat. apply does_incr_stat; [done|done|].
  apply in_i64_spec. unfold i64_min, i64_max in *. lia.
Qed.

(** The claims that are stored, as [HGETALL] gives them. *)
Definition stored_claims a : list Claim := omap (fun e => claim_from_str e.2) (map_to_list (q_claims a)).

Lemma stored_claims_read a :
  q_wf a -> mapM (fun e => claim_from_str e.2) (map_to_list (q_claims a)) = Some (stored_claims a).
Proof.
  intros Hwf. unfold stored_claims.
  assert (Forall (fun e => exists c, claim_from_str e.2 = Some c) (map_to_list (q_claims a))) as Hall.
  { apply Forall_forall. intros [m s] Hin%elem_of_map_to_list.
    destruct (wf_claims a Hwf m s Hin) as (c & d & -> & _). exists c. apply claim_roundtrip. }
  induction Hall as [|e l [c Hc] _ IH]; simpl; [done|].
  rewrite Hc. simpl. by rewrite IH.
Qed.

Lemma elem_of_stored_claims a c :
  q_wf a -> c ∈ stored_claims a <->
  q_claims a !! id_to_string (claim_job_id c) = Some (claim_to_string c).
Proof.
  intros Hwf. unfold stored_claims. rewrite list_elem_of_omap. split.
  - intros ([m s] & Hin%elem_of_map_to_list & Hc). simpl in Hc.
    destruct (wf_claims a Hwf m s Hin) as (c' & d & -> & -> & _).
    rewrite claim_roundtrip in Hc. by simplify_eq.
  - intros Hin. exists (id_to_string (claim_job_id c), claim_to_string c).
    rewrite elem_of_map_to_list. split; [done|]. apply claim_roundtrip.
Qed.

Lemma stored_claim_partition a c :
  q_wf a -> c ∈ stored_claims a -> partition_ok (claim_partition c).
Proof.
  intros Hwf Hc%elem_of_stored_claims; [|done].
  destruct (wf_claims a Hwf _ _ Hc) as (c' & d & Heq & _ & (s & Hs & Hd) & Hp).
  apply (f_equal claim_from_str) in Heq. rewrite !claim_roundtrip in Heq. simplify_eq.
  destruct (wf_desc a Hwf _ s Hs) as (d' & Hd' & Hp' & _).
  apply desc_roundtrip in Hd. apply desc_roundtrip in Hd'. rewrite <- Hp. by simplify_eq.
Qed.
End refine.
