(* ===== verification/WqInv.v ===== *)
(** * Every operation keeps the queue well formed

    [q_wf] is preserved by the abstract operations of [WqRefine.v], hence by the programs that
    refine them, and holds in every state that the operations reach from an empty server. *)

From S2P Require Import Prelude Ord RustStd Redis WqCore WqProg Wq WqSpec WqRefine.

(** Splits on the points at which functions are updated. *)
Ltac fn_cases := unfold fn_set in *; repeat case_decide; simplify_eq.

Section preserve.
Context `{JobIds} {P R : Type} `{!Codecs P R}.
Implicit Types (q : WorkQueue P R) (a : qstate) (j : JobId) (d : JobDesc P).

Local Abbreviation wf := (q_wf (P := P) (R := R)).

(** Removing from a partition keeps the queue well formed. *)
Lemma wf_take_pending a p j : wf a -> wf (take_pending a p j).
Proof.
  intros [Hd Hp Hc Hx Hr Hrs Hps Hst]. split; simpl; [done| |done| | |done..].
  - intros p' m sc Hp' Hm. apply (Hp p' m sc Hp'). fn_cases; try done.
    by apply lookup_delete_Some in Hm as [_ Hm].
  - intros m p' Hm Hp'. specialize (Hx m p' Hm Hp'). fn_cases; try done.
    by apply lookup_delete_None; right.
  - intros j' s Hj'. destruct (Hr j' s Hj') as (Hres & Hncl & Hnp). split_and!; [done|done|].
    intros p' Hp' [sc Hsc]. simpl in Hsc. apply (Hnp p' Hp'). fn_cases; [|by eexists].
    apply lookup_delete_Some in Hsc as [_ Hsc]. by eexists.
Qed.

Lemma wf_unclaim a j :
  wf a -> wf (set_claims a (delete (id_to_string j) (q_claims a))).
Proof.
  intros [Hd Hp Hc Hx Hr Hrs Hps Hst]. split; simpl; [done|done| | | |done..].
  - intros m s [_ Hm]%lookup_delete_Some. by apply Hc.
  - intros m p [s [_ Hm]%lookup_delete_Some] Hp'. apply Hx; [by eexists|done].
  - intros j' s Hj'. destruct (Hr j' s Hj') as (Hres & Hncl & Hnp). split_and!; [done| |done].
    unfold claimed. simpl. intros [s' [_ Hs']%lookup_delete_Some]. apply Hncl. by eexists.
Qed.

(** A description can go once the job is neither pending nor claimed. *)
Lemma wf_forget a j :
  wf a -> ~ claimed a j -> (forall p, partition_ok p -> ~ pending_in a p j) ->
  wf (set_desc a j None).
Proof.
  intros [Hd Hp Hc Hx Hr Hrs Hps Hst] Hncl Hnp.
  assert (forall j' d, described a j' d -> j' <> j -> described (set_desc a j None) j' d) as Hdesc.
  { intros j' d (s & Hs & Hds) Hne. exists s. split; [|done]. simpl. by rewrite fn_set_ne. }
  split; simpl; [| | |done..].
  - intros j' s Hj'. fn_cases. by apply (Hd j').
  - intros p m sc Hp' Hm. destruct (Hp p m sc Hp' Hm) as (j' & d & prio & -> & Hdj & Hdp & Hsc).
    exists j', d, prio. split_and!; [done| |done|done]. apply Hdesc; [done|].
    intros ->. apply (Hnp p Hp'). by eexists.
  - intros m s Hm. destruct (Hc m s Hm) as (c & d & -> & -> & Hdj & Hdp).
    exists c, d. split_and!; [done|done| |done]. apply Hdesc; [done|].
    intros <-. apply Hncl. by eexists.
Qed.

Lemma wf_forget_result a j :
  wf a -> wf (set_result a j None).
Proof.
  intros [Hd Hp Hc Hx Hr Hrs Hps Hst]. split; simpl; [done|done|done|done| |done..].
  intros j' s Hj'. fn_cases. by apply (Hr j').
Qed.

Lemma wf_publish a ch msg : wf a -> wf (add_published a ch msg).
Proof. intros [Hd Hp Hc Hx Hr Hrs Hps Hst]. by split. Qed.

Lemma not_pending_elsewhere a p j d :
  wf a -> described a j d -> desc_partition d <> p -> partition_ok p ->
  ~ pending_in a p j.
Proof. intros Hwf Hd Hne Hp Hpend. by apply Hne, (pending_partition a p j d). Qed.

Lemma wf_cancel a j :
  wf a -> wf (spec_cancel (P := P) (R := R) a j).
Proof.
  intros Hwf. unfold spec_cancel.
  set (p := stored_partition a j).
  change (wf (set_desc (set_claims (take_pending a p j)
            (delete (id_to_string j) (q_claims (take_pending a p j)))) j None)).
  apply wf_forget.
  - by apply wf_unclaim, wf_take_pending.
  - intros [s Hs]. simpl in Hs. by rewrite lookup_delete_eq in Hs.
  - intros p' Hp' [sc Hsc]. simpl in Hsc.
    destruct (decide (p' = p)) as [->|Hne].
    + by rewrite fn_set_eq, lookup_delete_eq in Hsc.
    + rewrite fn_set_ne in Hsc by done.
      destruct (wf_pending a Hwf p' _ sc Hp' Hsc) as (j' & d & prio & Hj & Hd & Hdp & _).
      apply (inj id_to_string) in Hj. subst j'.
      apply Hne. subst p. rewrite (stored_partition_described a j d Hd). done.
Qed.

Lemma wf_delete_result a j :
  wf a -> is_Some (q_result a j) ->
  wf (set_desc (set_result a j None) j None).
Proof.
  intros Hwf [s Hs]. destruct (wf_result a Hwf j s Hs) as (_ & Hncl & Hnp).
  apply wf_forget; [by apply wf_forget_result|done|done].
Qed.

Lemma wf_list_partition a p :
  wf a -> partition_ok p -> wf (list_partition a p).
Proof.
  intros [Hd Hp Hc Hx Hr Hrs Hps Hst] Hpok. destruct p as [s|]; [|by split].
  split; simpl; [|done..| |done].
  - intros j s' Hs'. destruct (Hd j s' Hs') as (d & Hds & Hdp & Hdl). exists d.
    split_and!; [done..|]. intros n Hn. cbn [q_partitions set_partitions]. apply elem_of_union. right. by apply Hdl.
  - intros s' [->%elem_of_singleton|Hs']%elem_of_union; [done|by apply Hps].
Qed.

(** A new job. *)
Lemma wf_add_job a j d s p prio :
  wf a -> q_desc a j = None -> q_result a j = None ->
  partition_ok p -> listed a p ->
  desc_to_string d = Some s -> desc_partition d = p ->
  let a' := set_desc a j (Some s) in
  wf (set_pending a' p (<[id_to_string j := priority_code prio]> (q_pending a' p))).
Proof.
  intros Hwf Hfresh Hnores Hpok Hlisted Hds Hdp.
  pose proof (not_described_claimed a j Hwf Hfresh) as Hncl.
  pose proof (fun p Hp => not_described_pending a p j Hwf Hp Hfresh) as Hnp.
  destruct Hwf as [Hd Hp Hc Hx Hr Hrs Hps Hst]. set (a' := set_desc a j (Some s)). simpl.
  assert (forall j' d', described a j' d' -> described a' j' d') as Hold.
  { intros j' d' (s' & Hs' & Hd'). exists s'. split; [|done]. simpl. rewrite fn_set_ne; [done|].
    intros ->. congruence. }
  split; simpl; [| | | | |done..].
  - intros j' s' Hs'. fn_cases; [by exists d|by apply (Hd j')].
  - intros p' m sc Hp' Hm.
    assert ((p' = p /\ m = id_to_string j /\ sc = priority_code prio) \/
            q_pending a p' !! m = Some sc) as [(-> & -> & ->)|Hm'].
    { fn_cases; [|by right]. apply lookup_insert_Some in Hm as [[<- <-]|[_ Hm]]; auto. }
    + exists j, d, prio. split_and!; [done| |done|done]. exists s. split; [|done].
      simpl. by rewrite fn_set_eq.
    + destruct (Hp p' m sc Hp' Hm') as (j' & d' & prio' & -> & Hdj & Hdp' & Hsc). 
      exists j', d', prio'. split_and!; [done|exact (Hold _ _ Hdj)|done|done].
  - intros m s' Hm. destruct (Hc m s' Hm) as (c & d' & -> & -> & Hdj & Hdp').
    exists c, d'. split_and!; [done|done|exact (Hold _ _ Hdj)|done].
  - intros m p' Hm Hp'. specialize (Hx m p' Hm Hp'). fn_cases; try done.
    rewrite lookup_insert_ne; [done|]. intros <-. rewrite Hncl in Hm. by destruct Hm.
  - intros j' s' Hj'. destruct (Hr j' s' Hj') as (Hres & Hnc & Hnpd). split_and!; [done|done|].
    intros p' Hp' [sc Hsc]. apply (Hnpd p' Hp'). simpl in Hsc. fn_cases; [|by eexists].
    apply lookup_insert_Some in Hsc as [[Heq%(inj id_to_string) _]|[_ Hsc]]; [|by eexists].
    subst. congruence.
Qed.

Lemma wf_enqueue q a j d s p prio :
  wf a -> q_desc a j = None -> q_result a j = None -> partition_ok p ->
  desc_to_string d = Some s -> desc_partition d = p ->
  wf (spec_enqueue q a j s p prio).
Proof.
  intros Hwf Hfresh Hnores Hpok Hds Hdp. apply wf_publish.
  replace (list_partition (set_desc a j (Some s)) p)
    with (set_desc (list_partition a p) j (Some s)) by (by destruct p).
  replace (q_pending a p) with (q_pending (set_desc (list_partition a p) j (Some s)) p)
    by (by destruct p).
  apply (wf_add_job (list_partition a p) j d);
    [by apply wf_list_partition|by destruct p|by destruct p|done| |done|done].
  intros n ->. simpl. apply elem_of_union. left. by apply elem_of_singleton.
Qed.

Lemma wf_claim a j c d :
  wf a -> claim_job_id c = j -> described a j d ->
  desc_partition d = claim_partition c -> q_result a j = None ->
  (forall p, partition_ok p -> ~ pending_in a p j) ->
  wf (spec_claim (P := P) (R := R) a j c).
Proof.
  intros [Hd Hp Hc Hx Hr Hrs Hps Hst] Hj Hdesc Hdp Hnores Hnp.
  split; simpl; [done|done| | | |done..].
  - intros m s [[<- <-]|[_ Hm]]%lookup_insert_Some; [|by apply Hc].
    exists c, d. rewrite Hj. by split_and!.
  - intros m p Hm Hp'. destruct (decide (m = id_to_string j)) as [->|Hne].
    + destruct (q_pending a p !! id_to_string j) eqn:E; [|done].
      exfalso. apply (Hnp p Hp'). by eexists.
    + apply Hx; [|done]. by rewrite lookup_insert_ne in Hm.
  - intros j' s Hj'. destruct (Hr j' s Hj') as (Hres & Hncl & Hnpd). split_and!; [done| |done].
    unfold claimed. simpl. rewrite lookup_insert_ne; [done|].
    intros Heq%(inj id_to_string). subst. congruence.
Qed.

Lemma wf_refresh a j c t :
  wf a -> q_claims a !! id_to_string j = Some (claim_to_string c) ->
  wf (spec_claim (P := P) (R := R) a j
    {| claim_job_id := claim_job_id c; claim_priority := claim_priority c;
       claim_worker_id := claim_worker_id c; claim_time := t;
       claim_partition := claim_partition c |}).
Proof.
  intros Hwf Hc. destruct (wf_claims a Hwf _ _ Hc) as (c' & d & Heq & Hj & Hd & Hp).
  apply (f_equal claim_from_str) in Heq. rewrite !claim_roundtrip in Heq. simplify_eq.
  apply (wf_claim _ _ _ d); [done|done|done|done| |].
  - destruct (q_result a (claim_job_id c')) as [s|] eqn:E; [|done].
    apply (wf_result a Hwf) in E as (_ & Hncl & _). exfalso. apply Hncl. by eexists.
  - intros p' Hp' [sc Hsc]. rewrite (wf_excl a Hwf _ p') in Hsc; [done|by eexists|done].
Qed.

Lemma wf_set_stat a n z :
  wf a -> (0 <= z <= i64_max)%Z -> wf (set_stat a n (Some (Z_to_str z))).
Proof.
  intros [Hd Hp Hc Hx Hr Hrs Hps Hst] Hz. split; simpl; [done..|].
  intros n' s Hs. fn_cases; [by exists z|by apply (Hst n')].
Qed.

Lemma wf_set_resolved a j st :
  wf a -> is_resolved st = true -> wf (set_resolved a j (Some (Z_to_str (status_code st)))).
Proof.
  intros [Hd Hp Hc Hx Hr Hrs Hps Hst] Hres. split; simpl; [done..| |done|done].
  intros j' s Hs. fn_cases; [by exists st|by apply (Hrs j')].
Qed.

Lemma wf_set_result a j (r : JobResult R) :
  wf a -> is_resolved (res_status r) = true -> ~ claimed a j ->
  (forall p, partition_ok p -> ~ pending_in a p j) ->
  wf (set_result a j (Some (result_to_string r))).
Proof.
  intros [Hd Hp Hc Hx Hr Hrs Hps Hst] Hres Hncl Hnp. split; simpl; [done..| |done|done|done].
  intros j' s Hs. fn_cases; [|by apply (Hr j')]. split_and!; [by exists r|done|done].
Qed.

(** A job with a claim is pending nowhere, and losing the claim keeps it so. *)
Lemma claimed_not_pending a j p :
  wf a -> claimed a j -> partition_ok p -> ~ pending_in a p j.
Proof.
  intros Hwf Hcl Hp [sc Hsc]. rewrite (wf_excl a Hwf _ p) in Hsc; done.
Qed.

Lemma claimed_no_result a j : wf a -> claimed a j -> q_result a j = None.
Proof.
  intros Hwf Hcl. destruct (q_result a j) as [s|] eqn:E; [|done].
  by apply (wf_result a Hwf) in E as (_ & Hncl & _).
Qed.

Lemma not_claimed_deleted a j :
  ~ claimed (set_claims a (delete (id_to_string j) (q_claims a))) j.
Proof. intros [s Hs]. simpl in Hs. by rewrite lookup_delete_eq in Hs. Qed.

Lemma wf_resolve q a j st (res : option R) cleanup :
  wf a -> is_resolved st = true -> claimed a j -> stat_room a st ->
  wf (spec_resolve q a j st res cleanup).
Proof.
  intros Hwf Hst Hcl Hroom.
  pose proof (fun p => claimed_not_pending a j p Hwf Hcl) as Hnp.
  set (a1 := set_claims a (delete (id_to_string j) (q_claims a))).
  set (a2 := set_result a1 j (Some (result_to_string {| res_status := st; res_result := res |}))).
  set (a3 := set_resolved a2 j (Some (Z_to_str (status_code st)))).
  set (a4 := add_published (bump_stat a3 st) (get_result_key q j) (Z_to_str (status_code st))).
  assert (wf a1) as H1 by by apply wf_unclaim.
  assert (wf a2) as H2.
  { apply wf_set_result; [done|done|apply not_claimed_deleted|exact Hnp]. }
  assert (wf a3) as H3 by by apply wf_set_resolved.
  assert (wf a4) as H4.
  { apply wf_publish, wf_set_stat; [done|].
    destruct (counter_parse a (default [] (as_stat_name st)) Hwf) as (Hpos & _).
    unfold stat_room, counter in *. simpl. lia. }
  unfold spec_resolve. fold a1 a2 a3. fold a4. destruct cleanup; [|done].
  apply wf_forget_result, wf_forget; [done|apply not_claimed_deleted|exact Hnp].
Qed.

Lemma wf_reinsert q a c :
  wf a -> q_claims a !! id_to_string (claim_job_id c) = Some (claim_to_string c) ->
  wf (spec_reinsert q a c).
Proof.
  intros Hwf Hc. set (j := claim_job_id c). set (p := claim_partition c).
  pose proof (claimed_no_result a j Hwf (ex_intro _ _ Hc)) as Hnores.
  destruct (wf_claims a Hwf _ _ Hc) as (c' & d & Heq & _ & Hd & Hdp).
  apply (f_equal claim_from_str) in Heq. rewrite !claim_roundtrip in Heq. injection Heq as <-.
  apply wf_publish. pose proof (wf_unclaim a j Hwf) as [Hd1 Hp1 Hc1 Hx1 Hr1 Hrs1 Hps1 Hst1].
  split; simpl in *; [done| |done| | |done..].
  - intros p' m sc Hp' Hm. destruct (decide (p' = p)) as [->|Hne].
    + rewrite fn_set_eq in Hm. apply lookup_insert_Some in Hm as [[<- <-]|[_ Hm]]; [|by apply Hp1].
      exists j, d, (claim_priority c). by split_and!.
    + rewrite fn_set_ne in Hm by done. by apply Hp1.
  - intros m p' [s Hm] Hp'. pose proof (Hx1 m p' (ex_intro _ _ Hm) Hp') as Hn.
    destruct (decide (p' = p)) as [->|Hne]; [|by rewrite fn_set_ne].
    rewrite fn_set_eq, lookup_insert_ne; [done|]. intros <-.
    by rewrite lookup_delete_eq in Hm.
  - intros j' s Hs. destruct (Hr1 j' s Hs) as (Hres & Hncl & Hnp). split_and!; [done|done|].
    intros p' Hp' [sc Hsc]. apply (Hnp p' Hp'). simpl in *.
    destruct (decide (p' = p)) as [->|Hne]; [|rewrite fn_set_ne in Hsc by done; by eexists].
    rewrite fn_set_eq in Hsc.
    apply lookup_insert_Some in Hsc as [[Heq%(inj id_to_string) _]|[_ Hsc]]; [|by eexists].
    subst j'. unfold j in Hnores. congruence.
Qed.
End preserve.

(** ** Resolving jobs, and what the queue reports

    The refinement lemmas for [resolve_job], [get_job_status], [get_stats] and the reclaim
    checker. *)

Section resolve.
Context `{JobIds} {P R : Type} `{!Codecs P R}.
Implicit Types (q : WorkQueue P R) (a : qstate) (v : aworld) (j : JobId).

Lemma resolve_not_final q v worker j st res :
  is_resolved st = false ->
  exists msg, yields q (resolve_job q worker j st res) v (Err (InvalidJobStatus msg)) v.
Proof. intros Hst. unfold resolve_job. rewrite Hst. eexists. apply y_ret. Qed.

Lemma resolve_cancelled q v worker j st res :
  is_resolved st = true -> q_claims (aq v) !! id_to_string j = None ->
  yields q (resolve_job q worker j st res) v (Err JobCancelled) v.
Proof.
  intros Hst Hc. unfold resolve_job. rewrite Hst. cbn [negb]. y_step. rewrite Hc.
  cbn [read_optional]. y_steps.
Qed.

Lemma resolve_other_worker q v worker j st res c :
  is_resolved st = true -> q_claims (aq v) !! id_to_string j = Some (claim_to_string c) ->
  claim_worker_id c <> worker ->
  yields q (resolve_job q worker j st res) v (Err WorkerMismatch) v.
Proof.
  intros Hst Hc Hw. unfold resolve_job. rewrite Hst. cbn [negb]. y_step.
  rewrite Hc, read_claim. y_steps. unfold str_eqb. rewrite bool_decide_false by done.
  cbn [negb]. y_steps.
Qed.

Lemma y_get_text {B} q k (f : str -> qm B) v s a' r v' :
  (forall w, rep q w (aq v) -> does q w (GET k) (Some s) a') ->
  yields q (f s) (with_q v a') r v' -> yields q (get_text k ≫= f) v r v'.
Proof.
  intros Hg Hf. eapply y_bind; [|exact Hf]. unfold get_text.
  eapply y_call; [exact Hg|]. apply y_mret.
Qed.

Lemma does_get_described q a j d s :
  described a j d -> q_desc a j = Some s ->
  forall w, rep q w a -> does q w (GET (get_job_key q j)) (Some s) a.
Proof. intros _ Hs w Hw. rewrite <- Hs. auto with wq. Qed.

Lemma wf_claims_irrelevant a cl n st :
  q_wf a ->
  let a' := set_resolved (set_result (set_claims a cl) n st) in
  forall j o m, (0 <= counter (a' j o) m <= i64_max)%Z /\
    parse_i64 (default (lit "0") (q_stat (a' j o) m)) = Some (counter (a' j o) m).
Proof. intros Hwf a' j o m. apply (counter_parse a m Hwf). Qed.

Lemma resolve_refines q v worker j st res c d :
  q_wf (aq v) ->
  is_resolved st = true ->
  q_claims (aq v) !! id_to_string j = Some (claim_to_string c) ->
  claim_worker_id c = worker ->
  described (aq v) j d ->
  stat_room (aq v) (verdict q d st res).2 ->
  yields q (resolve_job q worker j st res) v (Ok tt)
    (with_q v (spec_resolve q (aq v) j (verdict q d st res).2 res (verdict q d st res).1)).
Proof.
  intros Hwf Hst Hc <- Hd Hroom. pose proof Hd as (s & Hs & Hds).
  unfold resolve_job. rewrite Hst. cbn [negb]. y_step. rewrite Hc, read_claim. y_steps.
  unfold str_eqb at 1. rewrite bool_decide_true by done. cbn [negb].
  eapply y_get_text; [by eapply does_get_described|]. cbn [aq with_q].
  rewrite (described_read _ _ _ _ Hd Hs). y_steps.
  fold (verdict q d st res). destruct (verdict q d st res) as [cleanup final]. cbn [fst snd] in *.
  eapply y_pipe_bind; [y_solve_cmd|]. eapply y_pipe_bind; [y_solve_cmd|]. cbn [aq with_q].
  destruct (wf_claims_irrelevant (aq v) (delete (id_to_string j) (q_claims (aq v))) j
              (Some (result_to_string {| res_status := final; res_result := res |}))
              Hwf j (Some (Z_to_str (status_code final))) (default [] (as_stat_name final)))
    as (Hpos & Hz).
  unfold stat_room, counter in *.
  eapply y_pipe_bind.
  { intros w Hw. eapply does_incr_stat; [exact Hw|exact Hz|].
    apply in_i64_spec. unfold i64_min, i64_max in *. simpl in *. lia. }
  cbn [aq with_q]. unfold spec_resolve. destruct cleanup; y_steps.
Qed.

(** ** Status *)

Lemma y_pipe3 {A B C D} q (c1 : rcmd A) (c2 : rcmd B) (c3 : rcmd C) (f : A * B * C -> qm D)
    v x y z r v' :
  (forall s, rep q s (aq v) -> does q s c1 x (aq v)) ->
  (forall s, rep q s (aq v) -> does q s c2 y (aq v)) ->
  (forall s, rep q s (aq v) -> does q s c3 z (aq v)) ->
  yields q (f (x, y, z)) v r v' -> yields q (pipe3 c1 c2 c3 ≫= f) v r v'.
Proof.
  intros H1 H2 H3 Hf. eapply y_bind; [|exact Hf]. unfold pipe3.
  eapply y_redis; [exact H1|]. eapply y_redis; [exact H2|]. eapply y_redis; [exact H3|].
  apply y_ret.
Qed.

Lemma status_refines q v j :
  q_wf (aq v) -> yields q (get_job_status q j) v (Ok (job_phase (aq v) j)) v.
Proof.
  intros Hwf. unfold get_job_status, job_phase.
  eapply y_pipe3; [auto with wq..|].
  destruct (q_result (aq v) j) as [s|] eqn:Hr.
  - destruct (wf_result _ Hwf j s Hr) as ((r & -> & Hst) & _).
    rewrite (bool_decide_true (is_Some (Some _))) by (by eexists). eapply y_bind.
    { y_step. rewrite Hr, read_result. apply y_ret. }
    simpl. rewrite result_roundtrip. apply y_mret.
  - rewrite (bool_decide_false (is_Some None)) by (by intros [? ?]).
    eapply y_bind; [apply y_mret|]. simpl.
    unfold claimed. rewrite !decide_bool_decide.
    destruct (bool_decide (is_Some (q_claims (aq v) !! id_to_string j))); [apply y_mret|].
    destruct (bool_decide (is_Some (q_desc (aq v) j))); apply y_mret.
Qed.

Lemma status_code_range st : (0 <= status_code st <= 12)%Z.
Proof. destruct st; simpl; lia. Qed.

Lemma status_code_roundtrip st : status_try_from (status_code st) = Ok st.
Proof. by destruct st. Qed.

Lemma parse_u8_status st : parse_u8 (Z_to_str (status_code st)) = Some (status_code st).
Proof. by destruct st. Qed.

Lemma resolved_status_refines q v j :
  q_wf (aq v) ->
  exists st, yields q (get_resolved_status q j) v (Ok st) v /\
    (forall s, st = Some s <-> q_resolved (aq v) j = Some (Z_to_str (status_code s))).
Proof.
  intros Hwf. unfold get_resolved_status. destruct (q_resolved (aq v) j) as [s|] eqn:Hr.
  - destruct (wf_resolved _ Hwf j s Hr) as (st & Hst & ->). exists (Some st). split.
    + y_step. rewrite Hr. rewrite parse_u8_status. y_steps.
      rewrite status_code_roundtrip. y_steps.
    + intros s. split; [by intros [= ->]|]. intros [= Heq].
      apply (f_equal parse_u8) in Heq. rewrite !parse_u8_status in Heq. simplify_eq.
      apply (f_equal status_try_from) in Heq. rewrite !status_code_roundtrip in Heq.
      congruence.
  - exists None. split; [|done]. y_step. rewrite Hr. y_steps.
Qed.

Lemma job_result_refines q v j r :
  q_result (aq v) j = Some (result_to_string r) ->
  yields q (get_job_result q j) v (Ok (res_result r)) v.
Proof.
  intros Hr. unfold get_job_result. eapply y_get_text.
  { intros w Hw. rewrite <- Hr. auto with wq. }
  rewrite result_roundtrip. y_steps.
Qed.

Lemma job_result_missing q v j :
  q_result (aq v) j = None ->
  yields q (get_job_result q j) v (Err (RedisError Conversion)) v.
Proof.
  intros Hr. unfold get_job_result. apply y_bind_err. unfold get_text. y_step. rewrite Hr. y_steps.
Qed.

(** ** Statistics *)

Lemma zset_count_all (z : gmap str Z) lo hi :
  (forall m sc, z !! m = Some sc -> (lo <= sc <= hi)%Z) -> zset_count z lo hi = N.of_nat (size z).
Proof.
  intros Hall. unfold zset_count. rewrite <- (length_map_to_list z). do 2 f_equal.
  apply filter_all. intros [m sc] Hm%elem_of_map_to_list. apply Hall in Hm. simpl.
  apply andb_true_iff. rewrite !Z.leb_le. lia.
Qed.

Lemma pending_count a p :
  q_wf a -> partition_ok p ->
  zset_count (q_pending a p) (priority_code High) (priority_code Low) =
  N.of_nat (size (q_pending a p)).
Proof.
  intros Hwf Hp. apply zset_count_all. intros m sc Hm.
  destruct (wf_pending a Hwf p m sc Hp Hm) as (j & d & prio & _ & _ & _ & ->).
  destruct prio; simpl; lia.
Qed.

Lemma counter_refines q v n :
  q_wf (aq v) -> yields q (get_counter (get_stats_key q n)) v (Ok (counter (aq v) n)) v.
Proof.
  intros Hwf. unfold get_counter, counter. y_step.
  destruct (q_stat (aq v) n) as [s|] eqn:E; [|apply y_mret].
  destruct (wf_stat _ Hwf n s E) as (z & -> & Hz). rewrite parse_u64_to_str by done.
  apply y_ret.
Qed.

(** How many jobs wait in the partitions of a list. *)
Definition waiting_in a (ps : list str) : Z :=
  foldr (fun p n => (Z.of_nat (size (q_pending a (Some p))) + n)%Z) 0%Z ps.

Lemma count_partitions_refines q v ps n :
  q_wf (aq v) -> (forall p, p ∈ ps -> validate_partition p = Ok tt) ->
  yields q (count_partitions q ps n) v (Ok (n + waiting_in (aq v) ps)%Z) v.
Proof.
  intros Hwf. revert n. induction ps as [|p ps IH]; intros n Hps; cbn [count_partitions].
  - replace (n + waiting_in (aq v) [])%Z with n by (simpl; lia). apply y_mret.
  - assert (partition_ok (Some p)) as Hp by (simpl; apply Hps; left).
    eapply y_call; [intros; by apply does_zcount|]. rewrite pending_count by done.
    replace (n + waiting_in (aq v) (p :: ps))%Z
      with (n + Z.of_N (N.of_nat (size (q_pending (aq v) (Some p)))) + waiting_in (aq v) ps)%Z
      by (simpl; lia).
    apply IH. intros p' Hp'. apply Hps. by right.
Qed.

(** What [get_stats] is meant to report. *)
Definition stats_of a : QueueStats :=
  {| jobs_failed := counter a (lit "failed"); jobs_succeeded := counter a (lit "succeeded");
     jobs_errored := counter a (lit "errored");
     jobs_scheduled :=
       (Z.of_nat (size (q_pending a None)) + waiting_in a (elements (q_partitions a)))%Z;
     jobs_claimed := Z.of_nat (size (q_claims a)) |}.

Lemma does_zcount_default q s a lo hi :
  rep q s a -> does q s (ZCOUNT (queue_key q) lo hi) (zset_count (q_pending a None) lo hi) a.
Proof.
  intros Hr. pose proof Hr as (Hb & _). rewrite (built_queue_key q Hb). by apply does_zcount.
Qed.

Lemma stats_refine q v :
  q_wf (aq v) -> yields q (get_stats q) v (Ok (stats_of (aq v))) v.
Proof.
  intros Hwf. unfold get_stats.
  do 3 (eapply y_bind; [by apply counter_refines|]).
  y_step. eapply y_call; [intros; by apply does_zcount_default|].
  rewrite pending_count by done. cbn [aq with_q].
  eapply y_bind.
  { apply count_partitions_refines; [done|]. intros p Hp. apply (wf_partitions _ Hwf).
    by apply elem_of_elements. }
  y_step. unfold stats_of. rewrite !nat_N_Z. apply y_mret.
Qed.

(** ** Expired claims *)

Lemma reinsert_refines q v c :
  partition_ok (claim_partition c) ->
  yields q (reinsert q c) v tt (with_q v (spec_reinsert q (aq v) c)).
Proof.
  intros Hp. unfold reinsert. eapply y_prog_bind; [|apply y_ret].
  unfold spec_reinsert. y_steps.
Qed.

Definition reinserted q a (cs : list Claim) : qstate := fold_left (spec_reinsert q) cs a.

Lemma reinsert_expired_refines q v t cs :
  (forall c, c ∈ cs -> partition_ok (claim_partition c)) ->
  yields q (reinsert_expired q t cs) v tt
    (with_q v (reinserted q (aq v) (List.filter (claim_expired (reclaim_timeout q) t) cs))).
Proof.
  revert v. induction cs as [|c cs IH]; intros v Hcs; cbn [reinsert_expired List.filter].
  { apply y_ret. }
  assert (forall c', c' ∈ cs -> partition_ok (claim_partition c')) as Hcs'.
  { intros c' Hc'. apply Hcs. by right. }
  destruct (claim_expired _ t c); [|by apply IH].
  eapply y_prog_bind; [apply reinsert_refines, Hcs; left|]. by apply IH.
Qed.

Lemma y_redis_prog {A B} q (c : rcmd A) (k : result rerror A -> prog B) v x r v' :
  (forall s, rep q s (aq v) -> does q s c x (aq v)) ->
  yields q (k (Ok x)) v r v' -> yields q (Vis (Redis c) k) v r v'.
Proof. intros Hc Hk. eapply y_redis; [exact Hc|]. done. Qed.

Lemma reclaim_round_refines q v :
  q_wf (aq v) ->
  yields q (reclaim_checker_round q) v tt
    (with_q v (reinserted q (aq v)
       (List.filter (claim_expired (reclaim_timeout q) (a_now v)) (stored_claims (aq v))))).
Proof.
  intros Hwf. unfold reclaim_checker_round. eapply y_redis_prog; [auto with wq|].
  cbv beta iota. rewrite stored_claims_read by done.
  assert (forall c, c ∈ stored_claims (aq v) -> partition_ok (claim_partition c)) as Hp.
  { intros c. by apply stored_claim_partition. }
  destruct (stored_claims (aq v)) as [|c cs]; [apply y_ret|].
  eapply (y_prog_bind q (fun t => reinsert_expired q t (c :: cs)) (Vis UtcNow (fun t => Ret t))).
  - intros St server w Hw. simpl. exists w. pose proof Hw as (_ & Ht & _). by rewrite Ht.
  - by apply reinsert_expired_refines.
Qed.
End resolve.
