(* ===== verification/WqClaim.v ===== *)
(** * Claiming

    [picks p t a a' r] is what taking the next job of partition [p] at time [t] means: expired
    jobs at the front are cancelled, and the first job that isn't expired is taken, if there is
    one.  [claim_job_in] implements it, returns after its timeout at the latest, and its loop
    needs no more rounds than there are pending jobs and messages. *)

From S2P Require Import Prelude Ord RustStd Redis WqCore WqProg Wq WqSpec WqRefine WqInv.

Section claim.
Context `{JobIds} {P R : Type} `{!Codecs P R}.
Implicit Types (q : WorkQueue P R) (a : qstate) (v : aworld) (j : JobId) (d : JobDesc P).

Local Abbreviation wf := (q_wf (P := P) (R := R)).
Local Abbreviation cancel := (spec_cancel (P := P) (R := R)).

(** The pending job that [ZPOPMIN] gives. *)
Definition is_first a (p : option str) j (prio : Priority) : Prop :=
  zset_min (map_to_list (q_pending a p)) = Some (id_to_string j, priority_code prio).

Inductive picks (p : option str) (t : Z) :
    qstate -> qstate -> option (JobId * Priority * P) -> Prop :=
| picks_empty a :
    q_pending a p = ∅ -> picks p t a a None
| picks_expired a j prio d a' r :
    is_first a p j prio -> described a j d -> (deadline d < t)%Z ->
    picks p t (cancel (take_pending a p j) j) a' r -> picks p t a a' r
| picks_first a j prio d :
    is_first a p j prio -> described a j d -> (t <= deadline d)%Z ->
    picks p t a (take_pending a p j) (Some (j, prio, desc_params d)).

Lemma is_first_pending a p j prio :
  is_first a p j prio -> q_pending a p !! id_to_string j = Some (priority_code prio).
Proof. intros [Hin _]%zset_min_spec. by apply elem_of_map_to_list in Hin. Qed.

Lemma is_first_least a p j prio m sc :
  is_first a p j prio -> q_pending a p !! m = Some sc ->
  zset_le (id_to_string j, priority_code prio) (m, sc) = true.
Proof. intros [_ Hmin]%zset_min_spec Hm. apply Hmin. by apply elem_of_map_to_list. Qed.

Lemma first_or_empty a p :
  wf a -> partition_ok p ->
  q_pending a p = ∅ \/
  exists j prio d, is_first a p j prio /\ described a j d /\ desc_partition d = p.
Proof.
  intros Hwf Hp. destruct (zset_min (map_to_list (q_pending a p))) as [[m sc]|] eqn:E.
  - right. destruct (zset_min_spec _ _ E) as [Hin%elem_of_map_to_list _].
    destruct (wf_pending a Hwf p m sc Hp Hin) as (j & d & prio & -> & Hd & Hdp & ->).
    by exists j, prio, d.
  - left. apply zset_min_none in E. by apply map_to_list_empty_iff.
Qed.

Section step.
Context a p j d (Hwf : wf a) (Hd : described a j d) (Hdp : desc_partition d = p).

Let a1 := cancel (take_pending a p j) j.

Lemma cancel_pending p' :
  q_pending a1 p' = if decide (p' = p) then delete (id_to_string j) (q_pending a p)
                    else q_pending a p'.
Proof using Hd Hdp.
  unfold a1, spec_cancel. simpl.
  rewrite (stored_partition_described (take_pending a p j) j d Hd), Hdp.
  rewrite fn_set_eq. unfold fn_set. repeat case_decide; try done.
  by rewrite delete_delete_eq.
Qed.

Lemma cancel_desc j' : q_desc a1 j' = if decide (j' = j) then None else q_desc a j'.
Proof. reflexivity. Qed.

Lemma cancel_claims : partition_ok p -> pending_in a p j -> q_claims a1 = q_claims a.
Proof using Hwf.
  intros Hp Hpend. unfold a1, spec_cancel. simpl. apply delete_id.
  destruct (q_claims a !! id_to_string j) as [s|] eqn:E; [|done].
  exfalso. by eapply (claimed_not_pending a j p); [|by eexists|..].
Qed.

Lemma cancel_described j' d' : described a1 j' d' -> described a j' d' /\ j' <> j.
Proof.
  intros (s & Hs & Hds). rewrite cancel_desc in Hs. case_decide; [done|].
  split; [by exists s|done].
Qed.

Lemma described_cancel j' d' : described a j' d' -> j' <> j -> described a1 j' d'.
Proof.
  intros (s & Hs & Hds) Hne. exists s. rewrite cancel_desc. by rewrite decide_False.
Qed.

Lemma cancel_wf : wf a1.
Proof using Hwf. by apply wf_cancel, wf_take_pending. Qed.
End step.

Lemma cancel_size a p j d prio :
  described a j d -> desc_partition d = p -> is_first a p j prio ->
  S (size (q_pending (cancel (take_pending a p j) j) p)) = size (q_pending a p).
Proof.
  intros Hd Hdp Hf. rewrite (cancel_pending a p j d Hd Hdp), decide_True by done.
  pose proof (is_first_pending a p j prio Hf) as Hm.
  rewrite <- (insert_delete_id _ _ _ Hm) at 2.
  by rewrite map_size_insert_None by apply lookup_delete_eq.
Qed.

(** There is always a next job, or none. *)
Lemma picks_total a p t : wf a -> partition_ok p -> exists a' r, picks p t a a' r.
Proof.
  intros Hwf Hp. remember (size (q_pending a p)) as n eqn:Hn. revert a Hwf Hn.
  induction n as [n IH] using lt_wf_ind. intros a Hwf ->.
  destruct (first_or_empty a p Hwf Hp) as [He|(j & prio & d & Hf & Hd & Hdp)].
  - exists a, None. by constructor.
  - destruct (Z.lt_ge_cases (deadline d) t) as [Hlt|Hge].
    + destruct (IH (size (q_pending (cancel (take_pending a p j) j) p))
                  ltac:(pose proof (cancel_size a p j d prio Hd Hdp Hf); lia)
                  (cancel (take_pending a p j) j)) as (a' & r & Hpick);
        [by apply cancel_wf|done|].
      exists a', r. by eapply picks_expired.
    + eexists _, _. by eapply picks_first.
Qed.

Lemma picks_wf a p t a' r : wf a -> picks p t a a' r -> wf a'.
Proof.
  intros Hwf Hpick. induction Hpick as [a He|a j prio d a' r Hf Hd Hlt _ IH|a j prio d Hf Hd Hge].
  - done.
  - by apply IH, cancel_wf.
  - by apply wf_take_pending.
Qed.

(** A job that waits in [p] and isn't expired. *)
Definition ready a p (t : Z) j d sc : Prop :=
  q_pending a p !! id_to_string j = Some sc /\ described a j d /\ (t <= deadline d)%Z.

Lemma ready_cancel a p t j d j' d' sc :
  wf a -> described a j d -> desc_partition d = p -> (deadline d < t)%Z ->
  ready a p t j' d' sc <-> ready (cancel (take_pending a p j) j) p t j' d' sc.
Proof.
  intros Hwf Hd Hdp Hlt. unfold ready.
  rewrite (cancel_pending a p j d Hd Hdp), decide_True by done. split.
  - intros (Hm & Hd' & Hge). assert (j' <> j) as Hne.
    { intros ->. rewrite (described_inj a j d d' Hd Hd') in Hlt. lia. }
    rewrite lookup_delete_ne by (by intros Heq%(inj id_to_string)).
    split_and!; [done|by apply described_cancel|done].
  - intros (Hm & Hd' & Hge). apply lookup_delete_Some in Hm as [_ Hm].
    apply cancel_described in Hd' as [Hd' _]. by split_and!.
Qed.

(** The job that is taken waited there, wasn't expired, and was the first such job. *)
Lemma picks_sound a p t a' j prio x :
  wf a -> partition_ok p -> picks p t a a' (Some (j, prio, x)) ->
  exists d, ready a p t j d (priority_code prio) /\ desc_params d = x /\
    forall j' d' sc, ready a p t j' d' sc ->
      zset_le (id_to_string j, priority_code prio) (id_to_string j', sc) = true.
Proof.
  intros Hwf Hp Hpick. remember (Some (j, prio, x)) as r eqn:Hr. revert Hwf.
  induction Hpick as [a He|a j1 prio1 d1 a' r Hf Hd Hlt Hpick IH|a j1 prio1 d1 Hf Hd Hge];
    intros Hwf; [done| |]; simplify_eq.
  - pose proof (pending_partition a p j1 d1 Hwf Hp
                  (ex_intro _ _ (is_first_pending _ _ _ _ Hf)) Hd) as Hdp.
    destruct (IH eq_refl (cancel_wf a p j1 Hwf)) as (d & Hready & Hx & Hmin).
    exists d. split_and!; [by rewrite ready_cancel|done|].
    intros j' d' sc Hj'. apply (Hmin j' d'). by rewrite <- ready_cancel.
  - exists d1. split_and!; [split_and!; [by apply is_first_pending|done|done]|done|].
    intros j' d' sc (Hm & _). by eapply is_first_least.
Qed.

(** When nothing is taken, nothing was ready, and nothing is left. *)
Lemma picks_none a p t a' :
  wf a -> partition_ok p -> picks p t a a' None ->
  q_pending a' p = ∅ /\ forall j d sc, ~ ready a p t j d sc.
Proof.
  intros Hwf Hp Hpick. remember None as r eqn:Hr. revert Hwf.
  induction Hpick as [a He|a j1 prio1 d1 a' r Hf Hd Hlt Hpick IH|]; intros Hwf; [| |done].
  - split; [done|]. intros j d sc (Hm & _). by rewrite He, lookup_empty in Hm.
  - pose proof (pending_partition a p j1 d1 Hwf Hp
                  (ex_intro _ _ (is_first_pending _ _ _ _ Hf)) Hd) as Hdp.
    destruct (IH Hr (cancel_wf a p j1 Hwf)) as (He & Hnone). split; [done|].
    intros j d sc Hready. apply (Hnone j d sc). by rewrite <- ready_cancel.
Qed.

(** What was pending elsewhere stays, and so does every job that is ready but the one taken. *)
Lemma picks_keeps a p t a' r :
  wf a -> partition_ok p -> picks p t a a' r ->
  (forall p', p' <> p -> q_pending a' p' = q_pending a p') /\
  q_claims a' = q_claims a /\
  (forall j d sc, ready a p t j d sc -> (fun x => x.1.1) <$> r <> Some j -> ready a' p t j d sc).
Proof.
  intros Hwf Hp Hpick. revert Hwf.
  induction Hpick as [a He|a j1 prio1 d1 a' r Hf Hd Hlt Hpick IH|a j1 prio1 d1 Hf Hd Hge];
    intros Hwf; [done| |].
  - assert (pending_in a p j1) as Hpend by (eexists; by apply is_first_pending).
    pose proof (pending_partition a p j1 d1 Hwf Hp Hpend Hd) as Hdp.
    destruct (IH (cancel_wf a p j1 Hwf)) as (Hoth & Hcl & Hready). split_and!.
    + intros p' Hne. rewrite Hoth by done.
      by rewrite (cancel_pending a p j1 d1 Hd Hdp), decide_False.
    + by rewrite Hcl, cancel_claims.
    + intros j d sc Hj Hr. apply Hready; [|done]. by rewrite <- ready_cancel.
  - split_and!; [|done|].
    + intros p' Hne. simpl. by rewrite fn_set_ne.
    + intros j d sc (Hm & Hj & Hdl) Hr. split_and!; [|done|done]. simpl. rewrite fn_set_eq.
      rewrite lookup_delete_ne; [done|]. simpl in Hr. intros Heq%(inj id_to_string). congruence.
Qed.

(** The job that is taken is pending nowhere afterwards, and keeps its description. *)
Lemma picks_taken a p t a' j prio x d :
  wf a -> partition_ok p -> picks p t a a' (Some (j, prio, x)) -> described a j d ->
  described a' j d /\ (forall p', partition_ok p' -> ~ pending_in a' p' j) /\
  q_result a' j = None.
Proof.
  intros Hwf Hp Hpick Hd.
  destruct (picks_sound a p t a' j prio x Hwf Hp Hpick) as (d' & (Hm & Hd' & Hge) & _).
  rewrite (described_inj a j d d' Hd Hd'). clear d Hd. rename Hd' into Hd. rename d' into d.
  assert (q_result a' j = q_result a j) as ->.
  { clear -Hpick. remember (Some (j, prio, x)) as r. clear Heqr.
    induction Hpick as [a He|a j1 prio1 d1 a' r Hf Hd Hlt Hpick IH|a j1 prio1 d1 Hf Hd Hge];
      [done|by rewrite IH|done]. }
  assert (q_result a j = None) as Hnores.
  { destruct (q_result a j) as [s|] eqn:E; [|done].
    apply (wf_result a Hwf) in E as (_ & _ & Hnp). exfalso. apply (Hnp p Hp). by eexists. }
  remember (Some (j, prio, x)) as r eqn:Hr. revert Hwf Hm Hd Hge Hnores.
  induction Hpick as [a He|a j1 prio1 d1 a' r Hf Hd1 Hlt Hpick IH|a j1 prio1 d1 Hf Hd1 Hge1];
    intros Hwf Hm Hd Hge Hnores; [done| |].
  - assert (pending_in a p j1) as Hpend1 by (eexists; by apply is_first_pending).
    pose proof (pending_partition a p j1 d1 Hwf Hp Hpend1 Hd1) as Hdp1.
    destruct (proj1 (ready_cancel a p t j1 d1 j d (priority_code prio) Hwf Hd1 Hdp1 Hlt))
      as (Hm' & Hd' & _); [by split_and!|].
    apply IH; [done|by apply cancel_wf|done..].
  - injection Hr as -> -> _. split_and!; [exact Hd| |done].
    intros p' Hp' [sc Hsc]. simpl in Hsc. destruct (decide (p' = p)) as [->|Hne].
    + by rewrite fn_set_eq, lookup_delete_eq in Hsc.
    + rewrite fn_set_ne in Hsc by done. apply Hne.
      transitivity (desc_partition d); [symmetry|];
        (eapply pending_partition; [done|done|by eexists|done]).
Qed.

(** ** The loop *)

Lemma priority_code_roundtrip prio : priority_from_redis_value (priority_code prio) = Ok prio.
Proof. by destruct prio. Qed.

(** A job is popped and its description read. *)
Lemma y_pop {fuel} q v p start rem j prio d r v' :
  partition_ok p -> is_first (aq v) p j prio -> described (aq v) j d ->
  yields q
    (if (deadline d <? a_now v)%Z then
       _ ← cancel_job q j; claim_loop fuel q (pending_key q p) start rem
     else mret (Some (j, prio, desc_params d)) : qm _)
    (with_q v (take_pending (aq v) p j)) r v' ->
  yields q (claim_loop (S fuel) q (pending_key q p) start rem) v r v'.
Proof.
  intros Hp Hf Hd Hk. cbn [claim_loop].
  eapply y_call; [intros s Hs; by eapply does_zpopmin_some|].
  unfold id_from_redis_value. rewrite id_parse_to_string. y_step.
  rewrite priority_code_roundtrip. cbn [map_err]. y_step.
  pose proof Hd as (s & Hs & Hds). eapply y_bind.
  { unfold get_text. eapply y_call; [intros w Hw; by apply does_get_job|].
    cbn [aq with_q]. simpl. rewrite Hs. apply y_mret. }
  rewrite (desc_roundtrip d s Hds). y_steps. exact Hk.
Qed.

(** A job is taken. *)
Lemma claim_loop_takes q v p start rem fuel a' x :
  wf (aq v) -> partition_ok p -> (size (q_pending (aq v) p) < fuel)%nat ->
  picks p (a_now v) (aq v) a' (Some x) ->
  yields q (claim_loop fuel q (pending_key q p) start rem) v (Ok (Some x)) (with_q v a').
Proof.
  intros Hwf Hp Hfuel Hpick.
  remember (aq v) as a eqn:Ha. remember (Some x) as r eqn:Hr. remember (a_now v) as t eqn:Ht.
  revert v fuel Ha Ht Hfuel Hwf.
  induction Hpick as [a He|a j prio d a' r Hf Hd Hlt Hpick IH|a j prio d Hf Hd Hge];
    intros v fuel -> -> Hfuel Hwf; [done| |]; (destruct fuel as [|fuel]; [lia|]).
  - pose proof (pending_partition _ p j d Hwf Hp
                  (ex_intro _ _ (is_first_pending _ _ _ _ Hf)) Hd) as Hdp.
    pose proof (cancel_size _ p j d prio Hd Hdp Hf) as Hsize.
    eapply y_pop; [done..|]. rewrite (proj2 (Z.ltb_lt _ _) Hlt).
    eapply y_bind; [by apply cancel_refines, wf_take_pending|]. rewrite with_q_twice.
    apply (IH Hr (with_q v (cancel (take_pending (aq v) p j) j))); [done|done|lia|by apply cancel_wf].
  - eapply y_pop; [done..|]. rewrite (proj2 (Z.ltb_ge _ _)) by done.
    injection Hr as <-. apply y_mret.
Qed.

(** Every pending job was expired: the loop goes on to wait. *)
Lemma claim_loop_drops q v p start rem fuel a' r v' :
  wf (aq v) -> partition_ok p -> (size (q_pending (aq v) p) <= fuel)%nat ->
  picks p (a_now v) (aq v) a' None ->
  (forall fuel', (fuel <= fuel' + size (q_pending (aq v) p))%nat ->
    yields q (claim_loop fuel' q (pending_key q p) start rem) (with_q v a') r v') ->
  yields q (claim_loop fuel q (pending_key q p) start rem) v r v'.
Proof.
  intros Hwf Hp Hfuel Hpick.
  remember (aq v) as a eqn:Ha. remember None as o eqn:Ho. remember (a_now v) as t eqn:Ht.
  revert v fuel Ha Ht Hfuel Hwf.
  induction Hpick as [a He|a j prio d a' o Hf Hd Hlt Hpick IH|a j prio d Hf Hd Hge];
    intros v fuel -> -> Hfuel Hwf Hk; [| |done].
  - rewrite He in Hk. specialize (Hk fuel). rewrite with_q_same in Hk. apply Hk. lia.
  - pose proof (pending_partition _ p j d Hwf Hp
                  (ex_intro _ _ (is_first_pending _ _ _ _ Hf)) Hd) as Hdp.
    pose proof (cancel_size _ p j d prio Hd Hdp Hf) as Hsize.
    destruct fuel as [|fuel]; [lia|].
    eapply y_pop; [done..|]. rewrite (proj2 (Z.ltb_lt _ _) Hlt).
    eapply y_bind; [by apply cancel_refines, wf_take_pending|]. rewrite with_q_twice.
    apply (IH Ho (with_q v (cancel (take_pending (aq v) p j) j))); [done|done|lia|by apply cancel_wf|].
    intros fuel' Hfuel'. rewrite with_q_twice. apply Hk. lia.
Qed.

(** ** Waiting *)

Lemma a_receive_bounds timeout v :
  (0 <= timeout)%Z ->
  aq (a_receive timeout v).2 = aq v /\ a_uuids (a_receive timeout v).2 = a_uuids v /\
  (a_now v <= a_now (a_receive timeout v).2 <= a_now v + timeout)%Z /\
  (length (a_inbox (a_receive timeout v).2) <= length (a_inbox v))%nat /\
  ((a_receive timeout v).1 = TimedOut \/
   exists m, (a_receive timeout v).1 = Received m /\
     (S (length (a_inbox (a_receive timeout v).2)) = length (a_inbox v))%nat).
Proof.
  intros Hpos. unfold a_receive. destruct (a_inbox v) as [|[t m] rest]; simpl.
  { split_and!; [done|done|lia|lia|lia|by left]. }
  destruct (Z.leb_spec t (a_now v + timeout)); simpl.
  - split_and!; [done|done|lia|lia|lia|right; by exists m].
  - split_and!; [done|done|lia|lia|lia|by left].
Qed.

(** What the loop does with what it received. *)
Definition after_recv (fuel : nat) q (key : str) (start rem : Z) (r : received) :
    qm (option (JobId * Priority * P)) :=
  match r with
  | TimedOut => mret None
  | _ => t ← qev InstantNow;
         match checked_sub rem (t - start) with
         | None => mret None
         | Some rem => claim_loop fuel q key start rem
         end
  end.

Lemma y_round q v p start rem fuel r v' :
  partition_ok p -> q_pending (aq v) p = ∅ ->
  yields q (after_recv fuel q (pending_key q p) start rem (a_receive rem v).1)
    (a_receive rem v).2 r v' ->
  yields q (claim_loop (S fuel) q (pending_key q p) start rem) v r v'.
Proof.
  intros Hp He Hk. cbn [claim_loop].
  eapply y_call; [intros s Hs'; by apply does_zpopmin_none|]. rewrite with_q_same.
  by apply y_recv.
Qed.

(** With nothing pending, and nobody else adding jobs, the loop ends when its time is up or
    before: each message costs one round. *)
Lemma claim_loop_waits q v p start rem limit :
  partition_ok p -> q_pending (aq v) p = ∅ -> (0 <= rem)%Z ->
  (start <= a_now v)%Z -> (a_now v + rem <= limit)%Z -> (start + rem <= limit)%Z ->
  exists v', (forall fuel, (length (a_inbox v) < fuel)%nat ->
      yields q (claim_loop fuel q (pending_key q p) start rem) v (Ok None) v') /\
    aq v' = aq v /\ a_uuids v' = a_uuids v /\ (a_now v <= a_now v' <= limit)%Z.
Proof.
  intros Hp. remember (length (a_inbox v)) as n eqn:Hn. revert v rem Hn.
  induction n as [n IH] using lt_wf_ind. intros v rem -> He Hrem Hs Hl1 Hl2.
  destruct (a_receive_bounds rem v Hrem) as (Hq & Hu & Hnow & Hlen & Hcase).
  set (v1 := (a_receive rem v).2) in *.
  destruct Hcase as [Ht|(m & Hm & Hlen')].
  { exists v1. split_and!; [|done|done|lia|lia]. intros [|fuel] Hfuel; [lia|].
    apply y_round; [done|done|]. rewrite Ht. apply y_mret. }
  destruct (Z.leb_spec (a_now v1 - start) rem) as [Hle|Hgt].
  - destruct (IH (length (a_inbox v1)) ltac:(lia) v1 (rem - (a_now v1 - start))%Z)
      as (v' & Hy & Hq' & Hu' & Hnow'); [done|by rewrite Hq|lia..|].
    exists v'. split_and!; [|congruence|congruence|lia|lia]. intros [|fuel] Hfuel; [lia|].
    apply y_round; [done|done|]. rewrite Hm. cbn [after_recv]. fold v1. y_step.
    unfold checked_sub. rewrite (proj2 (Z.leb_le _ _)) by lia. apply Hy. lia.
  - exists v1. split_and!; [|done|done|lia|lia]. intros [|fuel] Hfuel; [lia|].
    apply y_round; [done|done|]. rewrite Hm. cbn [after_recv]. fold v1. y_step.
    unfold checked_sub. rewrite (proj2 (Z.leb_gt _ _)) by lia. apply y_mret.
Qed.

(** ** The operation *)

Definition claim_of j prio (worker : str) (t : Z) (p : option str) : Claim :=
  {| claim_job_id := j; claim_priority := prio; claim_worker_id := worker; claim_time := t;
     claim_partition := p |}.

Lemma claim_takes q v partition p worker fuel a' j prio x :
  wf (aq v) -> normalize (pending q) partition = Ok p ->
  (size (q_pending (aq v) p) < fuel)%nat ->
  picks p (a_now v) (aq v) a' (Some (j, prio, x)) ->
  yields q (claim_job_in fuel q partition worker) v (Ok (Some {| job_id := j; job_params := x |}))
    (with_q v (spec_claim (P := P) (R := R) a' j (claim_of j prio worker (a_now v) p))).
Proof.
  intros Hwf Hn Hfuel Hpick. destruct (normalize_Ok _ _ _ Hn) as [Hp _].
  unfold claim_job_in. rewrite Hn. y_steps. eapply y_bind.
  { by eapply claim_loop_takes. }
  unfold spec_claim. y_steps.
Qed.

Lemma claim_gives_up q v partition p worker a' :
  wf (aq v) -> normalize (pending q) partition = Ok p -> (0 <= claim_timeout q)%Z ->
  picks p (a_now v) (aq v) a' None ->
  exists v', (forall fuel, (size (q_pending (aq v) p) + length (a_inbox v) < fuel)%nat ->
      yields q (claim_job_in fuel q partition worker) v (Ok None) v') /\
    aq v' = a' /\ a_uuids v' = a_uuids v /\
    (a_now v <= a_now v' <= a_now v + claim_timeout q)%Z.
Proof.
  intros Hwf Hn Htime Hpick. destruct (normalize_Ok _ _ _ Hn) as [Hp _].
  destruct (picks_none (aq v) p (a_now v) a') as (He & _); [done..|].
  destruct (claim_loop_waits q (with_q v a') p (a_now v) (claim_timeout q)
              (a_now v + claim_timeout q)) as (v' & Hy & Hq & Hu & Hnow); [done|done|simpl; lia..|].
  exists v'. split_and!; [|done|done|apply Hnow|apply Hnow].
  intros fuel Hfuel. unfold claim_job_in. rewrite Hn. y_steps.
  eapply (y_bind _ _ _ _ None); [|apply y_mret].
  eapply claim_loop_drops; [done|done|lia|done|].
  intros fuel' Hfuel'. apply Hy. simpl. lia.
Qed.
End claim.

(** ** Waiting for a job

    [wait_for_job] returns the status of a job that is resolved, or that is reported on its
    channel while it waits, and it ends within its timeout whatever arrives. *)

Section wait.
Context `{JobIds} {P R : Type} `{!Codecs P R}.
Implicit Types (q : WorkQueue P R) (a : qstate) (v : aworld) (j : JobId).

(** What a subscriber of the channel receives when a text is published. *)
Definition delivered (ch msg : str) : push :=
  Push KindMessage [BulkString (Some ch); BulkString (Some msg)].

Definition wait_time (timeout : option Z) : Z := default (seconds (3600 * 24)) timeout.

(** What a message says: nothing about this job, its status, or something that isn't one. *)
Definition heard (ch : str) (m : push) : option (option Z) :=
  match kind m, push_data m with
  | KindMessage, BulkString (Some recv_channel) :: BulkString raw_status :: _ =>
      if str_eqb recv_channel ch then Some (raw_status ≫= parse_u8) else None
  | _, _ => None
  end.

Definition on_message (continue : qm (Z + option JobStatus)) (ch : str) (m : push) :
    qm (Z + option JobStatus) :=
  match heard ch m with
  | None => continue
  | Some (Some status) => mret (inl status)
  | Some None => _ ← qev (Unsubscribe ch); mret (inr (Some InternalError))
  end.

(** One round of the loop. *)
Definition after_wait (fuel : nat) (ch : str) (start rem : Z) (r : received) (t : Z) :
    qm (Z + option JobStatus) :=
  match r with
  | TimedOut => mret (inr None)
  | RecvError => qerr (Other (lit "channel"))
  | Received m =>
      match checked_sub rem (t - start) with
      | None => mret (inr None)
      | Some rem => on_message (wait_loop fuel ch start rem) ch m
      end
  end.

Lemma y_wait_round q v ch start rem fuel r v' :
  (let v1 := (a_receive rem v).2 in
   yields q (after_wait fuel ch start rem (a_receive rem v).1 (a_now v1)) v1 r v') ->
  yields q (wait_loop (S fuel) ch start rem) v r v'.
Proof.
  simpl. intros Hk. cbn [wait_loop]. apply y_recv.
  destruct (a_receive rem v).1 as [| |m]; [exact Hk|exact Hk|].
  cbv beta iota. apply y_instant. cbn [after_wait] in Hk.
  destruct (checked_sub _ _) as [rem'|]; [|exact Hk].
  unfold on_message, heard in Hk.
  destruct (kind m), (push_data m) as [|[[ch'|]|] [|[raw|] data]]; try exact Hk;
    destruct (str_eqb ch' ch); exact Hk.
Qed.

Lemma heard_delivered ch st :
  heard ch (delivered ch (Z_to_str (status_code st))) = Some (Some (status_code st)).
Proof.
  unfold heard, str_eqb. simpl. rewrite bool_decide_true by done. by rewrite parse_u8_status.
Qed.

Lemma wait_loop_hears q v ch start rem st t rest fuel :
  a_inbox v = (t, delivered ch (Z_to_str (status_code st))) :: rest ->
  (t <= a_now v + rem)%Z -> (Z.max (a_now v) t - start <= rem)%Z ->
  yields q (wait_loop (S fuel) ch start rem) v (Ok (inl (status_code st)))
    (AWorld _ (aq v) (Z.max (a_now v) t) (a_uuids v) rest).
Proof.
  intros Hin Ht Hrem. apply y_wait_round. unfold a_receive. rewrite Hin.
  rewrite (proj2 (Z.leb_le _ _)) by done. cbn [fst snd a_now after_wait].
  unfold checked_sub. rewrite (proj2 (Z.leb_le _ _)) by done.
  unfold on_message. rewrite heard_delivered. apply y_mret.
Qed.

(** The loop ends when its time is up or before, and changes nothing. *)
Lemma wait_loop_ends q v ch start rem limit :
  (0 <= rem)%Z -> (start <= a_now v)%Z -> (a_now v + rem <= limit)%Z -> (start + rem <= limit)%Z ->
  exists r v', (forall fuel, (length (a_inbox v) < fuel)%nat ->
      yields q (wait_loop fuel ch start rem) v (Ok r) v') /\
    aq v' = aq v /\ (a_now v <= a_now v' <= limit)%Z.
Proof.
  remember (length (a_inbox v)) as n eqn:Hn. revert v rem Hn.
  induction n as [n IH] using lt_wf_ind. intros v rem -> Hrem Hs Hl1 Hl2.
  destruct (a_receive_bounds rem v Hrem) as (Hq & Hu & Hnow & Hlen & Hcase).
  set (v1 := (a_receive rem v).2) in *.
  assert (forall r v', (a_now v1 <= a_now v' <= limit)%Z -> aq v' = aq v1 ->
    (forall fuel, (length (a_inbox v) <= fuel)%nat ->
       yields q (after_wait fuel ch start rem (a_receive rem v).1 (a_now v1)) v1 (Ok r) v') ->
    exists r v', (forall fuel, (length (a_inbox v) < fuel)%nat ->
        yields q (wait_loop fuel ch start rem) v (Ok r) v') /\
      aq v' = aq v /\ (a_now v <= a_now v' <= limit)%Z) as Hround.
  { intros r v' Hb Hqv Hy. exists r, v'. split_and!; [|congruence|lia|lia].
    intros [|fuel] Hfuel; [lia|]. apply y_wait_round, Hy. lia. }
  destruct Hcase as [Ht|(m & Hm & Hlen')].
  { rewrite Ht in Hround. eapply (Hround _ v1); [lia|done|]. intros. apply y_mret. }
  rewrite Hm in Hround. cbn [after_wait] in Hround. unfold checked_sub in Hround.
  destruct (Z.leb_spec (a_now v1 - start) rem) as [Hle|Hgt]; cycle 1.
  { eapply (Hround _ v1); [lia|done|]. intros. apply y_mret. }
  unfold on_message in Hround. destruct (heard ch m) as [[st|]|].
  - eapply (Hround _ v1); [lia|done|]. intros. apply y_mret.
  - eapply (Hround _ v1); [lia|done|]. intros. y_steps.
  - destruct (IH (length (a_inbox v1)) ltac:(lia) v1 (rem - (a_now v1 - start))%Z)
      as (r & v' & Hy & Hqv & Hb); [done|lia..|].
    eapply (Hround r v'); [lia|done|]. intros fuel Hfuel. apply Hy. lia.
Qed.

(** ** The operation *)

Lemma wait_unknown q v j timeout fuel :
  q_wf (P := P) (R := R) (aq v) -> job_phase (P := P) (R := R) (aq v) j = None ->
  q_resolved (aq v) j = None ->
  yields q (wait_for_job fuel q j timeout) v (Err JobNotFound) v.
Proof.
  intros Hwf Hph Hres. unfold wait_for_job.
  eapply y_bind; [by apply status_refines|]. rewrite Hph.
  destruct (resolved_status_refines q v j Hwf) as (st & Hy & Hst).
  eapply y_bind; [exact Hy|]. destruct st as [st|]; [|apply y_ret].
  assert (q_resolved (aq v) j = Some (Z_to_str (status_code st))) by by apply Hst.
  congruence.
Qed.

Lemma job_phase_result a j (r : JobResult R) :
  q_result a j = Some (result_to_string r) ->
  job_phase (P := P) (R := R) a j = Some (res_status r).
Proof. intros Hr. unfold job_phase. rewrite Hr. simpl. by rewrite result_roundtrip. Qed.

Lemma wait_resolved q v j timeout fuel (r : JobResult R) :
  q_wf (P := P) (R := R) (aq v) -> q_result (aq v) j = Some (result_to_string r) ->
  yields q (wait_for_job fuel q j timeout) v (Ok (Some (res_status r))) v.
Proof.
  intros Hwf Hr. unfold wait_for_job.
  eapply y_bind; [by apply status_refines|]. rewrite (job_phase_result _ j r Hr).
  y_steps. rewrite Hr, read_result. y_steps.
Qed.

(** A job resolved a moment ago, whose result was already taken away. *)
Lemma wait_recently_resolved q v j timeout fuel st :
  q_wf (P := P) (R := R) (aq v) -> q_result (aq v) j = None ->
  q_resolved (aq v) j = Some (Z_to_str (status_code st)) ->
  yields q (wait_for_job fuel q j timeout) v (Ok (Some st)) v.
Proof.
  intros Hwf Hr Hst. unfold wait_for_job.
  eapply y_bind; [by apply status_refines|].
  destruct (resolved_status_refines q v j Hwf) as (st' & Hy & Hst').
  apply Hst' in Hst as ->.
  destruct (job_phase _ j) as [ph|].
  - y_steps. rewrite Hr. cbn [read_optional]. y_steps.
    eapply y_bind; [exact Hy|]. cbv beta iota. y_steps.
  - eapply y_bind; [exact Hy|]. apply y_mret.
Qed.

(** The part of [wait_for_job] before its loop, for a job that isn't resolved. *)
Lemma y_wait_unresolved q v j timeout fuel ph r v' :
  q_wf (P := P) (R := R) (aq v) -> job_phase (P := P) (R := R) (aq v) j = Some ph ->
  q_result (aq v) j = None -> q_resolved (aq v) j = None ->
  yields q
    (ended ← wait_loop fuel (get_result_key q j) (a_now v) (wait_time timeout);
     match ended with
     | inr ret => mret ret
     | inl status =>
         _ ← qev (Unsubscribe (get_result_key q j));
         status ← qlift (status_try_from status);
         mret (Some status)
     end : qm (option JobStatus)) v r v' ->
  yields q (wait_for_job fuel q j timeout) v r v'.
Proof.
  intros Hwf Hph Hr Hst Hk. unfold wait_for_job.
  eapply y_bind; [by apply status_refines|]. rewrite Hph. y_steps.
  rewrite Hr. cbn [read_optional]. y_steps.
  destruct (resolved_status_refines q v j Hwf) as (st' & Hy & Hst').
  destruct st' as [st'|].
  { assert (q_resolved (aq v) j = Some (Z_to_str (status_code st'))) by by apply Hst'.
    congruence. }
  eapply y_bind; [exact Hy|]. exact Hk.
Qed.

Lemma wait_hears q v j timeout st t rest fuel ph :
  q_wf (P := P) (R := R) (aq v) -> job_phase (P := P) (R := R) (aq v) j = Some ph ->
  q_result (aq v) j = None -> q_resolved (aq v) j = None ->
  a_inbox v = (t, delivered (get_result_key q j) (Z_to_str (status_code st))) :: rest ->
  (a_now v <= t <= a_now v + wait_time timeout)%Z -> (0 < fuel)%nat ->
  yields q (wait_for_job fuel q j timeout) v (Ok (Some st)) (AWorld _ (aq v) t (a_uuids v) rest).
Proof.
  intros Hwf Hph Hr Hst Hin Ht Hfuel. destruct fuel as [|fuel]; [lia|].
  eapply y_wait_unresolved; [done..|]. eapply y_bind.
  { eapply wait_loop_hears; [done|lia|lia]. }
  cbn [aq]. y_step. rewrite status_code_roundtrip. rewrite Z.max_r by lia. y_steps.
Qed.

Lemma wait_ends q v j timeout :
  q_wf (P := P) (R := R) (aq v) -> (0 <= wait_time timeout)%Z ->
  exists r v', (forall fuel, (length (a_inbox v) < fuel)%nat ->
      yields q (wait_for_job fuel q j timeout) v r v') /\
    aq v' = aq v /\ (a_now v <= a_now v' <= a_now v + wait_time timeout)%Z.
Proof.
  intros Hwf Htime. destruct (q_result (aq v) j) as [s|] eqn:Hr.
  { destruct (wf_result _ Hwf j s Hr) as ((r & -> & _) & _).
    eexists _, v. split_and!; [|done|lia|lia]. intros. by eapply wait_resolved. }
  destruct (q_resolved (aq v) j) as [s|] eqn:Hst.
  { destruct (wf_resolved _ Hwf j s Hst) as (st & _ & ->).
    eexists _, v. split_and!; [|done|lia|lia]. intros. by eapply wait_recently_resolved. }
  destruct (job_phase (P := P) (R := R) (aq v) j) as [ph|] eqn:Hph; cycle 1.
  { eexists _, v. split_and!; [|done|lia|lia]. intros. by apply wait_unknown. }
  destruct (wait_loop_ends q v (get_result_key q j) (a_now v) (wait_time timeout)
              (a_now v + wait_time timeout)) as (r & v' & Hy & Hq & Hb); [lia..|].
  destruct r as [code|ret].
  - eexists _, v'. split_and!; [|done|lia|lia]. intros fuel Hfuel.
    eapply y_wait_unresolved; [done..|]. eapply y_bind; [by apply Hy|]. cbv beta iota. y_step.
    eapply y_prog_bind; [apply y_ret|].
    instantiate (1 := match status_try_from code with Ok s => Ok (Some s) | Err e => Err e end).
    destruct (status_try_from code); apply y_ret.
  - eexists _, v'. split_and!; [|done|lia|lia]. intros fuel Hfuel.
    eapply y_wait_unresolved; [done..|]. eapply y_bind; [by apply Hy|]. apply y_mret.
Qed.
End wait.
