(* ===== verification/WqReach.v ===== *)
(** * Every state that the operations reach is well formed

    [reach q w] are the worlds that a queue's operations reach on a server, from one without any
    of the queue's keys, while time passes and messages arrive between the operations.  In all
    of them the keyspace represents a well-formed queue. *)

From S2P Require Import Prelude Ord RustStd Redis WqCore WqProg Wq WqSpec WqRefine WqInv WqClaim.

Section reach.
Context `{JobIds} {P R : Type} `{!Codecs P R}.
Implicit Types (q : WorkQueue P R) (a : qstate) (v : aworld) (j : JobId).

Local Abbreviation wf := (q_wf (P := P) (R := R)).

(** ** The empty queue *)

Definition empty_queue : qstate :=
  QState _ (fun _ => ∅) ∅ ∅ (fun _ => None) (fun _ => None) (fun _ => None) (fun _ => None) [].

Lemma empty_queue_wf : wf empty_queue.
Proof. by split. Qed.

Lemma empty_server_rep q : built q -> rep q (RState ∅ []) empty_queue.
Proof.
  intros Hb. split_and!; [done| |done]. intros k _.
  destruct k; simpl; unfold read_zset, read_set, read_hash, read_string;
    rewrite ?lookup_empty; done.
Qed.

(** ** Operations *)

(** What a process does with the queue. *)
Inductive op :=
| OpEnqueue (partition : option str) (params : P) (priority : Priority) (deadline_in : Z)
| OpCancel (j : JobId)
| OpClaim (partition : option str) (worker : str)
| OpReclaim (j : JobId) (worker : str)
| OpResolve (worker : str) (j : JobId) (status : JobStatus) (res : option R)
| OpReclaimRound
| OpDeleteResult (j : JobId).

Definition ignore {A} (p : prog A) : prog unit := prog_bind (fun _ => Ret tt) p.

Definition op_prog (fuel : nat) q (o : op) : prog unit :=
  match o with
  | OpEnqueue partition params priority deadline_in =>
      ignore (enqueue_job_in q partition params priority deadline_in)
  | OpCancel j => ignore (cancel_job q j)
  | OpClaim partition worker => ignore (claim_job_in fuel q partition worker)
  | OpReclaim j worker => ignore (reclaim_job q j worker)
  | OpResolve worker j status res => ignore (resolve_job q worker j status res)
  | OpReclaimRound => reclaim_checker_round q
  | OpDeleteResult j => ignore (delete_job_result q j)
  end.

(** A result is deleted by who has seen it, and counters stay below 2^63 - 1. *)
Definition op_ok q a (o : op) : Prop :=
  match o with
  | OpDeleteResult j => is_Some (q_result a j)
  | OpResolve _ _ _ _ => forall st, stat_room a st
  | OpClaim _ _ => (0 <= claim_timeout q)%Z
  | _ => True
  end.

Definition inv v : Prop := wf (aq v) /\ ids_fresh (aq v) (a_uuids v).

Lemma y_ignore {A} q (p : prog A) v r v' : yields q p v r v' -> yields q (ignore p) v tt v'.
Proof. intros Hp. eapply y_prog_bind; [exact Hp|apply y_ret]. Qed.

(** Identifiers given out before stay given out. *)
Definition keeps_fresh a a' : Prop :=
  forall j, q_desc a j = None -> q_result a j = None -> q_desc a' j = None /\ q_result a' j = None.

Lemma keeps_fresh_ids a a' n : keeps_fresh a a' -> ids_fresh a n -> ids_fresh a' n.
Proof. intros Hk Hf k Hle. apply Hk; by apply Hf. Qed.

Lemma keeps_fresh_trans a1 a2 a3 : keeps_fresh a1 a2 -> keeps_fresh a2 a3 -> keeps_fresh a1 a3.
Proof. intros H12 H23 j Hd Hr. by destruct (H12 j Hd Hr); apply H23. Qed.

Lemma cancel_fresh a j : keeps_fresh a (spec_cancel (P := P) (R := R) a j).
Proof. intros j' Hd Hr. simpl. split; [|done]. unfold fn_set. by case_decide. Qed.

Lemma picks_fresh p t a a' r : picks (P := P) (R := R) p t a a' r -> keeps_fresh a a'.
Proof.
  intros Hpick. induction Hpick as [a He|a j prio d a' r Hf Hd Hlt Hpick IH|a j prio d Hf Hd Hge].
  - done.
  - eapply keeps_fresh_trans; [|exact IH]. apply (cancel_fresh (take_pending a p j)).
  - done.
Qed.

Lemma resolve_fresh q a j st (res : option R) cleanup d :
  described (P := P) (R := R) a j d -> keeps_fresh a (spec_resolve q a j st res cleanup).
Proof.
  intros (s & Hs & _) j' Hd Hr. unfold spec_resolve.
  assert (j' <> j) by congruence. destruct cleanup; simpl; by rewrite ?fn_set_ne.
Qed.

Lemma enqueue_fresh q a n s p prio :
  ids_fresh a n -> ids_fresh (spec_enqueue q a (now_v7 n) s p prio) (S n).
Proof.
  intros Hf k Hk. destruct (Hf k ltac:(lia)) as [Hd Hr].
  assert (now_v7 k <> now_v7 n) as Hne by (intros Heq%now_v7_inj; lia).
  unfold spec_enqueue. destruct p; simpl; by rewrite fn_set_ne.
Qed.

Lemma reinserted_keeps q a cs :
  wf a -> NoDup (claim_job_id <$> cs) ->
  (forall c, c ∈ cs -> q_claims a !! id_to_string (claim_job_id c) = Some (claim_to_string c)) ->
  wf (reinserted (P := P) (R := R) q a cs) /\ keeps_fresh a (reinserted (P := P) (R := R) q a cs).
Proof.
  revert a. induction cs as [|c cs IH]; intros a Hwf Hnd Hcs; [done|].
  apply NoDup_cons in Hnd as [Hnin Hnd]. simpl.
  destruct (IH (spec_reinsert q a c)) as [Hwf' Hfr]; [|done| |].
  - apply wf_reinsert; [done|]. apply Hcs. by left.
  - intros c' Hc'. simpl. rewrite lookup_delete_ne; [apply Hcs; by right|].
    intros Heq%(inj id_to_string). apply Hnin. rewrite Heq. by apply list_elem_of_fmap_2.
  - split; [done|]. eapply keeps_fresh_trans; [|exact Hfr]. by intros j.
Qed.

(** What putting claims back does to each of them, and to everything else. *)
Lemma reinserted_other q a cs j :
  (forall c, c ∈ cs -> claim_job_id c <> j) ->
  let a' := reinserted (P := P) (R := R) q a cs in
  q_claims a' !! id_to_string j = q_claims a !! id_to_string j /\
  forall p, q_pending a' p !! id_to_string j = q_pending a p !! id_to_string j.
Proof.
  revert a. induction cs as [|c cs IH]; intros a Hcs; [done|]. simpl.
  assert (id_to_string (claim_job_id c) <> id_to_string j) as Hne.
  { intros Heq%(inj id_to_string). by apply (Hcs c); [left|]. }
  destruct (IH (spec_reinsert q a c)) as [Hcl Hpe].
  { intros c' Hc'. apply Hcs. by right. }
  split; [rewrite Hcl; simpl; by rewrite lookup_delete_ne|].
  intros p. rewrite Hpe. simpl. unfold fn_set. case_decide as Hp; [|done]. subst p.
  by rewrite lookup_insert_ne.
Qed.

Lemma reinserted_one q a cs c :
  NoDup (claim_job_id <$> cs) -> c ∈ cs ->
  let a' := reinserted (P := P) (R := R) q a cs in
  q_claims a' !! id_to_string (claim_job_id c) = None /\
  q_pending a' (claim_partition c) !! id_to_string (claim_job_id c) =
    Some (priority_code (claim_priority c)).
Proof.
  revert a. induction cs as [|c' cs IH]; intros a Hnd Hc; [by apply elem_of_nil in Hc|].
  apply NoDup_cons in Hnd as [Hnin Hnd]. simpl.
  apply elem_of_cons in Hc as [->|Hc]; [|by apply IH].
  destruct (reinserted_other q (spec_reinsert q a c') cs (claim_job_id c')) as [Hcl Hpe].
  { intros c Hc Heq. apply Hnin. rewrite <- Heq. by apply list_elem_of_fmap_2. }
  unfold reinserted in *. rewrite Hcl, Hpe. simpl.
  by rewrite lookup_delete_eq, fn_set_eq, lookup_insert_eq.
Qed.

Lemma stored_claims_NoDup a :
  wf a -> NoDup (claim_job_id <$> stored_claims (P := P) (R := R) a).
Proof.
  intros Hwf. unfold stored_claims.
  assert (forall l, NoDup l.*1 -> (forall e, e ∈ l -> q_claims a !! e.1 = Some e.2) ->
    NoDup (claim_job_id <$> omap (fun e : str * str => claim_from_str e.2) l)) as Hgen;
    [|apply Hgen; [apply NoDup_fst_map_to_list|by intros [m s] He%elem_of_map_to_list]].
  assert (forall e, q_claims a !! e.1 = Some e.2 ->
    exists c, claim_from_str e.2 = Some c /\ e.1 = id_to_string (claim_job_id c)) as Hread.
  { intros [m s] He. destruct (wf_claims a Hwf m s He) as (c & d & -> & -> & _).
    exists c. simpl. by rewrite claim_roundtrip. }
  induction l as [|e l IH]; intros Hnd Hl; [constructor|]. simpl in Hnd.
  apply NoDup_cons in Hnd as [Hnin Hnd].
  destruct (Hread e (Hl e ltac:(by left))) as (c & Hc & He). simpl. rewrite Hc.
  apply NoDup_cons. split; [|apply IH; [done|]; intros e' He'; apply Hl; by right].
  intros (c' & Heq & (e' & He' & Hc')%list_elem_of_omap)%list_elem_of_fmap.
  destruct (Hread e' (Hl e' ltac:(by right))) as (c'' & Hc'' & He''). simplify_eq.
  apply Hnin. rewrite He, Heq, <- He''. by apply list_elem_of_fmap_2.
Qed.

(** ** One operation *)

Definition ends_in q (o : op) v : Prop :=
  exists n v', (forall fuel, (n < fuel)%nat -> yields q (op_prog fuel q o) v tt v') /\ inv v'.

Lemma ends_now q o v v' :
  (forall fuel, yields q (op_prog fuel q o) v tt v') -> inv v' -> ends_in q o v.
Proof. intros Hy Hv. exists 0%nat, v'. auto. Qed.

Lemma enqueue_ends q v partition params prio deadline_in :
  inv v -> ends_in q (OpEnqueue partition params prio deadline_in) v.
Proof.
  intros [Hwf Hfr]. destruct (normalize (pending q) partition) as [p|e] eqn:Hn; cycle 1.
  { eapply ends_now; [|by split]. intros. by eapply y_ignore, enqueue_invalid. }
  set (d := {| desc_params := params; submitted_at := a_now v;
               deadline := (a_now v + deadline_in)%Z; desc_partition := p |}).
  destruct (desc_to_string d) as [s|] eqn:Hs.
  - eapply ends_now; [intros; by eapply y_ignore, enqueue_refines|].
    destruct (normalize_Ok _ _ _ Hn) as [Hp _]. split; cbn [aq a_uuids].
    + destruct (Hfr (a_uuids v) ltac:(lia)) as [Hd Hr]. by eapply wf_enqueue.
    + by apply enqueue_fresh.
  - eapply (ends_now _ _ _ (AWorld _ (aq v) (a_now v) (S (a_uuids v)) (a_inbox v))).
    + intros. eapply y_ignore. unfold enqueue_job_in. rewrite Hn. y_steps. fold d. rewrite Hs.
      apply y_lift_err.
    + split; [done|]. intros k Hk. apply Hfr. simpl in Hk. lia.
Qed.

Lemma claim_ends q v partition worker :
  inv v -> (0 <= claim_timeout q)%Z -> ends_in q (OpClaim partition worker) v.
Proof.
  intros [Hwf Hfr] Htime. destruct (normalize (pending q) partition) as [p|e] eqn:Hn; cycle 1.
  { eapply ends_now; [|by split]. intros. eapply y_ignore. unfold op_prog, claim_job_in.
    rewrite Hn. apply y_lift_err. }
  destruct (normalize_Ok _ _ _ Hn) as [Hp _].
  destruct (picks_total (aq v) p (a_now v) Hwf Hp) as (a' & r & Hpick).
  pose proof (picks_wf _ _ _ _ _ Hwf Hpick) as Hwf'.
  pose proof (keeps_fresh_ids _ _ _ (picks_fresh _ _ _ _ _ Hpick) Hfr) as Hfr'.
  exists (size (q_pending (aq v) p) + length (a_inbox v))%nat. destruct r as [[[j prio] x]|].
  - eexists. split.
    + intros fuel Hfuel. eapply y_ignore, claim_takes; [done|done|lia|done].
    + destruct (picks_sound _ _ _ _ _ _ _ Hwf Hp Hpick) as (d & (Hm & Hd & _) & _ & _).
      destruct (picks_taken _ _ _ _ _ _ _ _ Hwf Hp Hpick Hd) as (Hd' & Hnp & Hr').
      split; [|done]. eapply wf_claim; [done|done|exact Hd'| |done|done].
      simpl. by eapply pending_partition; [|done|by eexists|].
  - destruct (claim_gives_up q v partition p worker a')
      as (v' & Hy & Hq & Hu & _); [done..|].
    exists v'. split.
    + intros fuel Hfuel. eapply y_ignore, Hy. lia.
    + split; [by rewrite Hq|by rewrite Hq, Hu].
Qed.

Lemma stored_claim_of a m s :
  wf a -> q_claims a !! m = Some s ->
  exists c d, s = claim_to_string c /\ m = id_to_string (claim_job_id c) /\
    described (P := P) (R := R) a (claim_job_id c) d.
Proof. intros Hwf Hm. destruct (wf_claims a Hwf m s Hm) as (c & d & -> & -> & Hd & _). eauto. Qed.

Lemma reclaim_ends q v j worker : inv v -> ends_in q (OpReclaim j worker) v.
Proof.
  intros [Hwf Hfr]. destruct (q_claims (aq v) !! id_to_string j) as [s|] eqn:Hc; cycle 1.
  { eapply ends_now; [intros; by eapply y_ignore, reclaim_cancelled|by split]. }
  destruct (stored_claim_of _ _ _ Hwf Hc) as (c & d & -> & Hj & _).
  destruct (decide (claim_worker_id c = worker)) as [Hw|Hw].
  - eapply ends_now; [intros; by eapply y_ignore, reclaim_refines|].
    split; [|exact Hfr]. rewrite <- Hw. by apply wf_refresh.
  - destruct (reclaim_other_worker q v j worker c Hc Hw) as (msg & Hy).
    eapply ends_now; [intros; by eapply y_ignore|by split].
Qed.

Lemma resolve_ends q v worker j st res :
  inv v -> (forall st, stat_room (aq v) st) -> ends_in q (OpResolve worker j st res) v.
Proof.
  intros [Hwf Hfr] Hroom. destruct (is_resolved st) eqn:Hst; cycle 1.
  { destruct (resolve_not_final q v worker j st res Hst) as (msg & Hy).
    eapply ends_now; [intros; by eapply y_ignore|by split]. }
  destruct (q_claims (aq v) !! id_to_string j) as [s|] eqn:Hc; cycle 1.
  { eapply ends_now; [intros; by eapply y_ignore, resolve_cancelled|by split]. }
  destruct (stored_claim_of _ _ _ Hwf Hc) as (c & d & -> & Hj%(inj id_to_string) & Hd).
  subst j.
  destruct (decide (claim_worker_id c = worker)) as [Hw|Hw]; cycle 1.
  { eapply ends_now; [intros; by eapply y_ignore, resolve_other_worker|by split]. }
  eapply ends_now; [intros; eapply y_ignore, resolve_refines; eauto|].
  split; cbn [aq with_q].
  - apply wf_resolve; [done|by apply verdict_resolved|by eexists|done].
  - eapply keeps_fresh_ids; [by eapply resolve_fresh|exact Hfr].
Qed.

Lemma round_ends q v : inv v -> ends_in q OpReclaimRound v.
Proof.
  intros [Hwf Hfr].
  eapply ends_now; [intros; by apply reclaim_round_refines|]. cbn [aq with_q].
  set (expired := List.filter _ _).
  destruct (reinserted_keeps q (aq v) expired Hwf) as [Hwf' Hk].
  - by apply NoDup_fmap_filter, stored_claims_NoDup.
  - intros c [Hin _]%elem_of_filter_bool. by apply elem_of_stored_claims.
  - split; [done|]. by eapply keeps_fresh_ids.
Qed.

Lemma op_ends q v o : inv v -> op_ok q (aq v) o -> ends_in q o v.
Proof.
  intros Hv Hok. destruct o.
  - by apply enqueue_ends.
  - destruct Hv as [Hwf Hfr]. eapply ends_now; [intros; by eapply y_ignore, cancel_refines|].
    split; [by apply wf_cancel|]. eapply keeps_fresh_ids; [apply cancel_fresh|exact Hfr].
  - by apply claim_ends.
  - by apply reclaim_ends.
  - by apply resolve_ends.
  - by apply round_ends.
  - destruct Hv as [Hwf Hfr]. eapply ends_now; [intros; eapply y_ignore, delete_result_refines|].
    split; [by apply wf_delete_result|]. intros k Hk. destruct (Hfr k Hk) as [Hd Hr]. simpl.
    unfold fn_set. repeat case_decide; done.
Qed.

(** ** Reachable worlds *)

Context {St : Type} `{!RedisServer St}.

(** Between operations, time passes, messages arrive and the process listens to other channels. *)
Definition elapses (w w' : world St) : Prop :=
  srv w' = srv w /\ uuids w' = uuids w /\ (now w <= now w')%Z.

Inductive reach q : world St -> Prop :=
| reach_empty w :
    wview w = RState ∅ [] -> reach q w
| reach_elapse w w' :
    reach q w -> elapses w w' -> reach q w'
| reach_op w o fuel w' :
    reach q w -> (forall a, rep q (wview w) a -> op_ok q a o) ->
    run (op_prog fuel q o) w = Some (tt, w') -> reach q w'.

(** A program that ends with some fuel ends the same way with more. *)
Lemma run_prog_bind_Some {A B} (f : A -> prog B) (p : prog A) (w : world St) r :
  run (prog_bind f p) w = Some r -> exists (x : A) w1, run p w = Some (x, w1) /\ run (f x) w1 = Some r.
Proof.
  rewrite run_prog_bind. destruct (run p w) as [[x w1]|]; simpl; [|done]. eauto.
Qed.

Definition more {A} (p p' : prog A) : Prop :=
  forall w r, run p w = Some r -> run (St := St) p' w = Some r.

Lemma more_bind {A B} (f f' : A -> prog B) (p p' : prog A) :
  more p p' -> (forall x, more (f x) (f' x)) -> more (prog_bind f p) (prog_bind f' p').
Proof.
  intros Hp Hf w r (a & w1 & Ha & Hb)%run_prog_bind_Some.
  rewrite run_prog_bind, (Hp _ _ Ha). simpl. by apply Hf.
Qed.

Lemma more_qbind {A B} (f f' : A -> qm B) (m m' : qm A) :
  more m m' -> (forall x, more (f x) (f' x)) -> more (m ≫= f) (m' ≫= f').
Proof. intros Hm Hf. apply more_bind; [done|]. intros [a|e]; [apply Hf|by intros w r]. Qed.

Lemma more_refl {A} (p : prog A) : more p p.
Proof. by intros w r. Qed.

Lemma claim_loop_more q k start rem n m :
  (n <= m)%nat -> more (claim_loop (P := P) (R := R) n q k start rem) (claim_loop m q k start rem).
Proof.
  revert m rem. induction n as [|n IH]; intros m rem Hle; [by intros w r|].
  destruct m as [|m]; [lia|]. cbn [claim_loop].
  apply more_qbind; [apply more_refl|]. intros [[mem sc]|].
  - do 5 (apply more_qbind; [apply more_refl|intros ?]).
    case_match; [|apply more_refl]. apply more_qbind; [apply more_refl|]. intros _. apply IH. lia.
  - apply more_qbind; [apply more_refl|]. intros [| |msg]; [apply more_refl| |];
      (apply more_qbind; [apply more_refl|]; intros t; case_match; [apply IH; lia|apply more_refl]).
Qed.

Lemma op_prog_more q o n m : (n <= m)%nat -> more (op_prog n q o) (op_prog m q o).
Proof.
  intros Hle. destruct o; try apply more_refl. unfold op_prog, ignore.
  apply more_bind; [|intros; apply more_refl]. unfold claim_job_in.
  do 3 (apply more_qbind; [apply more_refl|intros ?]).
  apply more_qbind; [by apply claim_loop_more|intros; apply more_refl].
Qed.

Lemma reach_inv q w :
  built q -> reach q w ->
  exists a, rep q (wview w) a /\ wf a /\ ids_fresh a (uuids w).
Proof.
  intros Hb Hreach. induction Hreach as [w Hw|w w' _ IH (Hs & Hu & _)|w o fuel w' _ IH Hok Hrun].
  - exists empty_queue. rewrite Hw. split_and!; [by apply empty_server_rep|apply empty_queue_wf|done].
  - destruct IH as (a & Hr & Hwf & Hfr). exists a. unfold wview in *. by rewrite Hs, Hu.
  - destruct IH as (a & Hr & Hwf & Hfr).
    set (v := AWorld _ a (now w) (uuids w) (inbox w)).
    destruct (op_ends q v o) as (n & v' & Hy & Hv'); [by split|by apply Hok|].
    assert (wrep q w v) as Hwv by by split_and!.
    destruct (Hy (S (n + fuel)) ltac:(lia) _ _ w Hwv) as (w2 & Hrun2 & Hr2 & _ & Hu2 & _).
    pose proof (op_prog_more q o fuel (S (n + fuel)) ltac:(lia) _ _ Hrun) as Hrun'.
    rewrite Hrun2 in Hrun'. simplify_eq. destruct Hv' as [Hwf' Hfr'].
    exists (aq v'). split_and!; [done|done|by rewrite Hu2].
Qed.
End reach.
