(* ===== verification/WqProps.v ===== *)
(** * What the work queue guarantees

    The properties of the crate [wq], on every Redis server, and their witnesses on a concrete
    queue whose identifiers are numbers; before them, what the routes answer. *)

From S2P Require Import Prelude Ord RustStd Redis WqCore Examples WqProg Wq WqRoutes WqSpec WqRefine WqInv.
From S2P Require Import WqClaim WqReach.

(** ** Routes

    With the right token a route answers what its operation gives; without it, it does nothing. *)

Lemma from_request_Ok mod_name tokens current :
  from_request mod_name tokens current = Ok tt <->
  exists ts token, tokens = Some ts /\ ts !! mod_name = Some token /\ current = Some token.
Proof.
  unfold from_request. destruct tokens as [ts|]; [|naive_solver].
  destruct (ts !! mod_name) as [token|] eqn:Et; [|naive_solver].
  case_bool_decide; naive_solver.
Qed.

Lemma from_request_Err mod_name tokens current e :
  from_request mod_name tokens current = Err e ->
  status e = (if decide (is_Some (tokens ≫= lookup mod_name)) then Unauthorized
              else InternalServerError).
Proof.
  unfold from_request. destruct tokens as [ts|]; cbn [mbind option_bind].
  - destruct (ts !! mod_name) as [token|]; cbn [mbind option_bind].
    + case_bool_decide; [done|]. by intros [= <-].
    + by intros [= <-].
  - by intros [= <-].
Qed.

Section facts.
Context `{JobIds} {P R : Type} `{!Codecs P R}.
Context (debug : str -> str) (redis_text : rerror -> str) (pool_text serialization_text : str).
Implicit Types (q : WorkQueue P R) (v : aworld).

Local Abbreviation from_error := (from_queue_error debug redis_text pool_text serialization_text).
Local Abbreviation answer := (answered debug redis_text pool_text serialization_text).

Lemma answered_yields {A} q (m : qm A) v r v' :
  yields q m v r v' -> yields q (answer m) v (map_err from_error r) v'.
Proof. intros Hm. eapply y_prog_bind; [exact Hm|]. apply y_ret. Qed.

Lemma answered_then_unit q (m : qm unit) v r v' :
  yields q m v r v' ->
  yields q (_ ← answer m; mret tt : route unit) v (map_err from_error r) v'.
Proof.
  intros Hm. eapply y_prog_bind; [by apply answered_yields|].
  destruct r as [[]|e]; apply y_ret.
Qed.

(** The partition is checked once more by the queue. *)
Lemma claim_route_answers fuel q data :
  claim_job_route debug redis_text pool_text serialization_text fuel (Ok tt) q data =
  answer (claim_job_in fuel q (c_partition data) (c_worker_id data)).
Proof.
  unfold claim_job_route, claim_job_in. destruct (c_partition data) as [partition|]; [|done].
  unfold normalize. by destruct (validate_partition partition) as [[]|e].
Qed.
End facts.

(** ** Properties *)

(** ** Properties *)

Section properties.
Context `{JobIds} {P R : Type} `{!Codecs P R}.
Implicit Types (q : WorkQueue P R) (v : aworld) (j : JobId).

Local Abbreviation wf := (q_wf (P := P) (R := R)).


(** C3: when a job of the partition is pending and not past its deadline, [claim_job_in] takes
    the first such job in the order of priorities (then of identifiers), hands out its
    parameters, records a claim in the worker's name, and leaves every other such job, and
    every other partition, as it was. *)
Theorem claim_takes_first_ready q v partition p worker fuel j0 d0 sc0 :
  wf (aq v) -> normalize (pending q) partition = Ok p ->
  (size (q_pending (aq v) p) < fuel)%nat ->
  ready (aq v) p (a_now v) j0 d0 sc0 ->
  exists j prio d a',
    yields q (claim_job_in fuel q partition worker) v
      (Ok (Some {| job_id := j; job_params := desc_params d |})) (with_q v a') /\
    ready (aq v) p (a_now v) j d (priority_code prio) /\
    (forall j' d' sc, ready (aq v) p (a_now v) j' d' sc ->
      zset_le (id_to_string j, priority_code prio) (id_to_string j', sc) = true) /\
    q_claims a' = <[id_to_string j := claim_to_string (claim_of j prio worker (a_now v) p)]>
      (q_claims (aq v)) /\
    (forall p', p' <> p -> q_pending a' p' = q_pending (aq v) p') /\
    (forall j' d' sc, ready (aq v) p (a_now v) j' d' sc -> j' <> j ->
      ready a' p (a_now v) j' d' sc).
Proof.
  intros Hwf Hn Hfuel Hready. destruct (normalize_Ok _ _ _ Hn) as [Hp _].
  destruct (picks_total (aq v) p (a_now v) Hwf Hp) as (a' & [[[j prio] x]|] & Hpick); cycle 1.
  { destruct (picks_none _ _ _ _ Hwf Hp Hpick) as [_ Hno]. by apply Hno in Hready. }
  destruct (picks_sound _ _ _ _ _ _ _ Hwf Hp Hpick) as (d & Hrd & <- & Hmin).
  destruct (picks_keeps _ _ _ _ _ Hwf Hp Hpick) as (Hoth & Hcl & Hkeep).
  exists j, prio, d, (spec_claim (P := P) (R := R) a' j (claim_of j prio worker (a_now v) p)).
  split_and!; [by eapply claim_takes|done|done|simpl; by rewrite Hcl|done|].
  intros j' d' sc Hj' Hne. apply (Hkeep j' d' sc Hj'). simpl. congruence.
Qed.

(** When every pending job of the partition is past its deadline, [claim_job_in] cancels
    them all and gives up, without error, not later than its timeout however many messages
    wake it up. *)
Theorem claim_none_ready q v partition p worker :
  wf (aq v) -> normalize (pending q) partition = Ok p -> (0 <= claim_timeout q)%Z ->
  (forall j d sc, ~ ready (aq v) p (a_now v) j d sc) ->
  exists v',
    (forall fuel, (size (q_pending (aq v) p) + length (a_inbox v) < fuel)%nat ->
      yields q (claim_job_in fuel q partition worker) v (Ok None) v') /\
    q_pending (aq v') p = ∅ /\ q_claims (aq v') = q_claims (aq v) /\
    (a_now v <= a_now v' <= a_now v + claim_timeout q)%Z.
Proof.
  intros Hwf Hn Htime Hno. destruct (normalize_Ok _ _ _ Hn) as [Hp _].
  destruct (picks_total (aq v) p (a_now v) Hwf Hp) as (a' & [[[j prio] x]|] & Hpick).
  { destruct (picks_sound _ _ _ _ _ _ _ Hwf Hp Hpick) as (d & Hrd & _). by apply Hno in Hrd. }
  destruct (claim_gives_up q v partition p worker a' Hwf Hn Htime Hpick)
    as (v' & Hy & <- & _ & Hnow).
  destruct (picks_none _ _ _ _ Hwf Hp Hpick) as [He _].
  destruct (picks_keeps _ _ _ _ _ Hwf Hp Hpick) as (_ & Hcl & _).
  exists v'. split_and!; [done|done|done|apply Hnow|apply Hnow].
Qed.

(** C7: the worker that holds the claim of a job resolves it: the claim goes, the status the
    callback settles on is stored with the result and for those who come late, its counter goes
    up by one and it is published on the job's channel; when the callback processed the result,
    or failed, the result and the description are gone as well. *)
Theorem resolve_by_owner q v worker j st res c d :
  wf (aq v) -> is_resolved st = true ->
  q_claims (aq v) !! id_to_string j = Some (claim_to_string c) ->
  claim_worker_id c = worker -> described (aq v) j d ->
  stat_room (aq v) (verdict q d st res).2 ->
  exists a', yields q (resolve_job q worker j st res) v (Ok tt) (with_q v a') /\ wf a' /\
    let '(cleanup, final) := verdict q d st res in
    q_claims a' = delete (id_to_string j) (q_claims (aq v)) /\
    q_resolved a' j = Some (Z_to_str (status_code final)) /\
    counter a' (default [] (as_stat_name final)) =
      (counter (aq v) (default [] (as_stat_name final)) + 1)%Z /\
    q_published a' = q_published (aq v) ++
      [(get_result_key q j, Z_to_str (status_code final))] /\
    job_phase (P := P) (R := R) a' j = (if cleanup then None else Some final) /\
    (cleanup = false -> q_result a' j =
      Some (result_to_string {| res_status := final; res_result := res |})).
Proof.
  intros Hwf Hst Hc Hw Hd Hroom. eexists. split; [by eapply resolve_refines|].
  split; [apply wf_resolve; [done|by apply verdict_resolved|by eexists|done]|].
  destruct (verdict q d st res) as [cleanup final]. simpl in *.
  destruct (counter_parse (aq v) (default [] (as_stat_name final)) Hwf) as (Hpos & _).
  split_and!; [by destruct cleanup|destruct cleanup; simpl; by rewrite fn_set_eq| |by destruct cleanup| |].
  - unfold counter at 1, spec_resolve. unfold stat_room in Hroom.
    destruct cleanup; simpl; rewrite fn_set_eq;
      (rewrite parse_u64_to_str; [reflexivity|]; unfold counter in *; simpl in *; lia).
  - unfold job_phase, spec_resolve. destruct cleanup; simpl; rewrite !fn_set_eq; simpl.
    + unfold claimed. simpl. rewrite lookup_delete_eq.
      rewrite !decide_False by (by intros [? ?]). done.
    + by rewrite result_roundtrip.
  - intros ->. simpl. by rewrite fn_set_eq.
Qed.

(** C33: [resolve_job] refuses, and changes nothing: a status that isn't final, a job without a
    claim (it was cancelled, resolved or never claimed), and a claim of another worker. *)
Theorem resolve_refused q v worker j st res e :
  wf (aq v) ->
  (is_resolved st = false /\
     e = InvalidJobStatus (lit "Trying to report a status that doesn't resolve the job") \/
   is_resolved st = true /\ ~ claimed (aq v) j /\ e = JobCancelled \/
   is_resolved st = true /\ (exists c, q_claims (aq v) !! id_to_string j = Some (claim_to_string c) /\
     claim_worker_id c <> worker) /\ e = WorkerMismatch) ->
  yields q (resolve_job q worker j st res) v (Err e) v.
Proof.
  intros Hwf [(Hst & ->)|[(Hst & Hc & ->)|(Hst & (c & Hc & Hw) & ->)]].
  - unfold resolve_job. rewrite Hst. apply y_ret.
  - apply resolve_cancelled; [done|]. by apply eq_None_not_Some.
  - by eapply resolve_other_worker.
Qed.

(** C35: a round of the reclaim checker puts exactly the jobs whose claim is older than the
    timeout back where they were claimed from, at the priority they had, and leaves the claims
    of the others, and what is pending besides. *)
Theorem reclaim_round_exact q v :
  wf (aq v) ->
  exists a', yields q (reclaim_checker_round q) v tt (with_q v a') /\ wf a' /\
    (forall c, q_claims (aq v) !! id_to_string (claim_job_id c) = Some (claim_to_string c) ->
      if claim_expired (reclaim_timeout q) (a_now v) c then
        ~ claimed a' (claim_job_id c) /\
        q_pending a' (claim_partition c) !! id_to_string (claim_job_id c) =
          Some (priority_code (claim_priority c))
      else q_claims a' !! id_to_string (claim_job_id c) = Some (claim_to_string c)) /\
    (forall j, ~ claimed (aq v) j -> ~ claimed a' j /\
      forall p, q_pending a' p !! id_to_string j = q_pending (aq v) p !! id_to_string j).
Proof.
  intros Hwf. eexists. split; [by apply reclaim_round_refines|].
  set (expired := List.filter _ _).
  assert (NoDup (claim_job_id <$> expired)) as Hnd
    by by apply NoDup_fmap_filter, stored_claims_NoDup.
  assert (forall c, c ∈ expired <->
      q_claims (aq v) !! id_to_string (claim_job_id c) = Some (claim_to_string c) /\
      claim_expired (reclaim_timeout q) (a_now v) c = true) as Hexp.
  { intros c. unfold expired. by rewrite elem_of_filter_bool, elem_of_stored_claims. }
  split; [by apply reinserted_keeps; [done..|intros c [? _]%Hexp]|]. split.
  - intros c Hc. destruct (claim_expired _ _ c) eqn:E.
    + destruct (reinserted_one q (aq v) expired c) as [Hcl Hpe]; [done|by apply Hexp|].
      split; [|done]. unfold claimed. rewrite Hcl. by intros [? ?].
    + destruct (reinserted_other q (aq v) expired (claim_job_id c)) as [Hcl _]; [|congruence].
      intros c' [Hc' E']%Hexp Heq. rewrite Heq, Hc in Hc'. injection Hc' as Hc'.
      apply (f_equal claim_from_str) in Hc'. rewrite !claim_roundtrip in Hc'. congruence.
  - intros j Hj. destruct (reinserted_other q (aq v) expired j) as [Hcl Hpe].
    { intros c [Hc _]%Hexp <-. apply Hj. by eexists. }
    split; [|done]. unfold claimed in *. by rewrite Hcl.
Qed.

(** [enqueue_job_in] gives the job an identifier nobody had, stores a description with the
    deadline, lists the partition, makes the job pending there with its priority, wakes up those
    who wait for jobs of the partition, and changes no other job. *)
Theorem enqueue_adds_job q v partition p params prio deadline_in s :
  wf (aq v) -> ids_fresh (aq v) (a_uuids v) -> normalize (pending q) partition = Ok p ->
  let d := {| desc_params := params; submitted_at := a_now v;
              deadline := (a_now v + deadline_in)%Z; desc_partition := p |} in
  desc_to_string d = Some s ->
  exists j a',
    yields q (enqueue_job_in q partition params prio deadline_in) v (Ok j)
      (AWorld _ a' (a_now v) (S (a_uuids v)) (a_inbox v)) /\
    wf a' /\ ids_fresh a' (S (a_uuids v)) /\ job_phase (P := P) (R := R) (aq v) j = None /\
    job_phase (P := P) (R := R) a' j = Some Pending /\
    described a' j d /\ listed a' p /\
    q_pending a' p = <[id_to_string j := priority_code prio]> (q_pending (aq v) p) /\
    (forall p', p' <> p -> q_pending a' p' = q_pending (aq v) p') /\
    (forall j', j' <> j -> q_desc a' j' = q_desc (aq v) j') /\
    q_published a' = q_published (aq v) ++ [(pending_key q p, lit "0")].
Proof.
  intros Hwf Hfr Hn d Hs. destruct (normalize_Ok _ _ _ Hn) as [Hp _].
  set (j := now_v7 (a_uuids v)). destruct (Hfr (a_uuids v) ltac:(lia)) as [Hd Hr].
  pose proof (not_described_claimed (aq v) j Hwf Hd) as Hcl.
  assert (job_phase (P := P) (R := R) (aq v) j = None) as Hph.
  { unfold job_phase, claimed. fold j in Hd, Hr. by rewrite Hr, Hcl, Hd. }
  exists j, (spec_enqueue q (aq v) j s p prio).
  split_and!; [by apply enqueue_refines|by eapply wf_enqueue|by apply enqueue_fresh|done|..].
  - unfold job_phase, claimed, spec_enqueue. fold j in Hr.
    destruct p; simpl; by rewrite Hr, Hcl, fn_set_eq.
  - exists s. split; [|done]. destruct p; simpl; by rewrite fn_set_eq.
  - intros n ->. cbn. apply elem_of_union. left. by apply elem_of_singleton.
  - destruct p; simpl; by rewrite fn_set_eq.
  - intros p' Hne. destruct p; simpl; by rewrite fn_set_ne.
  - intros j' Hne. destruct p; simpl; by rewrite fn_set_ne.
  - by destruct p.
Qed.

(** After [cancel_job] the job is known to nobody: it has no description and no claim, and
    waits in no partition, whichever one it was in; the other jobs are as they were. *)
Theorem cancel_forgets_job q v j :
  wf (aq v) ->
  exists a', yields q (cancel_job q j) v (Ok tt) (with_q v a') /\ wf a' /\
    q_desc a' j = None /\ ~ claimed a' j /\ (forall p, partition_ok p -> ~ pending_in a' p j) /\
    (forall j', j' <> j -> q_desc a' j' = q_desc (aq v) j' /\
      q_claims a' !! id_to_string j' = q_claims (aq v) !! id_to_string j' /\
      forall p, q_pending a' p !! id_to_string j' = q_pending (aq v) p !! id_to_string j').
Proof.
  intros Hwf. pose proof (wf_cancel (aq v) j Hwf) as Hwf'.
  exists (spec_cancel (P := P) (R := R) (aq v) j).
  assert (q_desc (spec_cancel (P := P) (R := R) (aq v) j) j = None) as Hd
    by (simpl; by rewrite fn_set_eq).
  split_and!; [by apply cancel_refines|done|done| | |].
  - unfold claimed. rewrite (not_described_claimed _ j Hwf' Hd). by intros [? ?].
  - intros p Hp. unfold pending_in. rewrite (not_described_pending _ p j Hwf' Hp Hd).
    by intros [? ?].
  - intros j' Hne. assert (id_to_string j <> id_to_string j') as Hne'
      by (intros Heq%(inj id_to_string); congruence).
    simpl. rewrite fn_set_ne, lookup_delete_ne by done. split_and!; [done|done|].
    intros p. unfold fn_set. case_decide as Hp; [|done]. by rewrite Hp, lookup_delete_ne.
Qed.

(** [get_job_status] says what the queue holds about the job: the status of its result,
    else that it runs when there is a claim, else that it is pending when there is a
    description, and nothing otherwise; it changes nothing. *)
Theorem status_reports_phase q v j :
  wf (aq v) ->
  exists st, yields q (get_job_status q j) v (Ok st) v /\
    match st with
    | None => q_result (aq v) j = None /\ ~ claimed (aq v) j /\ q_desc (aq v) j = None
    | Some Pending => q_result (aq v) j = None /\ ~ claimed (aq v) j /\ is_Some (q_desc (aq v) j)
    | Some Running => q_result (aq v) j = None /\ claimed (aq v) j
    | Some st => exists r : JobResult R, q_result (aq v) j = Some (result_to_string r) /\
                   res_status r = st
    end.
Proof.
  intros Hwf. exists (job_phase (P := P) (R := R) (aq v) j). split; [by apply status_refines|].
  unfold job_phase. destruct (q_result (aq v) j) as [s|] eqn:E; simpl.
  - destruct (wf_result _ Hwf j s E) as ((r & -> & Hst) & _). rewrite result_roundtrip.
    destruct (res_status r) eqn:Er; try done; by exists r.
  - repeat case_decide; [done|done|]. split_and!; [done|done|]. by apply eq_None_not_Some.
Qed.

(** [get_stats] counts every job that waits, in the default partition and in each other
    one that ever had a job, every claim, and the jobs resolved with each status. *)
Theorem stats_count_everything q v :
  wf (aq v) ->
  exists st, yields q (get_stats q) v (Ok st) v /\
    jobs_claimed st = Z.of_nat (size (q_claims (aq v))) /\
    jobs_succeeded st = counter (aq v) (lit "succeeded") /\
    jobs_failed st = counter (aq v) (lit "failed") /\
    jobs_errored st = counter (aq v) (lit "errored") /\
    jobs_scheduled st =
      (Z.of_nat (size (q_pending (aq v) None)) + waiting_in (aq v) (elements (q_partitions (aq v))))%Z /\
    (forall n, partition_ok (Some n) -> n ∉ q_partitions (aq v) -> q_pending (aq v) (Some n) = ∅).
Proof.
  intros Hwf. exists (stats_of (aq v)). split_and!; [by apply stats_refine|done..|].
  intros n Hp Hn. apply map_empty. intros m.
  destruct (q_pending (aq v) (Some n) !! m) as [sc|] eqn:E; [|done].
  exfalso. apply Hn. by apply (wf_listed _ (Some n) m sc Hwf Hp E).
Qed.

(** who waits for a job that isn't resolved gets the status that is published on the
    job's channel, if it arrives within the timeout, at the time it arrives. *)
Theorem wait_gets_published_status q v j timeout st t rest fuel ph :
  wf (aq v) -> job_phase (P := P) (R := R) (aq v) j = Some ph -> q_result (aq v) j = None ->
  q_resolved (aq v) j = None ->
  a_inbox v = (t, delivered (get_result_key q j) (Z_to_str (status_code st))) :: rest ->
  (a_now v <= t <= a_now v + wait_time timeout)%Z -> (0 < fuel)%nat ->
  yields q (wait_for_job fuel q j timeout) v (Ok (Some st)) (AWorld _ (aq v) t (a_uuids v) rest).
Proof. apply wait_hears. Qed.

(** [wait_for_job] ends within its timeout whatever messages arrive, and changes nothing.
    It needs one round of its loop per message. *)
Theorem wait_terminates q v j timeout :
  wf (aq v) -> (0 <= wait_time timeout)%Z ->
  exists r v', (forall fuel, (length (a_inbox v) < fuel)%nat ->
      yields q (wait_for_job fuel q j timeout) v r v') /\
    aq v' = aq v /\ (a_now v <= a_now v' <= a_now v + wait_time timeout)%Z.
Proof. apply wait_ends. Qed.

(** C36: two different things of a queue are never kept at the same key of the server, whatever
    the names of its partitions, the counters and the jobs. *)
Theorem keys_never_collide q k1 k2 :
  built q -> key_ok k1 -> key_ok k2 -> key_text q k1 = key_text q k2 -> k1 = k2.
Proof. apply key_text_inj. Qed.

(** only the worker that holds a claim refreshes it; the claim keeps its job, priority and
    partition, and its time starts again. *)
Theorem reclaim_only_by_owner q v j worker c :
  wf (aq v) -> q_claims (aq v) !! id_to_string j = Some (claim_to_string c) ->
  exists r a', yields q (reclaim_job q j worker) v r (with_q v a') /\ wf a' /\
    (r = Ok tt <-> claim_worker_id c = worker) /\
    (r = Ok tt -> exists c', q_claims a' !! id_to_string j = Some (claim_to_string c') /\
      claim_job_id c' = j /\ claim_priority c' = claim_priority c /\
      claim_partition c' = claim_partition c /\ claim_worker_id c' = worker /\
      claim_expired (reclaim_timeout q) (a_now v) c' = (reclaim_timeout q <? 0)%Z) /\
    (r <> Ok tt -> a' = aq v).
Proof.
  intros Hwf Hc. destruct (stored_claim_of _ _ _ Hwf Hc) as (c0 & d & Heq & Hj & _).
  apply (f_equal claim_from_str) in Heq. rewrite !claim_roundtrip in Heq. injection Heq as <-.
  apply (inj id_to_string) in Hj. destruct (decide (claim_worker_id c = worker)) as [Hw|Hw].
  - eexists _, _. split_and!; [by apply (reclaim_refines q v j worker c)| |done| |done].
    + rewrite <- Hw. by apply wf_refresh.
    + intros _. eexists. split; [apply lookup_insert_eq|]. simpl.
      unfold claim_expired. simpl. by rewrite Z.sub_diag.
  - destruct (reclaim_other_worker q v j worker c Hc Hw) as (msg & Hy).
    exists (Err (Other msg)), (aq v). rewrite with_q_same. by split_and!.
Qed.

End properties.

(** ** Witnesses *)

Section witnesses.
#[local] Existing Instance example_ids.
#[local] Existing Instance example_codecs.

Definition ex_builder : WorkQueueBuilder nat nat :=
  with_default_partition (lit "main") (builder_new (lit "jobs")).

Definition ex_queue : WorkQueue nat nat :=
  match build (Ok tt) ex_builder with
  | Ok q => q
  | Err _ => {| queue_key := []; claims_key := []; results_key := []; resolved_key := [];
                stats_key := []; reclaim_timeout := 0; claim_timeout := 0; result_callback := None;
                pending := {| default_key := []; partitions_key := []; partition_prefix := [];
                              default_partition := None |} |}
  end.

Lemma ex_built : built ex_queue.
Proof. exists (Ok tt), ex_builder. reflexivity. Qed.

(** One job in partition [v2], submitted at 100, to be done by 200. *)
Definition ex_desc : JobDesc nat :=
  {| desc_params := 7%nat; submitted_at := 100; deadline := 200; desc_partition := Some (lit "v2") |}.
Definition ex_text : str := pack (desc_tuple ex_desc).
Definition ex_job : JobId := 0%nat.
Definition ex_waiting : qstate :=
  spec_enqueue ex_queue empty_queue ex_job ex_text (Some (lit "v2")) High.

Lemma ex_waiting_wf : q_wf (P := nat) (R := nat) ex_waiting.
Proof.
  apply (wf_enqueue ex_queue _ _ ex_desc); [apply empty_queue_wf|done|done|done|done|done].
Qed.

Definition ex_claim : Claim := claim_of ex_job High (lit "ann") 110 (Some (lit "v2")).
Definition ex_running : qstate :=
  spec_claim (P := nat) (R := nat) (take_pending ex_waiting (Some (lit "v2")) ex_job) ex_job ex_claim.

Lemma ex_described : described (P := nat) (R := nat) ex_running ex_job ex_desc.
Proof. by exists ex_text. Qed.

Lemma ex_running_wf : q_wf (P := nat) (R := nat) ex_running.
Proof.
  apply (wf_claim _ _ _ ex_desc); [apply wf_take_pending, ex_waiting_wf|done|by exists ex_text|done|done|].
  intros p Hp [sc Hsc]. simpl in Hsc. destruct (decide (p = Some (lit "v2"))) as [->|Hne].
  - by rewrite fn_set_eq, lookup_delete_eq in Hsc.
  - rewrite !fn_set_ne, lookup_empty in Hsc by done. done.
Qed.

Definition ex_world (a : qstate) (t : Z) (inbox : list (Z * push)) : aworld := AWorld _ a t 1 inbox.


Lemma claim_takes_first_ready_witness :
  exists v', yields ex_queue (claim_job_in 2 ex_queue (Some (lit "v2")) (lit "bob"))
    (ex_world ex_waiting 150 []) (Ok (Some {| job_id := ex_job; job_params := 7%nat |})) v'.
Proof.
  assert (ready (P := nat) (R := nat) ex_waiting (Some (lit "v2")) 150 ex_job ex_desc (-10)) as Hr.
  { split_and!; [done|by exists ex_text|done]. }
  destruct (claim_takes_first_ready ex_queue (ex_world ex_waiting 150 []) (Some (lit "v2"))
              (Some (lit "v2")) (lit "bob") 2 ex_job ex_desc (-10))
    as (j & prio & d & a' & Hy & (Hm & Hd & _) & _);
    [apply ex_waiting_wf|done|vm_compute; lia|exact Hr|].
  assert (j = ex_job) as ->.
  { simpl in Hm. rewrite fn_set_eq in Hm. apply lookup_insert_Some in Hm as [[Heq _]|[_ Hm]]; [|done].
    apply (f_equal length) in Heq. simpl in Heq. unfold unary in Heq.
    by rewrite !repeat_length in Heq. }
  destruct Hr as (_ & Hd' & _). rewrite (described_inj _ _ _ _ Hd Hd') in Hy.
  by eexists.
Defined.

Lemma claim_none_ready_witness :
  exists v', yields ex_queue (claim_job_in 2 ex_queue (Some (lit "v3")) (lit "bob"))
    (ex_world ex_waiting 150 [(160, delivered [] [])]%Z) (Ok None) v' /\ (a_now v' <= 30000000150)%Z.
Proof.
  destruct (claim_none_ready ex_queue (ex_world ex_waiting 150 [(160, delivered [] [])]%Z)
              (Some (lit "v3")) (Some (lit "v3")) (lit "bob")) as (v' & Hy & _ & _ & Hnow);
    [apply ex_waiting_wf|done|done|by intros j d sc (Hm & _)|].
  exists v'. split; [apply Hy; vm_compute; lia|]. simpl in Hnow. unfold seconds in Hnow. lia.
Defined.

Lemma resolve_by_owner_witness :
  exists a', yields ex_queue (resolve_job ex_queue (lit "ann") ex_job Success (Some 3%nat))
    (ex_world ex_running 120 []) (Ok tt) (with_q (ex_world ex_running 120 []) a') /\
    job_phase (P := nat) (R := nat) a' ex_job = Some Success.
Proof.
  destruct (resolve_by_owner ex_queue (ex_world ex_running 120 []) (lit "ann") ex_job Success
              (Some 3%nat) ex_claim ex_desc) as (a' & Hy & _ & Ha);
    [apply ex_running_wf|done|done|done|apply ex_described|done|].
  exists a'. split; [exact Hy|]. apply Ha.
Defined.

Lemma resolve_refused_witness :
  yields ex_queue (resolve_job ex_queue (lit "bob") ex_job Success (Some 3%nat))
    (ex_world ex_running 120 []) (Err WorkerMismatch) (ex_world ex_running 120 []).
Proof.
  apply (resolve_refused ex_queue (ex_world ex_running 120 [])); [apply ex_running_wf|].
  right. right. split_and!; [done|by exists ex_claim|done].
Defined.

Lemma reclaim_round_exact_witness :
  let v := ex_world ex_running (110 + 30000000001) [] in
  exists a', yields ex_queue (reclaim_checker_round ex_queue) v tt (with_q v a') /\
    ~ claimed a' ex_job /\
    q_pending a' (Some (lit "v2")) !! id_to_string ex_job = Some (-10)%Z.
Proof.
  intros v. destruct (reclaim_round_exact ex_queue v ex_running_wf) as (a' & Hy & _ & Hc & _).
  exists a'. split; [exact Hy|]. exact (Hc ex_claim eq_refl).
Defined.

Lemma enqueue_adds_job_witness :
  exists j a', yields ex_queue (enqueue_job_in ex_queue (Some (lit "main")) 9%nat Low 60)
    (AWorld _ empty_queue 100 0 []) (Ok j) (AWorld _ a' 100 1 []) /\
    job_phase (P := nat) (R := nat) a' j = Some Pending.
Proof.
  destruct (enqueue_adds_job ex_queue (AWorld _ empty_queue 100 0 []) (Some (lit "main")) None 9%nat
              Low 60 (pack (desc_tuple {| desc_params := 9%nat; submitted_at := 100;
                                          deadline := 160; desc_partition := None |})))
    as (j & a' & Hy & _ & _ & _ & Hph & _); [apply empty_queue_wf|done|done|done|].
  by exists j, a'.
Defined.

Lemma cancel_forgets_job_witness :
  exists a', yields ex_queue (cancel_job ex_queue ex_job) (ex_world ex_running 120 []) (Ok tt)
    (with_q (ex_world ex_running 120 []) a') /\ ~ claimed a' ex_job.
Proof.
  destruct (cancel_forgets_job ex_queue (ex_world ex_running 120 []) ex_job ex_running_wf)
    as (a' & Hy & _ & _ & Hc & _). by exists a'.
Defined.

Lemma status_reports_phase_witness :
  exists st, yields ex_queue (get_job_status ex_queue ex_job) (ex_world ex_running 120 [])
    (Ok st) (ex_world ex_running 120 []).
Proof.
  destruct (status_reports_phase ex_queue (ex_world ex_running 120 []) ex_job ex_running_wf)
    as (st & Hy & _). by exists st.
Defined.

Lemma stats_count_everything_witness :
  exists st, yields ex_queue (get_stats ex_queue) (ex_world ex_waiting 120 []) (Ok st)
    (ex_world ex_waiting 120 []) /\ jobs_scheduled st = 1%Z.
Proof.
  destruct (stats_count_everything ex_queue (ex_world ex_waiting 120 []) ex_waiting_wf)
    as (st & Hy & _ & _ & _ & _ & Hs & _).
  exists st. split; [exact Hy|]. rewrite Hs. vm_compute. reflexivity.
Defined.

Lemma wait_gets_published_status_witness :
  yields ex_queue (wait_for_job 1 ex_queue ex_job (Some 50%Z))
    (ex_world ex_running 120 [(140, delivered (get_result_key ex_queue ex_job) (lit "11"))]%Z)
    (Ok (Some Failure)) (ex_world ex_running 140 []).
Proof.
  apply (wait_gets_published_status ex_queue
    (ex_world ex_running 120 [(140, delivered (get_result_key ex_queue ex_job) (lit "11"))]%Z)
    ex_job (Some 50%Z) Failure 140 [] 1 Running);
    [apply ex_running_wf|reflexivity|reflexivity|reflexivity|reflexivity|simpl; lia|lia].
Defined.

Lemma wait_terminates_witness :
  exists r v', yields ex_queue (wait_for_job 1 ex_queue ex_job (Some 50%Z)) (ex_world ex_running 120 [])
    r v' /\ (a_now v' <= 170)%Z.
Proof.
  destruct (wait_terminates ex_queue (ex_world ex_running 120 []) ex_job (Some 50%Z))
    as (r & v' & Hy & _ & Hnow); [apply ex_running_wf|done|].
  exists r, v'. split; [apply Hy; simpl; lia|]. simpl in Hnow. lia.
Defined.

Lemma keys_never_collide_witness :
  KPending (Some (lit "v2")) = KPending (Some (lit "v2")) :> key.
Proof.
  apply (keys_never_collide ex_queue); [apply ex_built|done|done|reflexivity].
Defined.

Lemma reclaim_only_by_owner_witness :
  exists r a', yields ex_queue (reclaim_job ex_queue ex_job (lit "ann")) (ex_world ex_running 120 [])
    r (with_q (ex_world ex_running 120 []) a') /\ r = Ok tt.
Proof.
  destruct (reclaim_only_by_owner ex_queue (ex_world ex_running 120 []) ex_job (lit "ann") ex_claim)
    as (r & a' & Hy & _ & Hr & _); [apply ex_running_wf|done|].
  exists r, a'. split; [exact Hy|]. by apply Hr.
Defined.

End witnesses.
