(* ===== verification/WqConc.v ===== *)
(** * Interleaved operations of the work queue

    Several processes use one queue at once.  A thread of [config] is one call of a method of
    [WorkQueue], as the program of [Wq.v] that is left of it; a step lets one thread perform one
    event.  Threads start, stop half way and time passes between any two events.  A command's
    reply can get lost before or after the command took effect, and a subscription delivers any
    message.  [play] runs a schedule; [play_runs] says that what it computes is a run. *)

From S2P Require Import Prelude Ord RustStd Redis WqCore WqProg Wq.

Section interleavings.
Context `{JobIds} {P R : Type} `{!Codecs P R}.
Implicit Types (q : WorkQueue P R) (j : JobId).

(** ** Calls *)

(** A call of a method, with its arguments. *)
Inductive request :=
| RqEnqueue (partition : option str) (params : P) (priority : Priority) (deadline_in : Z)
| RqCancel (j : JobId)
| RqClaim (partition : option str) (worker : str)
| RqReclaim (j : JobId) (worker : str)
| RqResolve (worker : str) (j : JobId) (status : JobStatus) (res : option R)
| RqReclaimRound
| RqOrphans
| RqDeleteResult (j : JobId)
| RqResult (j : JobId)
| RqStatus (j : JobId)
| RqResolvedStatus (j : JobId)
| RqWait (j : JobId) (timeout : option Z)
| RqStats.

(** What a call returns. *)
Inductive value :=
| VUnit
| VId (j : JobId)
| VJob (o : option (Job P))
| VResult (o : option R)
| VStatus (o : option JobStatus)
| VStats (s : QueueStats).

Definition valued {A} (f : A -> value) (m : qm A) : qm value := a ← m; mret (f a).

Definition request_prog (fuel : nat) q (rq : request) : qm value :=
  match rq with
  | RqEnqueue p x prio d => valued VId (enqueue_job_in q p x prio d)
  | RqCancel j => valued (fun _ => VUnit) (cancel_job q j)
  | RqClaim p w => valued VJob (claim_job_in fuel q p w)
  | RqReclaim j w => valued (fun _ => VUnit) (reclaim_job q j w)
  | RqResolve w j st res => valued (fun _ => VUnit) (resolve_job q w j st res)
  | RqReclaimRound => prog_bind (fun _ => Ret (Ok VUnit)) (reclaim_checker_round q)
  | RqOrphans => valued (fun _ => VUnit) (process_orphaned_job_results q)
  | RqDeleteResult j => valued (fun _ => VUnit) (delete_job_result q j)
  | RqResult j => valued VResult (get_job_result q j)
  | RqStatus j => valued VStatus (get_job_status q j)
  | RqResolvedStatus j => valued VStatus (get_resolved_status q j)
  | RqWait j timeout => valued VStatus (wait_for_job fuel q j timeout)
  | RqStats => valued VStats (get_stats q)
  end.

(** ** Configurations *)

Context {St : Type} `{!RedisServer St}.

Record thread := Thread { called : request; rest : qm value }.

Record config := Config {
  c_srv : St;
  c_now : Z;
  c_uuids : nat;
  c_threads : gmap nat thread;
}.

(** An event with its answer, and the thread that performed it. *)
Inductive occurrence :=
| Occ {X} (e : ev X) (x : X).
Record entry := Entry { by_thread : nat; for_call : request; what : occurrence }.

Definition set_thread (C : config) (t : nat) (th : thread) : config :=
  Config (c_srv C) (c_now C) (c_uuids C) (<[t := th]> (c_threads C)).
Definition set_server (C : config) (s : St) : config :=
  Config s (c_now C) (c_uuids C) (c_threads C).

(** [performs e C x C']: in [C] the event [e] can have the answer [x] and lead to [C']. *)
Definition performs {X} (e : ev X) (C : config) (x : X) (C' : config) : Prop :=
  match e in ev X return X -> Prop with
  | Redis c => fun r =>
      let '(r0, s) := exec c (c_srv C) in
      (r = r0 /\ C' = set_server C s) \/
      (r = Err Transport /\ (C' = set_server C s \/ C' = C))
  | UtcNow | InstantNow => fun t => t = c_now C /\ C' = C
  | NewUuid => fun j =>
      j = now_v7 (c_uuids C) /\ C' = Config (c_srv C) (c_now C) (S (c_uuids C)) (c_threads C)
  | Subscribe _ | Unsubscribe _ => fun _ => C' = C
  | Recv _ => fun _ => C' = C
  end x.

Inductive step q : config -> option entry -> config -> Prop :=
| step_event C t rq X (e : ev X) k x C' :
    c_threads C !! t = Some (Thread rq (Vis e k)) ->
    performs e C x C' ->
    step q C (Some (Entry t rq (Occ e x))) (set_thread C' t (Thread rq (k x)))
| step_call C t fuel rq :
    c_threads C !! t = None ->
    step q C None (set_thread C t (Thread rq (request_prog fuel q rq)))
| step_crash C t rq p :
    c_threads C !! t = Some (Thread rq p) ->
    step q C None (set_thread C t (Thread rq Spin))
| step_tick C now :
    (c_now C <= now)%Z ->
    step q C None (Config (c_srv C) now (c_uuids C) (c_threads C)).

(** [runs q C0 h C]: from [C0] to [C] by steps whose events are [h], the last one first. *)
Inductive runs q (C0 : config) : list entry -> config -> Prop :=
| runs_start : runs q C0 [] C0
| runs_step h C o C' :
    runs q C0 h C -> step q C o C' -> runs q C0 (option_list o ++ h) C'.

(** No calls yet. *)
Definition starts (s : St) (C : config) : Prop := c_srv C = s /\ c_threads C = ∅.

(** What a thread has done so far. *)
Definition own (t : nat) (h : list entry) : list occurrence :=
  omap (fun en => if decide (by_thread en = t) then Some (what en) else None) h.

(** ** Schedules *)

Inductive move :=
| MCall (t fuel : nat) (rq : request)
| MEvent (t : nat)     (* nothing arrives on a subscription *)
| MEvents (t n : nat)  (* that many of the thread's events in a row *)
| MCrash (t : nat)
| MTick (d : Z).

Definition perform {X} (e : ev X) (C : config) : X * config :=
  match e in ev X return X * config with
  | Redis c => let '(r, s) := exec c (c_srv C) in (r, set_server C s)
  | UtcNow => (c_now C, C)
  | InstantNow => (c_now C, C)
  | NewUuid =>
      (now_v7 (c_uuids C), Config (c_srv C) (c_now C) (S (c_uuids C)) (c_threads C))
  | Subscribe _ => (tt, C)
  | Unsubscribe _ => (tt, C)
  | Recv _ => (TimedOut, C)
  end.

Definition play_event (t : nat) (s : list entry * config) : option (list entry * config) :=
  let '(h, C) := s in
  match c_threads C !! t with
  | Some (Thread rq (Vis e k)) =>
      let '(x, C') := perform e C in
      Some (Entry t rq (Occ e x) :: h, set_thread C' t (Thread rq (k x)))
  | _ => None
  end.

Fixpoint play_events (t n : nat) (s : list entry * config) : option (list entry * config) :=
  match n with O => Some s | S n => s ← play_event t s; play_events t n s end.

Definition play_move q (m : move) (s : list entry * config) : option (list entry * config) :=
  let '(h, C) := s in
  match m with
  | MCall t fuel rq =>
      match c_threads C !! t with
      | None => Some (h, set_thread C t (Thread rq (request_prog fuel q rq)))
      | Some _ => None
      end
  | MEvent t => play_event t s
  | MEvents t n => play_events t n s
  | MCrash t =>
      match c_threads C !! t with
      | None => None
      | Some (Thread rq _) => Some (h, set_thread C t (Thread rq Spin))
      end
  | MTick d =>
      if (0 <=? d)%Z then Some (h, Config (c_srv C) (c_now C + d)%Z (c_uuids C) (c_threads C))
      else None
  end.

Fixpoint play q (ms : list move) (s : list entry * config) : option (list entry * config) :=
  match ms with [] => Some s | m :: ms => s ← play_move q m s; play q ms s end.

Lemma perform_performs {X} (e : ev X) C : performs e C (perform e C).1 (perform e C).2.
Proof. destruct e; simpl; try done. destruct (exec c (c_srv C)). by left. Qed.

Lemma play_event_runs q C0 t h C h' C' :
  runs q C0 h C -> play_event t (h, C) = Some (h', C') -> runs q C0 h' C'.
Proof.
  intros Hr Hp. unfold play_event in Hp.
  destruct (c_threads C !! t) as [[rq [a| |X e k]]|] eqn:Ht; try done.
  pose proof (perform_performs e C) as Hperf. destruct (perform e C) as [x C1].
  injection Hp as <- <-.
  eapply (runs_step q C0 h C (Some _)); [exact Hr|]. by eapply step_event.
Qed.

Lemma play_events_runs q C0 t n h C h' C' :
  runs q C0 h C -> play_events t n (h, C) = Some (h', C') -> runs q C0 h' C'.
Proof.
  revert h C. induction n as [|n IH]; intros h C Hr Hp; cbn [play_events] in Hp.
  - by injection Hp as <- <-.
  - destruct (play_event t (h, C)) as [[h1 C1]|] eqn:E; [|done].
    eapply IH; [|exact Hp]. by eapply play_event_runs.
Qed.

Lemma play_runs q C0 ms h C h' C' :
  runs q C0 h C -> play q ms (h, C) = Some (h', C') -> runs q C0 h' C'.
Proof.
  revert h C. induction ms as [|m ms IH]; intros h C Hr Hp; cbn [play] in Hp.
  { by injection Hp as <- <-. }
  destruct (play_move q m (h, C)) as [[h1 C1]|] eqn:E; [|done].
  eapply IH; [|exact Hp]. clear IH Hp.
  destruct m as [t fuel rq|t|t n|t|d]; unfold play_move in E.
  - destruct (c_threads C !! t) eqn:Ht; [done|]. injection E as <- <-.
    eapply (runs_step q C0 h C None); [exact Hr|]. by apply step_call.
  - by eapply play_event_runs.
  - by eapply play_events_runs.
  - destruct (c_threads C !! t) as [[rq p]|] eqn:Ht; [|done]. injection E as <- <-.
    eapply (runs_step q C0 h C None); [exact Hr|]. by eapply step_crash.
  - destruct (0 <=? d)%Z eqn:Hd; [|done]. injection E as <- <-.
    eapply (runs_step q C0 h C None); [exact Hr|]. apply step_tick. apply Z.leb_le in Hd. lia.
Qed.
End interleavings.
Arguments request {_} P R.
Arguments value {_} P R.
Arguments thread {_} P R.
Arguments config {_} P R St.
Arguments entry {_} P R.
Arguments move {_} P R.
#[global] Arguments own : simpl never.
