(* ===== verification/WqDiscipline.v ===== *)
(** * The types of the queue's keys, and the commands that keep them

    [typed q s]: on the server [s] each key of the queue [q] holds a value of its type with a
    content that the queue's operations can read.  Unlike [q_wf] of [WqSpec.v] this says nothing
    that relates two keys, so that a thread can rely on it between any two of its commands.
    [allowed] is the discipline of the operations, command by command: what a call of a kind may
    send, given what it has done before.  Allowed commands keep [typed]. *)

From S2P Require Import Prelude Ord RustStd Redis WqCore WqProg Wq WqSpec WqConc.

Section typed.
Context `{JobIds} {P R : Type} `{!Codecs P R}.
Implicit Types (q : WorkQueue P R) (j : JobId) (s : rstate) (d : gmap str rvalue) (k : key).

(** ** Contents *)

Definition member_ok (m : str) (sc : Z) : Prop :=
  exists j prio, m = id_to_string j /\ sc = priority_code prio.
Definition claim_entry (f v : str) : Prop :=
  exists c, f = id_to_string (claim_job_id c) /\ v = claim_to_string c /\
    partition_ok (claim_partition c).
Definition desc_text (v : str) : Prop :=
  exists x, desc_to_string (P := P) x = Some v /\ partition_ok (desc_partition x).
Definition result_text (v : str) : Prop :=
  exists r, v = result_to_string (R := R) r /\ is_resolved (res_status r) = true.
Definition status_text (v : str) : Prop :=
  exists st, v = Z_to_str (status_code st) /\ is_resolved st = true.
Definition counter_text (v : str) : Prop :=
  exists z, v = Z_to_str z /\ (0 <= z <= i64_max)%Z.

Definition holds_text (d : gmap str rvalue) (x : str) (ok : str -> Prop) : Prop :=
  exists o, read_string d x = Ok o /\ forall v, o = Some v -> ok v.

Definition slot_typed q d k : Prop :=
  let x := key_text q k in
  match k with
  | KPending _ => exists z, read_zset d x = Ok z /\ forall m sc, z !! m = Some sc -> member_ok m sc
  | KPartitions =>
      exists ps, read_set d x = Ok ps /\ forall n, n ∈ ps -> validate_partition n = Ok tt
  | KClaims => exists h, read_hash d x = Ok h /\ forall f v, h !! f = Some v -> claim_entry f v
  | KJobClaim _ => True
  | KJob _ => holds_text d x desc_text
  | KResult _ => holds_text d x result_text
  | KResolved _ => holds_text d x status_text
  | KStat _ => holds_text d x counter_text
  end.

Definition typed q s : Prop := forall k, key_ok k -> slot_typed q (data s) k.

Lemma absent_typed q d k : d !! key_text q k = None -> slot_typed q d k.
Proof.
  intros Hd. destruct k; simpl in *; try exact I; unfold holds_text, read_zset, read_set,
    read_hash, read_string; rewrite Hd; eexists; (split; [reflexivity|]); try done.
Qed.

Lemma empty_typed q : typed q (RState ∅ []).
Proof. intros k _. apply absent_typed, lookup_empty. Qed.

Lemma slot_typed_ext q d d' k :
  d' !! key_text q k = d !! key_text q k -> slot_typed q d k -> slot_typed q d' k.
Proof.
  intros Hd. destruct k; simpl in *; try done;
    unfold holds_text, read_zset, read_set, read_hash, read_string; by rewrite Hd.
Qed.

(** A command that changes one key. *)
Lemma typed_update q s (x : str) (d' : gmap str rvalue) pub :
  typed q s -> (forall y, y <> x -> d' !! y = data s !! y) ->
  (forall k, key_ok k -> key_text q k = x -> slot_typed q d' k) ->
  typed q (RState d' pub).
Proof.
  intros Ht Hother Hx k Hk. destruct (decide (key_text q k = x)) as [Heq|Hne].
  - by apply Hx.
  - simpl. eapply slot_typed_ext; [by apply Hother|by apply Ht].
Qed.

Lemma typed_update_at q s k0 (d' : gmap str rvalue) pub :
  built q -> key_ok k0 -> typed q s ->
  (forall y, y <> key_text q k0 -> d' !! y = data s !! y) ->
  slot_typed q d' k0 -> typed q (RState d' pub).
Proof.
  intros Hb Hk0 Ht Hother Hx. eapply typed_update; [exact Ht|exact Hother|].
  intros k Hk Heq. apply key_text_inj in Heq; [by subst|done..].
Qed.

Lemma holds_text_insert d x v ttl (ok : str -> Prop) :
  ok v -> holds_text (<[x := RString v ttl]> d) x ok.
Proof.
  intros Hv. exists (Some v). unfold read_string. rewrite lookup_insert_eq. split; [done|].
  by intros ? [= <-].
Qed.

(** ** The discipline *)

(** The job is put in the queue: by the call that made its identifier, once, or because a round
    of the reclaim checker found an expired claim of it. *)
Definition may_add q (rq : request P R) (h : list occurrence) j (p : option str)
    (prio : Priority) : Prop :=
  match rq with
  | RqEnqueue _ _ _ _ =>
      Occ NewUuid j ∈ h /\ (forall (x m : str) sc r, Occ (Redis (ZADD x m sc)) r ∉ h)
  | RqReclaimRound =>
      exists entries t c,
        Occ (Redis (HGETALL (claims_key q))) (Ok entries) ∈ h /\ Occ UtcNow t ∈ h /\
        (id_to_string j, claim_to_string c) ∈ entries /\
        claim_expired (reclaim_timeout q) t c = true /\
        claim_job_id c = j /\ claim_partition c = p /\ claim_priority c = prio
  | _ => False
  end.

(** The claim is written: for the worker that was handed the job, or because its worker
    refreshes it. *)
Definition may_hold q (rq : request P R) (h : list occurrence) (c : Claim) : Prop :=
  match rq with
  | RqClaim _ w =>
      claim_worker_id c = w /\
      Occ (Redis (ZPOPMIN (pending_key q (claim_partition c))))
          (Ok (Some (id_to_string (claim_job_id c), priority_code (claim_priority c)))) ∈ h
  | RqReclaim j w =>
      claim_worker_id c = w /\ claim_job_id c = j /\
      exists t, Occ (Redis (HGET (claims_key q) (id_to_string j)))
          (Ok (Some (claim_to_string {| claim_job_id := j; claim_priority := claim_priority c;
             claim_worker_id := w; claim_time := t;
             claim_partition := claim_partition c |}))) ∈ h
  | _ => False
  end.

Definition allowed_command q rq (h : list occurrence) {A} (c : rcmd A) : Prop :=
  match c with
  | SET k v =>
      (exists j, k = get_job_key q j /\ desc_text v) \/
      (exists j, k = get_result_key q j /\ result_text v)
  | SETEX k v _ => exists j, k = get_resolved_key q j /\ status_text v
  | INCR k n => exists name, k = get_stats_key q name /\ n = 1%Z
  | HSET k f v =>
      exists c, k = claims_key q /\ f = id_to_string (claim_job_id c) /\ v = claim_to_string c /\
        partition_ok (claim_partition c) /\ may_hold q rq h c
  | HDEL k _ => k = claims_key q
  | ZADD k m sc =>
      exists j p prio, k = pending_key q p /\ partition_ok p /\ m = id_to_string j /\
        sc = priority_code prio /\ may_add q rq h j p prio
  | ZREM k _ => exists p, partition_ok p /\ k = pending_key q p
  | ZPOPMIN k => exists p, partition_ok p /\ k = pending_key q p
  | SADD k m => k = partitions_key (pending q) /\ validate_partition m = Ok tt
  | _ => True
  end.

Definition allowed q rq (h : list occurrence) {X} (e : ev X) : Prop :=
  match e with
  | Redis c => allowed_command q rq h c
  | NewUuid => match rq with RqEnqueue _ _ _ _ => forall j, Occ NewUuid j ∉ h | _ => False end
  | _ => True
  end.

(** ** Allowed commands keep the types *)

Lemma counter_text_parse v : counter_text v ->
  exists z, parse_i64 v = Some z /\ (0 <= z <= i64_max)%Z.
Proof.
  intros (z & -> & Hz). exists z. split; [|done]. apply parse_i64_to_str.
  unfold in_i64, i64_min. rewrite andb_true_iff, !Z.leb_le. lia.
Qed.

Lemma reading_typed q {A B} (r : result rerror B) s (f : B -> A * gmap str rvalue) :
  typed q s -> (forall b, r = Ok b -> typed q (RState (f b).2 (published s))) ->
  typed q (reading r s f).2.
Proof.
  intros Ht Hf. destruct r as [b|e]; [|done]. simpl. specialize (Hf b eq_refl).
  by destruct (f b).
Qed.

Lemma zset_write_typed q s (p : option str) (z : gmap str Z) pub :
  built q -> partition_ok p -> typed q s -> (forall m sc, z !! m = Some sc -> member_ok m sc) ->
  typed q (RState (write_zset (data s) (pending_key q p) z) pub).
Proof.
  intros Hb Hp Ht Hz. apply (typed_update_at q s (KPending p)); [done..| |].
  - intros y Hy. by apply write_zset_ne.
  - exists z. split; [apply read_write_zset|done].
Qed.

Lemma hash_write_typed q s (h : gmap str str) pub :
  built q -> typed q s -> (forall f v, h !! f = Some v -> claim_entry f v) ->
  typed q (RState (write_hash (data s) (claims_key q) h) pub).
Proof.
  intros Hb Ht Hh. apply (typed_update_at q s KClaims); [done..| |].
  - intros y Hy. by apply write_hash_ne.
  - exists h. split; [apply read_write_hash|done].
Qed.

Lemma text_write_typed q s k (v : str) ttl pub :
  built q -> key_ok k -> typed q s -> slot_typed q (<[key_text q k := RString v ttl]> (data s)) k ->
  typed q (RState (<[key_text q k := RString v ttl]> (data s)) pub).
Proof.
  intros Hb Hk Ht Hs. apply (typed_update_at q s k); [done..| |done].
  intros y Hy. by rewrite lookup_insert_ne.
Qed.

Lemma same_typed q s pub : typed q s -> typed q (RState (data s) pub).
Proof. intros Ht k Hk. by apply Ht. Qed.

(** What the keys of [typed] say about the aggregates a command reads. *)
Lemma typed_zset q s p : typed q s -> partition_ok p ->
  exists z, read_zset (data s) (pending_key q p) = Ok z /\
    forall m sc, z !! m = Some sc -> member_ok m sc.
Proof. intros Ht Hp. exact (Ht (KPending p) Hp). Qed.
Lemma typed_claims q s : typed q s ->
  exists h, read_hash (data s) (claims_key q) = Ok h /\ forall f v, h !! f = Some v -> claim_entry f v.
Proof. intros Ht. exact (Ht KClaims I). Qed.
Lemma typed_partitions q s : typed q s ->
  exists ps, read_set (data s) (partitions_key (pending q)) = Ok ps /\
    forall n, n ∈ ps -> validate_partition n = Ok tt.
Proof. intros Ht. exact (Ht KPartitions I). Qed.
Lemma typed_stat q s n : typed q s -> holds_text (data s) (get_stats_key q n) counter_text.
Proof. intros Ht. exact (Ht (KStat n) I). Qed.

Lemma zpop_deletes (z : gmap str Z) m sc : zset_min (map_to_list z) = Some (m, sc) -> z !! m = Some sc.
Proof. intros [Hin _]%zset_min_spec. by apply elem_of_map_to_list. Qed.

Lemma allowed_typed q rq h s {A} (c : rcmd A) :
  built q -> allowed_command q rq h c -> typed q s -> typed q (redis_doc c s).2.
Proof.
  intros Hb Hal Ht. destruct c; simpl in Hal |- *; try done;
    try (apply reading_typed; [done|]; intros b Hrd; try (by apply same_typed)).
  - destruct Hal as [(j & -> & Hv)|(j & -> & Hv)].
    + apply (text_write_typed q s (KJob j)); [done..|]. by apply holds_text_insert.
    + apply (text_write_typed q s (KResult j)); [done..|]. by apply holds_text_insert.
  - destruct Hal as (j & -> & Hv).
    apply (text_write_typed q s (KResolved j)); [done..|]. by apply holds_text_insert.
  - eapply typed_update; [exact Ht|intros y Hy; by rewrite lookup_delete_ne|].
    intros k' Hk' <-. apply absent_typed. by rewrite lookup_delete_eq.
  - destruct Hal as (name & -> & ->).
    destruct (typed_stat q s name Ht) as (o & Ho & Hv). rewrite Ho.
    assert (exists z, parse_i64 (default (lit "0") o) = Some z /\ (0 <= z <= i64_max)%Z)
      as (z & Hz & Hzb).
    { destruct o as [v|]; [by apply counter_text_parse, Hv|].
      exists 0%Z. split; [reflexivity|]. unfold i64_max. lia. }
    rewrite Hz. destruct (in_i64 (z + 1)) eqn:Hin; [|done].
    apply (text_write_typed q s (KStat name)); [done..|]. apply holds_text_insert.
    exists (z + 1)%Z. split; [done|]. unfold in_i64 in Hin. reflect_bools.
    rewrite ?Z.leb_le in *. lia.
  - destruct Hal as (c & -> & -> & -> & Hp & _). simpl.
    destruct (typed_claims q s Ht) as (h0 & Hh0 & Hok). rewrite Hrd in Hh0. injection Hh0 as <-.
    apply hash_write_typed; [done..|]. intros f v [[<- <-]|[_ Hfv]]%lookup_insert_Some; [|by apply Hok].
    by exists c.
  - subst. simpl. destruct (typed_claims q s Ht) as (h0 & Hh0 & Hok). rewrite Hrd in Hh0. injection Hh0 as <-.
    apply hash_write_typed; [done..|]. intros f' v [_ Hfv]%lookup_delete_Some. by apply Hok.
  - destruct Hal as (j & p & prio & -> & Hp & -> & -> & _). simpl.
    destruct (typed_zset q s p Ht Hp) as (z0 & Hz0 & Hok). rewrite Hrd in Hz0. injection Hz0 as <-.
    apply zset_write_typed; [done..|]. intros m sc [[<- <-]|[_ Hm]]%lookup_insert_Some; [|by apply Hok].
    by exists j, prio.
  - destruct Hal as (p & Hp & ->). simpl.
    destruct (typed_zset q s p Ht Hp) as (z0 & Hz0 & Hok). rewrite Hrd in Hz0. injection Hz0 as <-.
    apply zset_write_typed; [done..|]. intros m' sc [_ Hm]%lookup_delete_Some. by apply Hok.
  - destruct Hal as (p & Hp & ->).
    destruct (typed_zset q s p Ht Hp) as (z0 & Hz0 & Hok). rewrite Hrd in Hz0. injection Hz0 as <-.
    destruct (zset_min (map_to_list b)) as [[m sc]|]; simpl; [|by apply same_typed].
    apply zset_write_typed; [done..|]. intros m' sc' [_ Hm]%lookup_delete_Some. by apply Hok.
  - destruct Hal as [-> Hm]. simpl.
    destruct (typed_partitions q s Ht) as (ps & Hps & Hok). rewrite Hrd in Hps. injection Hps as <-.
    apply (typed_update_at q s KPartitions); [done..| |].
    + intros y Hy. by rewrite lookup_insert_ne.
    + exists ({[m]} ∪ b). simpl. unfold read_set. rewrite lookup_insert_eq. split; [done|].
      intros n [->%elem_of_singleton|Hn]%elem_of_union; [done|by apply Hok].
Qed.
End typed.

(** ** A program logic for interleaved operations

    [follows q rq Q h p]: from the history [h] of its own events, the program [p] only sends
    commands that a call [rq] is allowed ([WqDiscipline.allowed]), as long as every reply is one that a
    server with the queue's types can give, or a lost connection; and it ends with [Q].  Nothing
    is assumed about what other threads do between two commands but that they keep the types.
    [keeps] is [follows] for programs that return results, with the errors they may end with. *)

Section follows.
Context `{JobIds} {P R : Type} `{!Codecs P R}.
Implicit Types (q : WorkQueue P R) (j : JobId) (rq : request P R) (h : list occurrence).

Definition plausible q {X} (e : ev X) (x : X) : Prop :=
  match e in ev X return X -> Prop with
  | Redis c => fun r => r = Err Transport \/ exists s, typed q s /\ r = (redis_doc c s).1
  | _ => fun _ => True
  end x.

Fixpoint follows q rq {A} (Q : list occurrence -> A -> Prop) h (p : prog A) : Prop :=
  match p with
  | Ret a => Q h a
  | Spin => True
  | Vis e k =>
      allowed q rq h e /\ forall x, plausible q e x -> follows q rq Q (Occ e x :: h) (k x)
  end.

Lemma follows_mono q rq {A} (Q Q' : list occurrence -> A -> Prop) h p :
  (forall h a, Q h a -> Q' h a) -> follows q rq Q h p -> follows q rq Q' h p.
Proof.
  intros HQ. revert h. induction p as [a| |X e k IH]; intros h; simpl; [apply HQ|done|].
  intros [Hal Hk]. split; [done|]. intros x Hx. by apply IH, Hk.
Qed.

Lemma follows_bind q rq {A B} (Q : list occurrence -> B -> Prop) (f : A -> prog B) h p :
  follows q rq (fun h a => follows q rq Q h (f a)) h p -> follows q rq Q h (prog_bind f p).
Proof.
  revert h. induction p as [a| |X e k IH]; intros h; simpl; [done|done|].
  intros [Hal Hk]. split; [done|]. intros x Hx. by apply IH, Hk.
Qed.

(** Histories grow. *)
Definition extends h h' : Prop := exists l, h' = l ++ h.

Lemma extends_refl h : extends h h.
Proof. by exists []. Qed.
Lemma extends_elem h h' x : extends h h' -> x ∈ h -> x ∈ h'.
Proof. intros [l ->] Hx. apply elem_of_app. by right. Qed.
Lemma extends_cons h h' o : extends (o :: h) h' -> extends h h'.
Proof. intros [l ->]. exists (l ++ [o]). by rewrite <- app_assoc. Qed.

Lemma follows_extends q rq {A} (Q : list occurrence -> A -> Prop) h p :
  follows q rq Q h p -> follows q rq (fun h' a => extends h h' /\ Q h' a) h p.
Proof.
  revert h. induction p as [a| |X e k IH]; intros h; simpl; [|done|].
  - split; [apply extends_refl|done].
  - intros [Hal Hk]. split; [done|]. intros x Hx.
    eapply follows_mono; [|by apply IH, Hk]. intros h' a [Hext HQ]. split; [|done].
    by eapply extends_cons.
Qed.

(** ** Programs that return results *)

Definition keeps q rq (E : WorkQueueError -> Prop) {A} (Q : list occurrence -> A -> Prop) h
    (m : qm A) : Prop :=
  follows q rq (fun h r => match r with Ok a => Q h a | Err e => E e end) h m.

Section rules.
Context (q : WorkQueue P R) (rq : request P R) (E : WorkQueueError -> Prop).
Context (Hlost : E (RedisError Transport)).

Lemma keeps_ret {A} (Q : list occurrence -> A -> Prop) h a : Q h a -> keeps q rq E Q h (mret a).
Proof. done. Qed.

Lemma keeps_err {A} (Q : list occurrence -> A -> Prop) h e : E e -> keeps q rq E Q h (qerr e).
Proof. done. Qed.

Lemma keeps_lift {A} (Q : list occurrence -> A -> Prop) h r :
  match r with Ok a => Q h a | Err e => E e end -> keeps q rq E Q h (qlift r).
Proof. done. Qed.

Lemma keeps_bind {A B} (Q : list occurrence -> B -> Prop) (f : A -> qm B) h m :
  keeps q rq E (fun h a => keeps q rq E Q h (f a)) h m -> keeps q rq E Q h (m ≫= f).
Proof. intros Hm. apply follows_bind. eapply follows_mono; [|exact Hm]. by intros h' [a|e]. Qed.

Lemma keeps_mono {A} (Q Q' : list occurrence -> A -> Prop) h m :
  (forall h a, Q h a -> Q' h a) -> keeps q rq E Q h m -> keeps q rq E Q' h m.
Proof. intros HQ. apply follows_mono. intros h' [a|e]; auto. Qed.

(** Rules for a first step and what follows it. *)
Lemma keeps_lift_bind {A B} (Q : list occurrence -> B -> Prop) (f : A -> qm B) h r :
  (forall e, r = Err e -> E e) -> (forall a, r = Ok a -> keeps q rq E Q h (f a)) ->
  keeps q rq E Q h (qlift r ≫= f).
Proof.
  intros He Ha. apply keeps_bind, keeps_lift. destruct r as [a|e]; [by apply Ha|by apply He].
Qed.

Lemma keeps_ev_bind {X B} (Q : list occurrence -> B -> Prop) (e : ev X) (f : X -> qm B) h :
  allowed q rq h e -> (forall x, keeps q rq E Q (Occ e x :: h) (f x)) ->
  keeps q rq E Q h (qev e ≫= f).
Proof. intros Hal Hf. apply keeps_bind. split; [done|]. intros x _. apply Hf. Qed.

(** A typed server replies to the command, with a reply as described. *)
Definition replies {A} (c : rcmd A) (Φ : A -> Prop) : Prop :=
  forall s, typed q s -> exists a, (redis_doc c s).1 = Ok a /\ Φ a.

Lemma keeps_call {A} (Q : list occurrence -> A -> Prop) (c : rcmd A) Φ h :
  allowed_command q rq h c -> replies c Φ ->
  (forall a, Φ a -> Q (Occ (Redis c) (Ok a) :: h) a) -> keeps q rq E Q h (call c).
Proof.
  intros Hal Hr HQ. split; [done|]. intros r [->|(s & Hs & ->)]; [done|].
  destruct (Hr s Hs) as (a & Ha & HΦ). rewrite Ha. by apply HQ.
Qed.

Lemma keeps_call_bind {A B} (Q : list occurrence -> B -> Prop) (c : rcmd A) Φ (f : A -> qm B) h :
  allowed_command q rq h c -> replies c Φ ->
  (forall a, Φ a -> keeps q rq E Q (Occ (Redis c) (Ok a) :: h) (f a)) ->
  keeps q rq E Q h (call c ≫= f).
Proof. intros. apply keeps_bind. by eapply keeps_call. Qed.

(** A pipeline sends all of its commands. *)
Fixpoint pipe_allowed h (cs : list any_cmd) : Prop :=
  match cs with
  | [] => True
  | Any c :: cs =>
      allowed_command q rq h c /\
      (forall s e, typed q s -> (redis_doc c s).1 = Err e -> E (RedisError e)) /\
      forall r, pipe_allowed (Occ (Redis c) r :: h) cs
  end.

(** All of the commands are in the history, with some reply. *)
Definition sent h (c : any_cmd) : Prop :=
  match c with Any c => exists r, Occ (Redis c) r ∈ h end.

Lemma sent_extends h h' c : extends h h' -> sent h c -> sent h' c.
Proof.
  intros [l ->]. destruct c as [A c]. intros [r Hr]. exists r. apply elem_of_app. by right.
Qed.

Lemma keeps_pipe_from (Q : list occurrence -> unit -> Prop) h cs first :
  pipe_allowed h cs -> (forall e, first = Some e -> E (RedisError e)) ->
  (forall h', extends h h' -> Forall (sent h') cs -> Q h' tt) ->
  keeps q rq E Q h (pipe_from first cs).
Proof.
  revert h Q first. induction cs as [|[A c] cs IH]; intros h Q first Hal Hfirst HQ.
  - destruct first as [e|]; simpl; [by apply Hfirst|]. apply HQ; [by exists []|done].
  - destruct Hal as (Hal & He & Hrest). split; [done|]. intros r Hr. apply IH.
    + apply Hrest.
    + intros e. destruct first as [e'|]; [apply Hfirst|].
      destruct r as [x|e']; [done|]. intros [= ->].
      destruct Hr as [[= ->]|(s & Hs & Heq)]; [done|]. by eapply He.
    + intros h' [l Hl] Hsent. apply HQ; [exists (l ++ [Occ (Redis c) r])|].
      * subst. by rewrite <- app_assoc.
      * constructor; [|done]. exists r. subst. apply elem_of_app. right. by left.
Qed.

Lemma keeps_pipe (Q : list occurrence -> unit -> Prop) h cs :
  pipe_allowed h cs -> (forall h', extends h h' -> Forall (sent h') cs -> Q h' tt) ->
  keeps q rq E Q h (pipe cs).
Proof. intros. by apply keeps_pipe_from. Qed.

Lemma pipe_allowed_cons {A} (c : rcmd A) Φ h cs :
  allowed_command q rq h c -> replies c Φ ->
  (forall r, pipe_allowed (Occ (Redis c) r :: h) cs) -> pipe_allowed h (Any c :: cs).
Proof.
  intros Hal Hr Hcs. split; [done|]. split; [|done]. intros s e Hs He.
  destruct (Hr s Hs) as (a & Ha & _). congruence.
Qed.
End rules.

(** ** Replies of a server with the queue's types *)

Definition anything {A} : A -> Prop := fun _ => True.
Definition read_as {A} (ok : A -> Prop) (o : option A) : Prop := forall v, o = Some v -> ok v.

Lemma text_reply q k ok :
  (forall s, typed q s -> holds_text (data s) k ok) -> replies q (GET k) (read_as ok).
Proof. intros Hk s Hs. destruct (Hk s Hs) as (o & Ho & Hv). exists o. simpl. by rewrite Ho. Qed.

Lemma reply_get_job q j : replies q (GET (get_job_key q j)) (read_as (desc_text (P := P))).
Proof. apply text_reply. intros s Hs. exact (Hs (KJob j) I). Qed.
Lemma reply_get_result q j : replies q (GET (get_result_key q j)) (read_as (result_text (R := R))).
Proof. apply text_reply. intros s Hs. exact (Hs (KResult j) I). Qed.
Lemma reply_get_resolved q j : replies q (GET (get_resolved_key q j)) (read_as status_text).
Proof. apply text_reply. intros s Hs. exact (Hs (KResolved j) I). Qed.
Lemma reply_get_stat q n : replies q (GET (get_stats_key q n)) (read_as counter_text).
Proof. apply text_reply. intros s Hs. exact (Hs (KStat n) I). Qed.

Lemma reply_hget q f :
  replies q (HGET (claims_key q) f) (read_as (claim_entry (P := P) (R := R) f)).
Proof.
  intros s Hs. destruct (typed_claims q s Hs) as (h & Hh & Hok). exists (h !! f). simpl.
  rewrite Hh. split; [done|]. intros v. apply Hok.
Qed.
Lemma reply_hgetall q :
  replies q (HGETALL (claims_key q))
    (fun l => forall f v, (f, v) ∈ l -> claim_entry (P := P) (R := R) f v).
Proof.
  intros s Hs. destruct (typed_claims q s Hs) as (h & Hh & Hok). exists (map_to_list h). simpl.
  rewrite Hh. split; [done|]. intros f v Hfv%elem_of_map_to_list. by apply Hok.
Qed.
Lemma reply_hset q f v : replies q (HSET (claims_key q) f v) anything.
Proof. intros s Hs. destruct (typed_claims q s Hs) as (h & Hh & _). simpl. rewrite Hh. by exists tt. Qed.
Lemma reply_hdel q f : replies q (HDEL (claims_key q) f) anything.
Proof. intros s Hs. destruct (typed_claims q s Hs) as (h & Hh & _). simpl. rewrite Hh. by exists tt. Qed.
Lemma reply_hexists q f : replies q (HEXISTS (claims_key q) f) anything.
Proof. intros s Hs. destruct (typed_claims q s Hs) as (h & Hh & _). simpl. rewrite Hh. by eexists. Qed.
Lemma reply_hlen q : replies q (HLEN (claims_key q)) anything.
Proof. intros s Hs. destruct (typed_claims q s Hs) as (h & Hh & _). simpl. rewrite Hh. by eexists. Qed.
Lemma reply_zadd q p m sc : partition_ok p -> replies q (ZADD (pending_key q p) m sc) anything.
Proof. intros Hp s Hs. destruct (typed_zset q s p Hs Hp) as (z & Hz & _). simpl. rewrite Hz. by exists tt. Qed.
Lemma reply_zrem q p m : partition_ok p -> replies q (ZREM (pending_key q p) m) anything.
Proof. intros Hp s Hs. destruct (typed_zset q s p Hs Hp) as (z & Hz & _). simpl. rewrite Hz. by exists tt. Qed.
Lemma reply_zcount q p lo hi : partition_ok p -> replies q (ZCOUNT (pending_key q p) lo hi) anything.
Proof. intros Hp s Hs. destruct (typed_zset q s p Hs Hp) as (z & Hz & _). simpl. rewrite Hz. by eexists. Qed.
Lemma reply_zpopmin q p :
  partition_ok p ->
  replies q (ZPOPMIN (pending_key q p)) (read_as (fun e => member_ok e.1 e.2)).
Proof.
  intros Hp s Hs. destruct (typed_zset q s p Hs Hp) as (z & Hz & Hok). simpl. rewrite Hz. simpl.
  destruct (zset_min (map_to_list z)) as [[m sc]|] eqn:E; eexists; (split; [reflexivity|]); [|done].
  intros v [= <-]. by apply Hok, zpop_deletes.
Qed.
Lemma reply_sadd q m : replies q (SADD (partitions_key (pending q)) m) anything.
Proof. intros s Hs. destruct (typed_partitions q s Hs) as (ps & Hps & _). simpl. rewrite Hps. by exists tt. Qed.
Lemma reply_smembers q :
  replies q (SMEMBERS (partitions_key (pending q)))
    (fun l => forall n, n ∈ l -> validate_partition n = Ok tt).
Proof.
  intros s Hs. destruct (typed_partitions q s Hs) as (ps & Hps & Hok). exists (elements ps). simpl.
  rewrite Hps. split; [done|]. intros n Hn%elem_of_elements. by apply Hok.
Qed.
Lemma reply_set q k v : replies q (SET k v) anything.
Proof. intros s Hs. by exists tt. Qed.
Lemma reply_setex q k v ttl : replies q (SETEX k v ttl) anything.
Proof. intros s Hs. by exists tt. Qed.
Lemma reply_del q k : replies q (DEL k) anything.
Proof. intros s Hs. by exists tt. Qed.
Lemma reply_exists q k : replies q (EXISTS k) anything.
Proof. intros s Hs. by eexists. Qed.
Lemma reply_keys q k : replies q (KEYS_STAR k) anything.
Proof. intros s Hs. by eexists. Qed.
Lemma reply_publish q k v : replies q (PUBLISH k v) anything.
Proof. intros s Hs. by exists tt. Qed.
End follows.

Create HintDb wq_reply.
#[export] Hint Resolve reply_get_job reply_get_result reply_get_resolved reply_get_stat reply_hget
  reply_hgetall reply_hset reply_hdel reply_hexists reply_hlen reply_zadd reply_zrem reply_zcount
  reply_zpopmin reply_sadd reply_smembers reply_set reply_setex reply_del reply_exists reply_keys
  reply_publish : wq_reply.
