(* ===== verification/WqDisciplined.v ===== *)
(** * Every operation of the queue keeps the discipline

    One lemma per operation: whatever the other threads do between its commands, it sends only
    the commands of [WqDiscipline.allowed], fails only with the errors of [may_fail], and what it
    returns is backed by its own events ([backed]). *)

From S2P Require Import Prelude Ord RustStd Redis WqCore WqProg Wq WqSpec WqConc WqDiscipline.

Section disciplined.
Context `{JobIds} {P R : Type} `{!Codecs P R}.
Implicit Types (q : WorkQueue P R) (j : JobId) (rq : request P R) (h : list occurrence).

(** ** What a call can end with *)

Definition lost : WorkQueueError := RedisError Transport.
(** A reply that isn't there where a text is expected. *)
Definition missing : WorkQueueError := RedisError Conversion.

Definition may_fail rq (e : WorkQueueError) : Prop :=
  e = lost \/
  match rq with
  | RqEnqueue _ _ _ _ => (exists n, e = InvalidPartition n) \/ e = Serialization
  | RqClaim _ _ => (exists n, e = InvalidPartition n) \/ e = missing
  | RqReclaim _ _ => e = JobCancelled \/ exists msg, e = Other msg
  | RqResolve _ _ _ _ =>
      (exists msg, e = InvalidJobStatus msg) \/ e = JobCancelled \/ e = WorkerMismatch \/
      e = missing \/ e = RedisError NotAnInteger
  | RqResult _ => e = missing
  | RqWait _ _ => e = JobNotFound \/ exists msg, e = Other msg
  | RqOrphans => exists e', e = RedisError e'
  | RqCancel _ | RqReclaimRound | RqDeleteResult _ | RqStatus _ | RqResolvedStatus _ | RqStats =>
      False
  end.

(** What is behind a call's answer. *)
Definition backed q rq h (v : value P R) : Prop :=
  match rq, v with
  | RqEnqueue _ _ prio _, VId j =>
      Occ NewUuid j ∈ h /\
      exists p r, Occ (Redis (ZADD (pending_key q p) (id_to_string j) (priority_code prio))) r ∈ h
  | RqClaim _ w, VJob (Some job) =>
      exists p prio t,
        Occ (Redis (ZPOPMIN (pending_key q p)))
          (Ok (Some (id_to_string (job_id job), priority_code prio))) ∈ h /\
        Occ (Redis (HSET (claims_key q) (id_to_string (job_id job))
          (claim_to_string (in_partition (claim_new w (job_id job) prio t) p)))) (Ok tt) ∈ h
  | _, _ => True
  end.

Definition disciplined q rq (p : qm (value P R)) : Prop :=
  keeps q rq (may_fail rq) (backed q rq) [] p.

Lemma may_lose rq : may_fail rq lost.
Proof. by left. Qed.

(** Turns [disciplined] into [keeps] for the operation itself. *)
Lemma valued_disciplined q rq {A} (f : A -> value P R) (m : qm A) :
  keeps q rq (may_fail rq) (fun h a => backed q rq h (f a)) [] m ->
  disciplined q rq (valued f m).
Proof. intros Hm. by apply keeps_bind. Qed.

(** ** Reading *)

Lemma status_code_try st : status_try_from (status_code st) = Ok st.
Proof. by destruct st. Qed.

Lemma status_text_read v : status_text v ->
  exists st, parse_u8 v = Some (status_code st) /\ is_resolved st = true.
Proof. intros (st & -> & Hst). exists st. split; [|done]. by destruct st. Qed.

Lemma result_reply o :
  read_as (result_text (R := R)) o ->
  exists r, read_optional result_from_redis_value o = Ok r.
Proof.
  destruct o as [v|]; [|by exists None]. intros Hv. destruct (Hv v eq_refl) as (r & -> & _).
  exists (Some r). simpl. unfold result_from_redis_value. by rewrite result_roundtrip.
Qed.

Lemma claim_reply f o :
  read_as (claim_entry (P := P) (R := R) f) o ->
  exists c, read_optional (claim_from_redis_value (P := P) (R := R)) o = Ok c /\
    match c with
    | None => o = None
    | Some c => o = Some (claim_to_string c) /\ f = id_to_string (claim_job_id c) /\
        partition_ok (claim_partition c)
    end.
Proof.
  destruct o as [v|]; [|by exists None]. intros Hv. destruct (Hv v eq_refl) as (c & -> & -> & Hp).
  exists (Some c). simpl. unfold claim_from_redis_value. by rewrite claim_roundtrip.
Qed.

Ltac k_call :=
  eapply keeps_call_bind;
  [apply may_lose|try exact I|solve [eauto with wq_reply]|].
Ltac k_ev := apply keeps_ev_bind; [try exact I|].
Ltac k_lift := apply keeps_lift_bind.
Ltac p_next := eapply pipe_allowed_cons; [|solve [eauto with wq_reply]|intros ?].

Section of_a_call.
Context (q : WorkQueue P R) (rq : request P R).
Local Abbreviation keep := (keeps q rq (may_fail rq)).

Lemma resolved_status_keeps h j : keep (fun _ _ => True) h (get_resolved_status q j).
Proof.
  k_call. intros [v|] Hv; [|done].
  destruct (status_text_read v (Hv v eq_refl)) as (st & Hst & _).
  k_lift; rewrite Hst; [done|]. intros ? [= <-].
  k_lift; rewrite status_code_try; [done|]. by intros ? [= <-].
Qed.

Lemma status_keeps h j : keep (fun _ _ => True) h (get_job_status q j).
Proof.
  unfold get_job_status. apply keeps_bind. unfold pipe3.
  assert (forall A (c : rcmd A) (Φ : A -> Prop) r, replies q c Φ -> plausible q (Redis c) r ->
    r = Err Transport \/ exists a, r = Ok a) as Hre.
  { intros A c Φ r Hc [->|(s & Hs & ->)]; [by left|].
    destruct (Hc s Hs) as (a & Ha & _). right. by exists a. }
  split; [done|]. intros ra Hra. split; [done|]. intros rb Hrb. split; [done|]. intros rc Hrc.
  apply (Hre _ _ anything) in Hra; [|eauto with wq_reply].
  apply (Hre _ _ anything) in Hrb; [|eauto with wq_reply].
  apply (Hre _ _ anything) in Hrc; [|eauto with wq_reply].
  destruct Hra as [->|[a ->]]; [apply may_lose|].
  destruct Hrb as [->|[b ->]]; [apply may_lose|].
  destruct Hrc as [->|[c ->]]; [apply may_lose|].
  apply (keeps_bind q rq (may_fail rq)).
  eapply (keeps_mono q rq _ (fun _ _ => True)).
  - intros h' [r|] _; [done|]. by destruct b, c.
  - destruct a; [|done]. k_call. intros o Ho. apply keeps_lift.
    destruct (result_reply o Ho) as (r & ->). done.
Qed.

Lemma get_text_keeps h k ok (Q : list occurrence -> str -> Prop) :
  replies q (GET k) (read_as ok) -> may_fail rq missing ->
  (forall v, ok v -> Q (Occ (Redis (GET k)) (Ok (Some v)) :: h) v) -> keep Q h (get_text k).
Proof.
  intros Hk Hm HQ. eapply keeps_call_bind; [apply may_lose|done|exact Hk|].
  intros [v|] Hv; [|done]. apply HQ. by apply Hv.
Qed.

Lemma get_text_bind {B} h k ok (Q : list occurrence -> B -> Prop) f :
  replies q (GET k) (read_as ok) -> may_fail rq missing ->
  (forall v, ok v -> keep Q (Occ (Redis (GET k)) (Ok (Some v)) :: h) (f v)) ->
  keep Q h (get_text k ≫= f).
Proof. intros. apply keeps_bind. by eapply get_text_keeps. Qed.

Lemma counter_keeps h n : keep (fun _ _ => True) h (get_counter (get_stats_key q n)).
Proof.
  k_call. intros [v|] Hv; [|done]. apply keeps_lift.
  destruct (Hv v eq_refl) as (z & -> & Hz). by rewrite parse_u64_to_str.
Qed.

Lemma count_partitions_keeps h ps n :
  (forall p, p ∈ ps -> validate_partition p = Ok tt) ->
  keep (fun _ _ => True) h (count_partitions q ps n).
Proof.
  revert h n. induction ps as [|p ps IH]; intros h n Hps; [done|].
  eapply keeps_call_bind;
    [apply may_lose|done|apply (reply_zcount q (Some p)); apply Hps; by left|].
  intros m _. apply IH. intros p' Hp'. apply Hps. by right.
Qed.

Lemma stats_keeps h : built q -> keep (fun _ _ => True) h (get_stats q).
Proof.
  intros Hb. unfold get_stats. rewrite (built_queue_key q Hb).
  do 3 (apply keeps_bind; eapply keeps_mono; [|apply counter_keeps]; intros ? ? _).
  k_call. intros ps Hps.
  eapply keeps_call_bind; [apply may_lose|done|by apply (reply_zcount q None)|]. intros n _.
  apply keeps_bind. eapply keeps_mono; [|by apply count_partitions_keeps]. intros ? ? _.
  k_call. by intros m _.
Qed.

(** ** Deleting and cancelling *)

Lemma delete_keeps h j : keep (fun _ _ => True) h (delete_job_result q j).
Proof. apply keeps_pipe; [apply may_lose| |done]. do 2 (p_next; [done|]). done. Qed.

Lemma cancel_keeps h j : keep (fun _ _ => True) h (cancel_job q j).
Proof.
  k_call. intros o Ho.
  assert (exists p, partition_ok p /\
    (s ← o; partition_from_str s) ≫= (fun p => p) = p) as (p & Hp & ->).
  { eexists. split; [|done]. destruct o as [v|]; [|done].
    destruct (Ho v eq_refl) as (d & Hd & Hpok). simpl. by rewrite (partition_roundtrip _ _ Hd). }
  apply keeps_pipe; [apply may_lose| |done].
  p_next; [by exists p|]. do 2 (p_next; [done|]). done.
Qed.
End of_a_call.

(** ** The operations *)

Ltac not_in := intros; rewrite ?elem_of_cons; intros Hin; destruct_or?; try done; by apply elem_of_nil in Hin.

Lemma enqueue_disciplined q p x prio dl :
  disciplined q (RqEnqueue p x prio dl) (valued VId (enqueue_job_in q p x prio dl)).
Proof.
  apply valued_disciplined. unfold enqueue_job_in.
  k_lift. { intros e He. right. left. unfold normalize in He.
    destruct p as [n|]; [|done]. exists n. unfold validate_partition in He.
    destruct (negb _); simpl in He; [congruence|]. by case_decide. }
  intros p' (Hp' & _)%normalize_Ok.
  k_ev. { intros j. apply not_elem_of_nil. } intros j. k_ev. intros t1. k_ev. intros t2.
  set (d := {| desc_params := x; submitted_at := t1; deadline := (t2 + dl)%Z; desc_partition := p' |}).
  k_lift. { intros e. destruct (desc_to_string d); [done|]. intros [= <-]. right. by right. }
  intros v Hv. destruct (desc_to_string d) as [v'|] eqn:Hd; [|done]. injection Hv as ->.
  apply keeps_bind, keeps_pipe; [apply may_lose| |].
  - p_next. { left. exists j. split; [done|]. by exists d. }
    destruct p' as [n|].
    + p_next; [by split|]. p_next; [|by p_next].
      exists j, (Some n), prio. split_and!; try done. split; [set_solver|not_in].
    + p_next; [|by p_next].
      exists j, None, prio. split_and!; try done. split; [set_solver|not_in].
  - intros h' Hext Hsent. split; [eapply extends_elem; [exact Hext|set_solver]|].
    exists p'. rewrite Forall_forall in Hsent.
    apply (Hsent (Any (ZADD (pending_key q p') (id_to_string j) (priority_code prio)))).
    destruct p'; set_solver.
Qed.

Lemma cancel_disciplined q j :
  disciplined q (RqCancel j) (valued (fun _ => VUnit) (cancel_job q j)).
Proof. apply valued_disciplined, cancel_keeps. Qed.

Lemma claim_loop_keeps q p w fuel h part start remaining_time :
  partition_ok part ->
  keeps q (RqClaim p w) (may_fail (RqClaim p w))
    (fun h r => match r with
                | Some (j, prio, _) =>
                    Occ (Redis (ZPOPMIN (pending_key q part)))
                      (Ok (Some (id_to_string j, priority_code prio))) ∈ h
                | None => True
                end) h
    (claim_loop fuel q (pending_key q part) start remaining_time).
Proof.
  intros Hp. revert h remaining_time. induction fuel as [|fuel IH]; intros h remaining_time; [done|].
  cbn [claim_loop]. k_call; [by exists part|]. intros [[m sc]|] Hv.
  - destruct (Hv _ eq_refl) as (j & prio & Hm & Hsc). simpl in Hm, Hsc. subst m sc.
    k_lift; unfold id_from_redis_value; rewrite id_parse_to_string; [done|]. intros ? [= <-].
    k_lift; [by destruct prio|]. intros prio' Hprio'.
    assert (prio' = prio) as -> by (destruct prio; simpl in Hprio'; congruence).
    eapply get_text_bind; [apply reply_get_job|right; by right|]. intros v (d & Hd & _).
    k_lift; rewrite (desc_roundtrip _ _ Hd); [done|]. intros ? [= <-].
    k_ev. intros t. destruct (deadline d <? t)%Z; [|apply keeps_ret; set_solver].
    apply keeps_bind. eapply keeps_mono; [|apply cancel_keeps]. intros h2 [] _. apply IH.
  - k_ev. intros r. destruct r; [done|..]; k_ev; intros t; case_match; try done; apply IH.
Qed.

Lemma normalize_error q p e : normalize (pending q) p = Err e -> exists n, e = InvalidPartition n.
Proof.
  unfold normalize, validate_partition. destruct p as [n|]; [|done].
  destruct (negb _); simpl; [|by case_decide]. intros [= <-]. by exists n.
Qed.

Lemma claim_disciplined q fuel p w :
  disciplined q (RqClaim p w) (valued VJob (claim_job_in fuel q p w)).
Proof.
  apply valued_disciplined. unfold claim_job_in.
  k_lift. { intros e He%normalize_error. right. by left. }
  intros part (Hpart & _)%normalize_Ok. k_ev. intros []. k_ev. intros start.
  apply keeps_bind. eapply keeps_mono; [|by apply claim_loop_keeps].
  intros h [[[j prio] x]|] Hpop; [|done]. k_ev. intros t.
  set (c := in_partition (claim_new w j prio t) part).
  eapply keeps_call_bind; [apply may_lose| |apply reply_hset|].
  - exists c. split_and!; try done. split; [done|]. set_solver.
  - intros [] _. exists part, prio, t. set_solver.
Qed.

Lemma reclaim_disciplined q j w :
  disciplined q (RqReclaim j w) (valued (fun _ => VUnit) (reclaim_job q j w)).
Proof.
  apply valued_disciplined. unfold reclaim_job. k_call. intros o Ho.
  destruct (claim_reply _ o Ho) as (c & Hc & Hco).
  k_lift; rewrite Hc; [done|]. intros ? [= <-].
  destruct c as [c|]; [|right; by left]. destruct Hco as (-> & Hj%(inj id_to_string) & Hp).
  k_ev. intros t. k_lift.
  - intros e. unfold refresh. destruct (negb _); intros [= <-]. right. right. by eexists.
  - intros c'. unfold refresh. destruct (negb _) eqn:Hw; intros [= <-].
    apply negb_false_iff in Hw. unfold str_eqb in Hw. apply bool_decide_eq_true in Hw. subst j w.
    eapply keeps_call; [apply may_lose| |apply reply_hset|done].
    exists {| claim_job_id := claim_job_id c; claim_priority := claim_priority c;
              claim_worker_id := claim_worker_id c; claim_time := t;
              claim_partition := claim_partition c |}.
    split_and!; try done. split; [done|]. split; [done|].
    exists (claim_time c). simpl. destruct c. set_solver.
Qed.

Lemma verdict_is_resolved (rc : option (ResolveCallback P R)) d r st st' b :
  is_resolved st = true ->
  match rc with
  | None => (false, st)
  | Some callback =>
      match callback d r with Ok processed => (processed, st) | Err _ => (true, InternalError) end
  end = (b, st') -> is_resolved st' = true.
Proof. intros Hst. destruct rc as [cb|]; [destruct (cb d r)|]; intros [= <- <-]; done. Qed.

Lemma resolve_disciplined q w j st res :
  disciplined q (RqResolve w j st res) (valued (fun _ => VUnit) (resolve_job q w j st res)).
Proof.
  apply valued_disciplined. unfold resolve_job.
  destruct (is_resolved st) eqn:Hst; simpl negb; cbv iota; cycle 1.
  { apply keeps_err. right. left. by eexists. }
  k_call. intros o Ho. destruct (claim_reply _ o Ho) as (c & Hc & Hco).
  k_lift; rewrite Hc; [done|]. intros ? [= <-].
  destruct c as [c|]; [|right; right; by left].
  destruct (negb _); [right; right; right; by left|].
  eapply get_text_bind; [apply reply_get_job|right; do 3 right; by left|].
  intros v (d & Hd & _). k_lift; rewrite (desc_roundtrip _ _ Hd); [done|]. intros ? [= <-].
  k_call; [done|]. intros [] _.
  destruct (match result_callback q with None => _ | _ => _ end) as [cleanup st'] eqn:Hv.
  apply verdict_is_resolved in Hv; [|done].
  apply keeps_bind, keeps_pipe; [apply may_lose| |].
  - p_next. { right. exists j. split; [done|]. eexists. by split. }
    p_next. { exists j. split; [done|]. by exists st'. }
    split; [by eexists|]. split; [|intros ?; by p_next].
    intros s e Hs He. right. do 4 right. f_equal.
    destruct (typed_stat q s (default [] (as_stat_name st')) Hs) as (o' & Ho' & _).
    simpl in He. rewrite Ho' in He. destruct (parse_i64 _); [|by injection He].
    destruct (in_i64 _); [done|by injection He].
  - intros h' _ _. destruct cleanup; [|done].
    apply keeps_pipe; [apply may_lose| |done]. do 2 (p_next; [done|]). done.
Qed.

(** ** Rounds of the reclaim checker *)

(** The expired claims that a round's listing and clock justify. *)
Definition listed_at h q (entries : list (str * str)) t : Prop :=
  Occ (Redis (HGETALL (claims_key q))) (Ok entries) ∈ h /\ Occ UtcNow t ∈ h.

Lemma listed_extends h h' q entries t :
  extends h h' -> listed_at h q entries t -> listed_at h' q entries t.
Proof. intros Hext [H1 H2]. split; by eapply extends_elem. Qed.

Lemma reinsert_follows q h c entries t :
  partition_ok (claim_partition c) -> listed_at h q entries t ->
  (id_to_string (claim_job_id c), claim_to_string c) ∈ entries ->
  claim_expired (reclaim_timeout q) t c = true ->
  follows q RqReclaimRound (fun h' _ => extends h h') h (reinsert q c).
Proof.
  intros Hp [Hl Ht] Hin Hexp. unfold reinsert. apply follows_bind.
  apply (follows_mono _ _ (fun h' _ => extends h h' /\ True)); [by intros h' r [Hr _]|].
  apply (follows_extends q RqReclaimRound (fun _ _ => True)).
  eapply follows_mono; [|apply (keeps_pipe q RqReclaimRound (fun _ => True) I (fun _ _ => True))];
    [intros h' r _; exact I| |done].
  p_next.
  - exists (claim_job_id c), (claim_partition c), (claim_priority c). split_and!; try done.
    exists entries, t, c. by split_and!.
  - do 3 (p_next; [done|]). done.
Qed.

Lemma reinsert_expired_follows q h cs entries t :
  listed_at h q entries t ->
  (forall c, c ∈ cs -> (id_to_string (claim_job_id c), claim_to_string c) ∈ entries /\
     partition_ok (claim_partition c)) ->
  follows q RqReclaimRound (fun _ _ => True) h (reinsert_expired q t cs).
Proof.
  revert h. induction cs as [|c cs IH]; intros h Hl Hcs; [done|]. cbn [reinsert_expired].
  destruct (Hcs c ltac:(by left)) as [Hin Hp].
  destruct (claim_expired (reclaim_timeout q) t c) eqn:Hexp.
  - apply follows_bind. eapply follows_mono; [|by eapply reinsert_follows].
    intros h' [] Hext. apply IH; [by eapply listed_extends|]. intros c' Hc'. apply Hcs. by right.
  - apply IH; [done|]. intros c' Hc'. apply Hcs. by right.
Qed.

Lemma round_disciplined q :
  disciplined q RqReclaimRound (prog_bind (fun _ => Ret (Ok VUnit)) (reclaim_checker_round q)).
Proof.
  apply follows_bind. split; [done|]. intros r [->|(s & Hs & ->)]; [done|].
  destruct (reply_hgetall q s Hs) as (entries & -> & Hent).
  destruct (mapM _ entries) as [[|c0 cs0]|] eqn:Hm; [done| |done].
  split; [done|]. intros t _. eapply (follows_mono _ _ (fun _ _ => True)); [done|].
  apply (reinsert_expired_follows _ _ _ entries); [split; set_solver|].
  intros c Hc. apply mapM_Some_1 in Hm. apply list_elem_of_lookup in Hc as [i Hi].
  destruct (Forall2_lookup_r _ _ _ _ _ Hm Hi) as ([f v] & He & Hv).
  apply list_elem_of_lookup_2 in He. destruct (Hent _ _ He) as (c' & -> & -> & Hp).
  simpl in Hv. rewrite claim_roundtrip in Hv. by simplify_eq.
Qed.

(** ** The other operations *)

Lemma delete_disciplined q j :
  disciplined q (RqDeleteResult j) (valued (fun _ => VUnit) (delete_job_result q j)).
Proof. apply valued_disciplined, delete_keeps. Qed.

Lemma result_disciplined q j : disciplined q (RqResult j) (valued VResult (get_job_result q j)).
Proof.
  apply valued_disciplined. unfold get_job_result.
  eapply get_text_bind; [apply reply_get_result|by right|]. intros v (r & -> & _).
  k_lift; rewrite result_roundtrip; [done|]. by intros ? [= <-].
Qed.

Lemma status_disciplined q j : disciplined q (RqStatus j) (valued VStatus (get_job_status q j)).
Proof. apply valued_disciplined, status_keeps. Qed.

Lemma resolved_disciplined q j :
  disciplined q (RqResolvedStatus j) (valued VStatus (get_resolved_status q j)).
Proof. apply valued_disciplined, resolved_status_keeps. Qed.

Lemma stats_disciplined q : built q -> disciplined q RqStats (valued VStats (get_stats q)).
Proof. intros Hb. by apply valued_disciplined, stats_keeps. Qed.

Lemma wait_loop_keeps q j timeout fuel h ch start remaining_time :
  keeps q (RqWait j timeout) (may_fail (RqWait j timeout)) (fun _ _ => True) h
    (wait_loop fuel ch start remaining_time).
Proof.
  assert (forall msg, may_fail (RqWait j timeout) (Other msg)) as Hother.
  { intros msg. right. right. by exists msg. }
  revert h remaining_time. induction fuel as [|fuel IH]; intros h remaining_time; [done|].
  cbn [wait_loop]. k_ev. intros r. destruct r as [| |m]; [done|apply Hother|].
  k_ev. intros t. case_match; [|done].
  destruct (kind m), (push_data m) as [|[[ch'|]|] data]; try apply IH.
  destruct (negb _); [apply IH|].
  destruct data as [|[raw|] data]; try apply IH.
  case_match; [done|]. k_ev. done.
Qed.

Lemma wait_disciplined q fuel j timeout :
  disciplined q (RqWait j timeout) (valued VStatus (wait_for_job fuel q j timeout)).
Proof.
  apply valued_disciplined. unfold wait_for_job.
  eapply (keeps_mono _ _ _ (fun _ _ => True)); [done|].
  apply keeps_bind. eapply keeps_mono; [|apply status_keeps]. intros h1 [st|] _; cycle 1.
  - apply keeps_bind. eapply keeps_mono; [|apply resolved_status_keeps]. intros h2 [st|] _; [done|].
    right. by left.
  - k_ev. intros start. k_ev. intros [].
    k_call. intros o Ho. destruct (result_reply o Ho) as (r & Hr).
    k_lift; rewrite Hr; [done|]. intros ? [= <-]. destruct r as [r|]; [by k_ev|].
    apply keeps_bind. eapply keeps_mono; [|apply resolved_status_keeps]. intros h2 [st'|] _; [by k_ev|].
    apply keeps_bind. eapply keeps_mono; [|apply wait_loop_keeps]. intros h3 [z|ret] _; [|done].
    k_ev. intros []. k_lift; [|done]. intros e. unfold status_try_from.
    repeat (case_match; [done|]). intros [= <-]. right. right. by eexists.
Qed.

Lemma orphan_keeps q h k :
  keeps q RqOrphans (may_fail (RqOrphans (P := P) (R := R))) (fun _ _ => True) h
    (process_orphan q k).
Proof.
  assert (forall e, may_fail (RqOrphans (P := P) (R := R)) (RedisError e)) as He.
  { intros e. right. by exists e. }
  unfold process_orphan. destruct (result_key_job k) as [j|]; [|done].
  destruct (result_callback q) as [cb|]; [|apply delete_keeps].
  k_call. intros [v|] Hv; [|apply delete_keeps]. destruct (Hv v eq_refl) as (d & Hd & _).
  k_lift; rewrite (desc_roundtrip _ _ Hd); [done|]. intros ? [= <-].
  apply keeps_bind. unfold get_text. apply keeps_bind. split; [done|]. intros r _.
  destruct r as [[x|]|e]; simpl; [|apply He..].
  k_lift. { intros e. unfold result_from_redis_value. destruct (result_from_str x); [done|].
    intros [= <-]. apply He. }
  intros res _. apply follows_bind. unfold orphan_task.
  destruct (cb d res) as [[|]|e]; [|done..].
  apply (follows_mono _ _ (fun _ r => match r with Ok _ => True | Err _ => True end)); [done|].
  change (keeps q RqOrphans (fun _ => True) (fun _ _ => True) (Occ (Redis (GET k)) (Ok (Some x)) ::
    Occ (Redis (GET (get_job_key q j))) (Ok (Some v)) :: h)
    (_ ← call (DEL (get_job_key q j)); call (DEL k))).
  eapply keeps_call_bind; [exact I|exact I|apply reply_del|]. intros a _.
  by eapply keeps_call; [exact I|exact I|apply reply_del|].
Qed.

Lemma orphans_disciplined q :
  disciplined q RqOrphans (valued (fun _ => VUnit) (process_orphaned_job_results q)).
Proof.
  apply valued_disciplined. unfold process_orphaned_job_results. k_call. intros ks _.
  generalize (Occ (Redis (KEYS_STAR (results_key q ++ lit ":"))) (Ok ks) :: []). 
  induction ks as [|k ks IH]; intros h; [done|]. cbn [process_orphans].
  apply keeps_bind. eapply keeps_mono; [|apply orphan_keeps]. intros h' [] _. apply IH.
Qed.

Lemma request_disciplined q fuel rq : built q -> disciplined q rq (request_prog fuel q rq).
Proof.
  intros Hb. destruct rq.
  - apply enqueue_disciplined.
  - apply cancel_disciplined.
  - apply claim_disciplined.
  - apply reclaim_disciplined.
  - apply resolve_disciplined.
  - apply round_disciplined.
  - apply orphans_disciplined.
  - apply delete_disciplined.
  - apply result_disciplined.
  - apply status_disciplined.
  - apply resolved_disciplined.
  - apply wait_disciplined.
  - by apply stats_disciplined.
Qed.
End disciplined.
