(* ===== verification/WqRuns.v ===== *)
(** * What holds in every interleaving

    The invariant of runs ([disciplined_run]): the server's keys keep their types and every thread
    is part way through a program that follows its call's discipline.  Over it, the pending
    jobs are counted: what was taken out of the sorted sets never exceeds what was put in, and
    what was put in comes from the job's enqueuing, once, and from rounds of the reclaim checker
    that had listed an expired claim of the job. *)

From S2P Require Import Prelude Ord RustStd Redis WqCore WqProg Wq WqSpec WqConc WqDiscipline.
From S2P Require Import WqDisciplined.

(** ** Counting members of sorted sets *)

Section pending_count.
Implicit Types (m k : str) (d : gmap str rvalue) (s : rstate).

Definition holds_member m (v : rvalue) : bool :=
  match v with RZset z => bool_decide (is_Some (z !! m)) | _ => false end.

(** The keys of the sorted sets that have [m]. *)
Definition pend_keys m d : gset str := dom (filter (fun e => holds_member m e.2 = true) d).

Lemma elem_of_pend_keys m d k :
  k ∈ pend_keys m d <-> exists z, d !! k = Some (RZset z) /\ is_Some (z !! m).
Proof.
  unfold pend_keys. rewrite elem_of_dom. split.
  - intros [v [Hv Hm]%map_lookup_filter_Some]. simpl in Hm. destruct v; try done.
    simpl in Hm. apply bool_decide_eq_true in Hm. eauto.
  - intros (z & Hz & Hm). exists (RZset z). apply map_lookup_filter_Some. split; [done|].
    simpl. by apply bool_decide_eq_true.
Qed.

(** The member a command adds, and the one its reply says it took out. *)
Definition command_adds m {A} (c : rcmd A) : bool :=
  match c with ZADD _ m' _ => bool_decide (m' = m) | _ => false end.
Definition command_pops m {A} (c : rcmd A) (r : result rerror A) : bool :=
  match c in rcmd A return result rerror A -> bool with
  | ZPOPMIN _ => fun r => match r with Ok (Some (m', _)) => bool_decide (m' = m) | _ => false end
  | _ => fun _ => false
  end r.

Lemma read_zset_pend m d k z :
  read_zset d k = Ok z -> k ∈ pend_keys m d <-> is_Some (z !! m).
Proof.
  rewrite elem_of_pend_keys. unfold read_zset. destruct (d !! k) as [[]|] eqn:E;
    intros Hz; simplify_eq.
  - split; [intros (z' & Hz' & ?); by simplify_eq|eauto].
  - rewrite lookup_empty. split; [by intros (z' & ? & _)|by intros [? ?]].
Qed.

Lemma pend_write_zset m d k z :
  pend_keys m (write_zset d k z) ⊆ pend_keys m d ∖ {[k]} ∪
    (if bool_decide (is_Some (z !! m)) then {[k]} else ∅).
Proof.
  intros k' (z' & Hz' & Hm)%elem_of_pend_keys. destruct (decide (k' = k)) as [->|Hne].
  - unfold write_zset in Hz'. case_decide; [by rewrite lookup_delete_eq in Hz'|].
    rewrite lookup_insert_eq in Hz'. injection Hz' as ->. rewrite bool_decide_eq_true_2 by done.
    set_solver.
  - rewrite write_zset_ne in Hz' by done. apply elem_of_union. left.
    apply elem_of_difference. split; [|set_solver]. apply elem_of_pend_keys. eauto.
Qed.

Lemma pend_overwrite m d k v :
  (forall z, v <> RZset z) -> pend_keys m (<[k := v]> d) ⊆ pend_keys m d.
Proof.
  intros Hv k' (z & Hz & Hm)%elem_of_pend_keys. apply elem_of_pend_keys. exists z.
  split; [|done]. apply lookup_insert_Some in Hz as [[_ ?]|[_ Hz]]; [by destruct (Hv z)|done].
Qed.

Lemma pend_delete m d k : pend_keys m (delete k d) ⊆ pend_keys m d.
Proof.
  intros k' (z & [_ Hz]%lookup_delete_Some & Hm)%elem_of_pend_keys.
  apply elem_of_pend_keys. eauto.
Qed.

Lemma pend_write_hash m d k h : pend_keys m (write_hash d k h) ⊆ pend_keys m d.
Proof. unfold write_hash. case_decide; [apply pend_delete|by apply pend_overwrite]. Qed.

Definition count (b : bool) : nat := if b then 1 else 0.

Lemma pend_zrem m d k m' z :
  read_zset d k = Ok z -> pend_keys m (write_zset d k (delete m' z)) ⊆ pend_keys m d.
Proof.
  intros Hz k' Hk'%pend_write_zset. apply elem_of_union in Hk' as [Hk'|Hk']; [set_solver|].
  case_bool_decide as Hm; [|set_solver]. apply elem_of_singleton in Hk' as ->.
  apply (read_zset_pend m d k z Hz). destruct Hm as [sc [_ Hsc]%lookup_delete_Some]. eauto.
Qed.

Lemma pend_zpop m d k z sc :
  read_zset d k = Ok z -> z !! m = Some sc ->
  (1 + size (pend_keys m (write_zset d k (delete m z))) <= size (pend_keys m d))%nat.
Proof.
  intros Hz Hm.
  assert (k ∈ pend_keys m d) as Hk by (apply (read_zset_pend m d k z Hz); eauto).
  assert (pend_keys m (write_zset d k (delete m z)) ⊆ pend_keys m d ∖ {[k]}) as Hsub.
  { intros k' Hk'%pend_write_zset. rewrite lookup_delete_eq in Hk'. set_solver. }
  apply subseteq_size in Hsub.
  rewrite (size_difference (pend_keys m d) {[k]}), size_singleton in Hsub by set_solver.
  assert (size (pend_keys m d) <> 0)%nat by (apply size_non_empty_iff; set_solver). lia.
Qed.

Lemma pend_zadd m d k m' sc z :
  read_zset d k = Ok z ->
  (size (pend_keys m (write_zset d k (<[m' := sc]> z))) <=
   size (pend_keys m d) + count (bool_decide (m' = m)))%nat.
Proof.
  intros Hz. case_bool_decide as Hm; cbn [count].
  - assert (pend_keys m (write_zset d k (<[m' := sc]> z)) ⊆ {[k]} ∪ pend_keys m d) as Hsub.
    { intros k' Hk'%pend_write_zset. apply elem_of_union in Hk' as [Hk'|Hk']; [set_solver|].
      case_bool_decide; set_solver. }
    apply subseteq_size in Hsub. rewrite size_union_alt, size_singleton in Hsub.
    assert (size (pend_keys m d ∖ {[k]}) <= size (pend_keys m d))%nat
      by (apply subseteq_size; set_solver). lia.
  - rewrite Nat.add_0_r. apply subseteq_size. intros k' Hk'%pend_write_zset.
    rewrite lookup_insert_ne in Hk' by done.
    apply elem_of_union in Hk' as [Hk'|Hk']; [set_solver|].
    case_bool_decide as Hz'; [|set_solver]. apply elem_of_singleton in Hk' as ->.
    by apply (read_zset_pend m d k z Hz).
Qed.

Lemma zpopmin_count m k s r :
  r = (redis_doc (ZPOPMIN k) s).1 \/ r = Err Transport ->
  (count (command_pops m (ZPOPMIN k) r) + size (pend_keys m (data (redis_doc (ZPOPMIN k) s).2)) <=
  size (pend_keys m (data s)))%nat.
Proof.
  intros Hr. cbn [redis_doc command_pops] in *. unfold reading in *.
  destruct (read_zset (data s) k) as [z|e] eqn:Hz; cbn [fst snd data] in *.
  2: by destruct Hr as [-> | ->].
  destruct (zset_min (map_to_list z)) as [[m' sc]|] eqn:E; cbn [fst snd data] in *.
  2: by destruct Hr as [-> | ->].
  destruct Hr as [-> | ->]; cbn [count]; [case_bool_decide as Hm; cbn [count]|];
    [subst; by eapply pend_zpop; [|apply zpop_deletes]|apply subseteq_size; by apply pend_zrem..].
Qed.

(** Members taken out of the sorted sets were in them. *)
Lemma command_count m {A} (c : rcmd A) s r :
  r = (redis_doc c s).1 \/ r = Err Transport ->
  (count (command_pops m c r) + size (pend_keys m (data (redis_doc c s).2)) <=
  size (pend_keys m (data s)) + count (command_adds m c))%nat.
Proof.
  intros Hr. destruct c; try (rewrite Nat.add_0_r; by apply zpopmin_count);
    cbn [command_pops command_adds count redis_doc data snd fst] in *;
    rewrite ?Nat.add_0_r, ?Nat.add_0_l; clear Hr;
    try (unfold reading; case_match; cbn [data snd fst]);
    try (apply subseteq_size; (done || apply pend_delete || apply pend_write_hash ||
      by apply pend_overwrite || by apply pend_zrem)).
  - case_match; [|done]. case_match; [|done]. apply subseteq_size. by apply pend_overwrite.
  - by apply pend_zadd.
  - lia.
Qed.
End pending_count.

(** ** Runs *)

Section runs.
Context `{JobIds} {P R : Type} `{!Codecs P R} {St : Type} `{!RedisServer St}.
Implicit Types (q : WorkQueue P R) (j : JobId) (rq : request P R) (C : config P R St)
  (h : list (entry P R)).

(** A call's end, as [disciplined] states it. *)
Definition ends_well q rq (o : list occurrence) (r : result WorkQueueError (value P R)) : Prop :=
  match r with Ok a => backed q rq o a | Err e => may_fail rq e end.

Lemma own_cons t en h :
  own t (en :: h) = if decide (by_thread en = t) then what en :: own t h else own t h.
Proof. unfold own. simpl. by case_decide. Qed.

Lemma own_elem t o h : o ∈ own t h <-> exists rq, Entry t rq o ∈ h.
Proof.
  unfold own. rewrite list_elem_of_omap. split.
  - intros ([t' rq o'] & Hin & Heq). simpl in Heq. case_decide; simplify_eq. eauto.
  - intros (rq & Hin). eexists. split; [exact Hin|]. simpl. by rewrite decide_True.
Qed.

(** Each event of the history was allowed when it was performed. *)
Definition history_allowed q h : Prop :=
  forall h2 en h1, h = h2 ++ en :: h1 ->
    match what en with Occ e x => allowed q (for_call en) (own (by_thread en) h1) e end.

Record run_inv q h C : Prop := {
  inv_typed : typed q (view (c_srv C));
  inv_threads : forall t rq p, c_threads C !! t = Some (Thread rq p) ->
    follows q rq (ends_well q rq) (own t h) p;
  inv_calls : forall en, en ∈ h ->
    exists p, c_threads C !! by_thread en = Some (Thread (for_call en) p);
  inv_allowed : history_allowed q h;
}.

Lemma performs_typed q rq X (e : ev X) C x C' o :
  built q -> allowed q rq o e -> performs e C x C' -> typed q (view (c_srv C)) ->
  typed q (view (c_srv C')) /\ plausible q e x /\ c_threads C' = c_threads C.
Proof.
  intros Hb Hal Hp Ht. destruct e; simpl in Hal, Hp |- *; try (by destruct Hp as [_ ->]);
    try (by subst C').
  pose proof (exec_documented _ c (c_srv C)) as Hd.
  assert (typed q (redis_doc c (view (c_srv C))).2) as Ht' by by eapply allowed_typed.
  destruct (exec c (c_srv C)) as [r s]. simpl in Hd. rewrite <- Hd in Ht'. simpl in Ht'.
  destruct Hp as [[-> ->]|[-> [-> | ->]]]; simpl; split_and!; try done.
  - right. exists (view (c_srv C)). by rewrite <- Hd.
  - by left.
  - by left.
Qed.

Lemma own_fresh q h C t : run_inv q h C -> c_threads C !! t = None -> own t h = [].
Proof.
  intros Hi Ht. destruct (own t h) as [|o l] eqn:E; [done|].
  assert (o ∈ own t h) as [rq Hin]%own_elem by (rewrite E; by left).
  destruct (inv_calls _ _ _ Hi _ Hin) as [p Hp]. simpl in Hp. congruence.
Qed.

(** Steps that perform no event and replace one thread. *)
Lemma run_inv_replace q h C t rq p :
  run_inv q h C -> follows q rq (ends_well q rq) (own t h) p ->
  (forall rq0 p0, c_threads C !! t = Some (Thread rq0 p0) -> rq0 = rq) ->
  run_inv q h (set_thread C t (Thread rq p)).
Proof.
  intros [Hty Hth Hca Hal] Hp Hrq. split; simpl; [done| | |done].
  - intros t' rq' p' [[<- [= <- <-]]|[_ Ht']]%lookup_insert_Some; [done|by apply Hth].
  - intros en Hen. destruct (Hca en Hen) as [p0 Hp0].
    destruct (decide (t = by_thread en)) as [->|Hne].
    + rewrite lookup_insert_eq. rewrite (Hrq _ _ Hp0). eauto.
    + rewrite lookup_insert_ne by done. eauto.
Qed.

Lemma step_inv q h C o C' :
  built q -> run_inv q h C -> step q C o C' -> run_inv q (option_list o ++ h) C'.
Proof.
  intros Hb Hi Hs. destruct Hs as [C t rq X e k x C' Ht Hp|C t fuel rq Ht|C t rq p Ht|C now Hnow].
  - destruct Hi as [Hty Hth Hca Hal]. destruct (Hth _ _ _ Ht) as [Hev Hk].
    destruct (performs_typed q rq X e C x C' _ Hb Hev Hp Hty) as (Hty' & Hpl & Hsame).
    simpl. split; simpl; [done| | |].
    + intros t' rq' p' [[<- [= <- <-]]|[Hne Ht']]%lookup_insert_Some.
      * rewrite own_cons. simpl. rewrite decide_True by done. by apply Hk.
      * rewrite own_cons. simpl. rewrite decide_False by done. apply Hth. by rewrite <- Hsame.
    + intros en [->|Hen]%elem_of_cons; simpl; [rewrite lookup_insert_eq; eauto|].
      destruct (Hca en Hen) as [p0 Hp0]. rewrite Hsame.
      destruct (decide (t = by_thread en)) as [->|Hne]; [|rewrite lookup_insert_ne by done; eauto].
      rewrite lookup_insert_eq. rewrite Hp0 in Ht. injection Ht as -> _. eauto.
    + intros [|en' h2] en h1 Heq; simplify_list_eq; [exact Hev|]. by apply (Hal h2 en h1).
  - simpl. apply run_inv_replace; [done| |congruence]. rewrite (own_fresh q h C t Hi Ht).
    exact (request_disciplined q fuel rq Hb).
  - simpl. apply run_inv_replace; [done|done|]. intros rq0 p0. rewrite Ht. congruence.
  - destruct Hi as [Hty Hth Hca Hal]. by split.
Qed.

Lemma start_inv q s C : typed q (view s) -> starts s C -> run_inv q [] C.
Proof.
  intros Ht [Hs Hth]. split.
  - by rewrite Hs.
  - intros t rq p Hp. by rewrite Hth, lookup_empty in Hp.
  - intros en Hen. by apply elem_of_nil in Hen.
  - intros [|? ?] en h1 Heq; discriminate.
Qed.

Lemma disciplined_run q s C0 h C :
  built q -> typed q (view s) -> starts s C0 -> runs q C0 h C -> run_inv q h C.
Proof.
  intros Hb Ht Hs Hr. induction Hr as [|h C o C' _ IH Hstep]; [by eapply start_inv|].
  by eapply step_inv.
Qed.

(** ** Identifiers are given out once *)

Definition uuids_inv (C0 : config P R St) h C : Prop :=
  (c_uuids C0 <= c_uuids C)%nat /\
  (forall t j, Occ NewUuid j ∈ own t h -> exists n, j = now_v7 n /\ (n < c_uuids C)%nat) /\
  (forall t1 t2 j, Occ NewUuid j ∈ own t1 h -> Occ NewUuid j ∈ own t2 h -> t1 = t2).

Lemma uuid_answer {X} (e : ev X) (x : X) j :
  Occ NewUuid j = Occ e x -> forall C C', performs e C x C' ->
  j = now_v7 (c_uuids C) /\ c_uuids C' = S (c_uuids C).
Proof.
  intros Heq C C' Hp.
  change (match Occ e x with Occ e x => performs e C x C' end) in Hp. rewrite <- Heq in Hp.
  by destruct Hp as [-> ->].
Qed.

Lemma performs_uuids {X} (e : ev X) (x : X) C C' : performs e C x C' -> (c_uuids C <= c_uuids C')%nat.
Proof.
  destruct e; simpl; try (by intros [_ ->]; simpl; lia); try (by intros ->).
  destruct (exec c (c_srv C)). by intros [[_ ->]|[_ [-> | ->]]].
Qed.

Lemma runs_uuids q C0 h C : c_threads C0 = ∅ -> runs q C0 h C -> uuids_inv C0 h C.
Proof.
  intros Hth Hr. induction Hr as [|h C o C' _ (Hle & Hgot & Hinj) Hstep].
  { split_and!; [done|..]; intros *; intros Hin%elem_of_nil; done. }
  destruct Hstep as [C t rq X e k x C' Ht Hp|C t fuel rq Ht|C t rq p Ht|C now Hnow]; [|done..].
  simpl. pose proof (performs_uuids _ _ _ _ Hp) as Hmono.
  assert (forall t' j, Occ NewUuid j ∈ own t' (Entry t rq (Occ e x) :: h) ->
    (t' = t /\ Occ NewUuid j = Occ e x) \/ Occ NewUuid j ∈ own t' h) as Hsplit.
  { intros t' j. rewrite own_cons. simpl. case_decide; [|by right]. subst.
    rewrite elem_of_cons. tauto. }
  split_and!; simpl; [lia| |].
  - intros t' j [[-> Heq]|Hin]%Hsplit.
    + destruct (uuid_answer e x j Heq _ _ Hp) as [-> Hn]. exists (c_uuids C). split; [done|lia].
    + destruct (Hgot _ _ Hin) as (n & -> & Hn). exists n. split; [done|lia].
  - assert (forall t' j, Occ NewUuid j = Occ e x -> Occ NewUuid j ∉ own t' h) as Hnew.
    { intros t' j Heq Hin. destruct (uuid_answer e x j Heq _ _ Hp) as [-> _].
      destruct (Hgot _ _ Hin) as (n & Heqn%now_v7_inj & Hn). lia. }
    intros t1 t2 j [[-> H1]|H1]%Hsplit [[-> H2]|H2]%Hsplit; [done|..].
    + by destruct (Hnew t2 j H1).
    + by destruct (Hnew t1 j H2).
    + by eapply Hinj.
Qed.

(** ** Jobs taken out of the queue and put in it *)

Definition is_enqueue rq : bool := match rq with RqEnqueue _ _ _ _ => true | _ => false end.

Definition adds (m : str) (o : occurrence) : bool :=
  match o with Occ e _ => match e with Redis c => command_adds m c | _ => false end end.
Definition pops (m : str) (o : occurrence) : bool :=
  match o with
  | Occ e x =>
      match e in ev X return X -> bool with
      | Redis c => fun r => command_pops m c r
      | _ => fun _ => false
      end x
  end.

(** How often the history has put [m] in a sorted set, by the calls [by_call] picks, and how
    often it was taken out and handed to who asked. *)
Definition added (by_call : request P R -> bool) (m : str) h : nat :=
  length (List.filter (fun en => by_call (for_call en) && adds m (what en)) h).
Definition handed_out (m : str) h : nat :=
  length (List.filter (fun en => pops m (what en)) h).

Lemma handed_out_cons m en h :
  handed_out m (en :: h) = (count (pops m (what en)) + handed_out m h)%nat.
Proof. unfold handed_out. simpl. by destruct (pops m (what en)). Qed.
Lemma added_cons f m en h :
  added f m (en :: h) = (count (f (for_call en) && adds m (what en)) + added f m h)%nat.
Proof. unfold added. simpl. by destruct (f (for_call en) && adds m (what en)). Qed.

Lemma performs_count {X} (e : ev X) C (x : X) C' m :
  performs e C x C' ->
  (count (pops m (Occ e x)) + size (pend_keys m (data (view (c_srv C')))) <=
   size (pend_keys m (data (view (c_srv C)))) + count (adds m (Occ e x)))%nat.
Proof.
  intros Hp. destruct e; simpl in Hp |- *; try (by destruct Hp as [_ ->]; simpl; lia);
    try (by subst C'; lia).
  pose proof (exec_documented _ c (c_srv C)) as Hd.
  destruct (exec c (c_srv C)) as [r s]. simpl in Hd.
  pose proof (command_count m c (view (c_srv C))) as Hc. rewrite <- Hd in Hc. simpl in Hc.
  destruct Hp as [[-> ->]|[-> [-> | ->]]]; simpl; [apply Hc; by left|apply Hc; by right|].
  replace (command_pops m c (Err Transport)) with false by (by destruct c). simpl. lia.
Qed.

Definition any_call : request P R -> bool := fun _ => true.

Lemma runs_count q C0 h C m :
  data (view (c_srv C0)) = ∅ -> runs q C0 h C ->
  (handed_out m h + size (pend_keys m (data (view (c_srv C)))) <= added any_call m h)%nat.
Proof.
  intros Hd Hr. induction Hr as [|h C o C' _ IH Hstep].
  { unfold handed_out, added. simpl. rewrite Hd. done. }
  destruct Hstep as [C t rq X e k x C' Ht Hp|C t fuel rq Ht|C t rq p Ht|C now Hnow]; [|done..].
  simpl. rewrite handed_out_cons, added_cons. pose proof (performs_count e C x C' m Hp).
  cbn [what for_call set_thread c_srv] in *.
  change (any_call rq && adds m (Occ e x)) with (adds m (Occ e x)). lia.
Qed.

(** What the discipline says about an event that adds a job. *)
Lemma adds_inv q rq o {X} (e : ev X) (x : X) m :
  allowed q rq o e -> adds m (Occ e x) = true ->
  exists j p prio r, m = id_to_string j /\ partition_ok p /\ may_add q rq o j p prio /\
    Occ e x = Occ (Redis (ZADD (pending_key q p) m (priority_code prio))) r.
Proof.
  intros Hal Ha. destruct e; try done. destruct c; try done. simpl in Ha, Hal.
  apply bool_decide_eq_true in Ha. subst.
  destruct Hal as (j & p & prio & -> & Hp & -> & -> & Hm). by exists j, p, prio, x.
Qed.

(** A job is added by its enqueuing at most once. *)
Lemma enqueued_once q s C0 h C j :
  built q -> typed q (view s) -> starts s C0 -> runs q C0 h C ->
  (added is_enqueue (id_to_string j) h <= 1)%nat /\
  (added is_enqueue (id_to_string j) h <> 0%nat -> exists t o,
     o ∈ own t h /\ adds (id_to_string j) o = true /\ Occ NewUuid j ∈ own t h).
Proof.
  intros Hb Hty Hs Hr. induction Hr as [|h C o C' Hr [Hle Hwho] Hstep].
  { unfold added. simpl. split; [lia|done]. }
  pose proof (runs_uuids q C0 h C (proj2 Hs) Hr) as (_ & _ & Hinj).
  pose proof (disciplined_run q s C0 h C Hb Hty Hs Hr) as Hi.
  destruct Hstep as [C t rq X e k x C' Ht Hp|C t fuel rq Ht|C t rq p Ht|C now Hnow]; [|done..].
  simpl. rewrite added_cons. cbn [what for_call].
  destruct (inv_threads _ _ _ Hi _ _ _ Ht) as [Hal _].
  assert (forall t' o, o ∈ own t' h -> o ∈ own t' (Entry t rq (Occ e x) :: h)) as Hgrow.
  { intros t' o Ho. rewrite own_cons. case_decide; [by right|done]. }
  destruct (is_enqueue rq && adds (id_to_string j) (Occ e x)) eqn:Ha; cbn [count]; cycle 1.
  { split; [lia|]. intros Hne. destruct Hwho as (t' & o & Ho & Hao & Hn); [lia|].
    exists t', o. auto. }
  apply andb_true_iff in Ha as [Hrq Ha].
  destruct (adds_inv q rq _ e x _ Hal Ha) as (j' & p & prio & r & Hj%(inj id_to_string) & _ & Hm & _).
  subst j'. destruct rq; try done. destruct Hm as [Hnew Hnone].
  assert (added is_enqueue (id_to_string j) h = 0%nat) as ->.
  { destruct (decide (added is_enqueue (id_to_string j) h = 0%nat)) as [|Hne]; [done|exfalso].
    destruct (Hwho Hne) as (t' & o & Ho & Hao & Hn).
    assert (t' = t) as -> by by eapply Hinj.
    destruct o as [Y e' y]. destruct e'; try done. destruct c; try done.
    by eapply Hnone. }
  split; [lia|]. intros _. exists t, (Occ e x). split_and!; [|done|by apply Hgrow].
  rewrite own_cons. rewrite decide_True by done. by left.
Qed.

Definition is_round rq : bool := match rq with RqReclaimRound => true | _ => false end.

Lemma added_split q h m :
  history_allowed q h -> added any_call m h = (added is_enqueue m h + added is_round m h)%nat.
Proof.
  induction h as [|en h IH]; intros Hal; [done|]. rewrite !added_cons, IH; cycle 1.
  { intros h2 en' h1 ->. by apply (Hal (en :: h2) en' h1). }
  specialize (Hal [] en h eq_refl). destruct en as [t rq [X e x]]. cbn [what for_call] in *.
  change (any_call rq && adds m (Occ e x)) with (adds m (Occ e x)).
  destruct (adds m (Occ e x)) eqn:Ha.
  - destruct (adds_inv q rq _ e x m Hal Ha) as (j & p & prio & r & _ & _ & Hm & _).
    destruct rq; try done; simpl; lia.
  - rewrite !andb_false_r. simpl. lia.
Qed.

(** A round that added a job had listed an expired claim of it. *)
Lemma round_had_expired q h m :
  history_allowed q h -> added is_round m h <> 0%nat ->
  exists t entries now c,
    Occ (Redis (HGETALL (claims_key q))) (Ok entries) ∈ own t h /\ Occ UtcNow now ∈ own t h /\
    (m, claim_to_string c) ∈ entries /\ id_to_string (claim_job_id c) = m /\
    claim_expired (reclaim_timeout q) now c = true.
Proof.
  induction h as [|en h IH]; intros Hal Hne; [done|].
  assert (history_allowed q h) as Hal'.
  { intros h2 en' h1 ->. by apply (Hal (en :: h2) en' h1). }
  rewrite added_cons in Hne. specialize (Hal [] en h eq_refl).
  destruct en as [t rq [X e x]]. cbn [what for_call by_thread] in *.
  assert (forall t' o, o ∈ own t' h -> o ∈ own t' (Entry t rq (Occ e x) :: h)) as Hgrow.
  { intros t' o Ho. rewrite own_cons. case_decide; [by right|done]. }
  destruct (is_round rq && adds m (Occ e x)) eqn:Ha.
  - apply andb_true_iff in Ha as [Hrq Ha].
    destruct (adds_inv q rq _ e x m Hal Ha) as (j & p & prio & r & -> & _ & Hm & _).
    destruct rq; try done. destruct Hm as (entries & now & c & H1 & H2 & H3 & H4 & <- & _).
    exists t, entries, now, c. auto 10.
  - destruct (IH Hal' Hne) as (t' & entries & now & c & H1 & H2 & H3).
    exists t', entries, now, c. auto.
Qed.

(** Two threads that were handed the same member took it out twice. *)
Lemma handed_out_elem m t o h :
  o ∈ own t h -> pops m o = true -> exists h2 en h1,
    h = h2 ++ en :: h1 /\ by_thread en = t /\ what en = o.
Proof.
  intros (rq & Hin)%own_elem _. apply list_elem_of_split in Hin as (h2 & h1 & ->).
  by exists h2, (Entry t rq o), h1.
Qed.

Lemma handed_out_app m h2 h1 : handed_out m (h2 ++ h1) = (handed_out m h2 + handed_out m h1)%nat.
Proof. unfold handed_out. by rewrite List.filter_app, length_app. Qed.

Lemma handed_out_twice h m t1 t2 o1 o2 :
  t1 <> t2 -> o1 ∈ own t1 h -> o2 ∈ own t2 h -> pops m o1 = true -> pops m o2 = true ->
  (2 <= handed_out m h)%nat.
Proof.
  intros Hne H1 H2 Hp1 Hp2.
  destruct (handed_out_elem m t1 o1 h H1 Hp1) as (h2 & en & h1 & -> & Ht & Ho).
  apply own_elem in H2 as (rq & Hin).
  rewrite handed_out_app, handed_out_cons, Ho, Hp1. cbn [count].
  assert (forall l, Entry t2 rq o2 ∈ l -> (1 <= handed_out m l)%nat) as Hone.
  { intros l (l2 & l1 & ->)%list_elem_of_split. rewrite handed_out_app, handed_out_cons.
    cbn [what]. rewrite Hp2. cbn [count]. lia. }
  apply elem_of_app in Hin as [Hin%Hone|Hin]; [lia|].
  apply elem_of_cons in Hin as [Heq|Hin%Hone]; [|lia]. subst en. simpl in Ht. congruence.
Qed.
End runs.

(** ** Who holds a job, in every interleaving

    A stored claim names the worker of a call of [claim_job] that took the job out of the queue:
    refreshing a claim changes its time only. *)

(** ** Fields of hashes *)

Section fields.
Implicit Types (k f v : str) (s : rstate).

Definition sets_field k f v {A} (c : rcmd A) : bool :=
  match c with
  | HSET k' f' v' => bool_decide (k' = k) && bool_decide (f' = f) && bool_decide (v' = v)
  | _ => false
  end.

Lemma hash_at_write (d : gmap str rvalue) pub k k' h :
  hash_at (RState (write_hash d k' h) pub) k =
  if decide (k = k') then h else hash_at (RState d pub) k.
Proof.
  unfold hash_at. simpl. case_decide as Hk.
  - subst. unfold write_hash. case_decide; by simplify_map_eq.
  - by rewrite write_hash_ne.
Qed.

(** A key with something else than a hash, or nothing, has no fields. *)
Lemma hash_at_other (d d' : gmap str rvalue) pub pub' k k' f v :
  (forall y, y <> k' -> d' !! y = d !! y) -> (forall h, d' !! k' <> Some (RHash h)) ->
  hash_at (RState d' pub') k !! f = Some v -> hash_at (RState d pub) k !! f = Some v.
Proof.
  intros Hne Hk'. unfold hash_at. simpl. destruct (decide (k = k')) as [->|Hk].
  - specialize (Hk'). destruct (d' !! k') as [[]|] eqn:E; rewrite ?lookup_empty; try done.
    by destruct (Hk' h).
  - by rewrite Hne.
Qed.

Lemma read_hash_at s k h : read_hash (data s) k = Ok h -> hash_at s k = h.
Proof. unfold read_hash, hash_at. destruct (data s !! k) as [[]|]; congruence. Qed.

Lemma hash_at_data s pub k : hash_at (RState (data s) pub) k = hash_at s k.
Proof. by destruct s. Qed.

Lemma overwrite_no_hash s k k' f v (x : rvalue) pub :
  (forall h, x <> RHash h) ->
  hash_at (RState (<[k' := x]> (data s)) pub) k !! f = Some v -> hash_at s k !! f = Some v.
Proof.
  intros Hx Hv. rewrite <- (hash_at_data s (published s)).
  eapply (hash_at_other (data s) _ _ _ _ k'); [|..|exact Hv].
  - intros y Hy. by rewrite lookup_insert_ne.
  - intros h. rewrite lookup_insert_eq. intros [= ->]. by destruct (Hx h).
Qed.

Lemma delete_no_hash s k k' f v pub :
  hash_at (RState (delete k' (data s)) pub) k !! f = Some v -> hash_at s k !! f = Some v.
Proof.
  intros Hv. rewrite <- (hash_at_data s (published s)).
  eapply (hash_at_other (data s) _ _ _ _ k'); [|..|exact Hv].
  - intros y Hy. by rewrite lookup_delete_ne.
  - intros h. by rewrite lookup_delete_eq.
Qed.

Lemma write_zset_no_hash s k k' f v z pub :
  hash_at (RState (write_zset (data s) k' z) pub) k !! f = Some v -> hash_at s k !! f = Some v.
Proof.
  unfold write_zset. case_decide; [apply delete_no_hash|by apply overwrite_no_hash].
Qed.

(** A field that a hash has after a command was there before, or the command set it. *)
Lemma field_after {A} (c : rcmd A) s k f v :
  hash_at (redis_doc c s).2 k !! f = Some v ->
  hash_at s k !! f = Some v \/ sets_field k f v c = true.
Proof.
  assert (forall k' x pub, (forall h, x <> RHash h) ->
    hash_at (RState (<[k' := x]> (data s)) pub) k !! f = Some v ->
    hash_at s k !! f = Some v \/ sets_field k f v c = true) as Hover.
  { intros k' x pub Hx Hv. left. by eapply overwrite_no_hash. }
  destruct c; cbn [redis_doc snd sets_field] in *; unfold reading;
    try (case_match eqn:E; cbn [snd]; [|by left]); rewrite ?hash_at_data; try (by left);
    try (by apply Hover); try (intros Hv; left; first
      [by eapply delete_no_hash|by eapply write_zset_no_hash]).
  - case_match; [|by left]. case_match; [|by left]. by apply Hover.
  - rewrite hash_at_write. destruct (decide (k = k0)) as [->|Hk]; [|rewrite hash_at_data; by left].
    intros [[<- <-]|[_ Hv]]%lookup_insert_Some.
    + right. by rewrite !bool_decide_eq_true_2.
    + left. by rewrite (read_hash_at _ _ _ E).
  - rewrite hash_at_write. destruct (decide (k = k0)) as [->|Hk]; [|rewrite hash_at_data; by left].
    intros [_ Hv]%lookup_delete_Some. left. by rewrite (read_hash_at _ _ _ E).
  - destruct (zset_min _) as [[m sc]|]; cbn [snd]; [|rewrite hash_at_data; by left].
    intros Hv. left. by eapply write_zset_no_hash.
Qed.
End fields.

(** ** Holders *)

Section holders.
Context `{JobIds} {P R : Type} `{!Codecs P R} {St : Type} `{!RedisServer St}.
Implicit Types (q : WorkQueue P R) (j : JobId) (rq : request P R) (C : config P R St)
  (h : list (entry P R)).

(** The text is a claim of a worker that was handed the job, from the claim's partition and with
    its priority. *)
Definition handed_to q h (v : str) : Prop :=
  exists c t p,
    v = claim_to_string c /\
    Entry t (RqClaim p (claim_worker_id c))
      (Occ (Redis (ZPOPMIN (pending_key q (claim_partition c))))
        (Ok (Some (id_to_string (claim_job_id c), priority_code (claim_priority c))))) ∈ h.

Definition reads_field k f v (o : occurrence) : bool :=
  match o with
  | Occ e x =>
      match e in ev X return X -> bool with
      | Redis c =>
          match c in rcmd A return result rerror A -> bool with
          | HGET k' f' => fun r =>
              bool_decide (k' = k) && bool_decide (f' = f) &&
              match r with Ok (Some v') => bool_decide (v' = v) | _ => false end
          | _ => fun _ => false
          end
      | _ => fun _ => false
      end x
  end.

Definition holders_inv q h C : Prop :=
  (forall f v, hash_at (view (c_srv C)) (claims_key q) !! f = Some v -> handed_to q h v) /\
  (forall en f v, en ∈ h -> reads_field (claims_key q) f v (what en) = true -> handed_to q h v).

Lemma handed_to_cons q en h v : handed_to q h v -> handed_to q (en :: h) v.
Proof. intros (c & t & p & -> & Hin). exists c, t, p. split; [done|by right]. Qed.

(** The field a reply shows was there. *)
Lemma reads_field_at {X} (e : ev X) C (x : X) C' k f v :
  performs e C x C' -> reads_field k f v (Occ e x) = true ->
  hash_at (view (c_srv C)) k !! f = Some v.
Proof.
  intros Hp Hr. destruct e; try done. destruct c; try done. simpl in Hp, Hr.
  pose proof (exec_documented _ (HGET k0 f0) (c_srv C)) as Hd.
  destruct (exec (HGET k0 f0) (c_srv C)) as [r s]. simpl in Hd.
  destruct Hp as [[-> _]|[-> _]]; [|by rewrite andb_false_r in Hr].
  apply andb_true_iff in Hr as [[<-%bool_decide_eq_true <-%bool_decide_eq_true]%andb_true_iff Hr].
  unfold reading in Hd. destruct (read_hash (data (view (c_srv C))) k0) as [h0|e0] eqn:E.
  - injection Hd as -> _. rewrite (read_hash_at _ _ _ E).
    destruct (h0 !! f0); [|done]. apply bool_decide_eq_true in Hr. congruence.
  - by injection Hd as -> _.
Qed.

Lemma performs_field {X} (e : ev X) C (x : X) C' k f v :
  performs e C x C' -> hash_at (view (c_srv C')) k !! f = Some v ->
  hash_at (view (c_srv C)) k !! f = Some v \/
  match e with Redis c => sets_field k f v c = true | _ => False end.
Proof.
  intros Hp Hv. destruct e; simpl in Hp; try (by destruct Hp as [_ ->]; left);
    try (by subst C'; left).
  pose proof (exec_documented _ c (c_srv C)) as Hd.
  destruct (exec c (c_srv C)) as [r s]. simpl in Hd.
  assert (view s = (redis_doc c (view (c_srv C))).2) as Hs by by rewrite <- Hd.
  destruct Hp as [[_ ->]|[_ [-> | ->]]]; simpl in Hv; [..|by left]; rewrite Hs in Hv;
    by apply field_after.
Qed.

(** A claim that a call may write is of a worker that was handed the job. *)
Lemma may_hold_handed q rq t h c :
  (forall en, en ∈ h -> by_thread en = t -> for_call en = rq) ->
  (forall en f v, en ∈ h -> reads_field (claims_key q) f v (what en) = true -> handed_to q h v) ->
  may_hold q rq (own t h) c -> handed_to q h (claim_to_string c).
Proof.
  intros Hcalls Hreads Hm. destruct rq; try done.
  - destruct Hm as [Hw (rq & Hin)%own_elem]. exists c, t, partition. split; [done|].
    pose proof (Hcalls _ Hin eq_refl) as Hrq. simpl in Hrq. by subst.
  - destruct Hm as (Hw & Hj & tm & (rq & Hin)%own_elem).
    pose proof (fun v => Hreads _ (id_to_string j) v Hin) as Hread.
    cbn [what reads_field] in Hread.
    destruct (Hread _ ltac:(rewrite !bool_decide_eq_true_2 by reflexivity; reflexivity))
      as (c' & t' & p & Hc' & Hin').
    apply (f_equal claim_from_str) in Hc'. rewrite !claim_roundtrip in Hc'.
    injection Hc' as <-. exists c, t', p. split; [done|]. simpl in Hin'. by subst.
Qed.

Lemma runs_holders q s C0 h C :
  built q -> typed q (view s) -> hash_at (view s) (claims_key q) = ∅ -> starts s C0 ->
  runs q C0 h C -> holders_inv q h C.
Proof.
  intros Hb Hty Hempty Hs Hr. induction Hr as [|h C o C' Hr [Hst Hre] Hstep].
  { split; [|intros ? ? ? []%elem_of_nil]. destruct Hs as [-> _]. rewrite Hempty.
    intros f v. by rewrite lookup_empty. }
  pose proof (disciplined_run q s C0 h C Hb Hty Hs Hr) as Hi.
  destruct Hstep as [C t rq X e k x C' Ht Hp|C t fuel rq Ht|C t rq p Ht|C now Hnow]; [|done..].
  destruct (inv_threads _ _ _ Hi _ _ _ Ht) as [Hal _]. simpl. split.
  - intros f v Hv. apply handed_to_cons.
    destruct (performs_field e C x C' _ f v Hp Hv) as [Hold|Hset]; [by eapply Hst|].
    destruct e; try done. destruct c; try done. simpl in Hset, Hal.
    rewrite !andb_true_iff, !bool_decide_eq_true in Hset. destruct Hset as [[-> ->] ->].
    destruct Hal as (c & _ & -> & -> & _ & Hm). eapply may_hold_handed; [|exact Hre|exact Hm].
    intros en Hen <-. destruct (inv_calls _ _ _ Hi en Hen) as [p Hp']. rewrite Hp' in Ht.
    by injection Ht.
  - intros en f v [->|Hen]%elem_of_cons Hread; apply handed_to_cons; [|by eapply Hre].
    eapply Hst, reads_field_at; [exact Hp|exact Hread].
Qed.
End holders.
