(* ===== verification/WqConcProps.v ===== *)
(** * What the work queue guarantees when its operations interleave

    The properties of every run of [WqConc.v], in which any calls of the queue's methods run at
    once, stop half way and lose replies, and runs that show what is not guaranteed. *)

From S2P Require Import Prelude Ord RustStd Redis WqCore Examples WqProg Wq WqSpec WqConc WqDiscipline.
From S2P Require Import WqDisciplined WqRuns.

(** ** Properties *)

Section properties.
Context `{JobIds} {P R : Type} `{!Codecs P R} {St : Type} `{!RedisServer St}.
Implicit Types (q : WorkQueue P R) (j : JobId) (C : config P R St) (h : list (entry P R)).

(** C2: However the calls of the queue's methods interleave, stop half way and lose replies, each of
    the queue's keys holds, at every moment, a value of its type with a content that the queue can
    read: known priorities of well formed identifiers, claims stored under their own job, readable
    descriptions of accepted partitions, final results and statuses, and counters. *)
Theorem keys_typed_always q s C0 h C :
  built q -> typed q (view s) -> starts s C0 -> runs q C0 h C -> typed q (view (c_srv C)).
Proof. intros Hb Ht Hs Hr. by apply (inv_typed q h C), (disciplined_run q s C0). Qed.


(** C5: A job that two calls of [claim_job] returned had been put back: a round of the reclaim
    checker had listed a claim of it that was past its time.  And however the calls interleave, a
    job is handed out at most once more than rounds put it back. *)
Theorem handed_out_again_only_expired q C0 h C j t1 t2 p1 p2 w1 w2 job1 job2 :
  built q -> starts (c_srv C0) C0 -> view (c_srv C0) = RState ∅ [] -> runs q C0 h C ->
  t1 <> t2 ->
  c_threads C !! t1 = Some (Thread (RqClaim p1 w1) (Ret (Ok (VJob (Some job1))))) ->
  c_threads C !! t2 = Some (Thread (RqClaim p2 w2) (Ret (Ok (VJob (Some job2))))) ->
  job_id job1 = j -> job_id job2 = j ->
  (handed_out (id_to_string j) h <= 1 + added is_round (id_to_string j) h)%nat /\
  exists t entries now c,
    Occ (Redis (HGETALL (claims_key q))) (Ok entries) ∈ own t h /\ Occ UtcNow now ∈ own t h /\
    (id_to_string j, claim_to_string c) ∈ entries /\ claim_job_id c = j /\
    claim_expired (reclaim_timeout q) now c = true.
Proof.
  intros Hb Hs Hempty Hr Hne H1 H2 Hj1 Hj2.
  assert (typed q (view (c_srv C0))) as Hty by (rewrite Hempty; apply empty_typed).
  pose proof (disciplined_run q _ C0 h C Hb Hty Hs Hr) as Hi.
  assert (handed_out (id_to_string j) h <= 1 + added is_round (id_to_string j) h)%nat as Hle.
  { pose proof (runs_count q C0 h C (id_to_string j)) as Hc. rewrite Hempty in Hc.
    specialize (Hc eq_refl Hr). rewrite (added_split q h) in Hc by apply (inv_allowed _ _ _ Hi).
    destruct (enqueued_once q _ C0 h C j Hb Hty Hs Hr) as [He _]. lia. }
  split; [done|].
  assert (2 <= handed_out (id_to_string j) h)%nat as Htwo.
  { pose proof (inv_threads _ _ _ Hi _ _ _ H1) as (pa & prio1 & tm1 & Hp1 & _).
    pose proof (inv_threads _ _ _ Hi _ _ _ H2) as (pb & prio2 & tm2 & Hp2 & _).
    rewrite Hj1 in Hp1. rewrite Hj2 in Hp2.
    by apply (handed_out_twice h (id_to_string j) t1 t2 _ _ Hne Hp1 Hp2);
      apply bool_decide_eq_true. }
  destruct (round_had_expired q h (id_to_string j)) as (t & en & now & c & ? & ? & ? & Hc & ?);
    [apply (inv_allowed _ _ _ Hi)|lia|].
  exists t, en, now, c. split_and!; try done. by apply (inj id_to_string).
Qed.

(** C25: However the calls interleave, a stored claim is of a worker that [claim_job] handed the job
    to, taken from the claim's partition and with the claim's priority: nobody becomes a job's
    holder by refreshing, and a refreshed claim keeps its holder. *)
Theorem holders_were_handed_the_job q s C0 h C f v :
  built q -> typed q (view s) -> hash_at (view s) (claims_key q) = ∅ -> starts s C0 ->
  runs q C0 h C -> hash_at (view (c_srv C)) (claims_key q) !! f = Some v -> handed_to q h v.
Proof.
  intros Hb Ht Hempty Hs Hr. by apply (proj1 (runs_holders q s C0 h C Hb Ht Hempty Hs Hr)).
Qed.
End properties.

(** ** What interleaving breaks

    Runs of a queue with a reclaim timeout of 30 ns.  [race_end ms] is where a schedule leads. *)

Section races.
#[local] Existing Instance example_ids.
#[local] Existing Instance example_codecs.

Definition race_built : result WorkQueueError (WorkQueue unit unit) :=
  build (Ok tt) (with_reclaim_timeout 30 (builder_new (lit "q"))).
Definition race_queue : WorkQueue unit unit :=
  match race_built with
  | Ok q => q
  | Err _ =>
      let pk := {| default_key := []; partitions_key := []; partition_prefix := [];
                   default_partition := None |} in
      {| queue_key := []; claims_key := []; results_key := []; resolved_key := [];
         stats_key := []; pending := pk; reclaim_timeout := 0; claim_timeout := 0;
         result_callback := None |}
  end.

Lemma race_queue_built : built race_queue.
Proof. by exists (Ok tt), (with_reclaim_timeout 30 (builder_new (lit "q"))). Qed.

Definition race_start : config unit unit rstate := Config (RState ∅ []) 0 0 ∅.
Definition race_end (ms : list (move unit unit)) : list (entry unit unit) * config unit unit rstate :=
  default ([], race_start) (play race_queue ms ([], race_start)).

Lemma race_runs ms : runs race_queue race_start (race_end ms).1 (race_end ms).2.
Proof.
  unfold race_end. destruct (play race_queue ms ([], race_start)) as [[h C]|] eqn:E.
  - exact (play_runs race_queue race_start ms [] race_start h C (runs_start _ _) E).
  - apply runs_start.
Qed.

(** The first job, and what a run says of it and of a thread. *)
Definition race_job : JobId := 0%nat.
Definition outcome_of (t : nat) (C : config unit unit rstate) : option (result WorkQueueError (value unit unit)) :=
  match c_threads C !! t with Some (Thread _ (Ret r)) => Some r | _ => None end.
Definition pending_now (C : config unit unit rstate) : bool :=
  bool_decide (is_Some (zset_at (c_srv C) (pending_key race_queue None) !! id_to_string race_job)).
Definition claimed_now (C : config unit unit rstate) : bool :=
  bool_decide (is_Some (hash_at (c_srv C) (claims_key race_queue) !! id_to_string race_job)).
Definition described_now (C : config unit unit rstate) : bool :=
  bool_decide (is_Some (string_at (c_srv C) (get_job_key race_queue race_job))).
Definition resolved_now (C : config unit unit rstate) : bool :=
  bool_decide (is_Some (string_at (c_srv C) (get_result_key race_queue race_job))).

(** A job is enqueued and a worker claims it. *)
Definition enqueued_and_claimed : list (move unit unit) :=
  [MCall 1 1 (RqEnqueue None tt Normal 1000); MEvents 1 6;
   MCall 2 1 (RqClaim None (lit "a")); MEvents 2 7].

(** The claim expires.  A round adds the job to the sorted set; before the round goes on, another
    worker claims it; then the round deletes the claim. *)
Definition round_drops_claim : list (move unit unit) :=
  enqueued_and_claimed ++
  [MTick 31; MCall 3 1 RqReclaimRound; MEvents 3 3;
   MCall 4 1 (RqClaim None (lit "b")); MEvents 4 7;
   MEvents 3 3;
   MCall 5 1 (RqResolve (lit "b") race_job Success None); MEvents 5 1].

(** A worker's refresh has read its claim when the job is cancelled, and writes the claim after.
    When that claim expires, a round puts the job back and another worker is given it. *)
Definition refresh_revives : list (move unit unit) :=
  enqueued_and_claimed ++
  [MCall 3 1 (RqReclaim race_job (lit "a")); MEvents 3 2;
   MCall 4 1 (RqCancel race_job); MEvents 4 4;
   MEvents 3 1;
   MTick 31; MCall 5 1 RqReclaimRound; MEvents 5 6;
   MCall 6 1 (RqClaim None (lit "b")); MEvents 6 4].

(** A round has listed an expired claim when its worker resolves the job, and puts it back after. *)
Definition round_requeues_resolved : list (move unit unit) :=
  enqueued_and_claimed ++
  [MTick 31; MCall 3 1 RqReclaimRound; MEvents 3 2;
   MCall 4 1 (RqResolve (lit "a") race_job Success None); MEvents 4 7;
   MEvents 3 4;
   MCall 5 1 (RqClaim None (lit "b")); MEvents 5 7].

(** A process stops between taking a job out of the queue and recording its claim. *)
Definition crash_before_claim : list (move unit unit) :=
  [MCall 1 1 (RqEnqueue None tt Normal 1000); MEvents 1 6;
   MCall 2 1 (RqClaim None (lit "a")); MEvents 2 4; MCrash 2;
   MTick 31; MCall 3 1 RqReclaimRound; MEvents 3 1].

(** What a run ends with: the outcomes of some threads, and whether the job is pending, claimed,
    described and resolved. *)
Definition ends_in (ms : list (move unit unit))
    (outcomes : list (nat * option (result WorkQueueError (value unit unit))))
    (p c d r : bool) : Prop :=
  exists h C, runs race_queue race_start h C /\ (race_end ms = (h, C)) /\
    Forall (fun o => outcome_of o.1 C = o.2) outcomes /\
    pending_now C = p /\ claimed_now C = c /\ described_now C = d /\ resolved_now C = r.

Ltac run_schedule :=
  match goal with |- ends_in ?ms _ _ _ _ _ =>
    exists (race_end ms).1, (race_end ms).2; split; [apply race_runs|];
    split; [by destruct (race_end ms)|]; split; [repeat (constructor; [vm_compute; reflexivity|]); constructor|];
    repeat split; vm_compute; reflexivity
  end.

Definition the_job : value unit unit := VJob (Some {| job_id := race_job; job_params := tt |}).

(** Jobs get lost.  Reinserting an expired claim adds the job before it deletes the claim: a
    worker that is given the job in between loses its claim, its result is refused as of a
    cancelled job, and the job stays described but neither pending nor claimed.  The same is
    left when a process stops between taking a job and recording its claim: no later round
    brings the job back. *)
Theorem jobs_can_get_lost :
  ends_in round_drops_claim
    [(3, Some (Ok VUnit)); (4, Some (Ok the_job)); (5, Some (Err JobCancelled))]
    false false true false /\
  ends_in crash_before_claim [(2, None); (3, Some (Ok VUnit))] false false true false.
Proof. split; run_schedule. Qed.

(** Jobs come back.  A refresh that has read its claim before the job was cancelled writes the
    claim again: when it expires the job is pending again, without its description, and the
    worker that takes it fails with an error.  And a round that has listed an expired claim
    before its worker resolved the job puts the job back: another worker is given a job that
    has its final result. *)
Theorem jobs_can_come_back :
  ends_in refresh_revives
    [(4, Some (Ok VUnit)); (3, Some (Ok VUnit)); (5, Some (Ok VUnit)); (6, Some (Err missing))]
    false false false false /\
  ends_in round_requeues_resolved
    [(4, Some (Ok VUnit)); (3, Some (Ok VUnit)); (5, Some (Ok the_job))] false true true true.
Proof. split; run_schedule. Qed.

(** ** Witnesses *)

Lemma keys_typed_always_witness :
  claimed_now (race_end enqueued_and_claimed).2 = true /\
  typed race_queue (view (c_srv (race_end enqueued_and_claimed).2)).
Proof.
  split; [vm_compute; reflexivity|].
  apply (keys_typed_always race_queue (RState ∅ []) race_start (race_end enqueued_and_claimed).1);
    [apply race_queue_built|apply empty_typed|by split|apply race_runs].
Defined.


Lemma handed_out_again_only_expired_witness :
  let h := (race_end round_drops_claim).1 in
  (handed_out (id_to_string race_job) h <= 1 + added is_round (id_to_string race_job) h)%nat /\
  exists t entries now c,
    Occ (Redis (HGETALL (claims_key race_queue))) (Ok entries) ∈ own t h /\
    Occ UtcNow now ∈ own t h /\
    (id_to_string race_job, claim_to_string (P := unit) (R := unit) c) ∈ entries /\ claim_job_id c = race_job /\
    claim_expired (reclaim_timeout race_queue) now c = true.
Proof.
  apply (handed_out_again_only_expired race_queue race_start _ (race_end round_drops_claim).2
    race_job 2 4 None None (lit "a") (lit "b") {| job_id := race_job; job_params := tt |}
    {| job_id := race_job; job_params := tt |});
    [apply race_queue_built|by split|done|apply race_runs|done|vm_compute; reflexivity..].
Defined.

Lemma holders_were_handed_the_job_witness :
  let C := (race_end enqueued_and_claimed).2 in
  exists v, hash_at (c_srv C) (claims_key race_queue) !! id_to_string race_job = Some v /\
    handed_to race_queue (race_end enqueued_and_claimed).1 v.
Proof.
  exists (claim_to_string (P := unit) (R := unit) (claim_new (lit "a") race_job Normal 0)). split; [vm_compute; reflexivity|].
  apply (holders_were_handed_the_job race_queue (RState ∅ []) race_start _
    (race_end enqueued_and_claimed).2 (id_to_string race_job));
    [apply race_queue_built|apply empty_typed|done|by split|apply race_runs|vm_compute; reflexivity].
Defined.
End races.
