(* ===== verification/ApwmFacts.v ===== *)
(** * Which releases a base has, and what a manifest resolves to

    Lemmas on [Apwm.v]: the releases of a base by lookup, the resolution of a requirement, and
    what [resolve_with], [updated_with_index] and [freeze] do to each world. *)

From S2P Require Import Prelude Ord RustStd Apwm.

Section facts.
Context `{SemVer}.
Implicit Types (v base : Version) (w : World) (d : WorldDef) (m : Manifest) (i : Index) (n : str).

(** ** One base's releases *)

(** The origin of a release on a base, and whether that base has it, release by release. *)
Definition origin_on d base (supported : bool) v : option WorldOrigin :=
  if supported && bool_decide (v = base) then Some OSupported
  else match releases d !! v with
       | None => d_versions d !! v
       | Some r =>
           if runs_on r base then
             Some (default (default ODefault (d_versions d !! v)) (origin r))
           else None
       end.

Lemma versions_for_base_lookup d base s v :
  versions_for_base d base s !! v = origin_on d base s v.
Proof.
  unfold versions_for_base, origin_on.
  set (vs1 := fold_left _ (bt_iter (d_versions d)) ∅).
  set (vs2 := fold_left _ (bt_iter (releases d)) vs1).
  assert (vs1 !! v = if is_none_or (fun r => runs_on r base) (releases d !! v)
                     then d_versions d !! v else None) as H1.
  { unfold vs1. rewrite (fold_bt_lookup _ (fun k o acc =>
      if is_none_or (fun r => runs_on r base) (releases d !! k) then Some o else acc)).
    - rewrite lookup_empty. destruct (d_versions d !! v); by case_match.
    - intros acc k1 o k. simpl. case_decide; subst; case_match; by simplify_map_eq. }
  assert (vs2 !! v = match releases d !! v with
                     | None => vs1 !! v
                     | Some r => if runs_on r base then
                         Some (default (default ODefault (vs1 !! v)) (origin r)) else vs1 !! v
                     end) as H2.
  { unfold vs2. rewrite (fold_bt_lookup _ (fun k r acc =>
      if runs_on r base then Some (default (default ODefault acc) (origin r)) else acc)).
    - by destruct (releases d !! v).
    - intros acc k1 r k. simpl. destruct (runs_on r base), (origin r); simpl; try by case_decide.
      + case_decide; subst; by simplify_map_eq.
      + destruct (acc !! k1) eqn:E; case_decide; subst; simplify_map_eq; done. }
  assert (vs2 !! v = match releases d !! v with
       | None => d_versions d !! v
       | Some r => if runs_on r base then
             Some (default (default ODefault (d_versions d !! v)) (origin r)) else None
       end) as H3.
  { rewrite H2, H1. destruct (releases d !! v) as [r|]; simpl; [|done]. by destruct (runs_on r base). }
  destruct s; simpl; [|done]. case_bool_decide; subst; by simplify_map_eq.
Qed.

Lemma runs_on_spec (r : Release) base :
  runs_on r base = true <->
  (forall lo, min_ap_version r = Some lo -> ord_le lo base) /\
  (forall hi, max_ap_version r = Some hi -> ord_le base hi).
Proof.
  unfold runs_on, is_none_or. rewrite andb_true_iff.
  destruct (min_ap_version r), (max_ap_version r); rewrite ?bool_decide_eq_true;
    split; intros [H1 H2]; split; intros; simplify_eq; auto.
Qed.

(** A base's view holds what the file says, and its releases are those of [origin_on]. *)
Lemma for_base_Some d base w :
  for_base d base = Ok (Some w) ->
  (forall v, versions w !! v = origin_on d base (supported w) v) /\
  versions w <> ∅ /\ disabled w = false /\ name w = d_name d /\ w_path w = d_path d.
Proof.
  unfold for_base. intros Hf. bind_inv.
  match type of Hf with context [if ?b then _ else _] => destruct b end; [done|].
  case_bool_decide as He; [done|]. simplify_eq. simpl.
  split_and!; [|done..]. intros v. apply versions_for_base_lookup.
Qed.

(** ** Releases of a world *)

Lemma latest_release_spec w v o :
  get_latest_release w = Some (v, o) ->
  versions w !! v = Some o /\ forall v' o', versions w !! v' = Some o' -> ord_le v' v.
Proof. apply last_bt_iter. Qed.

Lemma latest_release_none w : get_latest_release w = None <-> versions w = ∅.
Proof. apply last_bt_iter_none. Qed.

Lemma latest_release_unique w v o :
  versions w !! v = Some o -> (forall v' o', versions w !! v' = Some o' -> ord_le v' v) ->
  get_latest_release w = Some (v, o).
Proof.
  intros Hv Hmax. destruct (get_latest_release w) as [[v1 o1]|] eqn:E.
  - apply latest_release_spec in E as [Hv1 Hmax1].
    assert (v1 = v) as -> by (apply ord_le_antisym; eauto). congruence.
  - apply latest_release_none in E. by rewrite E, lookup_empty in Hv.
Qed.

Lemma supported_release_spec w v o :
  get_latest_supported_release w = Some (v, o) ->
  versions w !! v = Some o /\ is_supported o = true.
Proof. intros (Hv & Hs & _)%find_bt_iter. done. Qed.

(** ** Resolution *)

(** The release a requirement asks of a world: the rule, in one place. *)
Definition wanted w (r : VersionReq) : option Version :=
  match r with
  | Disabled => None
  | Latest =>
      match default_version w with
      | Disabled => None
      | Latest => fst <$> get_latest_release w
      | LatestSupported => fst <$> get_latest_supported_release w
      | Specific v => if decide (is_Some (versions w !! v)) then Some v else None
      end
  | LatestSupported => fst <$> get_latest_supported_release w
  | Specific v =>
      if decide (is_Some (versions w !! v)) then Some v else fst <$> get_latest_release w
  end.

Lemma resolve_wanted w r :
  ok (resolve_world_version w r) = (fun v => (w, v)) <$> wanted w r.
Proof.
  unfold resolve_world_version, wanted, get_version.
  destruct r as [| | |v]; simpl; [done| | |].
  - destruct (default_version w) as [| | |v]; simpl;
      [done|by destruct (get_latest_release w) as [[]|]
      |by destruct (get_latest_supported_release w) as [[]|]|].
    by destruct (versions w !! v).
  - by destruct (get_latest_supported_release w) as [[]|].
  - destruct (versions w !! v) as [o|]; simpl; [done|].
    by destruct (get_latest_release w) as [[]|].
Qed.

Lemma resolve_Ok w r w' v :
  resolve_world_version w r = Ok (w', v) <-> w' = w /\ wanted w r = Some v.
Proof.
  pose proof (resolve_wanted w r) as Hr. destruct (resolve_world_version w r) as [[w1 v1]|e];
    simpl in Hr; destruct (wanted w r); simpl in Hr; split; intros; deex; simplify_eq; done.
Qed.

Lemma wanted_available w r v : wanted w r = Some v -> is_Some (versions w !! v).
Proof.
  assert (forall v, fst <$> get_latest_release w = Some v -> is_Some (versions w !! v)) as Hl.
  { intros v' ([v1 o] & [Hv _]%latest_release_spec & ->)%fmap_Some. by eexists. }
  assert (forall v, fst <$> get_latest_supported_release w = Some v -> is_Some (versions w !! v)) as Hs.
  { intros v' ([v1 o] & [Hv _]%supported_release_spec & ->)%fmap_Some. by eexists. }
  unfold wanted. intros Hw. destruct r as [| | |v1]; [done| | |].
  - destruct (default_version w); [done|auto|auto|]. case_decide; by simplify_eq.
  - auto.
  - case_decide; [by simplify_eq|auto].
Qed.

(** ** Whole manifests *)

Definition resolves m i (e : str * World) : option (World * Version) :=
  let r := get_version_req m e.1 i in
  if decide (r = Disabled) then None else ok (resolve_world_version e.2 r).

Definition resolve_fails m i (e : str * World) : list ResolveError :=
  let r := get_version_req m e.1 i in
  if decide (r = Disabled) then []
  else match resolve_world_version e.2 r with Ok _ => [] | Err err => [err] end.

Lemma resolve_with_split m i :
  resolve_with m i =
  (fold_left (fun (acc : gmap str (World * Version)) e =>
     match resolves m i e with Some x => <[e.1 := x]> acc | None => acc end)
     (bt_iter (worlds i)) ∅,
   flat_map (resolve_fails m i) (bt_iter (worlds i))).
Proof.
  unfold resolve_with. generalize (bt_iter (worlds i)) as l. intros l.
  assert (forall ret errs,
    fold_left (resolve_step m i) l (ret, errs) =
    (fold_left (fun (acc : gmap str (World * Version)) e =>
       match resolves m i e with Some x => <[e.1 := x]> acc | None => acc end) l ret,
     errs ++ flat_map (resolve_fails m i) l)) as Hl.
  { induction l as [|e l IH]; intros ret errs; simpl; [by rewrite app_nil_r|].
    rewrite (assoc_L (++)), <- IH. f_equal.
    unfold resolves, resolve_fails. rewrite !decide_bool_decide.
    destruct (bool_decide _); [by rewrite app_nil_r|].
    destruct (resolve_world_version e.2 _) as [[w v]|err] eqn:E; simpl; [|done].
    apply resolve_Ok in E as [-> _]. by rewrite app_nil_r. }
  apply Hl.
Qed.

Lemma resolve_with_lookup m i n :
  (resolve_with m i).1 !! n = worlds i !! n ≫= fun w => resolves m i (n, w).
Proof.
  rewrite resolve_with_split. simpl.
  exact (fold_bt_insert (fun n w => resolves m i (n, w)) (worlds i) n).
Qed.

Lemma updated_lookup m i n :
  m_worlds (updated_with_index m i) !! n = (fun _ => get_version_req m n i) <$> worlds i !! n.
Proof.
  unfold updated_with_index, bt_keys.
  assert (forall l r, m_worlds (fold_left (fun r n => add_version_req r n (get_version_req m n i)) l.*1 r)
    = fold_left (fun (acc : gmap str VersionReq) (e : str * World) =>
        match Some (get_version_req m e.1 i) with Some x => <[e.1 := x]> acc | None => acc end) l (m_worlds r))
    as Hl.
  { induction l as [|e l IH]; intros r; simpl; [done|]. by rewrite IH. }
  rewrite Hl. simpl.
  etransitivity; [exact (fold_bt_insert (fun n w => Some (get_version_req m n i)) (worlds i) n)|].
  by destruct (worlds i !! n).
Qed.

Lemma updated_policy m i : new_apworld_policy (updated_with_index m i) = new_apworld_policy m.
Proof.
  unfold updated_with_index. apply (fold_left_inv (fun r => new_apworld_policy r = _)); [|done].
  by intros r n _ Hr.
Qed.

Lemma updated_version_req m i n :
  is_Some (worlds i !! n) ->
  get_version_req (updated_with_index m i) n i = get_version_req m n i.
Proof.
  intros [w Hw]. unfold get_version_req at 1. rewrite updated_lookup, Hw. done.
Qed.

(** Two manifests that ask the same of every world of the index resolve the same way. *)
Lemma resolve_with_ext m1 m2 i :
  (forall n, is_Some (worlds i !! n) -> get_version_req m1 n i = get_version_req m2 n i) ->
  resolve_with m1 i = resolve_with m2 i.
Proof.
  intros Hreq. unfold resolve_with. apply fold_bt_ext. intros [ret errs] n w Hw.
  unfold resolve_step. simpl. by rewrite Hreq by (by eexists).
Qed.

(** ** Freezing *)

(** What freezing does to one requirement of the manifest. *)
Definition frozen i n (r : VersionReq) : VersionReq :=
  if decide (r = Latest) then
    match worlds i !! n with
    | None => r
    | Some w => match get_latest_release w with Some (v, _) => Specific v | None => r end
    end
  else r.

Lemma freeze_lookup m i m' :
  freeze m i = Some m' ->
  new_apworld_policy m' = new_apworld_policy m /\
  forall n, m_worlds m' !! n = frozen i n <$> m_worlds m !! n.
Proof.
  unfold freeze. intros Hf. apply bind_Some in Hf as (ws & Hws & [= <-]). simpl. split; [done|].
  set (f := fun (acc : option (gmap str VersionReq)) (e : str * VersionReq) => _) in Hws.
  assert (forall l, fold_left f l None = None) as Hnone by (by induction l).
  assert (forall l ws0 ws, fold_left f l (Some ws0) = Some ws ->
    fold_left (fun (acc : gmap str VersionReq) e =>
      if decide (frozen i e.1 e.2 = e.2) then acc else <[e.1 := frozen i e.1 e.2]> acc) l ws0 = ws) as Hl.
  { induction l as [|[n r] l IH]; intros ws0 ws1 Hr; simpl in *; [by simplify_eq|].
    unfold frozen. case_bool_decide as Hl; simpl in Hl; [subst r|].
    - rewrite (decide_True _ _ eq_refl).
      destruct (worlds i !! n) as [w|]; [|by rewrite decide_True; auto].
      destruct (get_latest_release w) as [[v o]|]; simpl in *; [|by rewrite Hnone in Hr].
      by apply IH.
    - rewrite (decide_False _ _ Hl), decide_True by done. by apply IH. }
  intros n. rewrite <- (Hl _ _ _ Hws).
  rewrite (fold_bt_lookup _ (fun n r o => if decide (frozen i n r = r) then o else Some (frozen i n r))).
  - destruct (m_worlds m !! n) as [r|] eqn:E; simpl; [|done].
    case_decide as Hd; [by rewrite Hd|done].
  - intros acc n1 r1 n2. simpl. repeat case_decide; subst; by simplify_map_eq.
Qed.
End facts.
