(* ===== verification/ApwmIndex.v ===== *)
(** * Indexes of several bases, the lock file, downloads (crate [apwm])

    [apwm/src/index/mod.rs], [apwm/src/index/lock.rs] and the downloads of
    [apwm/src/index/world.rs].  Files, HTTP answers and digests come from outside ([Outside]).
    Logging is left out. *)

From S2P Require Import Prelude Ord RustStd Apwm.

#[export] Instance path_eq_dec : EqDecision path.
Proof. solve_decision. Defined.

(** ** What is outside

    [std::fs], [reqwest], [sha2] and the waits of [tokio]. *)
Definition bytes : Type := list N.

(** What [reqwest] gives for one request: it wasn't sent, or there is a status and a body. *)
Inductive answer :=
| NotSent (is_builder : bool) (e : error)
| Answered (status : Z) (e : error) (body : result error bytes).

Class Outside := {
  is_file : path -> bool;
  is_dir : path -> bool;
  read_file : path -> result error bytes;
  ask : str -> nat -> answer;   (* the answer to the n-th request of a URI *)
  digest : bytes -> str;        (* SHA-256, in hexadecimal *)
}.

Section download.
Context `{SemVer} `{Outside}.
Implicit Types (v base : Version) (w : World).

(** ** Retries *)

(* src: apwm/src/index/world.rs:21-23 DOWNLOAD_RETRIES *)
Definition DOWNLOAD_RETRIES : Z := 3.
(* src: apwm/src/index/world.rs:24-27 FIRST_RETRY_DELAY *)
Definition FIRST_RETRY_DELAY : Z := 2.
(* src: apwm/src/index/world.rs:24-28 MAX_RETRY_DELAY *)
Definition MAX_RETRY_DELAY : Z := 16.

Definition u32_max : Z := 4294967295.
(** [u32::saturating_pow] of 2. *)
Definition saturating_pow2 (n : Z) : Z := if (n <? 32)%Z then (2 ^ n)%Z else u32_max.
(** [Duration::checked_mul]: a duration holds 2^64 seconds less one, and a bit. *)
Definition duration_checked_mul (seconds n : Z) : option Z :=
  if (seconds * n <? 18446744073709551616)%Z then Some (seconds * n)%Z else None.

(** In seconds. *)
(* src: apwm/src/index/world.rs:38-44 retry_delay *)
Definition retry_delay (retry : Z) : Z :=
  let doublings := Z.max 0 (retry - 1) in
  match duration_checked_mul FIRST_RETRY_DELAY (saturating_pow2 doublings) with
  | None => MAX_RETRY_DELAY
  | Some delay => Z.min delay MAX_RETRY_DELAY
  end.

(* src: apwm/src/index/world.rs:30-36 DownloadError *)
Inductive DownloadError :=
| Transient (e : error)
| Permanent (e : error).

Definition gave_up (retries : Z) : str :=
  lit "Gave up after " ++ Z_to_str retries ++ lit " retries".

(** [spare] is the number of retries left, [retry] that of those made.  The result comes with the
    waits, in order; the number of tries is one more than that of waits. *)
(* src: apwm/src/index/world.rs:53-71 with_retries *)
Fixpoint retry_loop {T} (retries : Z) (attempt : nat -> result DownloadError T)
    (spare retry : nat) : result error T * list Z :=
  match attempt retry with
  | Ok value => (Ok value, [])
  | Err (Permanent e) => (Err e, [])
  | Err (Transient e) =>
      match spare with
      | O => (Err (gave_up retries :: e), [])
      | S spare =>
          let '(r, waits) := retry_loop retries attempt spare (S retry) in
          (r, retry_delay (Z.of_nat (S retry)) :: waits)
      end
  end.

(* src: apwm/src/index/world.rs:46-72 with_retries *)
Definition with_retries {T} (retries : Z) (attempt : nat -> result DownloadError T) :
    result error T * list Z :=
  retry_loop retries attempt (Z.to_nat retries) 0.

(** [Response::error_for_status] and [StatusCode::is_server_error]. *)
Definition is_error_status (status : Z) : bool := (400 <=? status)%Z && (status <? 600)%Z.
Definition is_server_error (status : Z) : bool := (500 <=? status)%Z && (status <? 600)%Z.

(* src: apwm/src/index/world.rs:74-98 fetch_once *)
Definition fetch_once (a : answer) : result DownloadError bytes :=
  match a with
  | NotSent is_builder e => Err (if is_builder then Permanent e else Transient e)
  | Answered status e body =>
      if is_error_status status then
        Err (if is_server_error status then Transient e else Permanent e)
      else map_err Transient body
  end.

Definition mismatch (expected : option str) (checksum : str) : bool :=
  match expected with Some c => negb (str_eqb checksum c) | None => false end.

(** The checksum, and the bytes written to the destination. *)
(* src: apwm/src/index/world.rs:476-497 World::download_to *)
Definition download_to (uri : str) (expected_checksum : option str) :
    result error (str * bytes) :=
  body ← (with_retries DOWNLOAD_RETRIES (fun n => fetch_once (ask uri n))).1;
  let checksum := digest body in
  if mismatch expected_checksum checksum then
    bail (lit "Error while downloading apworld from " ++ uri ++
          lit ". Checksum didn't match what was expected.")
  else Ok (checksum, body).

(** [None] for the bytes when nothing is written. *)
(* src: apwm/src/index/world.rs:352-383 World::copy_to *)
Definition copy_to w v (expected_checksum : option str) : result error (str * option bytes) :=
  url ← get_url_for_version w v;
  o ← some_or (version_missing w v) (versions w !! v);
  match o with
  | ODefault | OUrl _ =>
      r ← download_to url expected_checksum;
      Ok (r.1, Some r.2)
  | OLocal _ =>
      full_path ← get_path_for_origin w o;
      buf ← read_file full_path;
      let checksum := digest buf in
      if mismatch expected_checksum checksum then
        bail (lit "Error while copying apworld " ++ path_debug full_path ++
              lit ". Checksum didn't match what was expected.")
      else Ok (checksum, Some buf)
  | OSupported => Ok (lit "none", None)
  end.

(** ** The lock file *)

(* src: apwm/src/index/lock.rs:10-15 IndexLock *)
Record IndexLock := {
  l_path : path;
  apworlds : gmap str (gmap Version str);
}.

Definition lock_default : IndexLock := {| l_path := Path false []; apworlds := ∅ |}.

(** [parsed] is what reading and deserializing the file gives. *)
(* src: apwm/src/index/lock.rs:18-35 IndexLock::new *)
Definition IndexLock_new (p : path) (parsed : result error (gmap str (gmap Version str))) :
    result error IndexLock :=
  if negb (is_file p) then Ok {| l_path := p; apworlds := ∅ |}
  else a ← parsed; Ok {| l_path := p; apworlds := a |}.

(* src: apwm/src/index/lock.rs:44-49 IndexLock::contains *)
Definition contains (l : IndexLock) (world_name : str) v : bool :=
  match apworlds l !! world_name with
  | None => false
  | Some world => bool_decide (is_Some (world !! v))
  end.

(* src: apwm/src/index/lock.rs:51-54 IndexLock::set_checksum *)
Definition set_checksum (l : IndexLock) (world_name : str) v (checksum : str) : IndexLock :=
  {| l_path := l_path l;
     apworlds := <[world_name := <[v := checksum]> (default ∅ (apworlds l !! world_name))]>
       (apworlds l) |}.

(* src: apwm/src/index/lock.rs:56-59 IndexLock::get_checksum *)
Definition get_checksum (l : IndexLock) (world_name : str) v : option str :=
  world ← apworlds l !! world_name; world !! v.

(* src: apwm/src/index/lock.rs:61-66 IndexLock::remove_version *)
Definition remove_version (l : IndexLock) (world_name : str) v : IndexLock :=
  match apworlds l !! world_name with
  | None => l
  | Some world =>
      {| l_path := l_path l; apworlds := <[world_name := delete v world]> (apworlds l) |}
  end.

(** ** Refreshing *)

(* src: apwm/src/index/mod.rs:212-218 DownloadTask *)
Record DownloadTask := {
  t_apworld_name : str;
  t_version : Version;
  t_world : World;
  destination_path : path;
  t_expected_checksum : option str;
}.

(** What the loop over the releases does with one of them: nothing, an entry of the new lock
    that needs no download, or a download. *)
Inductive plan :=
| Ignore
| Keep (checksum : str)
| Fetch (t : DownloadTask).

(* src: apwm/src/index/mod.rs:222-285 Index::refresh_into *)
Definition plan_release (i : Index) (destination : path) (only_new : bool)
    (precise : option (str * Version)) (old_lock : IndexLock) (apworld_name : str) w v
    (o : WorldOrigin) : result error plan :=
  if match precise with
     | Some (target_world, target_version) =>
         negb (str_eqb apworld_name target_world) || negb (bool_decide (v = target_version))
     | None => false
     end then Ok Ignore
  else if disabled w then Ok Ignore
  else if is_supported o then Ok Ignore
  else
    let p := get_world_local_path destination apworld_name v in
    let expected_checksum := get_checksum old_lock apworld_name v in
    let fetch := Fetch {| t_apworld_name := apworld_name; t_version := v; t_world := w;
                          destination_path := p; t_expected_checksum := expected_checksum |} in
    match expected_checksum with
    | Some c =>
        if only_new then Ok (Keep c)
        else if is_file p then
          buf ← read_file p;
          if str_eqb (digest buf) c then Ok (Keep (digest buf)) else Ok fetch
        else Ok fetch
    | None =>
        if is_file p then _ ← read_file p; Ok fetch else Ok fetch
    end.

(** The releases of an index, in the order of the loop. *)
Definition all_pairs (i : Index) : list (str * World * Version * WorldOrigin) :=
  e ← bt_iter (worlds i); r ← bt_iter (versions e.2); [(e.1, e.2, r.1, r.2)].

(* src: apwm/src/index/mod.rs:220-286 Index::refresh_into *)
Definition plan_all (i : Index) (destination : path) (only_new : bool)
    (precise : option (str * Version)) (old_lock new_lock : IndexLock) :
    result error (IndexLock * list DownloadTask) :=
  try_fold (fun acc e =>
      let '(n, w, v, o) := e in
      pl ← plan_release i destination only_new precise old_lock n w v o;
      Ok match pl with
         | Ignore => acc
         | Keep c => (set_checksum acc.1 n v c, acc.2)
         | Fetch t => (acc.1, acc.2 ++ [t])
         end) (new_lock, []) (all_pairs i).

(** One download, with its file put in place. [saved] is whether the file could be made. *)
(* src: apwm/src/index/mod.rs:289-310 Index::refresh_into *)
Definition run_task (saved : DownloadTask -> result error unit) (t : DownloadTask) :
    str * Version * result error str :=
  (t_apworld_name t, t_version t,
   _ ← some_or (lit "destination has no parent directory") (path_parent (destination_path t));
   _ ← saved t;
   r ← copy_to (t_world t) (t_version t) (t_expected_checksum t);
   Ok r.1).

(** The downloads run ten at a time and end in any order: [finished] is that order.  A download
    that fails leaves its release out of the lock. *)
(* src: apwm/src/index/mod.rs:313-327 Index::refresh_into *)
Definition collect (new_lock : IndexLock) (finished : list (str * Version * result error str)) :
    IndexLock :=
  fold_left (fun l e =>
    match e with
    | (n, v, Ok checksum) => set_checksum l n v checksum
    | (_, _, Err _) => l
    end) finished new_lock.

(** [schedule] puts the tasks in the order they end in. *)
(* src: apwm/src/index/mod.rs:193-330 Index::refresh_into *)
Definition index_refresh_into (parse_lock : path -> result error (gmap str (gmap Version str)))
    (create_dir_all : path -> result error unit) (saved : DownloadTask -> result error unit)
    (schedule : list DownloadTask -> list DownloadTask)
    (i : Index) (destination : path) (only_new : bool) (precise : option (str * Version)) :
    result error IndexLock :=
  parent ← some_or (lit "Invalid index path") (path_parent (i_path i));
  let lock_toml := in_dir parent (lit "index.lock") in
  old_lock ← IndexLock_new lock_toml (parse_lock lock_toml);
  let new_lock := {| l_path := l_path old_lock; apworlds := ∅ |} in
  if is_file destination then bail (lit "Error downloading, destination exists and is a file")
  else
    _ ← create_dir_all destination;
    planned ← plan_all i destination only_new precise old_lock new_lock;
    Ok (collect planned.1 (run_task saved <$> schedule planned.2)).

(** ** Indexes of several bases *)

(* src: apwm/src/index/mod.rs:23-33 IndexFile *)
Record IndexFile := {
  f_archipelago_repo : Uri;
  f_archipelago_version : Version;
  f_index_homepage : str;
  f_index_dir : path;
  f_bases : gmap Version unit;
}.

(* src: apwm/src/index/mod.rs:39-49 IndexSet *)
Record IndexSet := {
  s_path : path;
  legacy_base : Version;
  s_bases : gmap Version Index;
  index_file : IndexFile;
  world_defs : gmap str WorldDef;
}.

(* src: apwm/src/index/mod.rs:120-136 IndexSet::view_for_base *)
Definition view_for_base (s : IndexSet) base : result error Index :=
  ws ← try_fold (fun (ws : gmap str World) e =>
      o ← for_base e.2 base;
      Ok match o with Some w => <[e.1 := w]> ws | None => ws end) ∅ (bt_iter (world_defs s));
  Ok {| i_path := s_path s; archipelago_repo := f_archipelago_repo (index_file s);
        archipelago_version := base; index_homepage := f_index_homepage (index_file s);
        index_dir := f_index_dir (index_file s); worlds := ws |}.

(** The world files of the directory: each path in it, and what its TOML deserializes to. *)
(* src: apwm/src/index/mod.rs:65-78 IndexSet::new *)
Definition read_world_defs (entries : list (path * result error WorldDef)) :
    result error (gmap str WorldDef) :=
  try_fold (fun (defs : gmap str WorldDef) e =>
    apworld_name ← some_or (lit "World path " ++ path_debug e.1 ++
                            lit " is invalid") (file_stem e.1);
    d ← context (lit "Reading " ++ path_display e.1) (WorldDef_new e.1 e.2);
    Ok (<[apworld_name := d]> defs)) ∅ entries.

(* src: apwm/src/index/mod.rs:80-84 IndexSet::new *)
Definition base_versions (f : IndexFile) : list Version :=
  let bases := bt_keys (f_bases f) in
  if bool_decide (f_archipelago_version f ∈ bases) then bases
  else bases ++ [f_archipelago_version f].

(** [parsed] is what [index.toml] deserializes to, [read_dir] the entries of a directory. *)
(* src: apwm/src/index/mod.rs:52-99 IndexSet::new *)
Definition IndexSet_new (index_path : path) (parsed : result error IndexFile)
    (read_dir : path -> result error (list (path * result error WorldDef))) :
    result error IndexSet :=
  file ← parsed;
  dir ← some_or (lit "index_path doesn't have a parent") (path_parent index_path);
  let resolved := path_join dir (f_index_dir file) in
  if negb (is_dir resolved) then
    bail (lit "The specified index directory isn't a directory or doesn't exist")
  else
    entries ← read_dir resolved;
    defs ← read_world_defs entries;
    let s := {| s_path := index_path; legacy_base := f_archipelago_version file; s_bases := ∅;
                index_file := file; world_defs := defs |} in
    bases ← try_fold (fun (bases : gmap Version Index) base =>
        index ← view_for_base s base;
        Ok (<[base := index]> bases)) ∅ (base_versions file);
    Ok {| s_path := s_path s; legacy_base := legacy_base s; s_bases := bases;
          index_file := index_file s; world_defs := world_defs s |}.

(* src: apwm/src/index/mod.rs:101-103 IndexSet::bases *)
Definition bases (s : IndexSet) : list Version := bt_keys (s_bases s).

(* src: apwm/src/index/mod.rs:105-107 IndexSet::get *)
Definition get (s : IndexSet) base : option Index := s_bases s !! base.

(** [None] is the panic of indexing the map. *)
(* src: apwm/src/index/mod.rs:109-111 IndexSet::legacy *)
Definition legacy (s : IndexSet) : option Index := s_bases s !! legacy_base s.

(* src: apwm/src/index/mod.rs:161-166 IndexSet::all_releases *)
Definition add_versions (w : World) (vs : gmap Version WorldOrigin) : World :=
  {| w_path := w_path w; name := name w; display_name := display_name w;
     default_url := default_url w; default_version := default_version w; home := home w;
     versions := fold_left (fun (acc : gmap Version WorldOrigin) e =>
         match acc !! e.1 with Some _ => acc | None => <[e.1 := e.2]> acc end)
       (bt_iter vs) (versions w);
     disabled := disabled w; supported := supported w; tags := tags w |}.

(* src: apwm/src/index/mod.rs:155-168 IndexSet::all_releases *)
Definition merge_worlds (all : gmap str World) (i : Index) : gmap str World :=
  fold_left (fun (all : gmap str World) e =>
      <[e.1 := add_versions (default e.2 (all !! e.1)) (versions e.2)]> all)
    (bt_iter (worlds i)) all.

(* src: apwm/src/index/mod.rs:153-171 IndexSet::all_releases *)
Definition all_releases (s : IndexSet) : option Index :=
  all ← legacy s;
  Some {| i_path := i_path all; archipelago_repo := archipelago_repo all;
          archipelago_version := archipelago_version all; index_homepage := index_homepage all;
          index_dir := index_dir all;
          worlds := fold_left (fun acc e => merge_worlds acc e.2) (bt_iter (s_bases s)) (worlds all) |}.

(** The index as its legacy base sees it; [None] is a panic. *)
(* src: apwm/src/index/mod.rs:186-191 Index::new *)
Definition Index_new (index_path : path) (parsed : result error IndexFile)
    (read_dir : path -> result error (list (path * result error WorldDef))) :
    result error (option Index) :=
  s ← IndexSet_new index_path parsed read_dir;
  Ok (legacy s).
End download.
