(* ===== verification/ApwmIndexFacts.v ===== *)
(** * Facts about indexes, downloads and the lock file *)

From S2P Require Import Prelude Ord RustStd Apwm ApwmFacts ApwmIndex.

Section facts.
Context `{SemVer} `{Outside}.
Implicit Types (v base : Version) (w : World) (s : IndexSet) (i : Index) (n : str).

(** ** Retries *)

Lemma retry_delay_closed (k : Z) :
  (1 <= k)%Z -> retry_delay k = if (k <=? 4)%Z then (2 ^ k)%Z else 16%Z.
Proof.
  intros Hk. unfold retry_delay, saturating_pow2, duration_checked_mul, FIRST_RETRY_DELAY,
    MAX_RETRY_DELAY, u32_max.
  rewrite Z.max_r by lia. destruct (Z.leb_spec k 4).
  - assert (k = 1 \/ k = 2 \/ k = 3 \/ k = 4)%Z as [->|[->|[->|]]] by lia; subst; reflexivity.
  - destruct (Z.ltb_spec (k - 1) 32) as [Hlt|Hge].
    + assert (2 ^ 4 <= 2 ^ (k - 1))%Z by (apply Z.pow_le_mono_r; lia).
      assert (2 ^ (k - 1) <= 2 ^ 31)%Z by (apply Z.pow_le_mono_r; lia).
      change (2 ^ 4)%Z with 16%Z in *. change (2 ^ 31)%Z with 2147483648%Z in *.
      rewrite (proj2 (Z.ltb_lt _ _)) by lia. lia.
    + reflexivity.
Qed.

Definition is_transient {T} (r : result DownloadError T) : bool :=
  match r with Err (Transient _) => true | _ => false end.

(** The loop ends at the first try that isn't a transient failure, or when the retries are
    spent; it waits before each retry. *)
Lemma retry_loop_spec {T} retries (attempt : nat -> result DownloadError T) spare retry :
  exists k, (k <= spare)%nat /\
    (forall j, (j < k)%nat -> is_transient (attempt (retry + j)%nat) = true) /\
    (is_transient (attempt (retry + k)%nat) = true -> k = spare) /\
    (retry_loop retries attempt spare retry).2 =
      (fun j => retry_delay (Z.of_nat (retry + j))) <$> seq 1 k /\
    (retry_loop retries attempt spare retry).1 =
      match attempt (retry + k)%nat with
      | Ok value => Ok value
      | Err (Permanent e) => Err e
      | Err (Transient e) => Err (gave_up retries :: e)
      end.
Proof.
  revert retry. induction spare as [|spare IH]; intros retry; simpl.
  - exists 0%nat. rewrite Nat.add_0_r. split_and!; [lia|lia|done|by repeat case_match|].
    by repeat case_match.
  - destruct (attempt retry) as [x|[e|e]] eqn:E;
      try (exists 0%nat; rewrite Nat.add_0_r, E; split_and!; [lia|lia|done|done|done]).
    destruct (IH (S retry)) as (k & Hk & Hbefore & Hlast & Hw & Hr).
    exists (S k). rewrite Nat.add_succ_r. split_and!.
    + lia.
    + intros [|i'] Hi; [by rewrite Nat.add_0_r, E|].
      rewrite Nat.add_succ_r. apply Hbefore. lia.
    + intros Ht. f_equal. by apply Hlast.
    + destruct (retry_loop retries attempt spare (S retry)) as [r ws]. simpl in *.
      rewrite Hw. rewrite Nat.add_1_r. f_equal. rewrite <- (seq_shift k 1), <- list_fmap_compose.
      apply list_fmap_ext. intros ? x _. simpl. do 2 f_equal. lia.
    + by destruct (retry_loop retries attempt spare (S retry)).
Qed.

(** ** Checksums *)

Lemma mismatch_false expected c :
  mismatch expected c = false -> forall e, expected = Some e -> c = e.
Proof. unfold mismatch. intros Hx e ->. by reflect_bools. Qed.

Lemma download_to_checksum uri expected c body :
  download_to uri expected = Ok (c, body) ->
  c = digest body /\ forall e, expected = Some e -> c = e.
Proof.
  unfold download_to. destruct (with_retries _ _).1 as [b|e]; simpl; [|done].
  destruct (mismatch expected (digest b)) eqn:E; [done|]. intros [= <- <-].
  split; [done|]. by apply mismatch_false.
Qed.

(** A file that is downloaded or copied has the checksum that is returned, which is the one
    that was expected if one was. *)
Lemma copy_to_checksum w v expected c body :
  copy_to w v expected = Ok (c, Some body) ->
  c = digest body /\ forall e, expected = Some e -> c = e.
Proof.
  unfold copy_to. destruct (get_url_for_version w v) as [u|e]; simpl; [|done].
  destruct (versions w !! v) as [o|]; simpl; [|done].
  assert ((r ← download_to u expected; Ok (r.1, Some r.2)) = Ok (c, Some body) ->
    c = digest body /\ forall e, expected = Some e -> c = e) as Hd.
  { intros ([c1 b1] & Hd & [= <- <-])%result_bind_Ok_inv. by eapply download_to_checksum. }
  destruct o as [u'|p| |]; [exact Hd| |done|exact Hd].
  intros (full & _ & (buf & _ & Hc)%result_bind_Ok_inv)%result_bind_Ok_inv.
  destruct (mismatch expected (digest buf)) eqn:E; [done|]. simplify_eq.
  split; [done|]. by apply mismatch_false.
Qed.

Lemma copy_to_writes w v expected c b o :
  copy_to w v expected = Ok (c, b) -> versions w !! v = Some o -> is_supported o = false ->
  exists body, b = Some body.
Proof.
  intros Hc Ho Hs. unfold copy_to in Hc. destruct (get_url_for_version w v) as [u|e]; [|done].
  rewrite Ho in Hc. simpl in Hc. destruct o as [u'|p| |]; [| |done|].
  - apply result_bind_Ok_inv in Hc as (r & _ & [= _ <-]). by eexists.
  - apply result_bind_Ok_inv in Hc as (full & _ & (buf & _ & Hc)%result_bind_Ok_inv).
    case_match; simplify_eq. by eexists.
  - apply result_bind_Ok_inv in Hc as (r & _ & [= _ <-]). by eexists.
Qed.

(** ** The lock *)

Lemma get_set_checksum l n v c n' v' :
  get_checksum (set_checksum l n v c) n' v' =
  if decide (n' = n /\ v' = v) then Some c else get_checksum l n' v'.
Proof.
  unfold get_checksum, set_checksum. simpl. destruct (decide (n' = n)) as [->|Hn].
  - rewrite lookup_insert_eq. simpl. destruct (decide (v' = v)) as [->|Hv].
    + by rewrite lookup_insert_eq, decide_True.
    + rewrite lookup_insert_ne by congruence. rewrite decide_False by (intros [? ?]; congruence).
      by destruct (apworlds l !! n).
  - rewrite lookup_insert_ne by done. by rewrite decide_False by (intros [? ?]; congruence).
Qed.

(** ** Refreshing *)

Definition pair_key (e : str * World * Version * WorldOrigin) : str * Version := (e.1.1.1, e.1.2).
Definition task_key (t : DownloadTask) : str * Version := (t_apworld_name t, t_version t).

Lemma elem_of_all_pairs i n w v o :
  (n, w, v, o) ∈ all_pairs i <-> worlds i !! n = Some w /\ versions w !! v = Some o.
Proof.
  unfold all_pairs. rewrite list_elem_of_bind. split.
  - intros ([n' w'] & Hin & Hw%elem_of_bt_iter). simpl in Hin.
    apply list_elem_of_bind in Hin as ([v' o'] & Heq%list_elem_of_singleton & Ho%elem_of_bt_iter).
    by simplify_eq/=.
  - intros [Hw Ho]. exists (n, w). split; [|by apply elem_of_bt_iter].
    apply list_elem_of_bind. exists (v, o). split; [by apply list_elem_of_singleton|].
    by apply elem_of_bt_iter.
Qed.

Lemma NoDup_pair_keys i : NoDup (pair_key <$> all_pairs i).
Proof.
  apply NoDup_fmap_2_strong.
  - intros [[[n w] v] o] [[[n' w'] v'] o'] [Hw Ho]%elem_of_all_pairs [Hw' Ho']%elem_of_all_pairs.
    unfold pair_key. simpl. intros [= <- <-]. by simplify_eq.
  - unfold all_pairs. apply NoDup_bind; [| |apply NoDup_bt_iter].
    + intros [n w] [n' w'] [[[n1 w1] v1] o1] _ _ H1 H2.
      apply list_elem_of_bind in H1 as (? & Heq1%list_elem_of_singleton & _).
      apply list_elem_of_bind in H2 as (? & Heq2%list_elem_of_singleton & _).
      by simplify_eq/=.
    + intros [n w] _. apply NoDup_bind; [|by intros; apply NoDup_singleton|apply NoDup_bt_iter].
      intros [v o] [v' o'] x _ _ H1%list_elem_of_singleton H2%list_elem_of_singleton.
      by simplify_eq/=.
Qed.

Section refresh.
Context (i : Index) (destination : path) (only_new : bool) (precise : option (str * Version))
  (old_lock : IndexLock).

Definition planned n w v o : result error plan :=
  plan_release i destination only_new precise old_lock n w v o.

(** Whether the refresh looks at a release at all. *)
Definition concerned n w v o : Prop :=
  (forall n' v', precise = Some (n', v') -> n = n' /\ v = v') /\
  disabled w = false /\ is_supported o = false.

Lemma plan_cases n w v o p :
  planned n w v o = Ok p ->
  match p with
  | Ignore => True
  | Keep c => get_checksum old_lock n v = Some c /\ concerned n w v o
  | Fetch t => task_key t = (n, v) /\ t_world t = w /\
      t_expected_checksum t = get_checksum old_lock n v /\ concerned n w v o
  end.
Proof using Type.
  unfold planned, plan_release, concerned.
  destruct (match precise with Some _ => _ | None => _ end) eqn:Ep; [by intros [= <-]|].
  assert (forall n' v', precise = Some (n', v') -> n = n' /\ v = v') as Hp.
  { intros n' v' ->. by reflect_bools. }
  destruct (disabled w); [by intros [= <-]|]. destruct (is_supported o); [by intros [= <-]|].
  destruct (get_checksum old_lock n v) as [c|]; [destruct only_new|].
  - intros [= <-]. by split_and!.
  - destruct (is_file _); [|intros [= <-]; by split_and!].
    intros (buf & _ & Hk)%result_bind_Ok_inv. destruct (str_eqb _ c) eqn:E; simplify_eq.
    + reflect_bools. subst. by split_and!.
    + by split_and!.
  - destruct (is_file _); [|intros [= <-]; by split_and!].
    intros (buf & _ & [= <-])%result_bind_Ok_inv. by split_and!.
Qed.

Lemma plan_all_sound new_lock lk ts :
  plan_all i destination only_new precise old_lock new_lock = Ok (lk, ts) ->
  (forall n v c, get_checksum lk n v = Some c ->
    get_checksum new_lock n v = Some c \/
    exists w o, (n, w, v, o) ∈ all_pairs i /\ planned n w v o = Ok (Keep c)) /\
  (forall t, t ∈ ts -> exists o,
    (t_apworld_name t, t_world t, t_version t, o) ∈ all_pairs i /\
    planned (t_apworld_name t) (t_world t) (t_version t) o = Ok (Fetch t)).
Proof using Type.
  intros Hplan.
  set (I := fun acc : IndexLock * list DownloadTask =>
    (forall n v c, get_checksum acc.1 n v = Some c ->
      get_checksum new_lock n v = Some c \/
      exists w o, (n, w, v, o) ∈ all_pairs i /\ planned n w v o = Ok (Keep c)) /\
    (forall t, t ∈ acc.2 -> exists o,
      (t_apworld_name t, t_world t, t_version t, o) ∈ all_pairs i /\
      planned (t_apworld_name t) (t_world t) (t_version t) o = Ok (Fetch t))).
  apply (try_fold_inv I _ _ _ _) in Hplan; [exact Hplan| |].
  - intros [lk1 ts1] [[[n w] v] o] [lk2 ts2] Hin [Hk Ht] Hstep. simpl in *.
    apply result_bind_Ok_inv in Hstep as (p & Hp & [= Heq]).
    pose proof (plan_cases n w v o p Hp) as Hc. destruct p as [|c|t]; simplify_eq.
    + by split.
    + split; [|done]. simpl. intros n' v' c'. rewrite get_set_checksum.
      case_decide as Hd; [|apply Hk]. destruct Hd as [-> ->]. intros [= <-]. right. by exists w, o.
    + split; [done|]. simpl. intros t' [Ht'|Ht'%list_elem_of_singleton]%elem_of_app; [by apply Ht|].
      subst t'. destruct Hc as (Hk1 & Hw & _). injection Hk1 as Hn Hv.
      exists o. by rewrite Hn, Hv, Hw.
  - split; simpl; [auto|]. intros t Ht. by apply elem_of_nil in Ht.
Qed.

Lemma plan_all_keys new_lock lk ts :
  plan_all i destination only_new precise old_lock new_lock = Ok (lk, ts) ->
  NoDup (task_key <$> ts).
Proof using Type.
  unfold plan_all. intros Hplan. eapply sublist_NoDup; [apply (NoDup_pair_keys i)|].
  assert (forall l lk0 ts0, try_fold (fun acc e =>
      let '(n, w, v, o) := e in
      pl ← plan_release i destination only_new precise old_lock n w v o;
      Ok match pl with
         | Ignore => acc
         | Keep c => (set_checksum acc.1 n v c, acc.2)
         | Fetch t => (acc.1, acc.2 ++ [t])
         end) (lk0, ts0) l = Ok (lk, ts) ->
    exists ts1, ts = ts0 ++ ts1 /\ (task_key <$> ts1) `sublist_of` (pair_key <$> l)) as Hl.
  { induction l as [|[[[n w] v] o] l IH]; intros lk0 ts0 Hf; cbn [try_fold] in Hf.
    - simplify_eq. exists []. split; [by rewrite app_nil_r|constructor].
    - apply result_bind_Ok_inv in Hf as ([lk1 ts1'] & Hstep & Hf).
      apply result_bind_Ok_inv in Hstep as (p & Hp & [= Heq]).
      apply IH in Hf as (ts1 & -> & Hsub).
      pose proof (plan_cases n w v o p Hp) as Hc.
      destruct p as [|c|t]; simplify_eq/=.
      + exists ts1. split; [done|by constructor].
      + exists ts1. split; [done|by constructor].
      + exists (t :: ts1). split; [by rewrite <- (assoc_L (++))|]. simpl.
        destruct Hc as (-> & _). by constructor. }
  destruct (Hl _ _ _ Hplan) as (ts1 & -> & Hsub). exact Hsub.
Qed.
End refresh.

Lemma collect_get l (fin : list (str * Version * result error str)) n v c :
  NoDup (fst <$> fin) ->
  get_checksum (collect l fin) n v = Some c <->
  (n, v, Ok c) ∈ fin \/
  (get_checksum l n v = Some c /\ forall c', (n, v, Ok c') ∉ fin).
Proof.
  revert l. induction fin as [|[[n1 v1] r1] fin IH]; intros l Hnd; simpl.
  - split; [intros Hc; right; split; [done|]; intros c' Hin; by apply elem_of_nil in Hin|].
    intros [Hin|[Hc _]]; [by apply elem_of_nil in Hin|done].
  - apply NoDup_cons in Hnd as [Hnin Hnd]. rewrite IH by done.
    assert (forall c, (n1, v1, Ok c) ∉ fin) as Hno.
    { intros c1 Hin. apply Hnin. by apply (list_elem_of_fmap_2 fst) in Hin. }
    destruct r1 as [c1|e1].
    + rewrite get_set_checksum. setoid_rewrite elem_of_cons.
      destruct (decide (n = n1 /\ v = v1)) as [[-> ->]|Hne].
      * split; [intros [Hin|[[= <-] _]]; [by apply Hno in Hin|by left; left]|].
        intros [[[= <-]|Hin]|[_ Hall]]; [right; by split|by apply Hno in Hin|].
        exfalso. apply (Hall c1). by left.
      * naive_solver.
    + setoid_rewrite elem_of_cons. naive_solver.
Qed.

Lemma collect_perm l fin1 fin2 n v :
  NoDup (fst <$> fin1) -> fin1 ≡ₚ fin2 ->
  get_checksum (collect l fin1) n v = get_checksum (collect l fin2) n v.
Proof.
  intros Hnd Hp. apply option_eq. intros c.
  rewrite !collect_get; [|by rewrite <- Hp|done]. by setoid_rewrite Hp.
Qed.

(** ** Bases *)

Lemma view_lookup s base i n :
  view_for_base s base = Ok i ->
  (forall d, world_defs s !! n = Some d -> exists o, for_base d base = Ok o) /\
  worlds i !! n = world_defs s !! n ≫= fun d => default None (ok (for_base d base)).
Proof.
  unfold view_for_base. intros Hv. apply result_bind_Ok_inv in Hv as (ws & Hws & [= <-]). simpl.
  assert (forall l ws0 ws, try_fold (fun (ws : gmap str World) e =>
      o ← for_base e.2 base;
      Ok match o with Some w => <[e.1 := w]> ws | None => ws end) ws0 l = Ok ws ->
    (forall e, e ∈ l -> exists o, for_base e.2 base = Ok o) /\
    fold_left (fun (acc : gmap str World) (e : str * WorldDef) =>
      match default None (ok (for_base e.2 base)) with Some x => <[e.1 := x]> acc | None => acc end)
      l ws0 = ws) as Hl.
  { induction l as [|e l IH]; intros ws0 ws1 Hf; cbn [try_fold] in Hf.
    - simplify_eq. split; [|done]. intros e He. by apply elem_of_nil in He.
    - apply result_bind_Ok_inv in Hf as (ws2 & (o & Ho & [= <-])%result_bind_Ok_inv & Hf).
      apply IH in Hf as [Hall Hf]. split.
      + intros e' [->|He']%elem_of_cons; [by exists o|by apply Hall].
      + simpl. rewrite Ho. exact Hf. }
  destruct (Hl _ _ _ Hws) as [Hall Hf]. split.
  - intros d Hd. apply (Hall (n, d)). by apply elem_of_bt_iter.
  - rewrite <- Hf. exact (fold_bt_insert (fun _ d => default None (ok (for_base d base))) (world_defs s) n).
Qed.

Lemma view_base_version s base i : view_for_base s base = Ok i -> archipelago_version i = base.
Proof.
  unfold view_for_base. by intros (ws & _ & [= <-])%result_bind_Ok_inv.
Qed.

Lemma elem_of_base_versions f v :
  v ∈ base_versions f <-> v = f_archipelago_version f \/ is_Some (f_bases f !! v).
Proof.
  unfold base_versions. case_bool_decide as Hin.
  - rewrite elem_of_bt_keys in *. naive_solver.
  - rewrite elem_of_app, list_elem_of_singleton, elem_of_bt_keys. naive_solver.
Qed.

(** The index of each base is the view of that base, and the legacy base always has one. *)
Lemma IndexSet_new_bases index_path parsed read_dir s :
  IndexSet_new index_path parsed read_dir = Ok s ->
  (forall base i, get s base = Some i -> view_for_base s base = Ok i) /\
  (forall base, is_Some (get s base) <-> base ∈ base_versions (index_file s)) /\
  legacy_base s = f_archipelago_version (index_file s).
Proof.
  unfold IndexSet_new. intros Hn.
  apply result_bind_Ok_inv in Hn as (file & _ & (dir & _ & Hn)%result_bind_Ok_inv).
  case_match; [done|].
  apply result_bind_Ok_inv in Hn as (entries & _ & (defs & _ & Hn)%result_bind_Ok_inv).
  apply result_bind_Ok_inv in Hn as (bs & Hbs & [= <-]). unfold get. simpl.
  set (s0 := {| s_path := index_path; legacy_base := f_archipelago_version file; s_bases := ∅;
                index_file := file; world_defs := defs |}) in *.
  assert (forall l bs0 bs, try_fold (fun (bases : gmap Version Index) base =>
      index ← view_for_base s0 base; Ok (<[base := index]> bases)) bs0 l = Ok bs ->
    (forall base i, bs !! base = Some i -> view_for_base s0 base = Ok i \/ bs0 !! base = Some i) /\
    (forall base, is_Some (bs !! base) <-> base ∈ l \/ is_Some (bs0 !! base))) as Hl.
  { induction l as [|b l IH]; intros bs0 bs1 Hf; cbn [try_fold] in Hf.
    - simplify_eq. split; [auto|]. intros base. split; [auto|]. intros [Hin|?]; [|done].
      by apply elem_of_nil in Hin.
    - apply result_bind_Ok_inv in Hf as (bs2 & (i & Hi & [= <-])%result_bind_Ok_inv & Hf).
      apply IH in Hf as [Hv Hd]. split.
      + intros base j Hj. destruct (Hv base j Hj) as [?|Hb]; [by left|].
        destruct (decide (b = base)) as [->|Hne]; [|rewrite lookup_insert_ne in Hb by done; by right].
        rewrite lookup_insert_eq in Hb. simplify_eq. by left.
      + intros base. rewrite Hd, lookup_insert_is_Some, elem_of_cons.
        destruct (decide (b = base)); naive_solver. }
  destruct (Hl _ _ _ Hbs) as [Hv Hd]. split_and!; [|by intros base; rewrite Hd, lookup_empty, is_Some_alt; naive_solver|done].
  intros base i Hi. destruct (Hv base i Hi) as [Hi'|Hb]; [exact Hi'|]. by rewrite lookup_empty in Hb.
Qed.
End facts.
