(* ===== verification/ApwmChanges.v ===== *)
(** * What changed between two indexes (crate [apwm])

    [apwm/src/changes.rs]: the releases that became available, or stopped being, base by base;
    the checksums added to such a report; and the downloads that follow it. *)

From S2P Require Import Prelude Ord RustStd Apwm ApwmIndex.

Section changes.
Context `{SemVer} `{Outside}.
Implicit Types (base : Version) (n : str).

(* src: apwm/src/changes.rs:9-14 Checksum *)
Inductive Checksum :=
| CSupported
| CHash (h : str).

(* src: apwm/src/changes.rs:28-42 WorldChanges *)
Record WorldChanges := {
  world_name : str;
  added_versions : list Version;
  removed_versions : list Version;
  checksums : gmap Version Checksum;
  added_on : gmap Version (list Version);
  removed_from : gmap Version (list Version);
}.

(* src: apwm/src/changes.rs:16-26 Changes *)
Record Changes := {
  c_worlds : gmap str WorldChanges;
  c_bases : list Version;
  added_bases : list Version;
}.

(** Each version with the base, collected into a map. *)
(* src: apwm/src/changes.rs:51-56 WorldChanges::on_base *)
Definition each_on_base base (vs : list Version) : gmap Version (list Version) :=
  fold_left (fun m v => <[v := [base]]> m) vs ∅.

(* src: apwm/src/changes.rs:45-66 WorldChanges::on_base *)
Definition on_base (world_name : str) (added removed : list Version) base : WorldChanges :=
  {| world_name := world_name; added_on := each_on_base base added;
     removed_from := each_on_base base removed; added_versions := added;
     removed_versions := removed; checksums := ∅ |}.

(** [entry(version).or_default().extend(bases)] for each entry. *)
(* src: apwm/src/changes.rs:69-74 WorldChanges::merge *)
Definition extend_all (m other : gmap Version (list Version)) : gmap Version (list Version) :=
  fold_left (fun (m : gmap Version (list Version)) e => <[e.1 := default [] (m !! e.1) ++ e.2]> m)
    (bt_iter other) m.

(* src: apwm/src/changes.rs:68-77 WorldChanges::merge *)
Definition merge (self other : WorldChanges) : WorldChanges :=
  let added := extend_all (added_on self) (added_on other) in
  let removed := extend_all (removed_from self) (removed_from other) in
  {| world_name := world_name self; added_on := added; removed_from := removed;
     added_versions := bt_keys added; removed_versions := bt_keys removed;
     checksums := checksums self |}.

(** The keys of a map that another one doesn't have. *)
Definition keys_not_in {A B} (m : gmap Version A) (other : gmap Version B) : list Version :=
  List.filter (fun v => negb (bool_decide (is_Some (other !! v)))) (bt_keys m).

(* src: apwm/src/changes.rs:110-164 compute_changes *)
Definition compute_changes (old_index new_index : Index) : Changes :=
  let base := archipelago_version new_index in
  let ws := fold_left (fun (ws : gmap str WorldChanges) e =>
      match worlds old_index !! e.1 with
      | None => <[e.1 := on_base (name e.2) (bt_keys (versions e.2)) [] base]> ws
      | Some old_world =>
          let added := keys_not_in (versions e.2) (versions old_world) in
          let removed := keys_not_in (versions old_world) (versions e.2) in
          if bool_decide (added = []) && bool_decide (removed = []) then ws
          else <[e.1 := on_base (name e.2) added removed base]> ws
      end) (bt_iter (worlds new_index)) ∅ in
  let ws := fold_left (fun (ws : gmap str WorldChanges) e =>
      match worlds new_index !! e.1 with
      | Some _ => ws
      | None => <[e.1 := on_base (name e.2) [] (bt_keys (versions e.2)) base]> ws
      end) (bt_iter (worlds old_index)) ws in
  {| c_worlds := ws; c_bases := [base]; added_bases := [] |}.

(** The changes on one base put into those on the bases before it. *)
(* src: apwm/src/changes.rs:96-103 compute_changes_between *)
Definition merge_changes (acc changes : gmap str WorldChanges) : gmap str WorldChanges :=
  fold_left (fun (acc : gmap str WorldChanges) e =>
      match acc !! e.1 with
      | Some merged => <[e.1 := merge merged e.2]> acc
      | None => <[e.1 := e.2]> acc
      end) (bt_iter changes) acc.

(* src: apwm/src/changes.rs:92-104 compute_changes_between *)
Definition changes_on_base (old new : IndexSet) (acc : gmap str WorldChanges) base :
    result error (gmap str WorldChanges) :=
  old_view ← view_for_base old base;
  new_view ← some_or (lit "A base is missing its own view") (get new base);
  Ok (merge_changes acc (c_worlds (compute_changes old_view new_view))).

(* src: apwm/src/changes.rs:80-107 compute_changes_between *)
Definition compute_changes_between (old new : IndexSet) : result error Changes :=
  ws ← try_fold (changes_on_base old new) ∅ (bases new);
  Ok {| c_worlds := ws; c_bases := bases new;
        added_bases := List.filter (fun b => negb (bool_decide (is_Some (get old b)))) (bases new) |}.

(* src: apwm/src/changes.rs:219-228 apply_checksums *)
Definition apply_checksums (changes : Changes) (cs : gmap str (gmap Version Checksum)) : Changes :=
  {| c_worlds := fold_left (fun (ws : gmap str WorldChanges) e =>
         match ws !! e.1 with
         | None => ws
         | Some wc =>
             <[e.1 := {| world_name := world_name wc; added_versions := added_versions wc;
                         removed_versions := removed_versions wc;
                         checksums := e.2 ∪ checksums wc;
                         added_on := added_on wc; removed_from := removed_from wc |}]> ws
         end) (bt_iter cs) (c_worlds changes);
     c_bases := c_bases changes; added_bases := added_bases changes |}.

(** ** The downloads of a report

    The state of the loops is what was put together so far, and the files written. *)

Definition listed_not_found n : str :=
  lit "World " ++ n ++ lit " listed in changes but not found in index".

(* src: apwm/src/changes.rs:185-213 download_changed_apworlds *)
Definition download_version (opened : path -> result error unit) (dir : path) n (w : World)
    (acc : gmap Version Checksum * list (path * bytes)) (v : Version) :
    result error (gmap Version Checksum * list (path * bytes)) :=
  o ← some_or (lit "Version " ++ version_to_string v ++ lit " not found in world " ++ n ++
               lit " index definition") (versions w !! v);
  if is_supported o then Ok (<[v := CSupported]> acc.1, acc.2)
  else
    let dest_path := in_dir dir (n ++ lit "-" ++ version_to_string v ++ lit ".apworld") in
    _ ← opened dest_path;
    r ← copy_to w v None;
    Ok (<[v := CHash r.1]> acc.1,
        acc.2 ++ match r.2 with Some b => [(dest_path, b)] | None => [] end).

(* src: apwm/src/changes.rs:166-217 download_changed_apworlds *)
Definition download_changed_apworlds (create_dir_all opened : path -> result error unit)
    (changes : Changes) (i : Index) (output_dir : path) :
    result error (gmap str (gmap Version Checksum) * list (path * bytes)) :=
  let apworlds_dir := in_dir output_dir (lit "apworlds") in
  _ ← create_dir_all apworlds_dir;
  try_fold (fun (acc : gmap str (gmap Version Checksum) * list (path * bytes)) e =>
      if bool_decide (added_versions e.2 = []) then Ok acc
      else
        w ← some_or (listed_not_found e.1) (worlds i !! e.1);
        r ← try_fold (download_version opened apworlds_dir e.1 w) (∅, acc.2) (added_versions e.2);
        Ok (<[e.1 := r.1]> acc.1, r.2)) (∅, []) (bt_iter (c_worlds changes)).

(* src: apwm/src/changes.rs:246-274 download_from_changes *)
Definition download_pinned (opened : path -> result error unit) (destination : path) n (w : World)
    (wc : WorldChanges) (files : list (path * bytes)) (v : Version) :
    result error (list (path * bytes)) :=
  checksum ← some_or (lit "No checksum in changes.json for " ++ n ++ lit " version " ++
                      version_to_string v) (checksums wc !! v);
  match checksum with
  | CSupported => Ok files
  | CHash expected_hash =>
      o ← some_or (lit "Version " ++ version_to_string v ++ lit " not found in world " ++ n ++
                   lit " index definition") (versions w !! v);
      if is_supported o then Ok files
      else
        let dest_path := in_dir destination (n ++ lit "-" ++ version_to_string v ++ lit ".apworld") in
        _ ← opened dest_path;
        r ← copy_to w v (Some expected_hash);
        Ok (files ++ match r.2 with Some b => [(dest_path, b)] | None => [] end)
  end.

(* src: apwm/src/changes.rs:230-278 download_from_changes *)
Definition download_from_changes (create_dir_all opened : path -> result error unit)
    (changes : Changes) (i : Index) (destination : path) : result error (list (path * bytes)) :=
  _ ← create_dir_all destination;
  try_fold (fun files e =>
      if bool_decide (added_versions e.2 = []) then Ok files
      else
        w ← some_or (listed_not_found e.1) (worlds i !! e.1);
        try_fold (download_pinned opened destination e.1 w e.2) files (added_versions e.2))
    [] (bt_iter (c_worlds changes)).

(** ** Facts *)

(** Whether an index has a release. *)
Definition has (i : Index) n (v : Version) : Prop :=
  exists w, worlds i !! n = Some w /\ is_Some (versions w !! v).

#[export] Instance has_dec i n v : Decision (has i n v).
Proof.
  destruct (worlds i !! n) as [w|] eqn:E.
  - destruct (decide (is_Some (versions w !! v))) as [Hs|Hs].
    + left. by exists w.
    + right. intros (w' & Hw & Hs'). simplify_eq. done.
  - right. intros (w' & Hw & _). simplify_eq.
Defined.

(** The bases on which a report says a release was added, or removed. *)
Definition added_to (ws : gmap str WorldChanges) n (v : Version) : list Version :=
  match ws !! n with Some wc => default [] (added_on wc !! v) | None => [] end.
Definition removed_on (ws : gmap str WorldChanges) n (v : Version) : list Version :=
  match ws !! n with Some wc => default [] (removed_from wc !! v) | None => [] end.

Lemma each_on_base_lookup base vs v :
  each_on_base base vs !! v = if decide (v ∈ vs) then Some [base] else None.
Proof.
  unfold each_on_base.
  assert (forall m, fold_left (fun (m : gmap Version (list Version)) v => <[v := [base]]> m) vs m !! v
    = if decide (v ∈ vs) then Some [base] else m !! v) as Hg.
  { induction vs as [|v1 vs IH]; intros m; simpl; [done|]. rewrite IH.
    destruct (decide (v ∈ vs)) as [Hin|Hin].
    - by rewrite decide_True by (by right).
    - destruct (decide (v = v1)) as [->|Hne].
      + rewrite lookup_insert_eq. by rewrite decide_True by left.
      + rewrite lookup_insert_ne by done. rewrite decide_False; [done|].
        by intros [?|?]%elem_of_cons. }
  rewrite Hg. by rewrite lookup_empty.
Qed.

Lemma elem_of_keys_not_in {A B} (m : gmap Version A) (other : gmap Version B) v :
  v ∈ keys_not_in m other <-> is_Some (m !! v) /\ ~ is_Some (other !! v).
Proof.
  unfold keys_not_in. rewrite elem_of_filter_bool, elem_of_bt_keys, negb_true_iff.
  by rewrite bool_decide_eq_false.
Qed.

Definition changes_of (old new : Index) n : option WorldChanges :=
  let base := archipelago_version new in
  match worlds old !! n, worlds new !! n with
  | None, None => None
  | None, Some w => Some (on_base (name w) (bt_keys (versions w)) [] base)
  | Some w, None => Some (on_base (name w) [] (bt_keys (versions w)) base)
  | Some wo, Some wn =>
      let added := keys_not_in (versions wn) (versions wo) in
      let removed := keys_not_in (versions wo) (versions wn) in
      if bool_decide (added = []) && bool_decide (removed = []) then None
      else Some (on_base (name wn) added removed base)
  end.

Lemma compute_changes_lookup old new n :
  c_worlds (compute_changes old new) !! n = changes_of old new n.
Proof.
  unfold compute_changes, changes_of. cbn [c_worlds].
  rewrite (fold_bt_lookup _ (fun n w o => match worlds new !! n with
    | Some _ => o
    | None => Some (on_base (name w) [] (bt_keys (versions w)) (archipelago_version new)) end)).
  2: { intros acc k1 w k. simpl. destruct (worlds new !! k1) eqn:E; case_decide; subst;
       rewrite ?E; by simplify_map_eq. }
  rewrite (fold_bt_lookup _ (fun n w o => match worlds old !! n with
    | None => Some (on_base (name w) (bt_keys (versions w)) [] (archipelago_version new))
    | Some wo =>
        if bool_decide (keys_not_in (versions w) (versions wo) = []) &&
           bool_decide (keys_not_in (versions wo) (versions w) = []) then o
        else Some (on_base (name w) (keys_not_in (versions w) (versions wo))
                     (keys_not_in (versions wo) (versions w)) (archipelago_version new)) end)).
  2: { intros acc k1 w k. simpl. destruct (worlds old !! k1) eqn:E.
       - destruct (_ && _) eqn:Eb; case_decide; subst; rewrite ?E, ?Eb; by simplify_map_eq.
       - case_decide; subst; rewrite ?E; by simplify_map_eq. }
  rewrite lookup_empty. destruct (worlds old !! n), (worlds new !! n); done.
Qed.

Lemma default_each base vs v (Q : Prop) `{Decision Q} :
  (v ∈ vs <-> Q) ->
  default [] (each_on_base base vs !! v) = if decide Q then [base] else [].
Proof. intros HQ. rewrite each_on_base_lookup, (decide_ext _ _ _ _ HQ). by destruct (decide Q). Qed.

Lemma has_world i n w v : worlds i !! n = Some w -> has i n v <-> is_Some (versions w !! v).
Proof. intros Hw. unfold has. split; [intros (w' & Hw' & ?); by simplify_eq|]. by exists w. Qed.

Lemma has_no_world i n v : worlds i !! n = None -> ~ has i n v.
Proof. intros Hw (w & Hw' & _). congruence. Qed.

(** On one base: added exactly when the new view has the release and the old one doesn't. *)
Lemma compute_changes_exact old new n v :
  added_to (c_worlds (compute_changes old new)) n v =
    (if decide (has new n v /\ ~ has old n v) then [archipelago_version new] else []) /\
  removed_on (c_worlds (compute_changes old new)) n v =
    (if decide (has old n v /\ ~ has new n v) then [archipelago_version new] else []).
Proof.
  unfold added_to, removed_on. rewrite compute_changes_lookup. unfold changes_of.
  destruct (worlds old !! n) as [wo|] eqn:Eo, (worlds new !! n) as [wn|] eqn:En.
  - pose proof (has_world old n wo v Eo) as Ho. pose proof (has_world new n wn v En) as Hn.
    pose proof (elem_of_keys_not_in (versions wn) (versions wo) v) as Ha.
    pose proof (elem_of_keys_not_in (versions wo) (versions wn) v) as Hr.
    destruct (_ && _) eqn:Eb.
    + reflect_bools.
      match goal with H1 : keys_not_in (versions wn) _ = [], H2 : keys_not_in (versions wo) _ = [] |- _ =>
        rewrite H1 in Ha; rewrite H2 in Hr end.
      rewrite !decide_False; [done|..]; rewrite Ho, Hn, <- ?Ha, <- ?Hr; apply not_elem_of_nil.
    + cbn [on_base added_on removed_from]. split; apply default_each; by rewrite Ho, Hn.
  - pose proof (has_world old n wo v Eo) as Ho. pose proof (has_no_world new n v En) as Hn.
    cbn [on_base added_on removed_from]. split; apply default_each.
    + split; [by intros ?%elem_of_nil|by intros [? _]].
    + rewrite elem_of_bt_keys, Ho. by split; [|intros [? _]].
  - pose proof (has_world new n wn v En) as Hn. pose proof (has_no_world old n v Eo) as Ho.
    cbn [on_base added_on removed_from]. split; apply default_each.
    + rewrite elem_of_bt_keys, Hn. by split; [|intros [? _]].
    + split; [by intros ?%elem_of_nil|by intros [? _]].
  - pose proof (has_no_world old n v Eo). pose proof (has_no_world new n v En).
    by rewrite !decide_False by (by intros [? _]).
Qed.

(** Merging puts the bases of the other report after those known. *)
Lemma extend_all_lookup (m other : gmap Version (list Version)) v :
  default [] (extend_all m other !! v) = default [] (m !! v) ++ default [] (other !! v).
Proof.
  unfold extend_all. rewrite (fold_bt_lookup _ (fun v bs o => Some (default [] o ++ bs))).
  - destruct (other !! v); simpl; [done|by rewrite app_nil_r].
  - intros acc k1 bs k. simpl. case_decide; subst; by simplify_map_eq.
Qed.

Lemma merge_changes_lookup (acc changes : gmap str WorldChanges) n v :
  added_to (merge_changes acc changes) n v = added_to acc n v ++ added_to changes n v /\
  removed_on (merge_changes acc changes) n v = removed_on acc n v ++ removed_on changes n v.
Proof.
  unfold added_to, removed_on, merge_changes.
  rewrite (fold_bt_lookup _ (fun n wc o => match o with Some m => Some (merge m wc) | None => Some wc end)).
  - destruct (changes !! n) as [wc|], (acc !! n) as [m|]; cbn [merge added_on removed_from];
      rewrite ?extend_all_lookup, ?app_nil_r; done.
  - intros a k1 wc k. simpl. destruct (a !! k1) eqn:E; case_decide; subst; rewrite ?E; by simplify_map_eq.
Qed.

(** Whether a base gained or lost a release, from its views in the old and in the new index. *)
Definition gained (old new : IndexSet) n (v base : Version) : Prop :=
  exists io iw, view_for_base old base = Ok io /\ get new base = Some iw /\
    has iw n v /\ ~ has io n v.
Definition lost (old new : IndexSet) n (v base : Version) : Prop :=
  exists io iw, view_for_base old base = Ok io /\ get new base = Some iw /\
    has io n v /\ ~ has iw n v.

Lemma changes_between_exact old new ch :
  compute_changes_between old new = Ok ch ->
  (forall base i, get new base = Some i -> archipelago_version i = base) ->
  forall n v base,
    (base ∈ added_to (c_worlds ch) n v <-> gained old new n v base) /\
    (base ∈ removed_on (c_worlds ch) n v <-> lost old new n v base).
Proof.
  intros Hc Hbase n v base. unfold compute_changes_between in Hc.
  apply result_bind_Ok_inv in Hc as (ws & Hws & [= <-]). cbn [c_worlds].
  assert (forall l acc ws, try_fold (changes_on_base old new) acc l = Ok ws ->
    (base ∈ added_to ws n v <-> base ∈ added_to acc n v \/ (base ∈ l /\ gained old new n v base)) /\
    (base ∈ removed_on ws n v <-> base ∈ removed_on acc n v \/ (base ∈ l /\ lost old new n v base)))
    as Hl.
  { induction l as [|b l IH]; intros acc ws1 Hf; cbn [try_fold] in Hf.
    { simplify_eq. split; (split; [by left|]); intros [?|[Hin _]]; [done|by apply elem_of_nil in Hin|
        done|by apply elem_of_nil in Hin]. }
    apply result_bind_Ok_inv in Hf as (acc1 & Hstep & Hf).
    apply result_bind_Ok_inv in Hstep as (io & Hio & Hstep).
    apply result_bind_Ok_inv in Hstep as (iw & Hiw & Hacc).
    assert (merge_changes acc (c_worlds (compute_changes io iw)) = acc1) as <- by congruence.
    destruct (get new b) as [iw'|] eqn:Eb; simpl in Hiw; [|done]. injection Hiw as ->.
    apply IH in Hf as [Ha Hr]. rewrite Ha, Hr.
    destruct (merge_changes_lookup acc (c_worlds (compute_changes io iw)) n v) as [-> ->].
    destruct (compute_changes_exact io iw n v) as [-> ->].
    rewrite (Hbase b iw Eb), !elem_of_app, !elem_of_cons.
    assert (base ∈ (if decide (has iw n v /\ ~ has io n v) then [b] else []) <->
            base = b /\ gained old new n v base) as ->.
    { case_decide as Hd.
      - rewrite list_elem_of_singleton. split; [|by intros [-> _]]. intros ->.
        split; [done|]. by exists io, iw.
      - split; [by intros ?%elem_of_nil|]. intros (-> & io' & iw' & Hio' & Hiw' & Hg).
        exfalso. apply Hd.
        assert (io' = io) as -> by congruence. assert (iw' = iw) as -> by congruence. exact Hg. }
    assert (base ∈ (if decide (has io n v /\ ~ has iw n v) then [b] else []) <->
            base = b /\ lost old new n v base) as ->.
    { case_decide as Hd.
      - rewrite list_elem_of_singleton. split; [|by intros [-> _]]. intros ->.
        split; [done|]. by exists io, iw.
      - split; [by intros ?%elem_of_nil|]. intros (-> & io' & iw' & Hio' & Hiw' & Hg).
        exfalso. apply Hd.
        assert (io' = io) as -> by congruence. assert (iw' = iw) as -> by congruence. exact Hg. }
    tauto. }
  destruct (Hl _ _ _ Hws) as [-> ->].
  assert (forall P : Prop, (P -> is_Some (get new base)) -> (base ∈ bases new /\ P <-> P)) as Hin.
  { intros Q HQ. split; [by intros [_ ?]|]. intros HP. split; [|done].
    by apply elem_of_bt_keys, HQ. }
  rewrite !Hin by (intros (io & iw & _ & Hiw & _); by eexists).
  unfold added_to, removed_on. rewrite lookup_empty. split; (split; [intros [?%elem_of_nil|?]|]); tauto.
Qed.
End changes.
