(* ===== verification/ApwmLint.v ===== *)
(** * Checks on an index (crate [apwm])

    [apwm/src/lint.rs], and the lobby's report on moving a room to another base
    ([lobby/src/base_switch.rs]), which reads a manifest against two indexes. *)

From S2P Require Import Prelude Ord RustStd Apwm ApwmFacts ApwmIndex ApwmIndexFacts.

(** The [toml] crate: a table gives its entries in order. *)
Class Toml := {
  toml_value : Type;
  as_table : toml_value -> option (list (str * toml_value));
  read_table : path -> result error (list (str * toml_value));
}.

Section lint.
Context `{SemVer} `{Outside} `{Toml}.
Implicit Types (base : Version).

Definition toml_table : Type := list (str * toml_value).
Definition table_get (t : toml_table) (k : str) : option toml_value :=
  snd <$> List.find (fun e => str_eqb e.1 k) t.
Definition has_key (t : toml_table) (k : str) : bool := existsb (fun e => str_eqb e.1 k) t.

(* src: apwm/src/lint.rs:18-24 INDEX_KEYS *)
Definition INDEX_KEYS : list str :=
  [lit "archipelago_repo"; lit "archipelago_version"; lit "index_homepage"; lit "index_dir";
   lit "bases"].
(* src: apwm/src/lint.rs:25-37 WORLD_KEYS *)
Definition WORLD_KEYS : list str :=
  [lit "name"; lit "display_name"; lit "default_url"; lit "default_version"; lit "home";
   lit "versions"; lit "releases"; lit "disabled"; lit "supported"; lit "tags"; lit "base"].
(* src: apwm/src/lint.rs:38-38 VERSION_KEYS *)
Definition VERSION_KEYS : list str := [lit "url"; lit "local"].
(* src: apwm/src/lint.rs:39-39 RELEASE_KEYS *)
Definition RELEASE_KEYS : list str :=
  [lit "min_ap_version"; lit "max_ap_version"; lit "url"; lit "local"].
(* src: apwm/src/lint.rs:40-40 BASE_OVERRIDE_KEYS *)
Definition BASE_OVERRIDE_KEYS : list str :=
  [lit "supported"; lit "disabled"; lit "default_version"].

(* src: apwm/src/lint.rs:42-46 Severity *)
Inductive Severity := SError | SWarning.

#[export] Instance Severity_eq_dec : EqDecision Severity.
Proof. solve_decision. Defined.

(* src: apwm/src/lint.rs:48-54 Problem *)
Record Problem := { severity : Severity; file : path; message : str }.

(* src: apwm/src/lint.rs:56-65 Problem::fmt *)
Definition Problem_to_string (p : Problem) : str :=
  match severity p with SError => lit "error" | SWarning => lit "warning" end ++
  lit ": " ++ path_display (file p) ++ lit ": " ++ message p.

(** The problems reported on one file, in order: a severity and a message. *)
(* src: apwm/src/lint.rs:67-70 Report *)
Definition Report : Type := list (Severity * str).

(* src: apwm/src/lint.rs:73-75 Report::error *)
Definition report_error (m : str) : Report := [(SError, m)].
(* src: apwm/src/lint.rs:77-79 Report::warning *)
Definition report_warning (m : str) : Report := [(SWarning, m)].

(* src: apwm/src/lint.rs:81-87 Report::push *)
Definition problems (f : path) (r : Report) : list Problem :=
  (fun e => {| severity := e.1; file := f; message := e.2 |}) <$> r.

(* src: apwm/src/lint.rs:89-97 Report::unknown_keys *)
Definition unknown_keys (t : toml_table) (known : list str) (location : str) : Report :=
  flat_map (fun e =>
    if existsb (str_eqb e.1) known then []
    else report_error (lit "`" ++ e.1 ++ lit "` isn't a known key " ++ location ++
                       lit ", it would be ignored")) t.

(** [path.strip_prefix(root)]. *)
Definition strip_prefix (p root : path) : option path :=
  if bool_decide (absolute p = absolute root) then
    if bool_decide (take (length (components root)) (components p) = components root) then
      Some (Path false (drop (length (components root)) (components p)))
    else None
  else None.

(* src: apwm/src/lint.rs:120-139 lint_index_file *)
Definition lint_index_file (index_path root : path) (s : IndexSet) :
    result error (list Problem) :=
  raw ← read_table index_path;
  let legacy := version_to_string (legacy_base s) in
  Ok (problems (default index_path (strip_prefix index_path root))
    (unknown_keys raw INDEX_KEYS (lit "of the index") ++
     match table_get raw (lit "bases") ≫= as_table with
     | Some bases =>
         if negb (bool_decide (length bases = 0%nat)) && negb (has_key bases legacy) then
           report_warning (lit "`[bases]` doesn't list " ++ legacy ++
             lit ". It's a base anyway, since it's the `archipelago_version`")
         else []
     | None => []
     end)).

(* src: apwm/src/lint.rs:203-232 lint_versions_table *)
Definition lint_versions_table (raw : toml_table) : Report :=
  match table_get raw (lit "versions") ≫= as_table with
  | None => []
  | Some vs =>
      flat_map (fun e =>
        match as_table e.2 with
        | None => report_warning (e.1 ++ lit " in `[versions]` should be a table, like `{}`")
        | Some entry =>
            if (1 <? length entry)%nat then
              report_error (e.1 ++ lit " in `[versions]` has " ++
                N_to_str (N.of_nat (length entry)) ++
                lit " keys. Older lobbies silently drop the `url` or `local` of an entry with more than one, constraints go in `[releases]`")
            else
              flat_map (fun k =>
                if existsb (str_eqb k.1) VERSION_KEYS then []
                else report_error (lit "`" ++ k.1 ++ lit "` on " ++ e.1 ++
                       lit " in `[versions]` is ignored there. Constraints go in `[releases]`"))
                entry
        end) vs
  end.

(** What is said of one release, read with its constraints. *)
(* src: apwm/src/lint.rs:252-276 lint_releases_table *)
Definition lint_release (d : WorldDef) (legacy : Version) (v : Version) (r : Release) : Report :=
  let in_versions := bool_decide (is_Some (d_versions d !! v)) in
  let constrained := bool_decide (is_Some (min_ap_version r)) || bool_decide (is_Some (max_ap_version r)) in
  let has_origin := bool_decide (is_Some (url r)) || bool_decide (is_Some (local r)) in
  let vs := version_to_string v in
  match min_ap_version r, max_ap_version r with
  | Some lo, Some hi =>
      if bool_decide (ord_lt hi lo) then
        report_error (vs ++ lit " in `[releases]` can't run anywhere: its minimum " ++
          version_to_string lo ++ lit " is above its maximum " ++ version_to_string hi)
      else []
  | _, _ => []
  end ++
  (if in_versions && negb constrained && negb has_origin then
     report_warning (vs ++ lit " in `[releases]` changes nothing, it's already in `[versions]`")
   else []) ++
  (if negb in_versions && negb (d_disabled d) && runs_on r legacy then
     report_warning (vs ++ lit " can run on " ++ version_to_string legacy ++
       lit " but is only in `[releases]`, so older lobbies won't offer it. Add it to `[versions]` too")
   else []).

(* src: apwm/src/lint.rs:234-277 lint_releases_table *)
Definition lint_releases_table (raw : toml_table) (d : WorldDef) (legacy : Version) : Report :=
  match table_get raw (lit "releases") ≫= as_table with
  | None => []
  | Some rs =>
      flat_map (fun e =>
        match as_table e.2 with
        | Some entry => unknown_keys entry RELEASE_KEYS (lit "of " ++ e.1 ++ lit " in `[releases]`")
        | None => []
        end) rs
  end ++
  flat_map (fun e => lint_release d legacy e.1 e.2) (bt_iter (releases d)).

Definition base_table (requirement : str) : str :=
  lit "`[base." ++ [34%N] ++ requirement ++ [34%N] ++ lit "]`".

(* src: apwm/src/lint.rs:279-304 lint_base_tables *)
Definition lint_base_tables (raw : toml_table) (d : WorldDef) (s : IndexSet) : Report :=
  match table_get raw (lit "base") ≫= as_table with
  | None => []
  | Some overrides =>
      flat_map (fun e =>
        match as_table e.2 with
        | Some entry => unknown_keys entry BASE_OVERRIDE_KEYS (lit "of " ++ base_table e.1)
        | None => []
        end) overrides
  end ++
  flat_map (fun e =>
    if existsb (requirement_matches e.1) (bases s) then []
    else report_warning (base_table (requirement_to_string e.1) ++
           lit " doesn't match any base the index declares")) (base_overrides d).

(** A version older lobbies offer although it can't run on their base. *)
(* src: apwm/src/lint.rs:163-172 lint_world *)
Definition lint_offered (d : WorldDef) (legacy : Version) : Report :=
  flat_map (fun v =>
    match releases d !! v with
    | None => []
    | Some r =>
        if negb (runs_on r legacy) then
          report_error (version_to_string v ++
            lit " is in `[versions]`, so older lobbies offer it, but `[releases]` says it can't run on " ++
            version_to_string legacy ++ lit ". Keep it in `[releases]` only")
        else []
    end) (bt_keys (d_versions d)).

(* src: apwm/src/lint.rs:180-198 lint_world *)
Definition lint_default (s : IndexSet) (apworld_name : str) base : Report :=
  match get s base ≫= fun i => worlds i !! apworld_name with
  | None => []
  | Some w =>
      match default_version w with
      | Specific v =>
          if bool_decide (is_Some (versions w !! v)) then []
          else report_error (lit "the default version " ++ version_to_string v ++
                 lit " isn't available on Archipelago " ++ version_to_string base)
      | LatestSupported =>
          if supported w then []
          else report_error (lit "the default version is `latest_supported` but the world isn't supported on Archipelago " ++
                 version_to_string base)
      | _ => []
      end
  end.

(* src: apwm/src/lint.rs:141-201 lint_world *)
Definition lint_world (apworld_name : str) (d : WorldDef) (root : path) (s : IndexSet) :
    result error (list Problem) :=
  raw ← read_table (d_path d);
  let legacy := legacy_base s in
  Ok (problems (default (d_path d) (strip_prefix (d_path d) root))
    (unknown_keys raw WORLD_KEYS (lit "of a world") ++
     lint_versions_table raw ++
     lint_releases_table raw d legacy ++
     lint_base_tables raw d s ++
     lint_offered d legacy ++
     (if bool_decide (d_versions d = ∅) && negb (d_supported d) && negb (d_disabled d) then
        report_error (lit "this world has nothing in `[versions]` and isn't `supported`, older lobbies fail on a world without a release. Set `disabled = true` at the top level and enable it in a `[base." ++
          [34%N] ++ lit "..." ++ [34%N] ++ lit "]` table")
      else []) ++
     flat_map (lint_default s apworld_name) (bases s))).

(* src: apwm/src/lint.rs:100-111 lint *)
Definition lint (index_path : path) (parsed : result error IndexFile)
    (read_dir : path -> result error (list (path * result error WorldDef))) :
    result error (list Problem) :=
  s ← IndexSet_new index_path parsed read_dir;
  root ← some_or (lit "Invalid index path") (path_parent index_path);
  ps ← lint_index_file index_path root s;
  try_fold (fun ps e => more ← lint_world e.1 e.2 root s; Ok (ps ++ more)) ps
    (bt_iter (world_defs s)).

(** The command: whether the index is free of errors, and the counts it prints. *)
(* src: apwm/src/bin/apwm.rs:119-133 lint *)
Definition lint_command (ps : list Problem) : bool * (nat * nat) :=
  let errors := length (List.filter (fun p => bool_decide (severity p = SError)) ps) in
  (bool_decide (errors = 0%nat), (errors, (length ps - errors)%nat)).

(** ** Other commands *)

(** [str::splitn(2, ':')] and the check of its length. *)
Fixpoint split_once (sep : char) (s : str) : option (str * str) :=
  match s with
  | [] => None
  | c :: s =>
      if (c =? sep)%N then Some ([], s)
      else '(a, b) ← split_once sep s; Some (c :: a, b)
  end.

(* src: apwm/src/bin/apwm.rs:172-183 apworld_version_from_precise *)
Definition apworld_version_from_precise (precise : option str) :
    result error (option (str * Version)) :=
  match precise with
  | None => Ok None
  | Some p =>
      match split_once 58 p with
      | None => bail (lit "Precise version need to be of the form <apworld>:<version>")
      | Some (n, v) => v ← version_parse v; Ok (Some (n, v))
      end
  end.

(** The release [install] copies for a world, if any. *)
(* src: apwm/src/bin/apwm.rs:204-219 install *)
Definition install_version (target : option (str * Version)) (world_name : str) (w : World) :
    option Version :=
  match target with
  | Some (target_apworld, target_version) =>
      if str_eqb target_apworld world_name then Some target_version else None
  | None =>
      '(v, o) ← get_latest_release w;
      if is_supported o then None else Some v
  end.

(** The copies made, each from the downloaded file to the installed one. *)
(* src: apwm/src/bin/apwm.rs:185-228 install *)
Definition install (create_dir_all : path -> result error unit)
    (copy : path -> path -> result error unit) (s : IndexSet) (apworlds_path destination : path)
    (precise : option str) (base : option Version) : result error (option (list (path * path))) :=
  i ← match base with
      | Some base =>
          i ← some_or (lit "The index doesn't describe Archipelago " ++ version_to_string base)
                (get s base);
          Ok (Some i)
      | None => Ok (legacy s)
      end;
  match i with
  | None => Ok None
  | Some i =>
      _ ← context (lit "While creating destination dir") (create_dir_all destination);
      target ← apworld_version_from_precise precise;
      copies ← try_fold (fun copies e =>
          match install_version target e.1 e.2 with
          | None => Ok copies
          | Some v =>
              let from := get_world_local_path apworlds_path e.1 v in
              let to := in_dir destination (e.1 ++ lit ".apworld") in
              _ ← context (lit "Cannot copy " ++ path_debug from ++ lit " to " ++ path_debug to)
                     (copy from to);
              Ok (copies ++ [(from, to)])
          end) [] (bt_iter (worlds i));
      Ok (Some copies)
  end.

(** ** Moving a room to another base *)

(* src: lobby/src/base_switch.rs:21-32 ChangeKind *)
Inductive ChangeKind :=
| Lost (from : Version)
| PinNotAvailable (pinned to : Version)
| Moved (from to : Version)
| Gained (to : Version).

(* src: lobby/src/base_switch.rs:12-19 WorldChange *)
Record WorldChange := { game : str; yamls : nat; change_kind : ChangeKind }.

(* src: lobby/src/base_switch.rs:34-42 SwitchReport *)
Record SwitchReport := {
  warnings : list WorldChange;
  changes : list WorldChange;
  unchanged : nat;
}.

(* src: lobby/src/base_switch.rs:99-106 unavailable_pin *)
Definition unavailable_pin (m : Manifest) (i : Index) (game : str) : option Version :=
  '(apworld_name, w) ← find_world i game;
  match get_version_req m apworld_name i with
  | Specific pinned => if bool_decide (is_Some (versions w !! pinned)) then None else Some pinned
  | _ => None
  end.

(* src: lobby/src/base_switch.rs:52-55 switch_report *)
Definition yamls_per_game (games : list str) : gmap str nat :=
  fold_left (fun (m : gmap str nat) game => <[game := S (default 0 (m !! game))]> m)%nat games ∅.

(** What happens to a game: [None] when there is nothing to say, [inr] of what there is. *)
(* src: lobby/src/base_switch.rs:59-81 switch_report *)
Definition switch_kind (m : Manifest) (current target : Index) (game : str) :
    option (unit + ChangeKind) :=
  let from := snd <$> ok (resolve_from_game_name m game current) in
  let to := snd <$> ok (resolve_from_game_name m game target) in
  match from, to with
  | None, None => None
  | Some from, None => Some (inr (Lost from))
  | None, Some to => Some (inr (Gained to))
  | Some from, Some to =>
      if bool_decide (from = to) then Some (inl tt)
      else match unavailable_pin m target game with
           | Some pinned => Some (inr (PinNotAvailable pinned to))
           | None => Some (inr (Moved from to))
           end
  end.

(* src: lobby/src/base_switch.rs:58-94 switch_report *)
Definition switch_step (m : Manifest) (current target : Index) (r : SwitchReport)
    (e : str * nat) : SwitchReport :=
  match switch_kind m current target e.1 with
  | None => r
  | Some (inl _) =>
      {| warnings := warnings r; changes := changes r; unchanged := S (unchanged r) |}
  | Some (inr kind) =>
      let change := {| game := e.1; yamls := e.2; change_kind := kind |} in
      match kind with
      | Lost _ | PinNotAvailable _ _ =>
          {| warnings := warnings r ++ [change]; changes := changes r; unchanged := unchanged r |}
      | Moved _ _ | Gained _ =>
          {| warnings := warnings r; changes := changes r ++ [change]; unchanged := unchanged r |}
      end
  end.

(* src: lobby/src/base_switch.rs:44-97 switch_report *)
Definition switch_report (m : Manifest) (current target : Index) (games : list str) :
    SwitchReport :=
  fold_left (switch_step m current target) (bt_iter (yamls_per_game games))
    {| warnings := []; changes := []; unchanged := 0 |}.
End lint.

(** ** What an index without lint errors guarantees, and what the report of a move says *)

Section facts.
Context `{SemVer} `{Outside} `{Toml}.
Implicit Types (base v : Version) (w : World) (d : WorldDef) (s : IndexSet) (n game : str).

Definition no_errors (r : Report) : Prop := forall m, (SError, m) ∉ r.

Lemma no_errors_app r1 r2 : no_errors (r1 ++ r2) <-> no_errors r1 /\ no_errors r2.
Proof. unfold no_errors. setoid_rewrite not_elem_of_app. firstorder. Qed.

Lemma no_errors_flat_map {A} (f : A -> Report) l :
  no_errors (flat_map f l) <-> forall x, x ∈ l -> no_errors (f x).
Proof.
  unfold no_errors. split.
  - intros Hall x Hx m Hm. apply (Hall m). apply list_elem_of_In, in_flat_map.
    exists x. split; by apply list_elem_of_In.
  - intros Hall m Hm. apply list_elem_of_In, in_flat_map in Hm as (x & Hx & Hm).
    apply (Hall x (proj2 (list_elem_of_In _ _) Hx) m). by apply list_elem_of_In.
Qed.

Lemma no_errors_error m : ~ no_errors (report_error m).
Proof. intros Hn. apply (Hn m). left. Qed.

Lemma problems_no_errors f r :
  (forall p, p ∈ problems f r -> severity p = SWarning) -> no_errors r.
Proof.
  intros Hall m Hm. apply (list_elem_of_fmap_2 (fun e => {| severity := e.1; file := f; message := e.2 |})) in Hm.
  apply Hall in Hm. discriminate.
Qed.

Definition clean (ps : list Problem) : Prop := forall p, p ∈ ps -> severity p = SWarning.

(** The parts of a world's report that say whether it's safe. *)
Lemma lint_world_clean n d root s ps :
  lint_world n d root s = Ok ps -> clean ps ->
  no_errors (lint_offered d (legacy_base s)) /\
  (d_versions d = ∅ -> d_supported d = true \/ d_disabled d = true) /\
  forall base, base ∈ bases s -> no_errors (lint_default s n base).
Proof.
  unfold lint_world. intros (raw & _ & [= <-])%result_bind_Ok_inv Hc.
  apply problems_no_errors in Hc.
  rewrite !no_errors_app, no_errors_flat_map in Hc.
  destruct Hc as (_ & _ & _ & _ & Hoff & Hempty & Hdef).
  split_and!; [done| |done]. intros He. rewrite bool_decide_true in Hempty by done.
  destruct (d_supported d); [by left|]. destruct (d_disabled d); [by right|].
  by apply no_errors_error in Hempty.
Qed.

Lemma lint_offered_clean d legacy v o r :
  no_errors (lint_offered d legacy) -> d_versions d !! v = Some o -> releases d !! v = Some r ->
  runs_on r legacy = true.
Proof.
  unfold lint_offered. rewrite no_errors_flat_map. intros Hall Hv Hr.
  specialize (Hall v ltac:(apply elem_of_bt_keys; by eexists)). rewrite Hr in Hall.
  destruct (runs_on r legacy); [done|]. by apply no_errors_error in Hall.
Qed.

(** What a clean report says of the default version of a world on a base. *)
Lemma lint_default_clean s n base i w :
  no_errors (lint_default s n base) -> get s base = Some i -> worlds i !! n = Some w ->
  versions w <> ∅ -> (supported w = true -> exists v o, versions w !! v = Some o /\ is_supported o = true) ->
  default_version w = Disabled \/ is_Some (wanted w Latest).
Proof.
  unfold lint_default. intros Hd Hi Hw Hne Hsup. rewrite Hi in Hd. simpl in Hd. rewrite Hw in Hd.
  unfold wanted. destruct (default_version w) as [| | |v]; [by left|right..].
  - destruct (get_latest_release w) as [e|] eqn:E; [by eexists|].
    by apply latest_release_none in E.
  - destruct (supported w); [|by apply no_errors_error in Hd].
    destruct (Hsup eq_refl) as (v & o & Hv & Ho).
    destruct (get_latest_supported_release w) as [e|] eqn:E; [by eexists|].
    unfold get_latest_supported_release in E. rewrite find_bt_iter_none in E.
    specialize (E v o Hv). simpl in E. congruence.
  - case_bool_decide as Hs; [|by apply no_errors_error in Hd].
    rewrite decide_True by done. by eexists.
Qed.

Lemma lint_worlds index_path parsed read_dir ps s :
  lint index_path parsed read_dir = Ok ps -> IndexSet_new index_path parsed read_dir = Ok s ->
  forall n d, world_defs s !! n = Some d ->
    exists root more, lint_world n d root s = Ok more /\ forall p, p ∈ more -> p ∈ ps.
Proof.
  unfold lint. intros Hl Hs n d Hd. rewrite Hs in Hl. simpl in Hl.
  apply result_bind_Ok_inv in Hl as (root & _ & (ps0 & _ & Hf)%result_bind_Ok_inv).
  apply elem_of_bt_iter in Hd. exists root. revert ps0 Hf.
  induction (bt_iter (world_defs s)) as [|e l IH]; [by apply elem_of_nil in Hd|].
  intros ps0 Hf. cbn [try_fold] in Hf.
  apply result_bind_Ok_inv in Hf as (ps1 & (more & Hmore & [= <-])%result_bind_Ok_inv & Hf).
  apply elem_of_cons in Hd as [<-|Hd]; [|by eapply IH].
  exists more. split; [done|]. clear IH. intros p Hp.
  assert (p ∈ ps0 ++ more) as Hin by (apply elem_of_app; by right).
  revert Hin Hf. generalize (ps0 ++ more) as acc. clear Hp.
  induction l as [|e l IH]; intros acc Hin Hf; cbn [try_fold] in Hf; [by simplify_eq|].
  apply result_bind_Ok_inv in Hf as (ps1 & (more1 & _ & [= <-])%result_bind_Ok_inv & Hf).
  eapply IH; [|done]. apply elem_of_app. by left.
Qed.

(** ** Moving a room *)

Lemma yamls_per_game_lookup games game :
  yamls_per_game games !! game =
  if decide (game ∈ games) then Some (length (List.filter (str_eqb game) games)) else None.
Proof.
  unfold yamls_per_game.
  assert (forall m, fold_left (fun (m : gmap str nat) g => <[g := S (default 0 (m !! g))]> m)%nat games m !! game
    = if decide (game ∈ games)
      then Some (default 0 (m !! game) + length (List.filter (str_eqb game) games))%nat
      else m !! game) as Hg; [|rewrite Hg, lookup_empty; done].
  induction games as [|g games IH]; intros m; simpl; [done|]. rewrite IH. unfold str_eqb at 2.
  destruct (decide (game = g)) as [->|Hne].
  - rewrite bool_decide_true, lookup_insert_eq by done. simpl.
    rewrite (decide_True (P := g ∈ g :: games)) by left.
    destruct (decide (g ∈ games)); simpl; f_equal; [lia|].
    assert (List.filter (str_eqb g) games = []) as ->; [|simpl; lia].
    destruct (List.filter (str_eqb g) games) as [|x l] eqn:E; [done|]. exfalso.
    assert (x ∈ List.filter (str_eqb g) games) as [Hin Hx]%elem_of_filter_bool by (rewrite E; left).
    reflect_bools. congruence.
  - rewrite bool_decide_false, lookup_insert_ne by done.
    apply decide_ext. rewrite elem_of_cons. naive_solver.
Qed.

(** A change that its owner is warned about. *)
Definition warns (k : ChangeKind) : bool :=
  match k with Lost _ | PinNotAvailable _ _ => true | _ => false end.

Lemma switch_report_split m current target games :
  let r := switch_report m current target games in
  let l := bt_iter (yamls_per_game games) in
  let pick (b : bool) := omap (fun e : str * nat =>
    match switch_kind m current target e.1 with
    | Some (inr k) => if Bool.eqb (warns k) b then Some {| game := e.1; yamls := e.2; change_kind := k |} else None
    | _ => None
    end) l in
  warnings r = pick true /\ changes r = pick false /\
  unchanged r = length (List.filter (fun e : str * nat =>
    match switch_kind m current target e.1 with Some (inl _) => true | _ => false end) l).
Proof.
  simpl. unfold switch_report. generalize (bt_iter (yamls_per_game games)) as l. intros l.
  assert (forall r, fold_left (switch_step m current target) l r =
    {| warnings := warnings r ++ omap (fun e : str * nat =>
         match switch_kind m current target e.1 with
         | Some (inr k) => if Bool.eqb (warns k) true then Some {| game := e.1; yamls := e.2; change_kind := k |} else None
         | _ => None
         end) l;
       changes := changes r ++ omap (fun e : str * nat =>
         match switch_kind m current target e.1 with
         | Some (inr k) => if Bool.eqb (warns k) false then Some {| game := e.1; yamls := e.2; change_kind := k |} else None
         | _ => None
         end) l;
       unchanged := (unchanged r + length (List.filter (fun e : str * nat =>
         match switch_kind m current target e.1 with Some (inl _) => true | _ => false end) l))%nat |}) as Hl.
  { induction l as [|e l IH]; intros r; simpl.
    - destruct r; simpl. by rewrite !app_nil_r, Nat.add_0_r.
    - rewrite IH. unfold switch_step. destruct (switch_kind m current target e.1) as [[[]|[]]|];
        simpl; rewrite <- ?(assoc_L (++)), <- ?Nat.add_succ_comm; done. }
  rewrite Hl. done.
Qed.

(** A pin that the target doesn't have falls back on its newest release. *)
Lemma switch_pin m current target game pinned to :
  switch_kind m current target game = Some (inr (PinNotAvailable pinned to)) ->
  exists n w o, find_world target game = Some (n, w) /\
    get_version_req m n target = Specific pinned /\ versions w !! pinned = None /\
    get_latest_release w = Some (to, o).
Proof.
  unfold switch_kind, unavailable_pin.
  destruct (snd <$> ok (resolve_from_game_name m game current)) as [from|]; [|by case_match].
  destruct (snd <$> ok (resolve_from_game_name m game target)) as [to'|] eqn:Et; [|done].
  case_bool_decide; [done|].
  destruct (find_world target game) as [[n w]|] eqn:Ef; simpl; [|done].
  destruct (get_version_req m n target) as [| | |p] eqn:Er; simpl; [done..|].
  case_bool_decide as Hp; simpl; [done|]. intros [= -> ->].
  apply eq_None_not_Some in Hp.
  unfold resolve_from_game_name in Et. rewrite Ef, Er, resolve_wanted in Et.
  unfold wanted in Et. rewrite decide_False in Et by (rewrite Hp; by intros [? ?]).
  destruct (get_latest_release w) as [[v o]|] eqn:El; simpl in Et; [|done].
  simplify_eq. exists n, w, o. by split_and!.
Qed.
End facts.
