(* ===== verification/ApwmProps.v ===== *)
(** * What the world manager guarantees

    The properties of the crate [apwm] and of the lobby's report on moving a room, and their
    witnesses on versions that are plain numbers. *)

From S2P Require Import Prelude Ord RustStd Apwm ApwmFacts ApwmIndex ApwmIndexFacts ApwmChanges.
From S2P Require Import ApwmLint Examples.

Section properties.
Context `{SemVer} `{Outside} `{Toml}.
Implicit Types (base v : Version) (w : World) (d : WorldDef) (m : Manifest) (i : Index)
  (s : IndexSet) (n : str).

(** C12: a base sees a world that isn't disabled there and has a release that can run on it.
    It sees exactly these releases: those of [releases] whose bounds hold the base, where they
    say or else where [versions] says or else at the default URL; those of [versions] that
    [releases] says nothing about; and, for a world that comes with the base, the base's own
    version. *)
Theorem for_base_exact d base ov :
  override_for d base = Ok ov ->
  let is_disabled := default (d_disabled d) (ov ≫= o_disabled) in
  let is_core := default (d_supported d) (ov ≫= o_supported) in
  match for_base d base with
  | Err _ => False
  | Ok None => is_disabled = true \/ forall v, origin_on d base is_core v = None
  | Ok (Some w) => is_disabled = false /\ supported w = is_core /\ versions w <> ∅ /\
      name w = d_name d /\
      default_version w = default (d_default_version d) (ov ≫= o_default_version) /\
      forall v, versions w !! v = origin_on d base is_core v
  end.
Proof.
  intros Hov. unfold for_base. rewrite Hov. simpl.
  destruct (default (d_disabled d) (ov ≫= o_disabled)); [by left|].
  case_bool_decide as He.
  - right. intros v. rewrite <- versions_for_base_lookup, He. apply lookup_empty.
  - split_and!; try done. simpl. intros v. apply versions_for_base_lookup.
Qed.

(** [resolve_with] gives each world of the index that the manifest doesn't disable the
    release its requirement wants, which the world has, and one error for each such world
    that has none, in the order of the worlds' names. *)
Theorem resolve_with_exact m i :
  (forall n w v, (resolve_with m i).1 !! n = Some (w, v) <->
    worlds i !! n = Some w /\ wanted w (get_version_req m n i) = Some v) /\
  (forall n w v, (resolve_with m i).1 !! n = Some (w, v) -> is_Some (versions w !! v)) /\
  length (resolve_with m i).2 = length (List.filter (fun e =>
    negb (bool_decide (get_version_req m e.1 i = Disabled)) &&
    bool_decide (wanted e.2 (get_version_req m e.1 i) = None)) (bt_iter (worlds i))).
Proof.
  assert (forall n w v, (resolve_with m i).1 !! n = Some (w, v) <->
    worlds i !! n = Some w /\ wanted w (get_version_req m n i) = Some v) as Hex.
  { intros n w v. rewrite resolve_with_lookup. unfold resolves.
    destruct (worlds i !! n) as [w'|]; simpl; [|split; [done|by intros [? _]]].
    rewrite resolve_wanted. case_decide as Hd; [rewrite Hd|].
    - split; [done|]. by intros [[= ->] ?].
    - destruct (wanted w' _) as [v'|] eqn:E; simpl.
      + split; [by intros [= -> ->]|]. intros [[= ->] Hw]. congruence.
      + split; [done|]. intros [[= ->] Hw]. congruence. }
  split_and!; [done| |].
  - intros n w v [_ Hw]%Hex. by eapply wanted_available.
  - rewrite resolve_with_split. simpl. induction (bt_iter (worlds i)) as [|e l IH]; [done|].
    simpl. rewrite length_app, IH. unfold resolve_fails.
    rewrite decide_bool_decide. destruct (bool_decide _); simpl; [done|].
    pose proof (resolve_wanted e.2 (get_version_req m e.1 i)) as Hr.
    destruct (resolve_world_version e.2 _); simpl in Hr;
      destruct (wanted e.2 _); simpl in Hr; try done.
Qed.

(** Writing the index's worlds out in the manifest changes nothing that the manifest
    resolves to, and doing it again changes nothing at all. *)
Theorem updated_manifest_resolves_alike m i :
  resolve_with (updated_with_index m i) i = resolve_with m i /\
  updated_with_index (updated_with_index m i) i = updated_with_index m i.
Proof.
  split.
  - apply resolve_with_ext. intros n Hn. by apply updated_version_req.
  - assert (forall m1 m2 : Manifest, m_worlds m1 = m_worlds m2 ->
      new_apworld_policy m1 = new_apworld_policy m2 -> m1 = m2) as Heq.
    { intros [] []. simpl. congruence. }
    apply Heq; [|by rewrite !updated_policy]. apply map_eq. intros n. rewrite !updated_lookup.
    destruct (worlds i !! n) eqn:E; simpl; [|done]. f_equal.
    apply updated_version_req. by eexists.
Qed.

(** A frozen manifest pins the release that was the newest: on any later index where the
    world still has that release, it resolves to it, whatever the index says the default is.
    What wasn't [Latest] stays as it was. *)
Theorem freeze_pins_newest m i m' n w v o i2 w2 :
  freeze m i = Some m' ->
  m_worlds m !! n = Some Latest -> worlds i !! n = Some w -> get_latest_release w = Some (v, o) ->
  worlds i2 !! n = Some w2 -> is_Some (versions w2 !! v) ->
  (resolve_with m' i2).1 !! n = Some (w2, v) /\
  (forall k r, r <> Latest -> m_worlds m !! k = Some r -> m_worlds m' !! k = Some r).
Proof.
  intros Hf Hm Hw Hl Hw2 Hv. destruct (freeze_lookup m i m' Hf) as [_ Hlk]. split.
  - assert (get_version_req m' n i2 = Specific v) as Hreq.
    { unfold get_version_req. rewrite Hlk, Hm. simpl. unfold frozen.
      by rewrite decide_True, Hw, Hl by done. }
    rewrite resolve_with_lookup, Hw2. unfold resolves. simpl. rewrite Hreq, resolve_wanted.
    unfold wanted. rewrite decide_False by done. by rewrite decide_True by done.
  - intros k r Hr Hk. rewrite Hlk, Hk. simpl. unfold frozen. by rewrite decide_False.
Qed.

(** requirements print as texts that read back as they were. *)
Theorem version_req_roundtrip (r : VersionReq) : VersionReq_parse (VersionReq_to_string r) = Ok r.
Proof.
  destruct r as [| | |v]; [reflexivity..|]. simpl. unfold VersionReq_parse.
  pose proof (version_parse_to_string v) as Hp.
  destruct (version_starts_with_digit _ _ Hp) as (c & t & Ht & Hc).
  assert (forall (a : char) l, is_ascii_digit a = false -> str_eqb (version_to_string v) (a :: l) = false) as Hne.
  { intros a l Ha. unfold str_eqb. apply bool_decide_eq_false. rewrite Ht. congruence. }
  unfold lit. simpl. rewrite !Hne by reflexivity. by rewrite Hp.
Qed.

(** a download is tried at most four times.  It ends with the first answer that isn't a
    transient failure, or with the last failure when there is none; it waits before each new
    try, 2, 4, 8, then 16 seconds. *)
Theorem retries_bounded {T} (attempt : nat -> result DownloadError T) :
  exists k, (k <= 3)%nat /\
    (forall j, (j < k)%nat -> is_transient (attempt j) = true) /\
    (is_transient (attempt k) = true -> k = 3%nat) /\
    (with_retries DOWNLOAD_RETRIES attempt).2 = take k [2; 4; 8]%Z /\
    (with_retries DOWNLOAD_RETRIES attempt).1 =
      match attempt k with
      | Ok value => Ok value
      | Err (Permanent e) => Err e
      | Err (Transient e) => Err (lit "Gave up after 3 retries" :: e)
      end.
Proof.
  destruct (retry_loop_spec DOWNLOAD_RETRIES attempt 3 0) as (k & Hk & Hb & Hl & Hw & Hr).
  exists k. split_and!; [done|done|done| |exact Hr].
  unfold with_retries. change (Z.to_nat DOWNLOAD_RETRIES) with 3%nat. rewrite Hw.
  destruct k as [|[|[|[|k]]]]; [reflexivity..|lia].
Qed.

(** the file that [copy_to] leaves at its destination is the one whose checksum it
    returns, and the expected one when there was one; a release that isn't part of Archipelago
    always leaves a file. *)
Theorem copied_file_has_checksum w v expected c b o :
  copy_to w v expected = Ok (c, b) -> versions w !! v = Some o ->
  if is_supported o then b = None
  else exists body, b = Some body /\ c = digest body /\ forall e, expected = Some e -> c = e.
Proof.
  intros Hc Ho. destruct (is_supported o) eqn:Es.
  - destruct o; try done. unfold copy_to, get_url_for_version in Hc. rewrite Ho in Hc. simpl in Hc.
    by simplify_eq.
  - destruct (copy_to_writes _ _ _ _ _ _ Hc Ho Es) as (body & ->). exists body.
    split; [done|]. by eapply copy_to_checksum.
Qed.

(** the lock that a refresh gives never changes the checksum of a release: an entry whose
    release was in the old lock has the old checksum.  Its entries are releases of the index
    that aren't part of Archipelago, and only the one asked for when one was. *)
Theorem refresh_keeps_checksums parse_lock create_dir_all saved schedule i destination only_new
    precise old_lock l :
  (forall ts, schedule ts ≡ₚ ts) ->
  IndexLock_new (in_dir (default (Path false []) (path_parent (i_path i))) (lit "index.lock"))
    (parse_lock (in_dir (default (Path false []) (path_parent (i_path i))) (lit "index.lock"))) =
    Ok old_lock ->
  index_refresh_into parse_lock create_dir_all saved schedule i destination only_new precise = Ok l ->
  forall n v c, get_checksum l n v = Some c ->
    (forall c', get_checksum old_lock n v = Some c' -> c = c') /\
    (exists w o, worlds i !! n = Some w /\ versions w !! v = Some o /\ is_supported o = false) /\
    (forall n' v', precise = Some (n', v') -> n = n' /\ v = v').
Proof.
  intros Hsched Hold Hr n v c Hc. unfold index_refresh_into in Hr.
  destruct (path_parent (i_path i)) as [parent|]; [|done]. simpl in Hr, Hold. rewrite Hold in Hr.
  simpl in Hr. destruct (is_file destination); [done|].
  apply result_bind_Ok_inv in Hr as (_ & _ & ([lk ts] & Hplan & [= <-])%result_bind_Ok_inv).
  simpl in Hc.
  destruct (plan_all_sound _ _ _ _ _ _ _ _ Hplan) as [Hkeep Hfetch].
  pose proof (plan_all_keys _ _ _ _ _ _ _ _ Hplan) as Hnd.
  apply collect_get in Hc as [Hin|[Hc _]].
  - apply list_elem_of_fmap in Hin as (t & Heq & Ht). rewrite Hsched in Ht.
    destruct (Hfetch t Ht) as (o & [Hw Ho]%elem_of_all_pairs & Hp%plan_cases).
    destruct Hp as (_ & _ & Hexp & (Hpre & _ & Hs)).
    unfold run_task in Heq. injection Heq as -> -> Hres. symmetry in Hres.
    apply result_bind_Ok_inv in Hres as (_ & _ & (_ & _ & (r & Hcopy & [= <-])%result_bind_Ok_inv)%result_bind_Ok_inv).
    split_and!; [|by exists (t_world t), o|done].
    intros c' Hc'. destruct r as [c b].
    destruct (copy_to_writes _ _ _ _ _ _ Hcopy Ho Hs) as (body & ->).
    apply copy_to_checksum in Hcopy as [_ He]. apply He. congruence.
  - apply Hkeep in Hc as [Hc|(w & o & [Hw Ho]%elem_of_all_pairs & Hp%plan_cases)].
    + unfold get_checksum in Hc. simpl in Hc. by rewrite lookup_empty in Hc.
    + destruct Hp as (Hc & (Hpre & _ & Hs)). split_and!; [congruence|by exists w, o|done].
  - rewrite <- list_fmap_compose. rewrite (list_fmap_ext _ task_key) by done.
    by rewrite (fmap_Permutation _ _ _ (Hsched ts)).
Qed.

(** The lock doesn't depend on the order in which the downloads end. *)
Theorem refresh_order_irrelevant parse_lock create_dir_all saved sched1 sched2 i destination
    only_new precise l1 l2 :
  (forall ts, sched1 ts ≡ₚ ts) -> (forall ts, sched2 ts ≡ₚ ts) ->
  index_refresh_into parse_lock create_dir_all saved sched1 i destination only_new precise = Ok l1 ->
  index_refresh_into parse_lock create_dir_all saved sched2 i destination only_new precise = Ok l2 ->
  forall n v, get_checksum l1 n v = get_checksum l2 n v.
Proof.
  intros Hs1 Hs2 Hr1 Hr2 n v. unfold index_refresh_into in *.
  destruct (path_parent (i_path i)) as [parent|]; [|done]. simpl in *.
  destruct (IndexLock_new _ _) as [old|]; [|done]. simpl in *.
  destruct (is_file destination); [done|].
  destruct (create_dir_all destination); [|done]. simpl in *.
  destruct (plan_all _ _ _ _ _ _) as [[lk ts]|] eqn:Hplan; [|done]. simpl in *. simplify_eq.
  pose proof (plan_all_keys _ _ _ _ _ _ _ _ Hplan) as Hnd.
  apply collect_perm.
  - rewrite <- list_fmap_compose. rewrite (list_fmap_ext _ task_key) by done.
    by rewrite (fmap_Permutation _ _ _ (Hs1 ts)).
  - apply fmap_Permutation. by rewrite Hs1, Hs2.
Qed.

(** an index that loads has a view for each base it declares and for the one of
    [archipelago_version], so that asking for the legacy index never panics; each is what
    [view_for_base] gives, and has the worlds that the base sees. *)
Theorem bases_have_their_views index_path parsed read_dir s :
  IndexSet_new index_path parsed read_dir = Ok s ->
  is_Some (legacy s) /\
  (forall base, is_Some (get s base) <->
    base = f_archipelago_version (index_file s) \/ is_Some (f_bases (index_file s) !! base)) /\
  forall base i, get s base = Some i -> archipelago_version i = base /\
    view_for_base s base = Ok i /\
    forall n w, worlds i !! n = Some w <->
      exists d, world_defs s !! n = Some d /\ for_base d base = Ok (Some w).
Proof.
  intros (Hview & Hdom & Hleg)%IndexSet_new_bases. split_and!.
  - apply Hdom. rewrite Hleg. apply elem_of_base_versions. by left.
  - intros base. by rewrite Hdom, elem_of_base_versions.
  - intros base i Hi. pose proof (Hview base i Hi) as Hv. split_and!; [|done|].
    + by apply (view_base_version s).
    + intros n w. destruct (view_lookup s base i n Hv) as [_ ->].
      destruct (world_defs s !! n) as [d|]; simpl; [|split; [done|by intros (d & ? & _)]].
      destruct (for_base d base) as [[w'|]|] eqn:E; simpl.
      * split; [intros [= ->]; by exists d|]. intros (d' & [= <-] & Hd). congruence.
      * split; [done|]. intros (d' & [= <-] & Hd). congruence.
      * split; [done|]. intros (d' & [= <-] & Hd). congruence.
Qed.

(** C19: a report of changes between two indexes says that a release was added on a base, or
    removed from it, exactly when the base's view of it changed that way; the old index is
    looked at as if it had always had the base. *)
Theorem changes_exact index_path parsed read_dir old new ch :
  IndexSet_new index_path parsed read_dir = Ok new ->
  compute_changes_between old new = Ok ch ->
  forall n v base,
    (base ∈ added_to (c_worlds ch) n v <-> gained old new n v base) /\
    (base ∈ removed_on (c_worlds ch) n v <-> lost old new n v base).
Proof.
  intros (Hview & _)%IndexSet_new_bases Hc. apply changes_between_exact; [done|].
  intros base i Hi. by apply (view_base_version new), Hview.
Qed.

(** when the linter finds no error, lobbies from before multi-base support, which read
    [versions] alone, offer nothing on their base that newer ones don't; and on every base,
    each world's default release resolves, unless its default is to be disabled. *)
Theorem clean_lint_is_safe index_path parsed read_dir ps s :
  lint index_path parsed read_dir = Ok ps -> clean ps ->
  IndexSet_new index_path parsed read_dir = Ok s ->
  (forall n d v, world_defs s !! n = Some d -> is_Some (d_versions d !! v) ->
    is_Some (origin_on d (legacy_base s) (d_supported d) v)) /\
  (forall base i n w, get s base = Some i -> worlds i !! n = Some w ->
    default_version w = Disabled \/ is_Some (wanted w Latest)).
Proof.
  intros Hl Hc Hs. pose proof (lint_worlds _ _ _ _ _ Hl Hs) as Hworlds.
  assert (forall n d, world_defs s !! n = Some d ->
    no_errors (lint_offered d (legacy_base s)) /\
    forall base, base ∈ bases s -> no_errors (lint_default s n base)) as Hclean.
  { intros n d Hd. destruct (Hworlds n d Hd) as (root & more & Hm & Hin).
    destruct (lint_world_clean n d root s more Hm) as (? & _ & ?); [|done].
    intros p Hp. by apply Hc, Hin. }
  split.
  - intros n d v Hd [o Hv]. destruct (Hclean n d Hd) as [Hoff _]. unfold origin_on.
    destruct (_ && _); [by eexists|].
    destruct (releases d !! v) as [r|] eqn:Er; [|by eexists].
    rewrite (lint_offered_clean d _ v o r Hoff Hv Er). by eexists.
  - intros base i n w Hi Hw.
    destruct (IndexSet_new_bases _ _ _ _ Hs) as (Hview & _ & _).
    destruct (view_lookup s base i n (Hview base i Hi)) as [_ Hlk]. rewrite Hlk in Hw.
    destruct (world_defs s !! n) as [d|] eqn:Ed; [|done]. simpl in Hw.
    destruct (for_base d base) as [[w'|]|] eqn:Ef; simpl in Hw; simplify_eq.
    destruct (for_base_Some d base w Ef) as (Hvs & Hne & _).
    apply (lint_default_clean s n base i w); [|done| |done|].
    + apply (Hclean n d Ed). apply elem_of_bt_keys. by eexists.
    + rewrite Hlk. simpl. by rewrite Ef.
    + intros Hsup. exists base, OSupported. split; [|done].
      rewrite Hvs. unfold origin_on. by rewrite Hsup, bool_decide_true.
Qed.

(** The report of moving a room names each game of the room once at most, with the number
    of its YAMLs, as a warning, as a change, or among the unchanged, by what the manifest
    resolves to before and after; a game whose pinned release is gone is a warning, and it is
    the newest release of the target that it would get. *)
Theorem switch_report_exact m current target games :
  let r := switch_report m current target games in
  (forall c, c ∈ warnings r <-> game c ∈ games /\ warns (change_kind c) = true /\
     switch_kind m current target (game c) = Some (inr (change_kind c)) /\
     yamls c = length (List.filter (str_eqb (game c)) games)) /\
  (forall c, c ∈ changes r <-> game c ∈ games /\ warns (change_kind c) = false /\
     switch_kind m current target (game c) = Some (inr (change_kind c)) /\
     yamls c = length (List.filter (str_eqb (game c)) games)) /\
  (forall c pinned to, c ∈ warnings r -> change_kind c = PinNotAvailable pinned to ->
     exists n w o, find_world target (game c) = Some (n, w) /\
       get_version_req m n target = Specific pinned /\ versions w !! pinned = None /\
       get_latest_release w = Some (to, o)).
Proof.
  destruct (switch_report_split m current target games) as (Hw & Hch & _). simpl in *.
  assert (forall b c, c ∈ omap (fun e : str * nat =>
      match switch_kind m current target e.1 with
      | Some (inr k) => if Bool.eqb (warns k) b then Some {| game := e.1; yamls := e.2; change_kind := k |} else None
      | _ => None
      end) (bt_iter (yamls_per_game games)) <->
    game c ∈ games /\ warns (change_kind c) = b /\
    switch_kind m current target (game c) = Some (inr (change_kind c)) /\
    yamls c = length (List.filter (str_eqb (game c)) games)) as Hpick.
  { intros b c. rewrite list_elem_of_omap. split.
    - intros ([g k] & Hin%elem_of_bt_iter & Hk). rewrite yamls_per_game_lookup in Hin.
      case_decide; [|done]. simplify_eq. simpl in Hk.
      destruct (switch_kind m current target g) as [[|k]|] eqn:Ek; [done| |done].
      destruct (Bool.eqb (warns k) b) eqn:Eb; simplify_eq. by apply Bool.eqb_prop in Eb.
    - intros (Hin & Hb & Hk & Hy). exists (game c, yamls c). split.
      + apply elem_of_bt_iter. by rewrite yamls_per_game_lookup, decide_True, Hy.
      + simpl. rewrite Hk, Hb, Bool.eqb_reflx. by destruct c. }
  rewrite Hw, Hch. split_and!; [apply Hpick|apply Hpick|].
  intros c pinned to (_ & _ & Hk & _)%Hpick Heq. rewrite Heq in Hk. by eapply switch_pin.
Qed.
End properties.


(** ** Witnesses *)

Section witnesses.
(** Every URI answers with its own text, which is its digest; there are no files. *)
Definition example_outside : Outside := {|
  is_file := fun _ => false;
  is_dir := fun _ => true;
  read_file := fun _ => Err [lit "no such file"];
  ask := fun uri n => Answered 200 [] (Ok uri);
  digest := fun b => b;
|}.

Definition example_toml : Toml := {|
  toml_value := unit;
  as_table := fun _ => None;
  read_table := fun _ => Ok [];
|}.

#[local] Existing Instance example_semver.
#[local] Existing Instance example_outside.
#[local] Existing Instance example_toml.

Definition ver (n : N) : Version := n.
Definition ex_release : Release :=
  {| min_ap_version := Some (ver 6); max_ap_version := None; url := None; local := None |}.

(** Releases 1 and 2, the second only on bases from 6 on. *)
Definition ex_def : WorldDef :=
  {| d_path := Path true [lit "index"; lit "worlds"; lit "custom.toml"]; d_name := lit "Custom World";
     d_display_name := lit "Custom World"; d_default_url := Some (lit "http://x/{{version}}");
     d_default_version := Latest; d_home := None;
     d_versions := {[ver 1 := ODefault; ver 2 := ODefault]}; releases := {[ver 2 := ex_release]};
     d_disabled := false; d_supported := false; d_tags := []; raw_base_overrides := ∅;
     base_overrides := [] |}.

Definition ex_world_on (base : Version) : World :=
  match for_base ex_def base with
  | Ok (Some w) => w
  | _ => {| w_path := Path true []; name := []; display_name := []; default_url := None;
            default_version := Latest; home := None; versions := ∅; disabled := false;
            supported := false; tags := [] |}
  end.

Definition ex_index_on (base : Version) : Index :=
  {| i_path := Path true [lit "index"; lit "index.toml"]; archipelago_repo := [];
     archipelago_version := base; index_homepage := []; index_dir := Path false [lit "worlds"];
     worlds := {[lit "custom" := ex_world_on base]} |}.

Definition ex_manifest : Manifest := add_version_req Manifest_new (lit "custom") Latest.

Definition ex_file : IndexFile :=
  {| f_archipelago_repo := []; f_archipelago_version := ver 6; f_index_homepage := [];
     f_index_dir := Path false [lit "worlds"]; f_bases := {[ver 5 := tt]} |}.
Definition ex_path : path := Path true [lit "index"; lit "index.toml"].
Definition ex_dir (p : path) : result error (list (path * result error WorldDef)) :=
  Ok [(Path true [lit "index"; lit "worlds"; lit "custom.toml"], Ok ex_def)].
Definition ex_set : result error IndexSet := IndexSet_new ex_path (Ok ex_file) ex_dir.

Lemma for_base_exact_witness : versions (ex_world_on (ver 5)) !! ver 2 = None.
Proof.
  pose proof (for_base_exact ex_def (ver 5) None eq_refl) as Hf. unfold ex_world_on.
  destruct (for_base ex_def (ver 5)) as [[w|]|]; [|reflexivity|done].
  destruct Hf as (_ & _ & _ & _ & _ & ->). vm_compute. reflexivity.
Defined.

(** Checks by computation, as booleans. *)
Definition ex_freezes : bool :=
  match freeze ex_manifest (ex_index_on (ver 5)) with Some _ => true | None => false end.
Lemma ex_freezes_ok : ex_freezes = true.
Proof. vm_compute. reflexivity. Qed.

Lemma ex_worlds_on : worlds (ex_index_on (ver 5)) !! lit "custom" = Some (ex_world_on (ver 5)) /\
  m_worlds ex_manifest !! lit "custom" = Some Latest /\
  get_latest_release (ex_world_on (ver 5)) = Some (ver 1, ODefault) /\
  worlds (ex_index_on (ver 6)) !! lit "custom" = Some (ex_world_on (ver 6)) /\
  versions (ex_world_on (ver 6)) !! ver 1 = Some ODefault.
Proof. split_and!; vm_compute; reflexivity. Qed.

Lemma freeze_pins_newest_witness :
  exists m', freeze ex_manifest (ex_index_on (ver 5)) = Some m' /\
    (resolve_with m' (ex_index_on (ver 6))).1 !! lit "custom" = Some (ex_world_on (ver 6), ver 1).
Proof.
  pose proof ex_freezes_ok as Hok. unfold ex_freezes in Hok.
  destruct (freeze ex_manifest (ex_index_on (ver 5))) as [m'|] eqn:E; [|discriminate Hok].
  exists m'. split; [reflexivity|]. destruct ex_worlds_on as (Hw & Hm & Hl & Hw' & Hv).
  exact (proj1 (freeze_pins_newest ex_manifest (ex_index_on (ver 5)) m' (lit "custom")
           (ex_world_on (ver 5)) (ver 1) ODefault (ex_index_on (ver 6)) (ex_world_on (ver 6))
           E Hm Hw Hl Hw' (ex_intro _ _ Hv))).
Defined.

Lemma copied_file_has_checksum_witness :
  exists c b, copy_to (ex_world_on (ver 6)) (ver 2) None = Ok (c, b) /\
    exists body, b = Some body /\ c = digest body.
Proof.
  eexists _, _. assert (copy_to (ex_world_on (ver 6)) (ver 2) None =
    Ok (lit "http://x/2", Some (lit "http://x/2"))) as Hc by (vm_compute; reflexivity).
  split; [exact Hc|].
  destruct (copied_file_has_checksum _ _ _ _ _ ODefault Hc) as (body & Hb & Hd & _);
    [vm_compute; reflexivity|]. by exists body.
Defined.

Definition ex_refresh (schedule : list DownloadTask -> list DownloadTask) : result error IndexLock :=
  index_refresh_into (fun _ => Ok ∅) (fun _ => Ok tt) (fun _ => Ok tt) schedule
    (ex_index_on (ver 6)) (Path true [lit "out"]) false (Some (lit "custom", ver 1)).

Definition ex_refreshes : bool :=
  match ex_refresh (fun ts => ts), ex_refresh reverse with Ok _, Ok _ => true | _, _ => false end.
Lemma ex_refreshes_ok : ex_refreshes = true.
Proof. vm_compute. reflexivity. Qed.

Lemma refresh_keeps_checksums_witness :
  exists l, ex_refresh (fun ts => ts) = Ok l /\
    forall v c, get_checksum l (lit "custom") v = Some c -> v = ver 1.
Proof.
  pose proof ex_refreshes_ok as Hok. unfold ex_refreshes in Hok.
  destruct (ex_refresh (fun ts => ts)) as [l|] eqn:E; [|discriminate Hok].
  exists l. split; [reflexivity|]. intros v c Hc. clear Hok.
  destruct (refresh_keeps_checksums (fun _ => Ok ∅) (fun _ => Ok tt) (fun _ => Ok tt) (fun ts => ts)
              (ex_index_on (ver 6)) (Path true [lit "out"]) false (Some (lit "custom", ver 1))
              {| l_path := Path true [lit "index"; lit "index.lock"]; apworlds := ∅ |} l)
    with (lit "custom") v c as (_ & _ & Hp); [done|reflexivity|exact E|exact Hc|].
  by apply (Hp (lit "custom")).
Defined.

Lemma refresh_order_irrelevant_witness :
  exists l1 l2, ex_refresh (fun ts => ts) = Ok l1 /\ ex_refresh reverse = Ok l2 /\
    get_checksum l1 (lit "custom") (ver 1) = get_checksum l2 (lit "custom") (ver 1).
Proof.
  pose proof ex_refreshes_ok as Hok. unfold ex_refreshes in Hok.
  destruct (ex_refresh (fun ts => ts)) as [l1|] eqn:E1; [|discriminate Hok].
  destruct (ex_refresh reverse) as [l2|] eqn:E2; [|discriminate Hok].
  exists l1, l2. split; [reflexivity|]. split; [reflexivity|]. clear Hok.
  apply (refresh_order_irrelevant (fun _ => Ok ∅) (fun _ => Ok tt) (fun _ => Ok tt) (fun ts => ts)
           reverse (ex_index_on (ver 6)) (Path true [lit "out"]) false (Some (lit "custom", ver 1)));
    [done|intros ts; apply reverse_Permutation|exact E1|exact E2].
Defined.

Lemma ex_set_ok : match ex_set with Ok _ => true | Err _ => false end = true.
Proof. vm_compute. reflexivity. Qed.

Lemma bases_have_their_views_witness : exists s, ex_set = Ok s /\ is_Some (legacy s).
Proof.
  pose proof ex_set_ok as Hok. destruct ex_set as [s|] eqn:E; [|discriminate Hok].
  exists s. split; [done|]. exact (proj1 (bases_have_their_views ex_path (Ok ex_file) ex_dir s E)).
Defined.

Definition ex_loads : bool :=
  match ex_set with Ok s => match compute_changes_between s s with Ok _ => true | Err _ => false end | Err _ => false end.
Lemma ex_loads_ok : ex_loads = true.
Proof. vm_compute. reflexivity. Qed.

Lemma changes_exact_witness :
  exists s ch, ex_set = Ok s /\ compute_changes_between s s = Ok ch /\
    (ver 6 ∈ added_to (c_worlds ch) (lit "custom") (ver 2) <->
     gained s s (lit "custom") (ver 2) (ver 6)).
Proof.
  pose proof ex_loads_ok as Hok. unfold ex_loads in Hok.
  destruct ex_set as [s|] eqn:E; [|discriminate Hok].
  destruct (compute_changes_between s s) as [ch|] eqn:Ec; [|discriminate Hok].
  exists s, ch. split; [reflexivity|]. split; [exact Ec|].
  exact (proj1 (changes_exact ex_path (Ok ex_file) ex_dir s s ch E Ec (lit "custom") (ver 2) (ver 6))).
Defined.

Definition ex_lints : bool :=
  match lint ex_path (Ok ex_file) ex_dir with Ok [] => true | _ => false end.
Lemma ex_lints_ok : ex_lints = true.
Proof. vm_compute. reflexivity. Qed.

Lemma clean_nil : clean [].
Proof. intros p Hp. by apply elem_of_nil in Hp. Qed.

Lemma clean_lint_is_safe_witness :
  exists s ps, ex_set = Ok s /\ lint ex_path (Ok ex_file) ex_dir = Ok ps /\
    forall base i n w, get s base = Some i -> worlds i !! n = Some w ->
      default_version w = Disabled \/ is_Some (wanted w Latest).
Proof.
  pose proof ex_loads_ok as Hok. unfold ex_loads in Hok.
  destruct ex_set as [s|] eqn:E; [|discriminate Hok]. clear Hok.
  pose proof ex_lints_ok as Hok. unfold ex_lints in Hok.
  destruct (lint ex_path (Ok ex_file) ex_dir) as [[|p ps]|] eqn:El; try discriminate Hok.
  exists s, []. split; [reflexivity|]. split; [reflexivity|].
  apply (clean_lint_is_safe ex_path (Ok ex_file) ex_dir [] s El clean_nil E).
Defined.
End witnesses.
