(* ===== verification/WordDiff.v ===== *)
(** * Word-level diffs (crate [apdiff-viewer])

    [apdiff-viewer/src/diff/word_diff.rs]: two versions of a line cut into words, compared, and
    turned into segments for each side.  The comparison itself is the [similar] crate's. *)

From S2P Require Import Prelude RustStd.

(** ** Types *)

(* src: apdiff-viewer/src/diff/mod.rs:24-30 WordChangeType *)
Inductive WordChangeType := WInsert | WDelete | WEqual.

#[export] Instance WordChangeType_eq_dec : EqDecision WordChangeType.
Proof. solve_decision. Defined.

(* src: apdiff-viewer/src/diff/mod.rs:32-38 WordChangeSegment *)
Record WordChangeSegment := {
  seg_text : str;
  change_type : WordChangeType;
  start_offset : N;
  end_offset : N;
}.

(** The [similar] crate: the changes that turn one list of pieces into another, in order.  What
    isn't inserted is the old list, what isn't deleted the new one. *)
Inductive ChangeTag := TEqual | TDelete | TInsert.

Definition old_part (changes : list (ChangeTag * str)) : list str :=
  omap (fun c => match c.1 with TInsert => None | _ => Some c.2 end) changes.
Definition new_part (changes : list (ChangeTag * str)) : list str :=
  omap (fun c => match c.1 with TDelete => None | _ => Some c.2 end) changes.

Class Similar := {
  diff_slices : list str -> list str -> list (ChangeTag * str);
  diff_slices_old : forall old new, old_part (diff_slices old new) = old;
  diff_slices_new : forall old new, new_part (diff_slices old new) = new;
}.

(** ** Words *)

(** The positions where the kind of character changes, after the character [c1] at [pos]. *)
Fixpoint changes_at (pos : N) (c1 : char) (s : str) : list N :=
  match s with
  | [] => []
  | c2 :: s =>
      let pos2 := (pos + len_utf8 c1)%N in
      if bool_decide (is_whitespace c1 = is_whitespace c2) then changes_at pos2 c2 s
      else pos2 :: changes_at pos2 c2 s
  end.

(* src: apdiff-viewer/src/diff/word_diff.rs:15-28 split_into_words *)
Definition boundaries (text : str) : list N :=
  0%N :: match text with [] => [] | c :: s => changes_at 0 c s end ++ [str_len text].

(** [slice::windows(2)]. *)
Definition windows2 {A} (l : list A) : list (A * A) := zip l (tail l).

(* src: apdiff-viewer/src/diff/word_diff.rs:10-36 split_into_words *)
Definition split_into_words (text : str) : list str :=
  match text with
  | [] => []
  | _ => (fun w => default [] (str_get w.1 w.2 text)) <$> windows2 (boundaries text)
  end.

(** ** Segments *)

(* src: apdiff-viewer/src/diff/word_diff.rs:57-69 create_segment *)
Definition create_segment (content : str) (ty : WordChangeType) (start : N) : WordChangeSegment :=
  {| seg_text := content; change_type := ty; start_offset := start;
     end_offset := (start + str_len content)%N |}.

(* src: apdiff-viewer/src/diff/word_diff.rs:71-74 create_equal_segment *)
Definition create_equal_segment (content : str) (start : N) : WordChangeSegment :=
  create_segment content WEqual start.

(** [is_whitespace_only]. *)
(* src: apdiff-viewer/src/diff/word_diff.rs:222-225 is_whitespace_only *)
Definition is_whitespace_only (text : str) : bool :=
  negb (bool_decide (text = [])) && forallb is_whitespace text.

(** The loop of [find_consolidation_end]: [i] is the index of the first segment of [rest], [last]
    the last end found. *)
(* src: apdiff-viewer/src/diff/word_diff.rs:194-219 find_consolidation_end *)
Fixpoint consolidation_scan (target : WordChangeType) (can_continue : bool) (i : nat)
    (rest : list WordChangeSegment) (last : option nat) : option nat :=
  match rest with
  | [] => last
  | segment :: rest =>
      if bool_decide (change_type segment = target) then
        consolidation_scan target can_continue (S i) rest (Some (S i))
      else if bool_decide (change_type segment = WEqual) && is_whitespace_only (seg_text segment) &&
              can_continue then
        match rest with
        | next :: _ =>
            if bool_decide (change_type next = target) then
              consolidation_scan target can_continue (S i) rest (Some (S i))
            else consolidation_scan target false (S i) rest last
        | [] => consolidation_scan target false (S i) rest last
        end
      else consolidation_scan target false (S i) rest last
  end.

(** [None] is the panic of indexing out of the slice. *)
(* src: apdiff-viewer/src/diff/word_diff.rs:190-220 find_consolidation_end *)
Definition find_consolidation_end (changes : list WordChangeSegment) (start_idx : nat) : option nat :=
  first ← changes !! start_idx;
  Some (default (S start_idx)
    (consolidation_scan (change_type first) true start_idx (drop start_idx changes) None)).

Definition slice {A} (from to : nat) (l : list A) : list A := take (to - from) (drop from l).

(* src: apdiff-viewer/src/diff/word_diff.rs:164-180 consolidate_consecutive_changes *)
Definition merged_segment (changes : list WordChangeSegment) (segment : WordChangeSegment)
    (i end_ : nat) : WordChangeSegment :=
  let text := concat (seg_text <$> slice i end_ changes) in
  {| seg_text := text; change_type := change_type segment; start_offset := start_offset segment;
     end_offset := (start_offset segment + str_len text)%N |}.

(* src: apdiff-viewer/src/diff/word_diff.rs:147-187 consolidate_consecutive_changes *)
Fixpoint consolidate_scan (changes : list WordChangeSegment) (skip_until : option nat) (i : nat)
    (rest : list WordChangeSegment) : list WordChangeSegment :=
  match rest with
  | [] => []
  | segment :: rest =>
      if match skip_until with Some skip => (i <? skip)%nat | None => false end then
        consolidate_scan changes skip_until (S i) rest
      else
        match change_type segment with
        | WDelete | WInsert =>
            let end_ := default 0%nat (find_consolidation_end changes i) in
            merged_segment changes segment i end_ ::
              consolidate_scan changes (Some end_) (S i) rest
        | WEqual => segment :: consolidate_scan changes skip_until (S i) rest
        end
  end.

(* src: apdiff-viewer/src/diff/word_diff.rs:140-188 consolidate_consecutive_changes *)
Definition consolidate_consecutive_changes (changes : list WordChangeSegment) :
    list WordChangeSegment :=
  consolidate_scan changes None 0 changes.

(* src: apdiff-viewer/src/diff/word_diff.rs:5-8 StructuredWordDiffResult *)
Record StructuredWordDiffResult := {
  old_changes : list WordChangeSegment;
  new_changes : list WordChangeSegment;
}.

(* src: apdiff-viewer/src/diff/word_diff.rs:89-93 create_word_diff_segments *)
Definition change_type_of (t : ChangeTag) : WordChangeType :=
  match t with TEqual => WEqual | TDelete => WDelete | TInsert => WInsert end.

(** The segments of both sides, from the offsets reached on each. *)
(* src: apdiff-viewer/src/diff/word_diff.rs:85-126 create_word_diff_segments *)
Fixpoint segments_from (old_offset new_offset : N) (changes : list (ChangeTag * str)) :
    list WordChangeSegment * list WordChangeSegment :=
  match changes with
  | [] => ([], [])
  | (tag, content) :: changes =>
      let ty := change_type_of tag in
      let '(old_opt, old_offset) :=
        match tag with
        | TEqual | TDelete =>
            (Some (create_segment content ty old_offset), (old_offset + str_len content)%N)
        | TInsert => (None, old_offset)
        end in
      let '(new_opt, new_offset) :=
        match tag with
        | TEqual | TInsert =>
            (Some (create_segment content ty new_offset), (new_offset + str_len content)%N)
        | TDelete => (None, new_offset)
        end in
      let '(old_acc, new_acc) := segments_from old_offset new_offset changes in
      (option_list old_opt ++ old_acc, option_list new_opt ++ new_acc)
  end.

Section word_diff.
Context `{Similar}.

(* src: apdiff-viewer/src/diff/word_diff.rs:76-138 create_word_diff_segments *)
Definition create_word_diff_segments (old_words new_words : list str) : StructuredWordDiffResult :=
  let '(old_changes, new_changes) := segments_from 0 0 (diff_slices old_words new_words) in
  {| old_changes := consolidate_consecutive_changes old_changes;
     new_changes := consolidate_consecutive_changes new_changes |}.

(* src: apdiff-viewer/src/diff/word_diff.rs:38-55 highlight_word_diff_structured *)
Definition highlight_word_diff_structured (old_line new_line : str) (max_line_length : N) :
    StructuredWordDiffResult :=
  if (max_line_length <? str_len old_line)%N || (max_line_length <? str_len new_line)%N then
    {| old_changes := [create_equal_segment old_line 0];
       new_changes := [create_equal_segment new_line 0] |}
  else create_word_diff_segments (split_into_words old_line) (split_into_words new_line).
End word_diff.

(** ** Facts about word-level diffs

    Cutting a line into words, laying segments out, and what consolidation does to them. *)

(** ** Words *)

(** A piece of a line: not empty, and either all whitespace or all of something else. *)
Definition piece_kind (p : str) : option bool :=
  match p with
  | [] => None
  | c :: p' =>
      if forallb (fun d => Bool.eqb (is_whitespace d) (is_whitespace c)) p' then
        Some (is_whitespace c)
      else None
  end.

(** Pieces whose kinds alternate. *)
Fixpoint alternating (ps : list str) : Prop :=
  match ps with
  | [] => True
  | p :: ps' =>
      is_Some (piece_kind p) /\
      match ps' with [] => True | q :: _ => piece_kind p <> piece_kind q end /\ alternating ps'
  end.

(** The reference: one pass over the line that starts a piece where the kind changes. *)
Fixpoint pieces (c1 : char) (s : str) : list str :=
  match s with
  | [] => [[c1]]
  | c2 :: s =>
      if bool_decide (is_whitespace c1 = is_whitespace c2) then
        match pieces c2 s with p :: ps => (c1 :: p) :: ps | [] => [[c1]] end
      else [c1] :: pieces c2 s
  end.

Lemma pieces_cons c s : exists p ps, pieces c s = (c :: p) :: ps /\ concat ((c :: p) :: ps) = c :: s.
Proof.
  revert c. induction s as [|c2 s IH]; intros c; simpl; [by eexists _, _|].
  destruct (IH c2) as (p & ps & -> & Hs). case_bool_decide.
  - exists (c2 :: p), ps. split; [done|]. by rewrite <- Hs.
  - exists [], ((c2 :: p) :: ps). split; [done|]. simpl. by rewrite <- Hs.
Qed.

Lemma piece_kind_cons c d p :
  is_whitespace c = is_whitespace d -> is_Some (piece_kind (d :: p)) ->
  piece_kind (c :: d :: p) = piece_kind (d :: p).
Proof. intros Hcd. simpl. rewrite Hcd, eqb_reflx. simpl. by destruct (forallb _ p); intros []. Qed.

Lemma piece_kind_head d p b : piece_kind (d :: p) = Some b -> b = is_whitespace d.
Proof. simpl. destruct (forallb _ _); naive_solver. Qed.

Lemma pieces_alternating c s : alternating (pieces c s).
Proof.
  revert c. induction s as [|c2 s IH]; intros c; simpl; [by eauto|].
  specialize (IH c2). destruct (pieces_cons c2 s) as (p & ps & Hp & _). rewrite Hp in IH |- *.
  destruct IH as (Hk & Hne & Hps). case_bool_decide as Hcd.
  - cbn [alternating]. rewrite piece_kind_cons by done. done.
  - split; [by eexists|]. split; [|done]. destruct Hk as [b Hb]. rewrite Hb.
    apply piece_kind_head in Hb as ->. simpl. congruence.
Qed.

Lemma windows2_cons {A B} (f : A * A -> B) (x y : A) l :
  f <$> windows2 (x :: y :: l) = f (x, y) :: (f <$> windows2 (y :: l)).
Proof. done. Qed.

(** Cutting the line at the boundaries gives these pieces. *)
Lemma cut_pieces pre c s :
  (fun w => default [] (str_get w.1 w.2 (pre ++ c :: s))) <$>
    windows2 (str_len pre :: changes_at (str_len pre) c s ++ [str_len (pre ++ c :: s)]) =
  pieces c s.
Proof.
  (* [q] is what the current piece already has. *)
  enough (forall q, match pieces c s with p :: ps => (q ++ p) :: ps | [] => [] end =
    (fun w => default [] (str_get w.1 w.2 (pre ++ q ++ c :: s))) <$>
      windows2 (str_len pre :: changes_at (str_len (pre ++ q)) c s ++
                [str_len (pre ++ q ++ c :: s)])) as Hgen.
  { specialize (Hgen []). rewrite app_nil_r in Hgen. simpl in Hgen. etrans; [symmetry; exact Hgen|].
    by destruct (pieces_cons c s) as (p & ps & -> & _). }
  revert pre c. induction s as [|c2 s IH]; intros pre c q; cbn [pieces changes_at].
  - cbv [windows2]. simpl. f_equal.
    rewrite (str_len_app pre). rewrite <- (app_nil_r (q ++ [c])) at 3. by rewrite str_get_app.
  - assert (str_len (pre ++ q) + len_utf8 c = str_len (pre ++ q ++ [c]))%N as Hpos
      by (rewrite !str_len_app; simpl; lia).
    case_bool_decide as Hcd.
    + rewrite Hpos. specialize (IH pre c2 (q ++ [c])).
      destruct (pieces_cons c2 s) as (p & ps & Hp & _). rewrite Hp in IH |- *.
      rewrite <- !(assoc_L (++)) in IH. simpl in IH. done.
    + rewrite Hpos. simpl app. rewrite windows2_cons. f_equal.
      * cbn [fst snd]. rewrite str_len_app.
        rewrite (assoc_L (++) q [c] (c2 :: s) : q ++ c :: c2 :: s = _). by rewrite str_get_app.
      * specialize (IH (pre ++ q ++ [c]) c2 []). rewrite app_nil_r in IH.
        destruct (pieces_cons c2 s) as (p & ps & Hp & _). rewrite Hp in IH |- *.
        rewrite <- !(assoc_L (++)) in IH. simpl in IH. done.
Qed.

Lemma split_into_words_pieces c s : split_into_words (c :: s) = pieces c s.
Proof. exact (cut_pieces [] c s). Qed.

Lemma split_into_words_concat text : concat (split_into_words text) = text.
Proof.
  destruct text as [|c s]; [done|]. rewrite split_into_words_pieces.
  by destruct (pieces_cons c s) as (p & ps & -> & Hs).
Qed.

Lemma split_into_words_alternating text : alternating (split_into_words text).
Proof.
  destruct text as [|c s]; [done|]. rewrite split_into_words_pieces. apply pieces_alternating.
Qed.

(** ** Segments *)

(** Segments that lie one after the other from an offset, each as long as its text. *)
Fixpoint laid_out (start : N) (segs : list WordChangeSegment) : Prop :=
  match segs with
  | [] => True
  | s :: segs =>
      start_offset s = start /\ end_offset s = (start + str_len (seg_text s))%N /\
      laid_out (end_offset s) segs
  end.

Definition texts (segs : list WordChangeSegment) : str := concat (seg_text <$> segs).

Lemma texts_app a b : texts (a ++ b) = texts a ++ texts b.
Proof. unfold texts. by rewrite fmap_app, concat_app. Qed.

Lemma laid_out_app start a b :
  laid_out start (a ++ b) <-> laid_out start a /\ laid_out (start + str_len (texts a)) b.
Proof.
  revert start. induction a as [|s a IH]; intros start; simpl.
  - rewrite N.add_0_r. naive_solver.
  - rewrite IH. unfold texts. simpl. rewrite str_len_app.
    split.
    + intros (-> & -> & Ha & Hb). rewrite N.add_assoc. done.
    + intros ((-> & -> & Ha) & Hb). rewrite N.add_assoc in Hb. done.
Qed.

Lemma segments_from_old o n changes :
  let segs := (segments_from o n changes).1 in
  texts segs = concat (old_part changes) /\ laid_out o segs /\
  Forall (fun s => change_type s <> WInsert) segs.
Proof.
  revert o n. induction changes as [|[tag w] changes IH]; intros o n; [done|].
  destruct tag; simpl segments_from; cbn zeta;
    match goal with |- context [segments_from ?a ?b changes] =>
      specialize (IH a b); destruct (segments_from a b changes) as [os ns] end;
    simpl in IH |- *; destruct IH as (Ht & Hl & Hf); unfold texts in *; simpl;
    (split; [first [exact Ht | f_equal; exact Ht] | split; [done|by repeat constructor]]).
Qed.

Lemma segments_from_new o n changes :
  let segs := (segments_from o n changes).2 in
  texts segs = concat (new_part changes) /\ laid_out n segs /\
  Forall (fun s => change_type s <> WDelete) segs.
Proof.
  revert o n. induction changes as [|[tag w] changes IH]; intros o n; [done|].
  destruct tag; simpl segments_from; cbn zeta;
    match goal with |- context [segments_from ?a ?b changes] =>
      specialize (IH a b); destruct (segments_from a b changes) as [os ns] end;
    simpl in IH |- *; destruct IH as (Ht & Hl & Hf); unfold texts in *; simpl;
    (split; [first [exact Ht | f_equal; exact Ht] | split; [done|by repeat constructor]]).
Qed.

(** ** Consolidation *)

Abbreviation is_equal := (fun s => change_type s = WEqual).

(** Whatever happened on the way, the scan ends at the last segment of the target's type. *)
Fixpoint last_of (target : WordChangeType) (i : nat) (rest : list WordChangeSegment)
    (last : option nat) : option nat :=
  match rest with
  | [] => last
  | s :: rest =>
      last_of target (S i) rest (if bool_decide (change_type s = target) then Some (S i) else last)
  end.

Lemma consolidation_scan_last target b i rest last :
  consolidation_scan target b i rest last = last_of target i rest last.
Proof.
  revert b i last. induction rest as [|s rest IH]; intros b i last; simpl; [done|].
  destruct (bool_decide (change_type s = target)); [apply IH|].
  destruct (_ && _ && _); [|apply IH]. destruct rest as [|next rest]; [apply IH|].
  destruct (bool_decide (change_type next = target)) eqn:E; rewrite IH; [|done].
  simpl. by rewrite E.
Qed.

Lemma last_of_none target i rest last :
  Forall (fun s => change_type s <> target) rest -> last_of target i rest last = last.
Proof.
  intros Hall. revert i. induction Hall as [|s rest Hs _ IH]; intros i; simpl; [done|].
  by rewrite bool_decide_eq_false_2.
Qed.

Lemma last_of_split target i a x b last :
  change_type x = target -> Forall (fun s => change_type s <> target) b ->
  last_of target i (a ++ x :: b) last = Some (S (i + length a)).
Proof.
  intros Hx Hb. revert i last. induction a as [|s a IH]; intros i last; simpl.
  - rewrite bool_decide_eq_true_2 by done. rewrite last_of_none by done. f_equal. lia.
  - rewrite IH. f_equal. lia.
Qed.

Lemma consolidate_scan_equal ch skip i rest :
  match skip with Some k => k <= i | None => True end -> Forall is_equal rest ->
  consolidate_scan ch skip i rest = rest.
Proof.
  intros Hskip Hall. revert i Hskip. induction Hall as [|s rest Hs _ IH]; intros i Hskip; simpl;
    [done|].
  replace (match skip with Some k => (i <? k)%nat | None => false end) with false.
  - rewrite Hs. f_equal. apply IH. destruct skip; lia.
  - destruct skip as [k|]; [|done]. symmetry. apply Nat.ltb_ge. lia.
Qed.

Lemma consolidate_scan_prefix ch i pre rest :
  Forall is_equal pre ->
  consolidate_scan ch None i (pre ++ rest) = pre ++ consolidate_scan ch None (i + length pre) rest.
Proof.
  intros Hall. revert i. induction Hall as [|s pre Hs _ IH]; intros i; simpl.
  - by rewrite Nat.add_0_r.
  - rewrite Hs, IH. do 3 f_equal. lia.
Qed.

Lemma consolidate_scan_skip ch k i skipped rest :
  i + length skipped = k ->
  consolidate_scan ch (Some k) i (skipped ++ rest) = consolidate_scan ch (Some k) k rest.
Proof.
  revert i. induction skipped as [|s skipped IH]; intros i Hk; simpl in *.
  - by replace i with k by lia.
  - rewrite (proj2 (Nat.ltb_lt _ _)) by lia. apply IH. lia.
Qed.

(** On one side only one type of change occurs: everything from the first to the last change
    becomes one segment, and what is before and after stays. *)
Lemma consolidate_one_side t pre x mid post :
  t <> WEqual -> Forall is_equal pre -> Forall is_equal post -> change_type x = t ->
  (exists y, last (x :: mid) = Some y /\ change_type y = t) ->
  consolidate_consecutive_changes (pre ++ (x :: mid) ++ post) =
    pre ++ create_segment (texts (x :: mid)) t (start_offset x) :: post.
Proof.
  intros Ht Hpre Hpost Hx (y & [a Ha]%last_Some & Hy). unfold consolidate_consecutive_changes.
  set (ch := pre ++ (x :: mid) ++ post). unfold ch at 2.
  rewrite consolidate_scan_prefix by done. f_equal. simpl.
  assert (find_consolidation_end ch (length pre) = Some (length pre + length (x :: mid))) as Hend.
  { unfold find_consolidation_end, ch.
    rewrite lookup_app_r, Nat.sub_diag by lia. cbn [lookup list_lookup app mbind option_bind].
    rewrite drop_app_length. rewrite consolidation_scan_last.
    change (x :: mid ++ post) with ((x :: mid) ++ post). rewrite Ha, <- (assoc_L (++)). simpl.
    rewrite Hx, last_of_split; [simpl; f_equal|done|].
    - rewrite length_app. simpl. lia.
    - eapply Forall_impl; [exact Hpost|]. simpl. congruence. }
  assert (merged_segment ch x (length pre) (length pre + length (x :: mid)) =
          create_segment (texts (x :: mid)) t (start_offset x)) as Hmerge.
  { unfold merged_segment, slice, ch. rewrite drop_app_length.
    replace (length pre + length (x :: mid) - length pre) with (length (x :: mid)) by lia.
    rewrite take_app_length. by rewrite Hx. }
  rewrite Hend. cbn [default]. unfold default, from_option, id. rewrite Hmerge.
  assert (consolidate_scan ch (Some (length pre + length (x :: mid))) (S (length pre)) (mid ++ post)
          = post) as Hrest.
  { rewrite consolidate_scan_skip by (simpl; lia). apply consolidate_scan_equal; [lia|done]. }
  rewrite Hrest, Hx. by destruct t.
Qed.

Lemma consolidate_all_equal l : Forall is_equal l -> consolidate_consecutive_changes l = l.
Proof. intros Hl. by apply consolidate_scan_equal. Qed.

(** A side either has no change, or it splits at its first and its last change. *)
Lemma one_side_split t l :
  t <> WEqual -> Forall (fun s => change_type s = t \/ change_type s = WEqual) l ->
  Forall is_equal l \/
  exists pre x mid post, l = pre ++ (x :: mid) ++ post /\ Forall is_equal pre /\
    Forall is_equal post /\ change_type x = t /\
    exists y, last (x :: mid) = Some y /\ change_type y = t.
Proof.
  intros Ht. induction 1 as [|s l Hs _ IH]; [by left|].
  destruct IH as [Hl|(pre & x & mid & post & -> & Hpre & Hpost & Hx & y & Hy & Hty)].
  - destruct Hs as [Hs|Hs]; [|left; by constructor]. right.
    exists [], s, [], l. repeat split; [constructor|done|done|by exists s].
  - right. destruct Hs as [Hs|Hs].
    + exists [], s, (pre ++ x :: mid), post. simpl. rewrite <- (assoc_L (++)).
      repeat split; [constructor|done|done|]. exists y. split; [|done].
      rewrite <- Hy. rewrite app_comm_cons, last_app_cons. done.
    + exists (s :: pre), x, mid, post. repeat split; [by constructor|done|done|by exists y].
Qed.

(** What a consolidated side looks like. *)
Definition changed (s : WordChangeSegment) : bool := negb (bool_decide (change_type s = WEqual)).

Lemma filter_changed_equal l : Forall is_equal l -> List.filter changed l = [].
Proof.
  induction 1 as [|s l Hs _ IH]; simpl; [done|]. unfold changed at 1.
  by rewrite bool_decide_eq_true_2.
Qed.

Lemma consolidate_side t start l :
  t <> WEqual -> Forall (fun s => change_type s = t \/ change_type s = WEqual) l ->
  laid_out start l ->
  let r := consolidate_consecutive_changes l in
  texts r = texts l /\ laid_out start r /\
  Forall (fun s => change_type s = t \/ change_type s = WEqual) r /\
  length (List.filter changed r) <= 1.
Proof.
  intros Ht Hl Hlay r. subst r. destruct (one_side_split t l Ht Hl)
    as [Heq|(pre & x & mid & post & -> & Hpre & Hpost & Hx & Hlast)].
  { rewrite consolidate_all_equal, filter_changed_equal by done. simpl. auto with lia. }
  rewrite (consolidate_one_side t) by done.
  apply laid_out_app in Hlay as [Hlpre Hlay]. apply laid_out_app in Hlay as [Hlmid Hlpost].
  assert (start_offset x = start + str_len (texts pre))%N as Hstart by apply Hlmid.
  split; [|split; [|split]].
  - rewrite !texts_app. unfold texts at 2. simpl. done.
  - apply laid_out_app. split; [done|]. simpl. by rewrite Hstart.
  - rewrite !Forall_app in Hl. destruct Hl as (? & _ & ?). apply Forall_app. split; [done|].
    constructor; [by left|done].
  - rewrite List.filter_app, length_app. simpl. rewrite !filter_changed_equal by done.
    destruct (changed _); simpl; lia.
Qed.

(** ** Both sides of a word diff *)

(** A side of a comparison of [line]: its segments are the line, cut, and at most one of them is a
    change, of the side's type. *)
Definition side_of (t : WordChangeType) (line : str) (segs : list WordChangeSegment) : Prop :=
  texts segs = line /\ laid_out 0 segs /\
  Forall (fun s => change_type s = t \/ change_type s = WEqual) segs /\
  length (List.filter changed segs) <= 1.

Lemma side_of_equal t line : side_of t line [create_equal_segment line 0].
Proof.
  split; [apply app_nil_r|]. split; [done|]. split; [|simpl; lia].
  apply Forall_singleton. by right.
Qed.

Lemma highlight_word_diff_sides `{Similar} old_line new_line max :
  let r := highlight_word_diff_structured old_line new_line max in
  side_of WDelete old_line (old_changes r) /\ side_of WInsert new_line (new_changes r).
Proof.
  unfold highlight_word_diff_structured. destruct (_ || _); [split; apply side_of_equal|].
  unfold create_word_diff_segments.
  set (changes := diff_slices _ _).
  pose proof (segments_from_old 0 0 changes) as (Hto & Hlo & Hfo).
  pose proof (segments_from_new 0 0 changes) as (Htn & Hln & Hfn).
  destruct (segments_from 0 0 changes) as [os ns]. simpl in *.
  assert (Forall (fun s => change_type s = WDelete \/ change_type s = WEqual) os) as Ho.
  { eapply Forall_impl; [exact Hfo|]. intros s Hs. simpl in Hs.
    destruct (change_type s); auto; by destruct Hs. }
  assert (Forall (fun s => change_type s = WInsert \/ change_type s = WEqual) ns) as Hn.
  { eapply Forall_impl; [exact Hfn|]. intros s Hs. simpl in Hs.
    destruct (change_type s); auto; by destruct Hs. }
  destruct (consolidate_side WDelete 0 os) as (Ho1 & Ho2 & Ho3 & Ho4); [done..|].
  destruct (consolidate_side WInsert 0 ns) as (Hn1 & Hn2 & Hn3 & Hn4); [done..|].
  unfold changes in *. rewrite diff_slices_old, split_into_words_concat in Hto.
  rewrite diff_slices_new, split_into_words_concat in Htn.
  split; split_and!; congruence || done.
Qed.
