(* ===== verification/Apworld.v ===== *)
(** * File trees of apworlds (crate [apdiff-viewer])

    [apdiff-viewer/src/apworld.rs]: unpacking an archive into a tree of texts and digests under
    limits that a hostile archive can't get around, and moving a tree under another folder.  The
    [zip] and [sha2] crates are parameters. *)

From S2P Require Import Prelude Ord RustStd.

(** ** Paths

    A path is its components, and paths are ordered component by component. *)
Abbreviation PathBuf := (list str) (only parsing).

Fixpoint path_leb (p q : PathBuf) : bool :=
  match p, q with
  | [], _ => true
  | _ :: _, [] => false
  | c :: p, d :: q => if decide (c = d) then path_leb p q else str_leb c d
  end.

(** [Path::to_string_lossy]. *)
Definition path_str (p : PathBuf) : str := join (lit "/") p.

Definition path_le (p q : PathBuf) : Prop := path_leb p q = true.

#[export] Instance path_le_dec : RelDecision path_le.
Proof. intros p q. unfold path_le. apply _. Defined.

Lemma path_leb_antisym p q : path_leb p q = true -> path_leb q p = true -> p = q.
Proof.
  revert q. induction p as [|c p IH]; intros [|d q]; simpl; try done.
  repeat case_decide; simplify_eq; intros.
  - f_equal. by apply IH.
  - f_equal; [by apply str_leb_antisym|]. exfalso. by apply H, str_leb_antisym.
Qed.

Lemma path_leb_trans p q r : path_leb p q = true -> path_leb q r = true -> path_leb p r = true.
Proof.
  revert q r. induction p as [|c p IH]; intros [|d q] [|e r]; simpl; try done.
  repeat case_decide; simplify_eq; intros Hpq Hqr; try done; [by eapply IH| |].
  - exfalso. by apply H, str_leb_antisym.
  - by eapply str_leb_trans.
Qed.

#[export] Instance path_le_partial : PartialOrder path_le.
Proof.
  split; [split|].
  - intros p. unfold path_le. induction p as [|c p IH]; simpl; [done|]. by rewrite decide_True.
  - intros p q r. apply path_leb_trans.
  - intros p q. apply path_leb_antisym.
Qed.

#[export] Instance path_le_total : Total path_le.
Proof.
  intros p q. unfold path_le. revert q. induction p as [|c p IH]; intros [|d q]; simpl; eauto.
  repeat case_decide; simplify_eq; [apply IH|]. apply str_leb_total.
Qed.

#[export] Instance path_ord : RustOrd PathBuf := { ord_le := path_le }.

(** ** Bytes as text *)

Definition is_cont (b : N) : bool := (128 <=? b)%N && (b <=? 191)%N.

(** [String::from_utf8]: no overlong forms, no surrogates, nothing above U+10FFFF. *)
Fixpoint from_utf8_fuel (fuel : nat) (bytes : list N) : option str :=
  match fuel, bytes with
  | _, [] => Some []
  | O, _ :: _ => None
  | S fuel, b0 :: rest =>
      if (b0 <? 128)%N then (fun s => b0 :: s) <$> from_utf8_fuel fuel rest
      else
        match rest with
        | b1 :: rest1 =>
            if (194 <=? b0)%N && (b0 <=? 223)%N && is_cont b1 then
              (fun s => ((b0 - 192) * 64 + (b1 - 128))%N :: s) <$> from_utf8_fuel fuel rest1
            else
              match rest1 with
              | b2 :: rest2 =>
                  let c3 := ((b0 - 224) * 4096 + (b1 - 128) * 64 + (b2 - 128))%N in
                  if (224 <=? b0)%N && (b0 <=? 239)%N && is_cont b1 && is_cont b2 &&
                     (2048 <=? c3)%N && negb ((55296 <=? c3)%N && (c3 <=? 57343)%N) then
                    (fun s => c3 :: s) <$> from_utf8_fuel fuel rest2
                  else
                    match rest2 with
                    | b3 :: rest3 =>
                        let c4 := ((b0 - 240) * 262144 + (b1 - 128) * 4096 + (b2 - 128) * 64 +
                                   (b3 - 128))%N in
                        if (240 <=? b0)%N && (b0 <=? 244)%N && is_cont b1 && is_cont b2 &&
                           is_cont b3 && (65536 <=? c4)%N && (c4 <=? 1114111)%N then
                          (fun s => c4 :: s) <$> from_utf8_fuel fuel rest3
                        else None
                    | [] => None
                    end
              | [] => None
              end
        | [] => None
        end
  end.
Definition from_utf8 (bytes : list N) : option str := from_utf8_fuel (length bytes) bytes.

(** ** Trees *)

(* src: apdiff-viewer/src/apworld.rs:8-12 FileContent *)
Inductive FileContent :=
| Text (text : str)
| Binary (digest : list N).

#[export] Instance FileContent_eq_dec : EqDecision FileContent.
Proof. solve_decision. Defined.

(* src: apdiff-viewer/src/apworld.rs:14-14 FileTree *)
Definition FileTree : Type := gmap PathBuf FileContent.

(* src: apdiff-viewer/src/apworld.rs:16-16 MAX_ENTRY_SIZE *)
Definition MAX_ENTRY_SIZE : N := 10 * 1024 * 1024.
(* src: apdiff-viewer/src/apworld.rs:17-17 MAX_TOTAL_SIZE *)
Definition MAX_TOTAL_SIZE : N := 100 * 1024 * 1024.
(* src: apdiff-viewer/src/apworld.rs:18-18 MAX_ENTRY_COUNT *)
Definition MAX_ENTRY_COUNT : N := 10000.

(* src: apdiff-viewer/src/apworld.rs:20-29 rekey_tree *)
Definition rekey_tree (tree : FileTree) (new_prefix : PathBuf) : FileTree :=
  fold_left (fun acc '(path, content) => <[new_prefix ++ tail path := content]> acc)
    (bt_iter tree) ∅.

(** ** Archives *)

(** An entry as the [zip] crate gives it.  Its reader yields [entry_bytes], and then an error
    rather than the end if [entry_fails]. *)
Record ZipEntry := {
  entry_name : str;
  is_dir : bool;
  is_symlink : bool;
  enclosed_name : option PathBuf;
  entry_bytes : list N;
  entry_fails : bool;
}.

Class Zip := {
  zip_error : Type;
  (** [ZipArchive::new], and [by_index] for each index of the archive. *)
  zip_archive : list N -> result zip_error (list (result zip_error ZipEntry));
}.

Class Sha256 := { sha256 : list N -> list N }.

(** [Read::take] and [read_to_end]. *)
Definition read_limited (limit : N) (entry : ZipEntry) : option (list N) :=
  if (limit <=? N.of_nat (length (entry_bytes entry)))%N then
    Some (take (N.to_nat limit) (entry_bytes entry))
  else if entry_fails entry then None else Some (entry_bytes entry).

Section extract.
Context `{Zip, Sha256}.

Inductive ExtractError :=
| ZipFailed (e : zip_error)
| TooManyEntries (count : N)
| ContainsSymlink (name : str)
| PathTraversal (name : str)
| ReadFailed (path : PathBuf)
| EntryTooLarge (path : PathBuf)
| TotalTooLarge.

(* src: apdiff-viewer/src/apworld.rs:85-88 extract_apworld *)
Definition content_of (buf : list N) : FileContent :=
  match from_utf8 buf with Some text => Text text | None => Binary (sha256 buf) end.

(** The body of the loop over the archive. *)
(* src: apdiff-viewer/src/apworld.rs:46-91 extract_apworld *)
Definition extract_entry (st : N * FileTree) (entry : result zip_error ZipEntry) :
    result ExtractError (N * FileTree) :=
  let '(total_size, tree) := st in
  entry ← map_err ZipFailed entry;
  if is_dir entry then Ok (total_size, tree)
  else if is_symlink entry then Err (ContainsSymlink (entry_name entry))
  else
    path ← ok_or (enclosed_name entry) (PathTraversal (entry_name entry));
    buf ← ok_or (read_limited (MAX_ENTRY_SIZE + 1) entry) (ReadFailed path);
    let bytes_read := N.of_nat (length buf) in
    if (MAX_ENTRY_SIZE <? bytes_read)%N then Err (EntryTooLarge path)
    else
      let total_size := (total_size + bytes_read)%N in
      if (MAX_TOTAL_SIZE <? total_size)%N then Err TotalTooLarge
      else Ok (total_size, <[path := content_of buf]> tree).

(* src: apdiff-viewer/src/apworld.rs:31-94 extract_apworld *)
Definition extract_apworld (data : list N) : result ExtractError FileTree :=
  archive ← map_err ZipFailed (zip_archive data);
  let count := N.of_nat (length archive) in
  if (MAX_ENTRY_COUNT <? count)%N then Err (TooManyEntries count)
  else snd <$> try_fold extract_entry (0%N, ∅) archive.
End extract.

(** ** Facts about unpacking apworlds

    The loop of [extract_apworld] against a description of the archives it accepts, and where
    [rekey_tree] puts the files. *)

Lemma mapM_cons_eq {A B} (f : A -> option B) x l :
  mapM f (x :: l) = (y ← f x; k ← mapM f l; Some (y :: k)).
Proof. done. Qed.

Section extract_facts.
Context `{Zip, Sha256}.

(** What an entry adds: nothing for a folder, a file's path and bytes, [None] when the entry is
    refused. *)
Definition accepted (entry : result zip_error ZipEntry) : option (option (PathBuf * list N)) :=
  match entry with
  | Err _ => None
  | Ok e =>
      if is_dir e then Some None
      else if is_symlink e || entry_fails e ||
              (MAX_ENTRY_SIZE <? N.of_nat (length (entry_bytes e)))%N then None
      else path ← enclosed_name e; Some (Some (path, entry_bytes e))
  end.

Definition total_bytes (files : list (PathBuf * list N)) : N :=
  foldr (fun f n => (N.of_nat (length f.2) + n)%N) 0%N files.

Definition add_files (files : list (PathBuf * list N)) (tree : FileTree) : FileTree :=
  fold_left (fun t f => <[f.1 := content_of f.2]> t) files tree.

Lemma read_limited_spec e :
  match read_limited (MAX_ENTRY_SIZE + 1) e with
  | Some buf => if (MAX_ENTRY_SIZE <? N.of_nat (length buf))%N then None else Some buf
  | None => None
  end = if entry_fails e || (MAX_ENTRY_SIZE <? N.of_nat (length (entry_bytes e)))%N then None
        else Some (entry_bytes e).
Proof.
  unfold read_limited. generalize MAX_ENTRY_SIZE. intros m.
  destruct (N.leb_spec (m + 1) (N.of_nat (length (entry_bytes e)))) as [Hle|Hlt].
  - rewrite length_take. rewrite !(proj2 (N.ltb_lt _ _)) by lia. by rewrite orb_true_r.
  - destruct (entry_fails e); [done|]. by rewrite (proj2 (N.ltb_ge _ _)) by lia.
Qed.

Lemma extract_entry_spec total tree entry st :
  extract_entry (total, tree) entry = Ok st <->
  match accepted entry with
  | None => False
  | Some None => st = (total, tree)
  | Some (Some f) =>
      (total + N.of_nat (length f.2) <= MAX_TOTAL_SIZE)%N /\
      st = ((total + N.of_nat (length f.2))%N, add_files [f] tree)
  end.
Proof.
  destruct entry as [e|z]; cbn [extract_entry map_err mbind result_bind accepted]; [|done].
  destruct (is_dir e); [naive_solver|]. destruct (is_symlink e); [done|].
  cbn [orb]. pose proof (read_limited_spec e) as Hread.
  destruct (enclosed_name e) as [p|]; cbn [ok_or mbind result_bind option_bind].
  2: { by destruct (_ || _). }
  destruct (read_limited (MAX_ENTRY_SIZE + 1) e) as [buf|]; cbn [ok_or]; rewrite ?result_bind_Ok.
  2: { by destruct (_ || _). }
  destruct (MAX_ENTRY_SIZE <? N.of_nat (length buf))%N; revert Hread.
  { by destruct (entry_fails e || _). }
  destruct (entry_fails e || _); intros Hread; [done|]. injection Hread as ->. simpl.
  destruct (N.ltb_spec MAX_TOTAL_SIZE (total + N.of_nat (length (entry_bytes e))))%N.
  - split; [done|intros [? _]; lia].
  - split; [intros [= <-]; done|intros [_ ->]; done].
Qed.

(** The loop over the archive. *)
Lemma extract_loop archive total tree st :
  (total <= MAX_TOTAL_SIZE)%N ->
  try_fold extract_entry (total, tree) archive = Ok st <->
  exists entries, mapM accepted archive = Some entries /\
    let files := omap id entries in
    (total + total_bytes files <= MAX_TOTAL_SIZE)%N /\
    st = ((total + total_bytes files)%N, add_files files tree).
Proof.
  revert total tree. induction archive as [|entry archive IH]; intros total tree Htot.
  { simpl. split.
    - intros [= <-]. exists []. simpl. rewrite N.add_0_r. done.
    - intros (? & [= <-] & _ & ->). simpl. by rewrite N.add_0_r. }
  cbn [try_fold]. rewrite mapM_cons_eq. split.
  - intros ([total1 tree1] & Hentry & Hrun)%result_bind_Ok_inv.
    apply extract_entry_spec in Hentry.
    destruct (accepted entry) as [[f|]|]; [| |done]; cbn [mbind option_bind].
    + destruct Hentry as (Hle & [= -> ->]).
      apply IH in Hrun as (entries & -> & Hrun); [|done]. exists (Some f :: entries).
      split; [done|]. simpl. rewrite N.add_assoc. done.
    + injection Hentry as -> ->. apply IH in Hrun as (entries & -> & Hrun); [|done].
      by exists (None :: entries).
  - intros (entries & Hacc & Hle & ->).
    destruct (accepted entry) as [o|] eqn:Eacc; [|done]. cbn [mbind option_bind] in Hacc.
    destruct (mapM accepted archive) as [rest|] eqn:Erest; [|done].
    injection Hacc as <-. destruct o as [f|].
    + change (omap id (Some f :: rest)) with (f :: omap id rest) in *. simpl in Hle.
      assert (extract_entry (total, tree) entry =
        Ok ((total + N.of_nat (length f.2))%N, add_files [f] tree)) as ->.
      { apply extract_entry_spec. rewrite Eacc. split; [lia|done]. }
      rewrite result_bind_Ok. apply IH; [lia|]. exists rest. split; [done|]. simpl.
      split; [lia|]. by rewrite N.add_assoc.
    + assert (extract_entry (total, tree) entry = Ok (total, tree)) as ->.
      { apply extract_entry_spec. by rewrite Eacc. }
      rewrite result_bind_Ok. apply IH; [lia|]. by exists rest.
Qed.

(** The last file of a path is the one that stays. *)
Lemma add_files_lookup files tree p :
  add_files files tree !! p =
    match last (List.filter (fun f => bool_decide (f.1 = p)) files) with
    | Some f => Some (content_of f.2)
    | None => tree !! p
    end.
Proof.
  unfold add_files. induction files as [|f files IH] using rev_ind; [done|].
  rewrite fold_left_app, List.filter_app. simpl. case_bool_decide as Hp.
  - rewrite last_snoc. subst p. apply lookup_insert_eq.
  - rewrite app_nil_r. etrans; [by apply lookup_insert_ne|apply IH].
Qed.
End extract_facts.

(** ** Moving a tree *)

Lemma rekey_tree_fold l prefix (acc : FileTree) p :
  fold_left (fun (acc : FileTree) '(path, content) => <[prefix ++ tail path := content]> acc) l acc
    !! p =
  match last (List.filter (fun e => bool_decide (prefix ++ tail e.1 = p)) l) with
  | Some e => Some e.2
  | None => acc !! p
  end.
Proof.
  induction l as [|[path content] l IH] using rev_ind; [done|].
  rewrite fold_left_app, List.filter_app. simpl. case_bool_decide as Hp.
  - rewrite last_snoc. subst p. apply lookup_insert_eq.
  - rewrite app_nil_r. etrans; [by apply lookup_insert_ne|apply IH].
Qed.

(** All files are below one folder. *)
Definition rooted (top : str) (tree : FileTree) : Prop :=
  forall p c, tree !! p = Some c -> exists rest, p = top :: rest.

Lemma rekey_tree_lookup top prefix tree rest :
  rooted top tree -> rekey_tree tree prefix !! (prefix ++ rest) = tree !! (top :: rest).
Proof.
  intros Hroot. unfold rekey_tree. rewrite rekey_tree_fold.
  assert (forall e, e ∈ List.filter (fun e => bool_decide (prefix ++ tail e.1 = prefix ++ rest))
      (bt_iter tree) <-> e.1 = top :: rest /\ tree !! e.1 = Some e.2) as Hin.
  { intros [p c]. rewrite elem_of_filter_bool, elem_of_bt_iter, bool_decide_eq_true. simpl. split.
    - intros (Hp & Heq%app_inv_head). destruct (Hroot p c Hp) as [r ->]. simpl in Heq.
      by subst.
    - intros (-> & Hp). done. }
  destruct (last _) as [e|] eqn:El.
  - destruct (proj1 (Hin e)) as (<- & He); [|done].
    apply last_Some in El as [l' ->]. set_solver.
  - apply last_None in El. destruct (tree !! (top :: rest)) as [c|] eqn:Ec; [|done].
    assert (((top :: rest, c) : PathBuf * FileContent) ∈ ([] : list (PathBuf * FileContent))) as Hn.
    { rewrite <- El. by apply Hin. }
    by apply elem_of_nil in Hn.
Qed.
