(* ===== verification/DiffLines.v ===== *)
(** * Lines of a diff (crate [apdiff-viewer])

    [apdiff-viewer/src/diff/mod.rs]: the lines of a file's diff, their syntax tokens and
    annotations, line endings, the blocks of changed lines and which deleted line is compared
    with which added one.  Rendering is in [DiffRender].  The [syntect] and [strsim] crates are
    parameters. *)

From Stdlib Require Import QArith.
From S2P Require Import Prelude RustStd WordDiff.
#[local] Open Scope nat_scope.

(** The [syntect] crate.  A parse state and a highlighting state go through the lines; scopes are
    their names. *)
Class Syntect := {
  SyntectStyle : Type;
  foreground : SyntectStyle -> (N * N * N) * N;
  is_bold : SyntectStyle -> bool;
  is_italic : SyntectStyle -> bool;
  is_underline : SyntectStyle -> bool;
  (** The default style in a colour. *)
  plain_style : (N * N * N) * N -> SyntectStyle;

  SyntaxReference : Type;
  ParseState : Type;
  HighlightState : Type;
  ScopeOps : Type;
  find_syntax_for_file : str -> option (option SyntaxReference);
  find_syntax_plain_text : SyntaxReference;
  ParseState_new : SyntaxReference -> ParseState;
  HighlightState_new : list str -> HighlightState;
  state_path : HighlightState -> list str;
  parse_line : ParseState -> str -> option ScopeOps * ParseState;
  highlight_iterator : HighlightState -> ScopeOps -> str -> list (SyntectStyle * str) * HighlightState;
  (** The iterator goes through all of the line. *)
  highlight_iterator_text : forall st ops line,
    concat (snd <$> (highlight_iterator st ops line).1) = line;
}.

(** The [strsim] crate. *)
Class Strsim := { levenshtein : str -> str -> N }.

(** ** Types *)

(* src: apdiff-viewer/src/diff/mod.rs:199-199 MAX_WORD_DIFF_LINE_LENGTH *)
Definition MAX_WORD_DIFF_LINE_LENGTH : N := 10000.
(* src: apdiff-viewer/src/diff/mod.rs:200-200 MAX_SYNTAX_HIGHLIGHT_LINE_LENGTH *)
Definition MAX_SYNTAX_HIGHLIGHT_LINE_LENGTH : N := 5000.
(* src: apdiff-viewer/src/diff/mod.rs:201-201 MAX_LINE_SIMILARITY_LENGTH *)
Definition MAX_LINE_SIMILARITY_LENGTH : N := 1000.
(* src: apdiff-viewer/src/diff/mod.rs:202-202 LINE_SIMILARITY_THRESHOLD *)
Definition LINE_SIMILARITY_THRESHOLD : Q := 1 # 4.
(* src: apdiff-viewer/src/diff/mod.rs:203-203 MAX_BLOCK_SIZE_FOR_MATCHING *)
Definition MAX_BLOCK_SIZE_FOR_MATCHING : nat := 200.

(* src: apdiff-viewer/src/diff/mod.rs:206-212 TemplateAnnotation *)
Record TemplateAnnotation := {
  ann_desc : str;
  ann_line : N;
  ann_col_start : N;
  ann_col_end : N;
}.

(* src: apdiff-viewer/src/diff/mod.rs:214-219 LineType *)
Inductive LineType := LAdd | LDelete | LContext.

#[export] Instance LineType_eq_dec : EqDecision LineType.
Proof. solve_decision. Defined.

(* src: apdiff-viewer/src/diff/mod.rs:221-229 LineType::as_str *)
Definition LineType_as_str (t : LineType) : str :=
  match t with LAdd => lit "add" | LDelete => lit "del" | LContext => lit "ctx" end.

(** ** Line endings *)

(* src: apdiff-viewer/src/diff/mod.rs:273-279 LineEnding *)
Inductive LineEnding := Lf | Crlf | Mixed | NoEnding.

#[export] Instance LineEnding_eq_dec : EqDecision LineEnding.
Proof. solve_decision. Defined.

(** [str::matches] and [count]: the occurrences of a non-empty text, from left to right, that
    don't overlap. *)
Fixpoint count_matches_fuel (fuel : nat) (p s : str) : nat :=
  match fuel, s with
  | S fuel, _ :: s' =>
      if starts_with p s then S (count_matches_fuel fuel p (drop (length p) s))
      else count_matches_fuel fuel p s'
  | _, _ => 0
  end.
Definition count_matches (p s : str) : nat := count_matches_fuel (length s) p s.

Definition LF : char := 10.
Definition CR : char := 13.

(* src: apdiff-viewer/src/diff/mod.rs:282-293 LineEnding::detect *)
Definition detect (text : str) : LineEnding :=
  let total_lf := count_matches [LF] text in
  if (total_lf =? 0)%nat then NoEnding
  else
    let crlf := count_matches [CR; LF] text in
    if (crlf =? 0)%nat then Lf else if (crlf =? total_lf)%nat then Crlf else Mixed.

(* src: apdiff-viewer/src/diff/mod.rs:295-302 LineEnding::as_str *)
Definition LineEnding_as_str (e : LineEnding) : str :=
  match e with
  | Lf => lit "LF" | Crlf => lit "CRLF" | Mixed => lit "mixed" | NoEnding => lit "none"
  end.

(** ** Annotations *)

(* src: apdiff-viewer/src/diff/mod.rs:522-535 find_line_annotations *)
Definition find_line_annotations (line_number : Z) (all_annotations : list TemplateAnnotation) :
    list TemplateAnnotation :=
  if (line_number <=? 0)%Z then []
  else List.filter (fun ann => (ann_line ann =? Z.to_N line_number)%N) all_annotations.

(** ** Scopes *)

(* src: apdiff-viewer/src/diff/mod.rs:504-509 is_single_line_comment *)
Definition is_single_line_comment (scope_str : str) : bool :=
  str_contains (lit "comment.line") scope_str || str_eqb scope_str (lit "comment") ||
  (starts_with (lit "comment.") scope_str && negb (str_contains (lit "block") scope_str)).

(* src: apdiff-viewer/src/diff/mod.rs:511-520 should_reset_parser_state *)
Definition should_reset_parser_state (current_scopes : list str) : bool :=
  existsb is_single_line_comment current_scopes.

(* src: apdiff-viewer/src/diff/mod.rs:537-540 is_invalid_scope_str *)
Definition is_invalid_scope_str (scope_str : str) : bool := starts_with (lit "invalid.") scope_str.

(* src: apdiff-viewer/src/diff/mod.rs:542-549 is_invalid_scope *)
Definition is_invalid_scope (scope_stack : list str) : bool :=
  existsb is_invalid_scope_str scope_stack.

Section lines.
Context `{Syntect}.

(* src: apdiff-viewer/src/diff/mod.rs:15-22 SyntaxToken *)
Record SyntaxToken := {
  tok_text : str;
  tok_style : SyntectStyle;
  tok_start : N;
  tok_end : N;
}.

(* src: apdiff-viewer/src/diff/mod.rs:231-242 DiffLine *)
Record DiffLine := {
  line_type : LineType;
  old_line_number : option Z;
  new_line_number : option Z;
  line_annotations : list TemplateAnnotation;
  raw_content : str;
  syntax_tokens : list SyntaxToken;
  word_changes : option (list WordChangeSegment);
  collapsed : bool;
  collapse_count : option nat;
}.

(* src: apdiff-viewer/src/diff/mod.rs:305-312 FileDiff *)
Record FileDiff := {
  filename_before : str;
  filename_after : str;
  is_binary : bool;
  lines : list DiffLine;
  line_ending_change : option (LineEnding * LineEnding);
}.

(* src: apdiff-viewer/src/diff/mod.rs:315-319 FileDiff::line_ending_before_str *)
Definition line_ending_before_str (d : FileDiff) : str :=
  match line_ending_change d with Some (b, _) => LineEnding_as_str b | None => [] end.

(* src: apdiff-viewer/src/diff/mod.rs:321-325 FileDiff::line_ending_after_str *)
Definition line_ending_after_str (d : FileDiff) : str :=
  match line_ending_change d with Some (_, a) => LineEnding_as_str a | None => [] end.

(** The loop of [estimated_height_px]: the height so far and whether the last line was
    collapsed. *)
(* src: apdiff-viewer/src/diff/mod.rs:338-353 FileDiff::estimated_height_px *)
Fixpoint height_loop (height : nat) (prev_collapsed : bool) (lines : list DiffLine) : nat :=
  match lines with
  | [] => height
  | line :: lines =>
      let height :=
        if collapsed line then (if prev_collapsed then height else height + 28)
        else
          let height := height + 21 in
          match line_annotations line with [] => height | _ :: _ => height + 32 end in
      height_loop height (collapsed line) lines
  end.

(* src: apdiff-viewer/src/diff/mod.rs:327-354 FileDiff::estimated_height_px *)
Definition estimated_height_px (d : FileDiff) : nat :=
  if is_binary d then 50 + 80 else height_loop 50 false (lines d).

(** ** Syntax tokens *)

(* src: apdiff-viewer/src/diff/mod.rs:486-502 fallback_syntax_tokens *)
Definition fallback_syntax_tokens (content : str) : list SyntaxToken :=
  [{| tok_text := content; tok_style := plain_style (255, 255, 255, 255)%N;
      tok_start := 0; tok_end := str_len content |}].

(** The closure that gives the highlighter's pieces their offsets. *)
(* src: apdiff-viewer/src/diff/mod.rs:463-474 SyntaxHighlighter::highlight_line *)
Fixpoint tokens_from (offset : N) (pieces : list (SyntectStyle * str)) : list SyntaxToken :=
  match pieces with
  | [] => []
  | (style, text) :: pieces =>
      let end_ := (offset + str_len text)%N in
      {| tok_text := text; tok_style := style; tok_start := offset; tok_end := end_ |} ::
        tokens_from end_ pieces
  end.

(* src: apdiff-viewer/src/diff/mod.rs:418-423 SyntaxHighlighter *)
Record SyntaxHighlighter := {
  parse_state : ParseState;
  highlight_state : HighlightState;
}.

(* src: apdiff-viewer/src/diff/mod.rs:426-435 SyntaxHighlighter::new *)
Definition SyntaxHighlighter_new (syntax : SyntaxReference) : SyntaxHighlighter :=
  {| parse_state := ParseState_new syntax; highlight_state := HighlightState_new [] |}.

(* src: apdiff-viewer/src/diff/mod.rs:437-483 SyntaxHighlighter::highlight_line *)
Definition highlight_line (self : SyntaxHighlighter) (content : str) :
    list SyntaxToken * SyntaxHighlighter :=
  if (MAX_SYNTAX_HIGHLIGHT_LINE_LENGTH <? str_len content)%N then
    (fallback_syntax_tokens content, self)
  else
    let previous_parse_state := parse_state self in
    match parse_line (parse_state self) content with
    | (None, ps) =>
        (fallback_syntax_tokens content,
         {| parse_state := ps; highlight_state := highlight_state self |})
    | (Some ops, ps) =>
        if is_invalid_scope (state_path (highlight_state self)) then
          (fallback_syntax_tokens content,
           {| parse_state := ps; highlight_state := highlight_state self |})
        else
          let scope_stack_before := state_path (highlight_state self) in
          let '(pieces, hs) := highlight_iterator (highlight_state self) ops content in
          let tokens := tokens_from 0 pieces in
          if should_reset_parser_state (state_path hs) then
            (tokens, {| parse_state := previous_parse_state;
                        highlight_state := HighlightState_new scope_stack_before |})
          else (tokens, {| parse_state := ps; highlight_state := hs |})
    end.

Fixpoint highlight_lines (self : SyntaxHighlighter) (contents : list str) :
    list (list SyntaxToken) :=
  match contents with
  | [] => []
  | content :: contents =>
      let '(tokens, self) := highlight_line self content in
      tokens :: highlight_lines self contents
  end.

(* src: apdiff-viewer/src/diff/mod.rs:400-416 highlight_hunk_lines *)
Definition highlight_hunk_lines (contents : list str) (filename : str) :
    list (list SyntaxToken) :=
  let syntax := default find_syntax_plain_text (default None (find_syntax_for_file filename)) in
  highlight_lines (SyntaxHighlighter_new syntax) contents.

(** ** Blocks of changes *)

Definition is_type (ty : LineType) (line : DiffLine) : bool := bool_decide (line_type line = ty).

(** A [while] loop that goes over lines of one type. *)
Fixpoint run_length (ty : LineType) (lines : list DiffLine) : nat :=
  match lines with
  | line :: lines => if is_type ty line then S (run_length ty lines) else 0
  | [] => 0
  end.
Definition run_end (ty : LineType) (lines : list DiffLine) (i : nat) : nat :=
  i + run_length ty (drop i lines).

(** [fuel] bounds the number of rounds; every round moves on by a line. *)
(* src: apdiff-viewer/src/diff/mod.rs:585-607 find_change_blocks *)
Fixpoint change_blocks_loop (fuel : nat) (diff_lines : list DiffLine) (i : nat) :
    option (list (list nat * list nat)) :=
  match fuel, diff_lines !! i with
  | _, None => Some []
  | O, Some _ => None
  | S fuel, Some line =>
      if is_type LDelete line then
        let add_start := run_end LDelete diff_lines i in
        let end_ := run_end LAdd diff_lines add_start in
        blocks ← change_blocks_loop fuel diff_lines end_;
        Some ((seq i (add_start - i), seq add_start (end_ - add_start)) :: blocks)
      else change_blocks_loop fuel diff_lines (S i)
  end.

(* src: apdiff-viewer/src/diff/mod.rs:582-610 find_change_blocks *)
Definition find_change_blocks (diff_lines : list DiffLine) : option (list (list nat * list nat)) :=
  change_blocks_loop (length diff_lines) diff_lines 0.

(** ** Matching deleted with added lines *)

(** [LENGTH_SIMILARITY_RATIO] is one half.  The quotient of two integers is at least one half in
    [f64] exactly when it is at least one half. *)
(* src: apdiff-viewer/src/diff/mod.rs:733-740 are_lengths_similar *)
Definition are_lengths_similar (len1 len2 : N) : bool :=
  if ((len1 =? 0) && (len2 =? 0))%N then true
  else (N.max len1 len2 <=? 2 * N.min len1 len2)%N.

Context `{Strsim}.

(** The quotients compared here have denominators up to [MAX_LINE_SIMILARITY_LENGTH], so [f64]
    keeps different ones apart and orders them as the rationals. *)
(* src: apdiff-viewer/src/diff/mod.rs:742-759 calculate_line_similarity *)
Definition calculate_line_similarity (line1 line2 : str) : Q :=
  match line1, line2 with
  | [], [] => 1
  | _, _ =>
      if (MAX_LINE_SIMILARITY_LENGTH <? str_len line1)%N ||
         (MAX_LINE_SIMILARITY_LENGTH <? str_len line2)%N then 0
      else
        let distance := levenshtein line1 line2 in
        match N.max (str_len line1) (str_len line2) with
        | N0 => 1
        | Npos max_len => 1 - (Z.of_N distance # max_len)
        end
  end%Q.

Record Candidate := {
  del_i : nat;
  add_i : nat;
  del_idx : nat;
  add_idx : nat;
  similarity : Q;
}.

Definition content_at (diff_lines : list DiffLine) (i : nat) : str :=
  match diff_lines !! i with Some line => raw_content line | None => [] end.

(* src: apdiff-viewer/src/diff/mod.rs:692-707 find_best_line_matches *)
Definition candidate (diff_lines : list DiffLine) (d a : nat * nat) : option Candidate :=
  let del_line := content_at diff_lines d.2 in
  let add_line := content_at diff_lines a.2 in
  if negb (are_lengths_similar (str_len del_line) (str_len add_line)) then None
  else
    let similarity := calculate_line_similarity del_line add_line in
    if negb (Qle_bool LINE_SIMILARITY_THRESHOLD similarity) then None
    else Some {| del_i := d.1; add_i := a.1; del_idx := d.2; add_idx := a.2;
                 similarity := similarity |}.

Definition enumerate {A} (l : list A) : list (nat * A) := zip (seq 0 (length l)) l.

(** The most similar candidates first; equally similar ones stay in order. *)
(* src: apdiff-viewer/src/diff/mod.rs:711-711 find_best_line_matches *)
Definition most_similar_first (c1 c2 : Candidate) : bool :=
  Qle_bool (similarity c2) (similarity c1).

(* src: apdiff-viewer/src/diff/mod.rs:719-728 find_best_line_matches *)
Definition take_candidate (st : list (nat * nat) * list bool * list bool) (c : Candidate) :
    list (nat * nat) * list bool * list bool :=
  let '(matches, used_deletes, used_adds) := st in
  if negb (default true (used_deletes !! del_i c)) && negb (default true (used_adds !! add_i c)) &&
     negb (Qle_bool (similarity c) LINE_SIMILARITY_THRESHOLD) then
    (matches ++ [(del_idx c, add_idx c)], <[del_i c := true]> used_deletes,
     <[add_i c := true]> used_adds)
  else st.

(* src: apdiff-viewer/src/diff/mod.rs:711-731 find_best_line_matches *)
Definition take_matches (candidates : list Candidate) (deletes adds : nat) : list (nat * nat) :=
  (fold_left take_candidate (sort_by most_similar_first candidates)
     ([], replicate deletes false, replicate adds false)).1.1.

(* src: apdiff-viewer/src/diff/mod.rs:617-617 find_windowed_matches *)
Definition WINDOW_SIZE : nat := 50.

(* src: apdiff-viewer/src/diff/mod.rs:619-648 find_windowed_matches *)
Definition windowed_candidates (diff_lines : list DiffLine) (delete_indices add_indices : list nat) :
    list Candidate :=
  d ← enumerate delete_indices;
  let window_start := d.1 - WINDOW_SIZE in
  let window_end := (d.1 + WINDOW_SIZE) `min` length add_indices in
  omap (candidate diff_lines d)
    (take (window_end - window_start) (drop window_start (enumerate add_indices))).

(* src: apdiff-viewer/src/diff/mod.rs:612-669 find_windowed_matches *)
Definition find_windowed_matches (diff_lines : list DiffLine)
    (delete_indices add_indices : list nat) : list (nat * nat) :=
  take_matches (windowed_candidates diff_lines delete_indices add_indices)
    (length delete_indices) (length add_indices).

(* src: apdiff-viewer/src/diff/mod.rs:682-709 find_best_line_matches *)
Definition all_candidates (diff_lines : list DiffLine) (delete_indices add_indices : list nat) :
    list Candidate :=
  d ← enumerate delete_indices; omap (candidate diff_lines d) (enumerate add_indices).

(* src: apdiff-viewer/src/diff/mod.rs:671-732 find_best_line_matches *)
Definition find_best_line_matches (diff_lines : list DiffLine)
    (delete_indices add_indices : list nat) : list (nat * nat) :=
  if (MAX_BLOCK_SIZE_FOR_MATCHING <? length delete_indices)%nat ||
     (MAX_BLOCK_SIZE_FOR_MATCHING <? length add_indices)%nat then
    find_windowed_matches diff_lines delete_indices add_indices
  else
    take_matches (all_candidates diff_lines delete_indices add_indices)
      (length delete_indices) (length add_indices).

(** ** Word changes of the matched lines *)

Definition with_word_changes (changes : list WordChangeSegment) (line : DiffLine) : DiffLine :=
  {| line_type := line_type line; old_line_number := old_line_number line;
     new_line_number := new_line_number line; line_annotations := line_annotations line;
     raw_content := raw_content line; syntax_tokens := syntax_tokens line;
     word_changes := Some changes; collapsed := collapsed line;
     collapse_count := collapse_count line |}.

Context `{Similar}.

(* src: apdiff-viewer/src/diff/mod.rs:567-577 apply_word_highlighting *)
Definition highlight_match (diff_lines : list DiffLine) (m : nat * nat) : list DiffLine :=
  let word_diff := highlight_word_diff_structured (content_at diff_lines m.1)
    (content_at diff_lines m.2) MAX_WORD_DIFF_LINE_LENGTH in
  alter (with_word_changes (new_changes word_diff)) m.2
    (alter (with_word_changes (old_changes word_diff)) m.1 diff_lines).

(* src: apdiff-viewer/src/diff/mod.rs:563-579 apply_word_highlighting *)
Definition highlight_block (diff_lines : list DiffLine) (block : list nat * list nat) :
    list DiffLine :=
  match block with
  | ([], _) | (_, []) => diff_lines
  | (delete_indices, add_indices) =>
      fold_left highlight_match (find_best_line_matches diff_lines delete_indices add_indices)
        diff_lines
  end.

(* src: apdiff-viewer/src/diff/mod.rs:559-580 apply_word_highlighting *)
Definition apply_word_highlighting (diff_lines : list DiffLine) : option (list DiffLine) :=
  change_blocks ← find_change_blocks diff_lines;
  Some (fold_left highlight_block change_blocks diff_lines).
End lines.
