(* ===== verification/DiffRender.v ===== *)
(** * Rendering lines of a diff as HTML (crate [apdiff-viewer])

    [apdiff-viewer/src/diff/mod.rs]: the syntax tokens and the word changes of a line merged into
    HTML.  The [html_escape] crate is a parameter. *)

From S2P Require Import Prelude RustStd WordDiff DiffLines.

(** The [html_escape] crate.  A text is escaped character by character, and what is escaped has no
    angle brackets. *)
Class HtmlEscape := {
  encode_text : str -> str;
  encode_text_app : forall a b, encode_text (a ++ b) = encode_text a ++ encode_text b;
  encode_text_plain : forall a c, c ∈ encode_text a -> c <> 60%N /\ c <> 62%N;
}.

(** [format!] of a byte with [{:02x}]. *)
Definition hex_digit (n : N) : char := if (n <? 10)%N then (48 + n)%N else (87 + n)%N.
Definition hex2 (n : N) : str := [hex_digit (n / 16); hex_digit (n mod 16)].

Section render.
Context `{Syntect, HtmlEscape}.

(* src: apdiff-viewer/src/diff/mod.rs:368-398 syntect_style_to_css *)
Definition syntect_style_to_css (style : SyntectStyle) : str :=
  let '((r, g, b), a) := foreground style in
  let style_parts := if (0 <? a)%N then [lit "color:#" ++ hex2 r ++ hex2 g ++ hex2 b] else [] in
  let class_parts := omap (fun '(condition, class) => if condition : bool then Some class else None)
    [(is_bold style, lit "b"); (is_italic style, lit "i"); (is_underline style, lit "u")] in
  let class_attr := match class_parts with
                    | [] => None
                    | _ => Some (lit "class=" ++ [34%N] ++ join (lit " ") class_parts ++ [34%N])
                    end in
  let style_attr := match style_parts with
                    | [] => None
                    | _ => Some (lit "style=" ++ [34%N] ++ join (lit ";") style_parts ++ [34%N])
                    end in
  join (lit " ") (omap id [class_attr; style_attr]).

Definition span (css_style content : str) : str :=
  lit "<span " ++ css_style ++ lit ">" ++ content ++ lit "</span>".

(** Text in a style: in a [span] unless the style is empty. *)
(* src: apdiff-viewer/src/diff/mod.rs:74-83 render_single_token_segment *)
Definition render_single_token_segment (text : str) (token : SyntaxToken) : str :=
  let escaped_text := encode_text text in
  let css_style := syntect_style_to_css (tok_style token) in
  match css_style with [] => escaped_text | _ => span css_style escaped_text end.

(** The loop over the overlapping tokens: the HTML so far and the position reached. *)
(* src: apdiff-viewer/src/diff/mod.rs:93-118 render_multi_token_segment *)
Definition render_token (change : WordChangeSegment) (st : str * N) (token : SyntaxToken) :
    str * N :=
  let '(result, pos) := st in
  let segment_start := N.max pos (tok_start token) in
  let segment_end := N.min (end_offset change) (tok_end token) in
  if (segment_start <? segment_end)%N then
    let result :=
      match str_get (segment_start - start_offset change) (segment_end - start_offset change)
              (seg_text change) with
      | Some segment_text =>
          let escaped_segment := encode_text segment_text in
          let css_style := syntect_style_to_css (tok_style token) in
          match css_style with
          | [] => result ++ escaped_segment
          | _ => result ++ span css_style escaped_segment
          end
      | None => result
      end in
    (result, segment_end)
  else (result, pos).

(** [str::get] from a position to the end. *)
Definition str_get_from (from : N) (s : str) : option str := snd <$> byte_split from s.

(* src: apdiff-viewer/src/diff/mod.rs:85-128 render_multi_token_segment *)
Definition render_multi_token_segment (change : WordChangeSegment)
    (overlapping_tokens : list SyntaxToken) : str :=
  let '(result, pos) :=
    fold_left (render_token change) overlapping_tokens ([], start_offset change) in
  if (pos <? end_offset change)%N then
    match str_get_from (pos - start_offset change) (seg_text change) with
    | Some remaining_text => result ++ encode_text remaining_text
    | None => result
    end
  else result.

(* src: apdiff-viewer/src/diff/mod.rs:130-137 wrap_with_change_tags *)
Definition wrap_with_change_tags (content : str) (ty : WordChangeType) : str :=
  match ty with
  | WInsert => lit "<ins>" ++ content ++ lit "</ins>"
  | WDelete => lit "<del>" ++ content ++ lit "</del>"
  | WEqual => content
  end.

(* src: apdiff-viewer/src/diff/mod.rs:57-62 render_word_change_with_syntax *)
Definition overlapping (change : WordChangeSegment) (token : SyntaxToken) : bool :=
  (start_offset change <? tok_end token)%N && (tok_start token <? end_offset change)%N.

(* src: apdiff-viewer/src/diff/mod.rs:52-71 render_word_change_with_syntax *)
Definition render_word_change_with_syntax (syntax_tokens : list SyntaxToken)
    (change : WordChangeSegment) : str :=
  let content :=
    match List.filter (overlapping change) syntax_tokens with
    | [] => encode_text (seg_text change)
    | [token] => render_single_token_segment (seg_text change) token
    | overlapping_tokens => render_multi_token_segment change overlapping_tokens
    end in
  wrap_with_change_tags content (change_type change).

(* src: apdiff-viewer/src/diff/mod.rs:40-50 merge_syntax_and_word_highlighting *)
Definition merge_syntax_and_word_highlighting (syntax_tokens : list SyntaxToken)
    (word_changes : list WordChangeSegment) : str :=
  concat (render_word_change_with_syntax syntax_tokens <$> word_changes).

(** ** Lines without word changes *)

(* src: apdiff-viewer/src/diff/mod.rs:144-149 StyleAccumulator *)
Record StyleAccumulator := {
  html : str;
  last_style : str;
  accumulated_text : str;
}.

(* src: apdiff-viewer/src/diff/mod.rs:159-171 StyleAccumulator::flush *)
Definition flush (self : StyleAccumulator) : StyleAccumulator :=
  match accumulated_text self with
  | [] => self
  | text =>
      {| html := html self ++ match last_style self with [] => text | style => span style text end;
         last_style := last_style self; accumulated_text := [] |}
  end.

(* src: apdiff-viewer/src/diff/mod.rs:173-184 StyleAccumulator::process_style_text *)
Definition process_style_text (self : StyleAccumulator) (p : SyntectStyle * str) :
    StyleAccumulator :=
  let css_style := syntect_style_to_css p.1 in
  if str_eqb css_style (last_style self) then
    {| html := html self; last_style := last_style self;
       accumulated_text := accumulated_text self ++ encode_text p.2 |}
  else
    let self := flush self in
    {| html := html self; last_style := css_style; accumulated_text := encode_text p.2 |}.

(* src: apdiff-viewer/src/diff/mod.rs:139-197 process_style_text_pairs *)
Definition process_style_text_pairs (style_text_pairs : list (SyntectStyle * str)) : str :=
  html (flush (fold_left process_style_text style_text_pairs
    {| html := []; last_style := []; accumulated_text := [] |})).

(* src: apdiff-viewer/src/diff/mod.rs:551-557 apply_diff_styling *)
Definition apply_diff_styling (highlighted_content : str) (ty : LineType) : str :=
  match ty with
  | LAdd => lit "<span class='da'>" ++ highlighted_content ++ lit "</span>"
  | LDelete => lit "<span class='dd'>" ++ highlighted_content ++ lit "</span>"
  | LContext => highlighted_content
  end.

(* src: apdiff-viewer/src/diff/mod.rs:257-270 DiffLine::html_content *)
Definition html_content (self : DiffLine) : str :=
  match word_changes self with
  | Some word_changes => merge_syntax_and_word_highlighting (syntax_tokens self) word_changes
  | None =>
      apply_diff_styling
        (process_style_text_pairs ((fun t => (tok_style t, tok_text t)) <$> syntax_tokens self))
        (line_type self)
  end.
End render.
