(* ===== verification/DiffCompute.v ===== *)
(** * Diffs of file trees (crate [apdiff-viewer])

    [apdiff-viewer/src/diff/compute.rs]: which file of one tree is compared with which file of the
    other, the diff of each pair, and the context that is folded away.  The [similar] crate's
    comparison of texts by lines is a parameter. *)

From Stdlib Require Import QArith.
From S2P Require Import Prelude RustStd Ord WordDiff Apworld DiffLines.
#[local] Open Scope nat_scope.

(** [TextDiff::from_lines]: the changes between two texts, line by line (a line keeps its line
    break), and their similarity.  A number in [f32] is a rational. *)
Class TextDiff := {
  diff_lines : str -> str -> list (ChangeTag * str);
  lines_ratio : str -> str -> Q;
  diff_lines_old : forall old new, concat (old_part (diff_lines old new)) = old;
  diff_lines_new : forall old new, concat (new_part (diff_lines old new)) = new;
}.

(* src: apdiff-viewer/src/diff/compute.rs:14-14 CONTEXT_COLLAPSE_THRESHOLD *)
Definition CONTEXT_COLLAPSE_THRESHOLD : nat := 20.
(* src: apdiff-viewer/src/diff/compute.rs:15-15 CONTEXT_VISIBLE_LINES *)
Definition CONTEXT_VISIBLE_LINES : nat := 3.
(* src: apdiff-viewer/src/diff/compute.rs:17-17 RENAME_SIMILARITY_THRESHOLD *)
Definition RENAME_SIMILARITY_THRESHOLD : Q := 1 # 2.

(** What [ap-lint] says of a file. *)
(* src: apdiff-viewer/src/diff/mod.rs:357-366 Annotations *)
Record Annotations := {
  ann_ty : N;
  desc : str;
  severity : N;
  line : option N;
  col_start : option N;
  col_end : option N;
  extra : option str;
}.

(* src: apdiff-viewer/src/diff/compute.rs:76-81 compute_file_tree_diff *)
Definition template_annotation (a : Annotations) : TemplateAnnotation :=
  {| ann_desc := desc a; ann_line := default 0%N (line a);
     ann_col_start := default 0%N (col_start a); ann_col_end := default 0%N (col_end a) |}.

(* src: apdiff-viewer/src/diff/compute.rs:239-241 normalize_line_endings *)
Definition normalize_line_endings (text : str) : str := replace [CR; LF] [LF] text.

(** ** Renames *)

Section renames.
Context `{TextDiff}.

(** The inner loop: the first added file, not yet taken, with the same content. *)
(* src: apdiff-viewer/src/diff/compute.rs:109-119 detect_renames *)
Definition same_content (old_tree new_tree : FileTree) (old_path : PathBuf)
    (matched_new : gset PathBuf) (added : list PathBuf) : option PathBuf :=
  List.find (fun new_path =>
    negb (bool_decide (new_path ∈ matched_new)) &&
    bool_decide (old_tree !! old_path = new_tree !! new_path)) added.

Definition RenameState : Type := list (PathBuf * PathBuf) * gset PathBuf * gset PathBuf.

Definition record_rename (st : RenameState) (old_path new_path : PathBuf) : RenameState :=
  let '(renames, matched_old, matched_new) := st in
  (renames ++ [(old_path, new_path)], {[old_path]} ∪ matched_old, {[new_path]} ∪ matched_new).

(* src: apdiff-viewer/src/diff/compute.rs:108-120 detect_renames *)
Definition identical_pass (old_tree new_tree : FileTree) (added : list PathBuf)
    (st : RenameState) (old_path : PathBuf) : RenameState :=
  match same_content old_tree new_tree old_path st.2 added with
  | Some new_path => record_rename st old_path new_path
  | None => st
  end.

(* src: apdiff-viewer/src/diff/compute.rs:133-147 detect_renames *)
Definition similarity_matches (old_tree new_tree : FileTree)
    (remaining_old remaining_new : list PathBuf) : list (Q * PathBuf * PathBuf) :=
  old_path ← remaining_old;
  match old_tree !! old_path with
  | Some (Text old_text) =>
      omap (fun new_path =>
        match new_tree !! new_path with
        | Some (Text new_text) =>
            let ratio := lines_ratio old_text new_text in
            if Qle_bool RENAME_SIMILARITY_THRESHOLD ratio then Some (ratio, old_path, new_path)
            else None
        | _ => None
        end) remaining_new
  | _ => []
  end.

(* src: apdiff-viewer/src/diff/compute.rs:150-157 detect_renames *)
Definition similar_pass (st : RenameState) (m : Q * PathBuf * PathBuf) : RenameState :=
  let '(_, old_path, new_path) := m in
  let '(_, matched_old, matched_new) := st in
  if bool_decide (old_path ∈ matched_old) || bool_decide (new_path ∈ matched_new) then st
  else record_rename st old_path new_path.

(* src: apdiff-viewer/src/diff/compute.rs:94-160 detect_renames *)
Definition detect_renames (old_tree new_tree : FileTree) (deleted added : list PathBuf) :
    list (PathBuf * PathBuf) :=
  match deleted, added with
  | [], _ | _, [] => []
  | _, _ =>
      let st := fold_left (identical_pass old_tree new_tree added) deleted ([], ∅, ∅) in
      let remaining_old := List.filter (fun p => negb (bool_decide (p ∈ st.1.2))) deleted in
      let remaining_new := List.filter (fun p => negb (bool_decide (p ∈ st.2))) added in
      let matches := sort_by (fun a b => Qle_bool b.1.1 a.1.1)
        (similarity_matches old_tree new_tree remaining_old remaining_new) in
      (fold_left similar_pass matches st).1.1
  end.
End renames.

(** ** The diff of a file *)

Section compute.
Context `{Syntect, Strsim, Similar, TextDiff}.

(** The loop over the changes: contents, types and numbers of the lines. *)
(* src: apdiff-viewer/src/diff/compute.rs:255-272 build_diff_lines *)
Fixpoint raw_lines_from (old_num new_num : Z) (changes : list (ChangeTag * str)) :
    list (str * LineType * (option Z * option Z)) :=
  match changes with
  | [] => []
  | (tag, value) :: changes =>
      let content := trim_end_matches (fun c => (c =? CR)%N || (c =? LF)%N) value in
      match tag with
      | TEqual =>
          (content, LContext, (Some old_num, Some new_num)) ::
            raw_lines_from (wrap_i32 (old_num + 1)) (wrap_i32 (new_num + 1)) changes
      | TDelete =>
          (content, LDelete, (Some old_num, None)) ::
            raw_lines_from (wrap_i32 (old_num + 1)) new_num changes
      | TInsert =>
          (content, LAdd, (None, Some new_num)) ::
            raw_lines_from old_num (wrap_i32 (new_num + 1)) changes
      end
  end.

(* src: apdiff-viewer/src/diff/compute.rs:285-309 build_diff_lines *)
Definition build_line (annotations : list TemplateAnnotation) (syntax_tokens : list (list SyntaxToken))
    (p : nat * (str * LineType * (option Z * option Z))) : DiffLine :=
  let '(i, (content, ty, (old_ln, new_ln))) := p in
  let tokens := default (fallback_syntax_tokens content) (syntax_tokens !! i) in
  let annotations :=
    match ty, new_ln with
    | (LAdd | LContext), Some n =>
        if (0 <? n)%Z then find_line_annotations n annotations else []
    | _, _ => []
    end in
  {| line_type := ty; old_line_number := old_ln; new_line_number := new_ln;
     line_annotations := annotations; raw_content := content; syntax_tokens := tokens;
     word_changes := None; collapsed := false; collapse_count := None |}.

(* src: apdiff-viewer/src/diff/compute.rs:243-311 build_diff_lines *)
Definition build_diff_lines (old_text new_text filename : str)
    (annotations : list TemplateAnnotation) : list DiffLine :=
  let raw_lines := raw_lines_from 1 1 (diff_lines old_text new_text) in
  let syntax_tokens := highlight_hunk_lines ((fun r => r.1.1) <$> raw_lines) filename in
  build_line annotations syntax_tokens <$> enumerate raw_lines.

(** ** Context *)

Definition collapse_line (l : DiffLine) : DiffLine :=
  {| line_type := line_type l; old_line_number := old_line_number l;
     new_line_number := new_line_number l; line_annotations := line_annotations l;
     raw_content := raw_content l; syntax_tokens := syntax_tokens l;
     word_changes := word_changes l; collapsed := true; collapse_count := collapse_count l |}.
Definition set_collapse_count (n : nat) (l : DiffLine) : DiffLine :=
  {| line_type := line_type l; old_line_number := old_line_number l;
     new_line_number := new_line_number l; line_annotations := line_annotations l;
     raw_content := raw_content l; syntax_tokens := syntax_tokens l;
     word_changes := word_changes l; collapsed := collapsed l; collapse_count := Some n |}.

(* src: apdiff-viewer/src/diff/compute.rs:338-343 collapse_context_regions *)
Definition collapse_range (from to : nat) (lines : list DiffLine) : list DiffLine :=
  alter (set_collapse_count (to - from)) from
    (fold_left (fun ls j => alter collapse_line j ls) (seq from (to - from)) lines).

(** The loop of [collapse_context_regions]; every round moves on by a line. *)
(* src: apdiff-viewer/src/diff/compute.rs:314-344 collapse_context_regions *)
Fixpoint collapse_loop (fuel : nat) (lines : list DiffLine) (i : nat) : option (list DiffLine) :=
  match fuel, lines !! i with
  | _, None => Some lines
  | O, Some _ => None
  | S fuel, Some line =>
      if negb (is_type LContext line) then collapse_loop fuel lines (S i)
      else
        let run_start := i in
        let i := run_end LContext lines i in
        let run_len := i - run_start in
        if (run_len <=? CONTEXT_COLLAPSE_THRESHOLD)%nat then collapse_loop fuel lines i
        else
          let collapse_start := run_start + CONTEXT_VISIBLE_LINES in
          let collapse_end := i - CONTEXT_VISIBLE_LINES in
          if (collapse_end <=? collapse_start)%nat then collapse_loop fuel lines i
          else collapse_loop fuel (collapse_range collapse_start collapse_end lines) i
  end.

(* src: apdiff-viewer/src/diff/compute.rs:313-345 collapse_context_regions *)
Definition collapse_context_regions (lines : list DiffLine) : option (list DiffLine) :=
  collapse_loop (length lines) lines 0.

(** ** A pair of files *)

Definition is_Binary (c : option FileContent) : bool :=
  match c with Some (Binary _) => true | _ => false end.
Definition text_of (c : option FileContent) : str :=
  match c with Some (Text s) => s | _ => [] end.

(** The names of the files, [None] when there is neither. *)
(* src: apdiff-viewer/src/diff/compute.rs:169-174 diff_single_file_renamed *)
Definition filenames (old_filename new_filename : str) (old new : option FileContent) :
    option (str * str) :=
  match old, new with
  | None, None => None
  | None, Some _ => Some (lit "/dev/null", new_filename)
  | Some _, None => Some (old_filename, lit "/dev/null")
  | Some _, Some _ => Some (old_filename, new_filename)
  end.

(* src: apdiff-viewer/src/diff/compute.rs:201-208 diff_single_file_renamed *)
Definition ending_change (old new : option FileContent) : option (LineEnding * LineEnding) :=
  let old_ending := detect (text_of old) in
  let new_ending := detect (text_of new) in
  if bool_decide (is_Some old) && bool_decide (is_Some new) &&
     negb (bool_decide (old_ending = new_ending)) &&
     negb (bool_decide (old_ending = NoEnding)) && negb (bool_decide (new_ending = NoEnding)) then
    Some (old_ending, new_ending)
  else None.

(** The outer [None] is a loop that runs out of rounds; the inner one that there is nothing to
    show. *)
(* src: apdiff-viewer/src/diff/compute.rs:162-237 diff_single_file_renamed *)
Definition diff_single_file_renamed (old_filename new_filename : str)
    (old new : option FileContent) (annotations : list TemplateAnnotation) :
    option (option FileDiff) :=
  match filenames old_filename new_filename old new with
  | None => Some None
  | Some (before, after) =>
      let file lines change :=
        {| filename_before := before; filename_after := after; is_binary := false;
           lines := lines; line_ending_change := change |} in
      if is_Binary old || is_Binary new then
        if bool_decide (old = new) && str_eqb before after then Some None
        else Some (Some {| filename_before := before; filename_after := after; is_binary := true;
                           lines := []; line_ending_change := None |})
      else
        let line_ending_change := ending_change old new in
        let old_normalized := normalize_line_endings (text_of old) in
        let new_normalized := normalize_line_endings (text_of new) in
        if str_eqb old_normalized new_normalized then
          if str_eqb before after && bool_decide (line_ending_change = None) then Some None
          else Some (Some (file [] line_ending_change))
        else
          let lines := build_diff_lines old_normalized new_normalized new_filename annotations in
          lines ← apply_word_highlighting lines;
          lines ← collapse_context_regions lines;
          Some (Some (file lines line_ending_change))
  end.

(** ** Two trees *)

(* src: apdiff-viewer/src/diff/compute.rs:24-61 compute_file_tree_diff *)
Definition all_pairs (old_tree new_tree : FileTree) : list (PathBuf * PathBuf) :=
  let has (tree : FileTree) p := bool_decide (is_Some (tree !! p)) in
  let common := List.filter (has new_tree) (bt_keys old_tree) in
  let deleted := List.filter (fun p => negb (has new_tree p)) (bt_keys old_tree) in
  let added := List.filter (fun p => negb (has old_tree p)) (bt_keys new_tree) in
  let renames := detect_renames old_tree new_tree deleted added in
  let renamed_old : gset PathBuf := list_to_set renames.*1 in
  let renamed_new : gset PathBuf := list_to_set renames.*2 in
  ((fun p => (p, p)) <$> common) ++
  ((fun p => (p, p)) <$> List.filter (fun p => negb (bool_decide (p ∈ renamed_old))) deleted) ++
  ((fun p => (p, p)) <$> List.filter (fun p => negb (bool_decide (p ∈ renamed_new))) added) ++
  renames.

(* src: apdiff-viewer/src/diff/compute.rs:66-86 compute_file_tree_diff *)
Definition diff_pair (old_tree new_tree : FileTree) (annotations : gmap str (list Annotations))
    (p : PathBuf * PathBuf) : option (option FileDiff) :=
  let old_name := path_str p.1 in
  let new_name := path_str p.2 in
  let file_annotations :=
    match annotations !! new_name with
    | Some anns => template_annotation <$> anns
    | None => []
    end in
  diff_single_file_renamed old_name new_name (old_tree !! p.1) (new_tree !! p.2) file_annotations.

(** Rayon hands the results back in any order: [shuffle] is the order of this run. *)
(* src: apdiff-viewer/src/diff/compute.rs:19-92 compute_file_tree_diff *)
Definition compute_file_tree_diff (shuffle : list FileDiff -> list FileDiff)
    (old_tree new_tree : FileTree) (annotations : gmap str (list Annotations)) :
    option (list FileDiff) :=
  diffs ← mapM (diff_pair old_tree new_tree annotations) (all_pairs old_tree new_tree);
  Some (sort_by (fun a b => str_leb (filename_after a) (filename_after b))
          (shuffle (omap id diffs))).
End compute.
