(* ===== verification/DiffLinesFacts.v ===== *)
(** * Facts about the lines of a diff

    Runs of lines of one type, the blocks of changes, the matching of deleted with added lines,
    and the tokens of a line. *)

From Stdlib Require Import QArith.
From S2P Require Import Prelude RustStd WordDiff DiffLines.
#[local] Open Scope nat_scope.

(** ** Line endings *)

(** A line break at [i], and one with a carriage return before it. *)
Definition lf_at (s : str) (i : nat) : Prop := s !! i = Some LF.
Definition crlf_at (s : str) (i : nat) : Prop := lf_at s i /\ exists j, i = S j /\ s !! j = Some CR.

Fixpoint lfs (s : str) : nat :=
  match s with [] => 0 | c :: s => (if (c =? LF)%N then 1 else 0) + lfs s end.
Fixpoint crlfs (prev_cr : bool) (s : str) : nat :=
  match s with
  | [] => 0
  | c :: s => (if prev_cr && (c =? LF)%N then 1 else 0) + crlfs (c =? CR)%N s
  end.

Lemma count_lf_fuel n s : length s <= n -> count_matches_fuel n [LF] s = lfs s.
Proof.
  revert s. induction n as [|n IH]; intros [|c s] Hn; try done; simpl in Hn; [lia|].
  cbn [count_matches_fuel lfs starts_with length drop]. rewrite N.eqb_sym, andb_true_r.
  destruct (c =? LF)%N; rewrite IH by (rewrite ?drop_0; simpl; lia); done.
Qed.

Lemma count_crlf_fuel n s : length s <= n -> count_matches_fuel n [CR; LF] s = crlfs false s.
Proof.
  revert s. induction n as [|n IH]; intros [|c s] Hn; try done; simpl in Hn; [lia|].
  cbn [count_matches_fuel crlfs starts_with length drop andb Nat.add].
  rewrite (N.eqb_sym CR c). destruct (N.eqb_spec c CR) as [->|Hne]; cbn [andb]; [|apply IH; lia].
  destruct s as [|d s]; [apply IH; simpl; lia|]. cbn [starts_with drop crlfs andb] in *.
  rewrite (N.eqb_sym LF d), andb_true_r. simpl in Hn.
  destruct (N.eqb_spec d LF) as [->|Hd].
  - rewrite IH by (rewrite ?drop_0; simpl; lia). done.
  - rewrite IH by (simpl; lia). done.
Qed.

Lemma lfs_zero s : lfs s = 0 <-> forall i, ~ lf_at s i.
Proof.
  unfold lf_at. induction s as [|c s IH]; [done|]. cbn [lfs].
  destruct (N.eqb_spec c LF) as [->|Hne]; cbn [Nat.add].
  - split; [done|]. intros Hn. by destruct (Hn 0).
  - rewrite IH. split.
    + intros Hn [|i]; simpl; [congruence|apply Hn].
    + intros Hn i. apply (Hn (S i)).
Qed.

(** A break at [i] of a text that comes after another character. *)
Definition crlf_after (prev_cr : bool) (s : str) (i : nat) : Prop :=
  lf_at s i /\ match i with 0 => prev_cr = true | S j => s !! j = Some CR end.

Lemma crlf_after_cons b c s i : crlf_after b (c :: s) (S i) <-> crlf_after (c =? CR)%N s i.
Proof.
  unfold crlf_after, lf_at. simpl. destruct i as [|i]; simpl; [|done].
  rewrite N.eqb_eq. naive_solver.
Qed.

Lemma crlfs_zero b s : crlfs b s = 0 <-> forall i, ~ crlf_after b s i.
Proof.
  revert b. induction s as [|c s IH]; intros b; cbn [crlfs].
  { split; [|done]. by intros _ i [? _]. }
  rewrite Nat.eq_add_0, IH. split.
  - intros [H1 H2] [|i]; [|by rewrite crlf_after_cons]. intros [[= ->] ->]. done.
  - intros Hn. split; [|intros i; rewrite <- (crlf_after_cons b); apply Hn].
    destruct b; cbn [andb]; [|done]. destruct (N.eqb_spec c LF) as [->|]; [|done].
    by destruct (Hn 0).
Qed.

Lemma crlfs_le b s : crlfs b s <= lfs s.
Proof.
  revert b. induction s as [|c s IH]; intros b; [done|]. cbn [crlfs lfs].
  specialize (IH (c =? CR)%N). destruct b, (c =? LF)%N; cbn [andb]; lia.
Qed.

Lemma crlfs_all b s : crlfs b s = lfs s <-> forall i, lf_at s i -> crlf_after b s i.
Proof.
  revert b. induction s as [|c s IH]; intros b; [split; [by intros _ i|done]|]. cbn [crlfs lfs].
  pose proof (crlfs_le (c =? CR)%N s) as Hle. split.
  - intros Heq.
    assert (crlfs (c =? CR)%N s = lfs s) as Hs by (destruct b, (c =? LF)%N; cbn [andb] in *; lia).
    intros [|i] Hi; [|apply crlf_after_cons; by apply IH]. split; [done|].
    injection Hi as ->. destruct b; [done|]. cbn [andb] in Heq. rewrite N.eqb_refl in Heq. lia.
  - intros Hall. assert (crlfs (c =? CR)%N s = lfs s) as ->.
    { apply IH. intros i Hi. apply (crlf_after_cons b). by apply Hall. }
    destruct (N.eqb_spec c LF) as [->|]; [|by rewrite andb_false_r].
    destruct (Hall 0) as [_ ->]; [done|]. done.
Qed.

Lemma crlf_after_false s i : crlf_after false s i <-> crlf_at s i.
Proof.
  unfold crlf_after, crlf_at. destruct i as [|i]; naive_solver.
Qed.

Lemma detect_counts s :
  detect s = if (lfs s =? 0)%nat then NoEnding
             else if (crlfs false s =? 0)%nat then Lf
             else if (crlfs false s =? lfs s)%nat then Crlf else Mixed.
Proof. unfold detect, count_matches. by rewrite count_lf_fuel, count_crlf_fuel. Qed.

Section lines_facts.
Context `{Syntect}.
Implicit Types (ls : list DiffLine) (ty : LineType).

(** ** Runs *)

Definition ty_at ls i : option LineType := line_type <$> ls !! i.

(** All lines from [s] to before [e] have the type. *)
Definition all_of ty ls s e : Prop := forall j, s <= j < e -> ty_at ls j = Some ty.

(** A maximal run of lines of a type. *)
Record is_run ty ls s e : Prop := {
  run_nonempty : s < e;
  run_all : all_of ty ls s e;
  run_starts : forall j, S j = s -> ty_at ls j <> Some ty;
  run_ends : ty_at ls e <> Some ty;
}.

#[local] Arguments run_nonempty {_ _ _ _} _.
#[local] Arguments run_all {_ _ _ _} _.
#[local] Arguments run_starts {_ _ _ _} _.
#[local] Arguments run_ends {_ _ _ _} _.

Lemma is_type_true ty (l : DiffLine) : is_type ty l = true <-> line_type l = ty.
Proof. apply bool_decide_eq_true. Qed.

Lemma run_length_spec ty ls :
  all_of ty ls 0 (run_length ty ls) /\ ty_at ls (run_length ty ls) <> Some ty.
Proof.
  induction ls as [|l ls [IHall IHend]]; simpl; [split; [intros j Hj; lia|done]|].
  destruct (is_type ty l) eqn:Hl.
  - apply is_type_true in Hl. split; [|done].
    intros [|j] Hj; [by unfold ty_at; simpl; rewrite Hl|]. apply IHall. lia.
  - split; [intros j Hj; lia|]. unfold ty_at. simpl. intros [= Hty].
    apply is_type_true in Hty. congruence.
Qed.

Lemma run_end_spec ty ls i :
  i <= run_end ty ls i /\ all_of ty ls i (run_end ty ls i) /\
  ty_at ls (run_end ty ls i) <> Some ty.
Proof.
  unfold run_end. destruct (run_length_spec ty (drop i ls)) as [Hall Hend].
  unfold ty_at in *. rewrite lookup_drop in Hend. split_and!; [lia| |done].
  intros j Hj. specialize (Hall (j - i)). unfold ty_at in Hall. rewrite lookup_drop in Hall.
  replace (i + (j - i)) with j in Hall by lia. apply Hall. lia.
Qed.

Lemma run_end_gt ty ls i : ty_at ls i = Some ty -> i < run_end ty ls i.
Proof.
  intros Hi. destruct (run_end_spec ty ls i) as (Hle & _ & Hend).
  destruct (decide (i = run_end ty ls i)) as [Heq|]; [|lia]. rewrite <- Heq in Hend. done.
Qed.

Lemma all_of_unique ty ls s e1 e2 :
  all_of ty ls s e1 -> ty_at ls e1 <> Some ty -> s <= e1 ->
  all_of ty ls s e2 -> ty_at ls e2 <> Some ty -> s <= e2 -> e1 = e2.
Proof.
  intros Ha1 Hn1 H1 Ha2 Hn2 H2. destruct (lt_eq_lt_dec e1 e2) as [[Hlt|Heq]|Hlt]; [|done|].
  - destruct Hn1. apply Ha2. lia.
  - destruct Hn2. apply Ha1. lia.
Qed.

Lemma ty_at_lookup ls i l : ls !! i = Some l -> ty_at ls i = Some (line_type l).
Proof. intros Hl. unfold ty_at. by rewrite Hl. Qed.

(** No run goes over position [i]. *)
Definition fresh ty ls i : Prop :=
  ty_at ls i = Some ty -> forall j, S j = i -> ty_at ls j <> Some ty.

(** The run that a loop finds when it doesn't start inside one. *)
Lemma run_found ty ls i :
  ty_at ls i = Some ty -> fresh ty ls i ->
  is_run ty ls i (run_end ty ls i).
Proof.
  intros Hi Hstart. destruct (run_end_spec ty ls i) as (_ & Hall & Hend).
  split; [by apply run_end_gt|done|by apply Hstart|done].
Qed.

(** The runs from [i] on are the one at [i] and those from its end on. *)
Lemma run_after ty ls i e s f :
  is_run ty ls i e -> is_run ty ls s f -> i <= s -> s = i /\ f = e \/ e <= s.
Proof.
  intros Hrun' Hrun Hle. pose proof (run_nonempty Hrun) as Hne.
  destruct (decide (s < e)) as [Hlt|]; [|right; lia]. left.
  assert (s = i) as ->.
  { destruct (decide (s = i)) as [|Hsi]; [done|].
    destruct (run_starts Hrun (s - 1)); [lia|]. apply (run_all Hrun'). lia. }
  split; [done|]. pose proof (run_nonempty Hrun').
  apply (all_of_unique ty ls i);
    [apply (run_all Hrun)|apply (run_ends Hrun)|lia|apply (run_all Hrun')|apply (run_ends Hrun')|lia].
Qed.

Lemma run_in_range ty ls s e : is_run ty ls s e -> e <= length ls.
Proof.
  intros Hrun. pose proof (run_nonempty Hrun). pose proof (run_all Hrun (e - 1) ltac:(lia)) as Hty.
  unfold ty_at in Hty. destruct (ls !! (e - 1)) eqn:El; [|done]. apply lookup_lt_Some in El. lia.
Qed.

(** ** Blocks of changes *)

(** A block: a maximal run of deleted lines and the added lines right after it. *)
Definition is_block ls (b : list nat * list nat) : Prop :=
  exists s e f, is_run LDelete ls s e /\ e <= f /\ all_of LAdd ls e f /\
    ty_at ls f <> Some LAdd /\ b = (seq s (e - s), seq e (f - e)).

Definition block_start (b : list nat * list nat) : nat := default 0 (head b.1).

Lemma block_start_seq s e adds : s < e -> block_start (seq s (e - s), adds) = s.
Proof. intros Hse. unfold block_start. by replace (e - s) with (S (e - s - 1)) by lia. Qed.

(** Deleted and added lines don't overlap. *)
Lemma add_run_end ls e f : e <= f -> all_of LAdd ls e f -> ty_at ls f <> Some LAdd ->
  ty_at ls e <> Some LDelete -> fresh LDelete ls f.
Proof.
  intros Hle Hall Hend He Hf j Hj. destruct (decide (e = f)) as [->|]; [done|].
  rewrite Hall by lia. done.
Qed.

Lemma change_blocks_loop_spec fuel ls i :
  length ls - i <= fuel -> fresh LDelete ls i ->
  exists blocks, change_blocks_loop fuel ls i = Some blocks /\
    forall b, b ∈ blocks <-> is_block ls b /\ i <= block_start b.
Proof.
  revert i. induction fuel as [|fuel IH]; intros i Hfuel Hfresh; simpl;
    destruct (ls !! i) as [l|] eqn:Hl.
  1: { apply lookup_lt_Some in Hl. lia. }
  1, 3: exists []; split; [done|]; intros b; split; [by intros ?%elem_of_nil|];
    intros [(s & e & f & Hrun & _ & _ & _ & ->) Hle];
    pose proof (run_nonempty Hrun); apply run_in_range in Hrun; apply lookup_ge_None in Hl;
    rewrite block_start_seq in Hle by done; lia.
  apply lookup_lt_Some in Hl as Hlen. apply ty_at_lookup in Hl as Hty.
  destruct (is_type LDelete l) eqn:El.
  - apply is_type_true in El. rewrite El in Hty.
    pose proof (run_found _ _ _ Hty Hfresh) as Hrun. pose proof (run_nonempty Hrun) as Hgt.
    set (e := run_end LDelete ls i) in *.
    destruct (run_end_spec LAdd ls e) as (Hle & Hall & Hend). set (f := run_end LAdd ls e) in *.
    destruct (IH f) as (blocks & -> & Hblocks); [lia| |].
    { by apply (add_run_end ls e); [..|apply (run_ends Hrun)]. }
    eexists. split; [done|]. intros b. rewrite elem_of_cons, Hblocks. split.
    + intros [->|[Hb Hge]]; [|split; [done|lia]].
      rewrite block_start_seq by done. split; [|lia]. by exists i, e, f.
    + intros [(s & e' & f' & Hrun' & Hle' & Hall' & Hend' & ->) Hge].
      pose proof (run_nonempty Hrun').
      rewrite block_start_seq in Hge |- * by done.
      destruct (run_after _ _ _ _ _ _ Hrun Hrun' Hge) as [[-> ->]|Hes].
      * left. by rewrite (all_of_unique LAdd ls e f' f).
      * right. split; [by exists s, e', f'|]. destruct (decide (s < f)); [|lia].
        pose proof (run_all Hrun' s ltac:(lia)). rewrite Hall in * by lia. done.
  - assert (line_type l <> LDelete) as Hne by (intros ?%is_type_true; congruence).
    destruct (IH (S i)) as (blocks & -> & Hblocks); [lia| |].
    { intros _ j [= ->]. rewrite Hty. congruence. }
    exists blocks. split; [done|]. intros b. rewrite Hblocks.
    split; [intros [? ?]; split; [done|lia]|].
    intros [(s & e & f & Hrun & Hr) Hge]. split; [by exists s, e, f|].
    destruct Hr as (_ & _ & _ & ->). pose proof (run_nonempty Hrun).
    rewrite block_start_seq in Hge |- * by done.
    destruct (decide (s = i)) as [->|]; [|lia].
    pose proof (run_all Hrun i ltac:(lia)). congruence.
Qed.

Lemma find_change_blocks_spec ls :
  exists blocks, find_change_blocks ls = Some blocks /\ forall b, b ∈ blocks <-> is_block ls b.
Proof.
  destruct (change_blocks_loop_spec (length ls) ls 0) as (blocks & Hrun & Hblocks);
    [lia|intros _ j; lia|].
  exists blocks. split; [done|]. intros b. rewrite Hblocks. split; [by intros [? _]|].
  split; [done|lia].
Qed.

(** ** Matching *)

Context `{Strsim}.
Implicit Types (c : Candidate) (done rest : list Candidate).

Definition above (c : Candidate) : Prop := (LINE_SIMILARITY_THRESHOLD < similarity c)%Q.

(** The indices of a candidate are positions in the two lists of lines. *)
Definition valid (dels adds : list nat) (c : Candidate) : Prop :=
  dels !! del_i c = Some (del_idx c) /\ adds !! add_i c = Some (add_idx c).

Definition pair_of (c : Candidate) : nat * nat := (del_idx c, add_idx c).

(** The matches after some candidates. *)
Record MatchInv (dels adds : list nat) (seen : list Candidate)
    (st : list (nat * nat) * list bool * list bool) : Prop := {
  mi_deletes : length st.1.2 = length dels;
  mi_adds : length st.2 = length adds;
  mi_chosen : forall m, m ∈ st.1.1 ->
    exists c, c ∈ seen /\ above c /\ m = pair_of c /\
      st.1.2 !! del_i c = Some true /\ st.2 !! add_i c = Some true;
  mi_used_del : forall i, st.1.2 !! i = Some true ->
    exists c, c ∈ seen /\ pair_of c ∈ st.1.1 /\ del_i c = i;
  mi_used_add : forall i, st.2 !! i = Some true ->
    exists c, c ∈ seen /\ pair_of c ∈ st.1.1 /\ add_i c = i;
  mi_complete : forall c, c ∈ seen -> above c ->
    st.1.2 !! del_i c = Some true \/ st.2 !! add_i c = Some true;
  mi_old_once : NoDup st.1.1.*1;
  mi_new_once : NoDup st.1.1.*2;
}.

Lemma MatchInv_init dels adds :
  MatchInv dels adds [] ([], replicate (length dels) false, replicate (length adds) false).
Proof.
  split; simpl; rewrite ?length_replicate; try done; try apply NoDup_nil_2.
  - by intros m ?%elem_of_nil.
  - intros i [? ?]%lookup_replicate. done.
  - intros i [? ?]%lookup_replicate. done.
  - by intros c ?%elem_of_nil.
Qed.

Lemma used_default (used : list bool) i n :
  length used = n -> i < n -> negb (default true (used !! i)) = false -> used !! i = Some true.
Proof. intros Hlen Hi. destruct (lookup_lt_is_Some_2 used i) as [b ->]; [lia|]. by destruct b. Qed.

Lemma MatchInv_skip dels adds seen st c :
  (above c -> st.1.2 !! del_i c = Some true \/ st.2 !! add_i c = Some true) ->
  MatchInv dels adds seen st -> MatchInv dels adds (seen ++ [c]) st.
Proof.
  intros Hc [Hld Hla Hch Hud Hua Hco Hon Hnn]. split; try done.
  - intros m Hm. destruct (Hch m Hm) as (c' & Hc' & Hm'). exists c'.
    split; [apply elem_of_app; by left|done].
  - intros i Hi. destruct (Hud i Hi) as (c' & Hc' & Hi'). exists c'.
    split; [apply elem_of_app; by left|done].
  - intros i Hi. destruct (Hua i Hi) as (c' & Hc' & Hi'). exists c'.
    split; [apply elem_of_app; by left|done].
  - intros c' [Hc'|Hc']%elem_of_app; [by apply Hco|].
    apply list_elem_of_singleton in Hc' as ->. done.
Qed.

(** What a flag says stays true when another one is set. *)
Lemma insert_true (used : list bool) i j :
  used !! j = Some true -> <[i := true]> used !! j = Some true.
Proof.
  intros Hj. destruct (decide (i = j)) as [->|]; [|by rewrite list_lookup_insert_ne].
  by apply list_lookup_insert_eq, (lookup_lt_Some _ _ _ Hj).
Qed.

Lemma insert_true_inv (used : list bool) i j :
  <[i := true]> used !! j = Some true -> i = j \/ used !! j = Some true.
Proof.
  intros Hj. destruct (decide (i = j)); [by left|]. rewrite list_lookup_insert_ne in Hj; auto.
Qed.

Lemma MatchInv_step dels adds seen st c :
  NoDup dels -> NoDup adds -> valid dels adds c ->
  (forall c', c' ∈ seen -> valid dels adds c') ->
  MatchInv dels adds seen st -> MatchInv dels adds (seen ++ [c]) (take_candidate st c).
Proof.
  intros Hnd Hna [Hd Ha] Hseen [Hld Hla Hch Hud Hua Hco Hon Hnn].
  destruct st as [[matches ud] ua]. simpl in *.
  apply lookup_lt_Some in Hd as Hdi. apply lookup_lt_Some in Ha as Hai.
  destruct (negb (default true (ud !! del_i c))) eqn:E1; simpl.
  2: { apply (used_default _ _ (length dels)) in E1; [|done|lia].
       apply MatchInv_skip; [by left|by split]. }
  destruct (negb (default true (ua !! add_i c))) eqn:E2; simpl.
  2: { apply (used_default _ _ (length adds)) in E2; [|done|lia].
       apply MatchInv_skip; [by right|by split]. }
  destruct (Qle_bool (similarity c) LINE_SIMILARITY_THRESHOLD) eqn:E3; simpl.
  { apply Qle_bool_iff in E3. apply MatchInv_skip; [|by split].
    intros Habove. exfalso. by apply (Qlt_not_le _ _ Habove). }
  assert (above c) as Habove.
  { apply Qnot_le_lt. intros Hle%Qle_bool_iff. congruence. }
  assert (forall m, m ∈ matches -> m.1 <> del_idx c /\ m.2 <> add_idx c) as Hfresh.
  { intros m Hm. destruct (Hch m Hm) as (c' & Hc' & _ & -> & Hu1 & Hu2).
    destruct (Hseen c' Hc') as [Hd' Ha']. simpl. split; intros Heq.
    - assert (del_i c' = del_i c) as Hi
        by (eapply NoDup_lookup; [exact Hnd|exact Hd'|by rewrite Heq]).
      rewrite <- Hi, Hu1 in E1. done.
    - assert (add_i c' = add_i c) as Hi
        by (eapply NoDup_lookup; [exact Hna|exact Ha'|by rewrite Heq]).
      rewrite <- Hi, Hu2 in E2. done. }
  assert (forall c', c' ∈ seen -> c' ∈ seen ++ [c]) as Hmono
    by (intros c' ?; apply elem_of_app; by left).
  assert (c ∈ seen ++ [c]) as Hin by (apply elem_of_app; right; by apply list_elem_of_singleton).
  assert (pair_of c ∈ matches ++ [(del_idx c, add_idx c)]) as Hpin
    by (apply elem_of_app; right; by apply list_elem_of_singleton).
  assert (forall m, m ∈ matches -> m ∈ matches ++ [(del_idx c, add_idx c)]) as Hmmono
    by (intros m ?; apply elem_of_app; by left).
  split; simpl.
  - by rewrite length_insert.
  - by rewrite length_insert.
  - intros m [Hm|Hm]%elem_of_app; [|apply list_elem_of_singleton in Hm as ->].
    + destruct (Hch m Hm) as (c' & Hc' & Hab & -> & Hu1 & Hu2). exists c'.
      split_and!; auto using insert_true.
    + exists c. split_and!; [done|done|done|..]; apply list_lookup_insert_eq; lia.
  - intros i [<-|Hi]%insert_true_inv; [by exists c|].
    destruct (Hud i Hi) as (c' & ? & ? & ?). exists c'. auto.
  - intros i [<-|Hi]%insert_true_inv; [by exists c|].
    destruct (Hua i Hi) as (c' & ? & ? & ?). exists c'. auto.
  - intros c' [Hc'|Hc']%elem_of_app Hab.
    2: { apply list_elem_of_singleton in Hc' as ->. left. apply list_lookup_insert_eq. lia. }
    destruct (Hco c' Hc' Hab); auto using insert_true.
  - rewrite fmap_app. apply NoDup_app. split_and!; [done| |apply NoDup_singleton].
    intros x (m & -> & Hm)%list_elem_of_fmap ?%list_elem_of_singleton.
    by apply (proj1 (Hfresh m Hm)).
  - rewrite fmap_app. apply NoDup_app. split_and!; [done| |apply NoDup_singleton].
    intros x (m & -> & Hm)%list_elem_of_fmap ?%list_elem_of_singleton.
    by apply (proj2 (Hfresh m Hm)).
Qed.

Lemma take_candidate_mono st c m : m ∈ st.1.1 -> m ∈ (take_candidate st c).1.1.
Proof.
  destruct st as [[matches ud] ua]. simpl. destruct (_ && _ && _); simpl; [|done].
  intros Hm. apply elem_of_app. by left.
Qed.

(** The candidates in the order in which they are looked at. *)
Definition best_first (cs : list Candidate) : Prop :=
  StronglySorted (fun c1 c2 => similarity c2 <= similarity c1)%Q cs.

Lemma sort_best_first cs : best_first (sort_by most_similar_first cs).
Proof.
  apply Sorted_StronglySorted.
  - intros c1 c2 c3 H12 H23. by eapply Qle_trans.
  - eapply Sorted_ind with (P := fun l => Sorted _ l);
      [constructor| |apply (sort_by_sorted most_similar_first)].
    + intros c l _ IH Hhd. constructor; [done|]. destruct Hhd as [|c' l' Hcc']; constructor.
      by apply Qle_bool_iff.
    + intros c1 c2. unfold most_similar_first. rewrite !Qle_bool_iff.
      destruct (Qlt_le_dec (similarity c1) (similarity c2)); [right; by apply Qlt_le_weak|by left].
Qed.

Lemma StronglySorted_snoc_inv {A} (R : relation A) l x :
  StronglySorted R (l ++ [x]) -> StronglySorted R l /\ forall y, y ∈ l -> R y x.
Proof.
  rewrite StronglySorted_app. intros (Hx & Hl & _). split; [done|].
  intros y Hy. apply Hx; [done|]. by apply list_elem_of_singleton.
Qed.

(** Going through the candidates from the most similar on, one that isn't taken shares a line
    with one that is and that is at least as similar. *)
Lemma match_fold dels adds cs :
  NoDup dels -> NoDup adds -> (forall c, c ∈ cs -> valid dels adds c) -> best_first cs ->
  let st := fold_left take_candidate cs
    ([], replicate (length dels) false, replicate (length adds) false) in
  MatchInv dels adds cs st /\
  forall c, c ∈ cs -> above c -> exists c', c' ∈ cs /\ pair_of c' ∈ st.1.1 /\
    (similarity c <= similarity c')%Q /\ (del_i c' = del_i c \/ add_i c' = add_i c).
Proof.
  intros Hnd Hna. induction cs as [|c cs IH] using rev_ind; intros Hvalid Hsort st.
  { split; [apply MatchInv_init|by intros c ?%elem_of_nil]. }
  apply StronglySorted_snoc_inv in Hsort as [Hsort Hmin].
  assert (forall c', c' ∈ cs -> c' ∈ cs ++ [c]) as Hmono
    by (intros c' ?; apply elem_of_app; by left).
  assert (c ∈ cs ++ [c]) as Hin by (apply elem_of_app; right; by apply list_elem_of_singleton).
  destruct IH as [Hinv Hbest]; [auto|done|].
  subst st. rewrite fold_left_app. cbn [fold_left]. set (st := fold_left _ cs _) in *.
  assert (MatchInv dels adds (cs ++ [c]) (take_candidate st c)) as Hinv'
    by (apply MatchInv_step; auto).
  split; [done|]. intros c1 [Hc1|Hc1]%elem_of_app Habove.
  - destruct (Hbest c1 Hc1 Habove) as (c' & ? & ? & ? & ?). exists c'.
    auto using take_candidate_mono.
  - apply list_elem_of_singleton in Hc1 as ->.
    assert (forall c', c' ∈ cs ++ [c] -> (similarity c <= similarity c')%Q) as Hle.
    { intros c' [Hc'|Hc']%elem_of_app; [by apply Hmin|].
      apply list_elem_of_singleton in Hc' as ->. apply Qle_refl. }
    destruct (mi_complete _ _ _ _ Hinv' c Hin Habove) as [Hu|Hu].
    + destruct (mi_used_del _ _ _ _ Hinv' _ Hu) as (c' & ? & ? & ?). exists c'. auto.
    + destruct (mi_used_add _ _ _ _ Hinv' _ Hu) as (c' & ? & ? & ?). exists c'. auto.
Qed.

Lemma elem_of_enumerate {A} (l : list A) p : p ∈ enumerate l <-> l !! p.1 = Some p.2.
Proof.
  destruct p as [i x]. unfold enumerate. simpl. rewrite list_elem_of_lookup. split.
  - intros [k Hk]. apply lookup_zip_Some in Hk as [Hs Hx].
    apply lookup_seq in Hs as [-> _]. done.
  - intros Hx. exists i. apply lookup_zip_Some. split; [|done].
    apply lookup_seq. apply lookup_lt_Some in Hx. done.
Qed.

(** Which positions of a block are compared. *)
Definition compared (dels adds : list nat) (i j : nat) : Prop :=
  length dels <= MAX_BLOCK_SIZE_FOR_MATCHING /\ length adds <= MAX_BLOCK_SIZE_FOR_MATCHING \/
  i <= j + WINDOW_SIZE /\ j < i + WINDOW_SIZE.

Definition block_candidates ls dels adds : list Candidate :=
  if (MAX_BLOCK_SIZE_FOR_MATCHING <? length dels)%nat ||
     (MAX_BLOCK_SIZE_FOR_MATCHING <? length adds)%nat then windowed_candidates ls dels adds
  else all_candidates ls dels adds.

Lemma find_best_line_matches_eq ls dels adds :
  find_best_line_matches ls dels adds =
    take_matches (block_candidates ls dels adds) (length dels) (length adds).
Proof. unfold find_best_line_matches, block_candidates. by destruct (_ || _). Qed.

Lemma elem_of_window {A} (l : list A) from to p :
  p ∈ take (to - from) (drop from (enumerate l)) <-> p ∈ enumerate l /\ from <= p.1 < to.
Proof.
  destruct p as [i x]. unfold enumerate. simpl. rewrite !list_elem_of_lookup. split.
  - intros [k Hk]. apply lookup_take_Some in Hk as [Hk Hlt]. rewrite lookup_drop in Hk.
    split; [by eexists|]. apply lookup_zip_Some in Hk as [Hs _].
    apply lookup_seq in Hs as [-> _]. lia.
  - intros [[k Hk] Hr]. exists (k - from). rewrite lookup_take_Some, lookup_drop.
    pose proof Hk as Hs. apply lookup_zip_Some in Hs as [Hs _].
    apply lookup_seq in Hs as [-> _]. simpl in *.
    replace (from + (k - from)) with k by lia. split; [done|lia].
Qed.

Lemma elem_of_block_candidates ls dels adds c :
  c ∈ block_candidates ls dels adds <->
  exists d a, dels !! d.1 = Some d.2 /\ adds !! a.1 = Some a.2 /\ compared dels adds d.1 a.1 /\
    candidate ls d a = Some c.
Proof.
  unfold block_candidates, compared, windowed_candidates, all_candidates.
  destruct (Nat.ltb_spec MAX_BLOCK_SIZE_FOR_MATCHING (length dels)),
    (Nat.ltb_spec MAX_BLOCK_SIZE_FOR_MATCHING (length adds)); cbn [orb];
    rewrite list_elem_of_bind; setoid_rewrite list_elem_of_omap.
  1-3: split;
    [intros (d & (a & [Ha Hr]%elem_of_window & Hc) & Hd);
     apply elem_of_enumerate in Ha, Hd; exists d, a; split_and!; try done; right; lia
    |intros (d & a & Hd & Ha & [[? ?]|[? ?]] & Hc); [lia|];
     exists d; split; [|by apply elem_of_enumerate];
     exists a; split; [|done]; apply elem_of_window; split; [by apply elem_of_enumerate|];
     apply lookup_lt_Some in Ha; lia].
  split.
  - intros (d & (a & Ha & Hc) & Hd). apply elem_of_enumerate in Ha, Hd. exists d, a.
    split_and!; try done. left. lia.
  - intros (d & a & Hd & Ha & _ & Hc). exists d. rewrite elem_of_enumerate. split; [|done].
    exists a. by rewrite elem_of_enumerate.
Qed.

(** What makes two lines a candidate that can be taken. *)
Definition alike ls (d a : nat) : Prop :=
  are_lengths_similar (str_len (content_at ls d)) (str_len (content_at ls a)) = true /\
  (LINE_SIMILARITY_THRESHOLD <
     calculate_line_similarity (content_at ls d) (content_at ls a))%Q.

Lemma candidate_alike ls d a c :
  candidate ls d a = Some c -> above c ->
  alike ls d.2 a.2 /\ del_i c = d.1 /\ add_i c = a.1 /\ pair_of c = (d.2, a.2) /\
  similarity c = calculate_line_similarity (content_at ls d.2) (content_at ls a.2).
Proof.
  unfold candidate, above, alike. destruct (are_lengths_similar _ _); [|done]. simpl.
  destruct (negb _); [done|]. intros [= <-]. simpl. auto.
Qed.

Lemma alike_candidate ls i d j a :
  alike ls d a -> exists c, candidate ls (i, d) (j, a) = Some c /\ above c.
Proof.
  unfold candidate, above, alike. simpl. intros [-> Hsim]. simpl.
  rewrite (proj2 (Qle_bool_iff _ _)) by (by apply Qlt_le_weak). simpl. eauto.
Qed.

Lemma candidate_valid ls dels adds d a c :
  candidate ls d a = Some c -> dels !! d.1 = Some d.2 -> adds !! a.1 = Some a.2 ->
  valid dels adds c.
Proof.
  unfold candidate, valid. repeat (destruct (negb _); [done|]). by intros [= <-].
Qed.

(** ** The matches of a block *)

Definition line_similarity ls (d a : nat) : Q :=
  calculate_line_similarity (content_at ls d) (content_at ls a).

Lemma best_matches_spec ls dels adds :
  NoDup dels -> NoDup adds ->
  let ms := find_best_line_matches ls dels adds in
  NoDup ms.*1 /\ NoDup ms.*2 /\
  (forall d a, (d, a) ∈ ms -> alike ls d a /\ exists i j,
     dels !! i = Some d /\ adds !! j = Some a /\ compared dels adds i j) /\
  (forall i j d a, dels !! i = Some d -> adds !! j = Some a -> compared dels adds i j ->
     alike ls d a -> exists m, m ∈ ms /\ (m.1 = d \/ m.2 = a) /\
       (line_similarity ls d a <= line_similarity ls m.1 m.2)%Q).
Proof.
  intros Hnd Hna ms. subst ms. rewrite find_best_line_matches_eq. unfold take_matches.
  assert (forall c, c ∈ sort_by most_similar_first (block_candidates ls dels adds) <->
                    c ∈ block_candidates ls dels adds) as Hperm
    by (intros c; by rewrite sort_by_perm).
  destruct (match_fold dels adds (sort_by most_similar_first (block_candidates ls dels adds)))
    as [Hinv Hbest]; [done|done| |apply sort_best_first|].
  { intros c (d & a & Hd & Ha & _ & Hc)%Hperm%elem_of_block_candidates.
    by eapply candidate_valid. }
  set (st := fold_left take_candidate _ _) in *.
  split_and!; [apply (mi_old_once _ _ _ _ Hinv)|apply (mi_new_once _ _ _ _ Hinv)|..].
  - intros d a Hm. destruct (mi_chosen _ _ _ _ Hinv _ Hm) as (c & Hc & Habove & Hp & _).
    apply Hperm, elem_of_block_candidates in Hc as (d' & a' & Hd & Ha & Hcmp & Hc).
    destruct (candidate_alike _ _ _ _ Hc Habove) as (Hal & _ & _ & Hp' & _).
    rewrite Hp' in Hp. injection Hp as -> ->. split; [done|]. by exists d'.1, a'.1.
  - intros i j d a Hd Ha Hcmp Hal. destruct (alike_candidate ls i d j a Hal) as (c & Hc & Habove).
    destruct (candidate_alike _ _ _ _ Hc Habove) as (_ & Hi & Hj & Hp & Hsim). simpl in *.
    destruct (Hbest c) as (c' & Hc' & Hm & Hle & Hshare); [|done|].
    { apply Hperm, elem_of_block_candidates. by exists (i, d), (j, a). }
    exists (pair_of c'). split; [done|].
    apply Hperm, elem_of_block_candidates in Hc' as (d' & a' & Hd' & Ha' & _ & Hc').
    assert (above c') as Habove' by (eapply Qlt_le_trans; [exact Habove|done]).
    destruct (candidate_alike _ _ _ _ Hc' Habove') as (_ & Hi' & Hj' & -> & Hsim').
    simpl. rewrite Hsim, Hsim' in Hle. split; [|done].
    destruct Hshare; [left|right]; congruence.
Qed.

(** ** Word changes *)

Context `{Similar}.

(** A line without its word changes. *)
Definition erase (l : DiffLine) : DiffLine := with_word_changes [] l.

Lemma with_erase w l l' : erase l = erase l' -> with_word_changes w l = with_word_changes w l'.
Proof. destruct l, l'. unfold erase, with_word_changes. simpl. intros Heq. injection Heq. intros. by subst. Qed.

Definition same_lines (ls ls' : list DiffLine) : Prop := forall i, erase <$> ls !! i = erase <$> ls' !! i.

Lemma same_content ls ls' i : same_lines ls ls' -> content_at ls i = content_at ls' i.
Proof.
  intros Hs. specialize (Hs i). unfold content_at.
  destruct (ls !! i) as [l|], (ls' !! i) as [l'|]; try done. simpl in Hs.
  assert (erase l = erase l') as He by congruence. by apply (f_equal raw_content) in He.
Qed.

Lemma same_candidate ls ls' d a : same_lines ls ls' -> candidate ls d a = candidate ls' d a.
Proof. intros Hs. unfold candidate. by rewrite !(same_content ls ls') by done. Qed.

Lemma same_matches ls ls' dels adds :
  same_lines ls ls' -> find_best_line_matches ls dels adds = find_best_line_matches ls' dels adds.
Proof.
  intros Hs. rewrite !find_best_line_matches_eq. f_equal.
  unfold block_candidates, windowed_candidates, all_candidates.
  destruct (_ || _); (apply list_bind_ext; [|done]); intros d; apply list_omap_ext, Forall_Forall2_diag,
    Forall_true; intros a; by apply same_candidate.
Qed.

Lemma highlight_match_same ls m : same_lines (highlight_match ls m) ls.
Proof.
  intros i. unfold highlight_match. set (w := highlight_word_diff_structured _ _ _).
  destruct (decide (m.2 = i)) as [->|]; [rewrite list_lookup_alter_eq|rewrite list_lookup_alter_ne by done];
  (destruct (decide (m.1 = i)) as [->|];
    [rewrite list_lookup_alter_eq|rewrite list_lookup_alter_ne by done]); by destruct (ls !! i).
Qed.

Lemma highlight_matches_same ms ls : same_lines (fold_left highlight_match ms ls) ls.
Proof.
  revert ls. induction ms as [|m ms IH]; intros ls; simpl; [done|].
  intros i. etrans; [apply IH|apply highlight_match_same].
Qed.

(** What a pair of lines shows. *)
Definition pair_diff ls (d a : nat) : StructuredWordDiffResult :=
  highlight_word_diff_structured (content_at ls d) (content_at ls a) MAX_WORD_DIFF_LINE_LENGTH.

(** Pairs in which a line occurs with one partner, and on one side. *)
Record paired (ms : list (nat * nat)) : Prop := {
  paired_old : forall d a a', (d, a) ∈ ms -> (d, a') ∈ ms -> a = a';
  paired_new : forall d d' a, (d, a) ∈ ms -> (d', a) ∈ ms -> d = d';
  paired_sides : forall i d a, (i, a) ∈ ms -> (d, i) ∈ ms -> False;
}.

Lemma paired_app_l ms ms' : paired (ms ++ ms') -> paired ms.
Proof.
  intros [Ho Hn Hs]. split.
  - intros d a a' H1' H2'. apply (Ho d); apply elem_of_app; by left.
  - intros d d' a H1' H2'. apply (Hn d d' a); apply elem_of_app; by left.
  - intros i d a H1' H2'. apply (Hs i d a); apply elem_of_app; by left.
Qed.

Lemma highlight_matches_lookup ms ls i :
  paired ms ->
  (forall a, (i, a) ∈ ms -> fold_left highlight_match ms ls !! i =
     with_word_changes (old_changes (pair_diff ls i a)) <$> ls !! i) /\
  (forall d, (d, i) ∈ ms -> fold_left highlight_match ms ls !! i =
     with_word_changes (new_changes (pair_diff ls d i)) <$> ls !! i) /\
  ((forall m, m ∈ ms -> m.1 <> i /\ m.2 <> i) -> fold_left highlight_match ms ls !! i = ls !! i).
Proof.
  induction ms as [|[d0 a0] ms IH] using rev_ind; intros Hpaired.
  { split_and!; [by intros a ?%elem_of_nil|by intros d ?%elem_of_nil|done]. }
  specialize (IH (paired_app_l _ _ Hpaired)) as (IHo & IHn & IHu).
  destruct Hpaired as [Ho Hn Hs]. rewrite fold_left_app. cbn [fold_left].
  pose proof (highlight_matches_same ms ls) as Hsame.
  set (st := fold_left highlight_match ms ls) in *.
  assert (forall m, m ∈ ms -> m ∈ ms ++ [(d0, a0)]) as Hmono
    by (intros m ?; apply elem_of_app; by left).
  assert ((d0, a0) ∈ ms ++ [(d0, a0)]) as Hlast
    by (apply elem_of_app; right; by apply list_elem_of_singleton).
  assert (d0 <> a0) as Hda by (intros ->; by apply (Hs a0 a0 a0)).
  assert (forall w, with_word_changes w <$> st !! i = with_word_changes w <$> ls !! i) as Hw.
  { intros w. specialize (Hsame i). destruct (st !! i), (ls !! i); try done. simpl in *.
    f_equal. apply with_erase. congruence. }
  unfold highlight_match. cbn [fst snd]. rewrite !(same_content st ls) by done.
  fold (pair_diff ls d0 a0). split_and!.
  - intros a Hin. assert (a0 <> i) as Hne by (intros ->; by apply (Hs i d0 a)).
    rewrite list_lookup_alter_ne by done. destruct (decide (d0 = i)) as [->|Hd].
    + rewrite (Ho i a a0) by done. rewrite list_lookup_alter_eq. apply Hw.
    + rewrite list_lookup_alter_ne by done. apply IHo.
      apply elem_of_app in Hin as [?|?%list_elem_of_singleton]; [done|congruence].
  - intros d Hin. assert (d0 <> i) as Hne by (intros ->; by apply (Hs i d a0)).
    destruct (decide (a0 = i)) as [->|Ha].
    + rewrite list_lookup_alter_eq, list_lookup_alter_ne by done.
      rewrite (Hn d d0 i) by done. apply Hw.
    + rewrite !list_lookup_alter_ne by done. apply IHn.
      apply elem_of_app in Hin as [?|?%list_elem_of_singleton]; [done|congruence].
  - intros Hnot. destruct (Hnot _ Hlast) as [? ?].
    rewrite !list_lookup_alter_ne by done. auto.
Qed.

(** ** All blocks *)

Definition block_matches ls (b : list nat * list nat) : list (nat * nat) :=
  find_best_line_matches ls b.1 b.2.

Lemma run_unique ty ls s e s' e' j :
  is_run ty ls s e -> is_run ty ls s' e' -> s <= j < e -> s' <= j < e' -> s = s' /\ e = e'.
Proof.
  intros Hr Hr' Hj Hj'.
  destruct (le_lt_dec s s') as [Hle|Hlt].
  - destruct (run_after _ _ _ _ _ _ Hr Hr' Hle) as [[-> ->]|]; [done|lia].
  - destruct (run_after _ _ _ _ _ _ Hr' Hr ltac:(lia)) as [[-> ->]|]; [done|lia].
Qed.

Lemma block_unique ls b b' j :
  is_block ls b -> is_block ls b' ->
  (j ∈ b.1 /\ j ∈ b'.1) \/ (j ∈ b.2 /\ j ∈ b'.2) -> b = b'.
Proof.
  intros (s & e & f & Hr & Hle & Ha & Hn & ->) (s' & e' & f' & Hr' & Hle' & Ha' & Hn' & ->).
  simpl. rewrite !elem_of_seq. intros Hj.
  assert (s = s' /\ e = e') as [<- <-].
  { destruct Hj as [[Hj Hj']|[Hj Hj']].
    - apply (run_unique LDelete ls s e s' e' j); [done|done|lia|lia].
    - pose proof (run_nonempty Hr). pose proof (run_nonempty Hr').
      pose proof (run_all Hr (e - 1) ltac:(lia)) as Hd.
      pose proof (run_all Hr' (e' - 1) ltac:(lia)) as Hd'.
      assert (e = e') as <-.
      { destruct (lt_eq_lt_dec e e') as [[?|?]|?]; [|done|].
        - rewrite Ha in Hd' by lia. done.
        - rewrite Ha' in Hd by lia. done. }
      apply (run_unique LDelete ls s e s' e (e - 1)); [done|done|lia|lia]. }
  by rewrite (all_of_unique LAdd ls e f' f).
Qed.

Lemma block_types ls b j :
  is_block ls b ->
  (j ∈ b.1 -> ty_at ls j = Some LDelete) /\ (j ∈ b.2 -> ty_at ls j = Some LAdd).
Proof.
  intros (s & e & f & Hr & Hle & Ha & Hn & ->). simpl. rewrite !elem_of_seq. split; intros Hj.
  - apply (run_all Hr). lia.
  - apply Ha. lia.
Qed.

Lemma block_NoDup ls b : is_block ls b -> NoDup b.1 /\ NoDup b.2.
Proof. intros (s & e & f & _ & _ & _ & _ & ->). split; apply NoDup_seq. Qed.

Lemma block_matches_in ls b d a :
  is_block ls b -> (d, a) ∈ block_matches ls b -> d ∈ b.1 /\ a ∈ b.2.
Proof.
  intros [Hnd Hna]%block_NoDup Hm.
  destruct (best_matches_spec ls b.1 b.2 Hnd Hna) as (_ & _ & Hin & _).
  destruct (Hin d a Hm) as (_ & i & j & Hd & Ha & _).
  split; by eapply list_elem_of_lookup_2.
Qed.

Lemma NoDup_fmap_inj {A B} (g : A -> B) (l : list A) x y :
  NoDup (g <$> l) -> x ∈ l -> y ∈ l -> g x = g y -> x = y.
Proof.
  intros Hnd [i Hi]%list_elem_of_lookup [j Hj]%list_elem_of_lookup Hg.
  assert (i = j) as ->; [|congruence].
  eapply NoDup_lookup; [exact Hnd|by rewrite list_lookup_fmap, Hi|].
  by rewrite list_lookup_fmap, Hj, Hg.
Qed.

Lemma paired_blocks ls blocks :
  (forall b, b ∈ blocks -> is_block ls b) -> paired (blocks ≫= block_matches ls).
Proof.
  intros Hall. split.
  - intros d a a' (b & Hm & Hb)%list_elem_of_bind (b' & Hm' & Hb')%list_elem_of_bind.
    pose proof (Hall _ Hb) as Hbl. pose proof (Hall _ Hb') as Hbl'.
    destruct (block_matches_in _ _ _ _ Hbl Hm), (block_matches_in _ _ _ _ Hbl' Hm').
    assert (b = b') as <- by (apply (block_unique ls b b' d); auto).
    apply block_NoDup in Hbl as [Hnd Hna].
    destruct (best_matches_spec ls b.1 b.2 Hnd Hna) as (Ho & _).
    assert ((d, a) = (d, a')) by (by apply (NoDup_fmap_inj fst _ _ _ Ho)). congruence.
  - intros d d' a (b & Hm & Hb)%list_elem_of_bind (b' & Hm' & Hb')%list_elem_of_bind.
    pose proof (Hall _ Hb) as Hbl. pose proof (Hall _ Hb') as Hbl'.
    destruct (block_matches_in _ _ _ _ Hbl Hm), (block_matches_in _ _ _ _ Hbl' Hm').
    assert (b = b') as <- by (apply (block_unique ls b b' a); auto).
    apply block_NoDup in Hbl as [Hnd Hna].
    destruct (best_matches_spec ls b.1 b.2 Hnd Hna) as (_ & Hn & _).
    assert ((d, a) = (d', a)) by (by apply (NoDup_fmap_inj snd _ _ _ Hn)). congruence.
  - intros i d a (b & Hm & Hb)%list_elem_of_bind (b' & Hm' & Hb')%list_elem_of_bind.
    pose proof (Hall _ Hb) as Hbl. pose proof (Hall _ Hb') as Hbl'.
    destruct (block_matches_in _ _ _ _ Hbl Hm) as [Hi _].
    destruct (block_matches_in _ _ _ _ Hbl' Hm') as [_ Hi'].
    apply (block_types ls b i Hbl) in Hi. apply (block_types ls b' i Hbl') in Hi'. congruence.
Qed.

Lemma find_best_nil ls dels adds : dels = [] \/ adds = [] -> NoDup dels -> NoDup adds ->
  find_best_line_matches ls dels adds = [].
Proof.
  intros Hnil Hnd Hna. destruct (best_matches_spec ls dels adds Hnd Hna) as (_ & _ & Hin & _).
  destruct (find_best_line_matches ls dels adds) as [|[d a] ms]; [done|].
  destruct (Hin d a) as (_ & i & j & Hd & Ha & _); [by left|]. by destruct Hnil; subst.
Qed.

Lemma highlight_block_eq ls st b :
  is_block ls b -> same_lines st ls ->
  highlight_block st b = fold_left highlight_match (block_matches ls b) st.
Proof.
  intros Hb Hsame. pose proof (block_NoDup _ _ Hb) as [Hnd Hna].
  unfold block_matches. rewrite <- (same_matches st ls) by done.
  destruct b as [[|d dels] [|a adds]]; simpl in *;
    rewrite ?find_best_nil by auto; done.
Qed.

Lemma highlight_blocks_eq ls blocks st :
  (forall b, b ∈ blocks -> is_block ls b) -> same_lines st ls ->
  fold_left highlight_block blocks st =
    fold_left highlight_match (blocks ≫= block_matches ls) st.
Proof.
  revert st. induction blocks as [|b blocks IH]; intros st Hall Hsame; simpl; [done|].
  rewrite (highlight_block_eq ls) by (done || (apply Hall; by left)).
  rewrite fold_left_app. apply IH; [intros b' ?; apply Hall; by right|].
  intros i. etrans; [apply highlight_matches_same|done].
Qed.

(** A deleted and an added line of a block that are compared word by word. *)
Definition matched ls (d a : nat) : Prop :=
  exists b, is_block ls b /\ (d, a) ∈ block_matches ls b.

Lemma apply_word_highlighting_spec ls :
  exists ls', apply_word_highlighting ls = Some ls' /\ same_lines ls' ls /\
    forall i,
      (forall a, matched ls i a ->
         ls' !! i = with_word_changes (old_changes (pair_diff ls i a)) <$> ls !! i) /\
      (forall d, matched ls d i ->
         ls' !! i = with_word_changes (new_changes (pair_diff ls d i)) <$> ls !! i) /\
      ((forall j, ~ matched ls i j /\ ~ matched ls j i) -> ls' !! i = ls !! i) /\
      ((exists a, matched ls i a) \/ (exists d, matched ls d i) \/
       (forall j, ~ matched ls i j /\ ~ matched ls j i)).
Proof.
  destruct (find_change_blocks_spec ls) as (blocks & Hrun & Hblocks).
  unfold apply_word_highlighting. rewrite Hrun. cbn [mbind option_bind].
  eexists. split; [done|].
  assert (forall b, b ∈ blocks -> is_block ls b) as Hall by (intros b; apply Hblocks).
  rewrite (highlight_blocks_eq ls) by done. split; [apply highlight_matches_same|].
  assert (forall d a, matched ls d a <-> (d, a) ∈ blocks ≫= block_matches ls) as Hm.
  { intros d a. rewrite list_elem_of_bind. unfold matched. setoid_rewrite Hblocks.
    split; intros (b & ? & ?); by exists b. }
  intros i. destruct (highlight_matches_lookup _ ls i (paired_blocks ls blocks Hall))
    as (Ho & Hn & Hu).
  split_and!; [intros a ?%Hm; by apply Ho|intros d ?%Hm; by apply Hn| |].
  2: { set (ms := blocks ≫= block_matches ls) in *.
       destruct (decide (i ∈ ms.*1)) as [([d a] & -> & Hin)%list_elem_of_fmap|Hno];
         [left; exists a; by apply Hm|right].
       destruct (decide (i ∈ ms.*2)) as [([d a] & -> & Hin)%list_elem_of_fmap|Hno'];
         [left; exists d; by apply Hm|right].
       intros j. rewrite !Hm. split; intros Hin;
         [apply Hno, list_elem_of_fmap; by exists (i, j)
         |apply Hno', list_elem_of_fmap; by exists (j, i)]. }
  intros Hnone. apply Hu. intros [d a] Hin%Hm. simpl.
  split; intros ->; [by destruct (Hnone a) as [[] _]|by destruct (Hnone d) as [_ []]].
Qed.
End lines_facts.
