(* ===== verification/DiffComputeFacts.v ===== *)
(** * Facts about diffs of file trees

    The numbering of the lines, the folding of context, and which files are compared. *)

From Stdlib Require Import QArith.
From S2P Require Import Prelude RustStd Ord WordDiff Apworld DiffLines DiffLinesFacts DiffCompute.
#[local] Open Scope nat_scope.

Section compute_facts.
Context `{Syntect, Strsim, Similar, TextDiff}.
Implicit Types (ls : list DiffLine).

(** ** Folding context *)

(** Line [j] is hidden because of the run of context lines from [s] to before [e]. *)
Definition hidden ls j s e : Prop :=
  is_run LContext ls s e /\ CONTEXT_COLLAPSE_THRESHOLD < e - s /\
  s + CONTEXT_VISIBLE_LINES <= j < e - CONTEXT_VISIBLE_LINES.

(** The first hidden line says how many there are. *)
Definition hide (s e j : nat) (l : DiffLine) : DiffLine :=
  if (j =? s + CONTEXT_VISIBLE_LINES)%nat then
    set_collapse_count (e - s - 2 * CONTEXT_VISIBLE_LINES) (collapse_line l)
  else collapse_line l.

Lemma fold_alter_lookup (f : DiffLine -> DiffLine) a n ls j :
  fold_left (fun ls j => alter f j ls) (seq a n) ls !! j =
    if (a <=? j)%nat && (j <? a + n)%nat then f <$> ls !! j else ls !! j.
Proof.
  revert a ls. induction n as [|n IH]; intros a ls; simpl.
  { destruct (Nat.leb_spec a j), (Nat.ltb_spec j (a + 0)); simpl; done || lia. }
  rewrite IH. destruct (decide (a = j)) as [->|Hne].
  - rewrite list_lookup_alter_eq.
    destruct (Nat.leb_spec (S j) j), (Nat.leb_spec j j), (Nat.ltb_spec j (S j + n)),
      (Nat.ltb_spec j (j + S n)); simpl; done || lia.
  - rewrite list_lookup_alter_ne by done.
    destruct (Nat.leb_spec (S a) j), (Nat.leb_spec a j), (Nat.ltb_spec j (S a + n)),
      (Nat.ltb_spec j (a + S n)); simpl; done || lia.
Qed.

Lemma collapse_range_lookup from to ls j :
  from < to ->
  collapse_range from to ls !! j =
    if (from <=? j)%nat && (j <? to)%nat then
      (fun l => if (j =? from)%nat then set_collapse_count (to - from) (collapse_line l)
                else collapse_line l) <$> ls !! j
    else ls !! j.
Proof.
  intros Hlt. unfold collapse_range. destruct (decide (from = j)) as [->|Hne].
  - rewrite list_lookup_alter_eq, fold_alter_lookup, Nat.leb_refl, Nat.eqb_refl.
    rewrite !(proj2 (Nat.ltb_lt _ _)) by lia. simpl. by destruct (ls !! j).
  - rewrite list_lookup_alter_ne, fold_alter_lookup by done.
    replace (from + (to - from)) with to by lia.
    rewrite (proj2 (Nat.eqb_neq j from)) by done. done.
Qed.

Lemma collapse_range_types from to ls j :
  from < to -> ty_at (collapse_range from to ls) j = ty_at ls j.
Proof.
  intros Hlt. unfold ty_at. rewrite collapse_range_lookup by done.
  destruct (_ && _); [|done]. destruct (ls !! j); simpl; [|done]. by destruct (_ =? _)%nat.
Qed.

Lemma run_types ls ls' ty s e :
  (forall j, ty_at ls j = ty_at ls' j) -> is_run ty ls s e -> is_run ty ls' s e.
Proof.
  intros Hty [Hne Hall Hs He]. split; [done|..].
  - intros j Hj. rewrite <- Hty. by apply Hall.
  - intros j Hj. rewrite <- Hty. by apply Hs.
  - by rewrite <- Hty.
Qed.

Lemma hidden_types ls ls' j s e :
  (forall j, ty_at ls j = ty_at ls' j) -> hidden ls j s e -> hidden ls' j s e.
Proof. intros Hty (Hr & ? & ?). split; [by eapply run_types|done]. Qed.

Lemma collapse_range_length from to ls : length (collapse_range from to ls) = length ls.
Proof.
  unfold collapse_range. rewrite length_alter. generalize (seq from (to - from)).
  intros js. revert ls. induction js as [|j js IH]; intros ls; simpl; [done|].
  by rewrite IH, length_alter.
Qed.

(** What the loop still has to do from [i] on. *)
Definition collapsed_from i ls ls' : Prop :=
  forall j,
    (exists s e, i <= s /\ hidden ls j s e /\ ls' !! j = hide s e j <$> ls !! j) \/
    ((forall s e, i <= s -> ~ hidden ls j s e) /\ ls' !! j = ls !! j).

(** A run that isn't hidden, or that is over. *)
Lemma collapsed_from_skip i k ls ls' :
  i <= k -> (forall j s e, hidden ls j s e -> i <= s -> k <= s) ->
  collapsed_from k ls ls' -> collapsed_from i ls ls'.
Proof.
  intros Hik Hskip Hk j. destruct (Hk j) as [(s & e & Hs & Hhid & Hj)|[Hnone Hj]].
  - left. exists s, e. split; [lia|done].
  - right. split; [|done]. intros s e Hs Hhid. apply (Hnone s e); [by eapply Hskip|done].
Qed.

(** A long run: its inner lines are hidden, and the rest is done afterwards. *)
Lemma collapsed_from_run i e ls ls' :
  is_run LContext ls i e -> CONTEXT_COLLAPSE_THRESHOLD < e - i ->
  collapsed_from e
    (collapse_range (i + CONTEXT_VISIBLE_LINES) (e - CONTEXT_VISIBLE_LINES) ls) ls' ->
  collapsed_from i ls ls'.
Proof.
  unfold CONTEXT_COLLAPSE_THRESHOLD. intros Hrun Hlong Hrest j.
  assert (i + CONTEXT_VISIBLE_LINES < e - CONTEXT_VISIBLE_LINES) as Hlt
    by (unfold CONTEXT_VISIBLE_LINES; lia).
  set (ls1 := collapse_range _ _ ls) in *.
  assert (forall j, ty_at ls1 j = ty_at ls j) as Hty
    by (intros; by apply collapse_range_types).
  assert (forall j, ty_at ls j = ty_at ls1 j) as Hty' by (intros; by rewrite Hty).
  pose proof (collapse_range_lookup _ _ ls j Hlt) as Hj. fold ls1 in Hj.
  destruct (Hrest j) as [(s & f & Hs & Hhid & ->)|[Hnone ->]]; rewrite Hj.
  - left. exists s, f. split; [lia|]. split; [by apply (hidden_types ls1)|].
    destruct Hhid as (_ & _ & ?). rewrite (proj2 (Nat.ltb_ge j (e - CONTEXT_VISIBLE_LINES))) by lia.
    by rewrite andb_false_r.
  - destruct (Nat.leb_spec (i + CONTEXT_VISIBLE_LINES) j),
      (Nat.ltb_spec j (e - CONTEXT_VISIBLE_LINES)); cbn [andb].
    1: { left. exists i, e. split; [done|]. split; [by split|]. unfold hide.
         by replace (e - i - 2 * CONTEXT_VISIBLE_LINES) with
           (e - CONTEXT_VISIBLE_LINES - (i + CONTEXT_VISIBLE_LINES)) by lia. }
    all: right; split; [|done]; intros s f Hs Hhid; pose proof Hhid as (Hr & _ & ?);
      destruct (run_after _ _ _ _ _ _ Hrun Hr Hs) as [[-> ->]|Hge]; [lia|];
      by apply (Hnone s f); [|by apply (hidden_types ls)].
Qed.

Lemma collapse_loop_spec fuel ls i :
  length ls - i <= fuel -> fresh LContext ls i ->
  exists ls', collapse_loop fuel ls i = Some ls' /\ collapsed_from i ls ls'.
Proof.
  revert ls i. induction fuel as [|fuel IH]; intros ls i Hfuel Hfresh; simpl;
    destruct (ls !! i) as [l|] eqn:Hl.
  1: { apply lookup_lt_Some in Hl. lia. }
  1, 3: apply lookup_ge_None in Hl; exists ls; split; [done|]; intros j; right; split; [|done];
    intros s e Hs (Hr & ? & ?); apply run_in_range in Hr; unfold CONTEXT_VISIBLE_LINES in *; lia.
  apply lookup_lt_Some in Hl as Hlen. apply ty_at_lookup in Hl as Hty.
  destruct (is_type LContext l) eqn:El; simpl.
  2: { destruct (IH ls (S i)) as (ls' & -> & Hrest); [lia| |].
       - intros _ j [= ->]. rewrite Hty. intros [= Hc%is_type_true]. congruence.
       - exists ls'. split; [done|]. apply (collapsed_from_skip i (S i)); [lia| |done].
         intros j s e (Hr & _ & _) Hs. destruct (decide (s = i)) as [->|]; [|lia].
         pose proof (run_all _ _ _ _ Hr i) as Hi. rewrite Hty in Hi.
         destruct Hr. injection Hi as Hc%is_type_true; [congruence|lia]. }
  apply is_type_true in El. rewrite El in Hty.
  pose proof (run_found _ _ _ Hty Hfresh) as Hrun. set (e := run_end LContext ls i) in *.
  assert (i < e) as Hie by apply Hrun.
  assert (forall ls1, length ls1 = length ls -> (forall j, ty_at ls1 j = ty_at ls j) ->
    exists ls', collapse_loop fuel ls1 e = Some ls' /\ collapsed_from e ls1 ls') as Hgo.
  { intros ls1 Hlen1 Hty1. apply IH; [lia|]. intros He. rewrite Hty1 in He.
    by destruct (run_ends _ _ _ _ Hrun). }
  destruct (Nat.leb_spec (e - i) CONTEXT_COLLAPSE_THRESHOLD) as [Hshort|Hlong].
  - destruct (Hgo ls) as (ls' & -> & Hrest); [done|done|]. exists ls'. split; [done|].
    apply (collapsed_from_skip i e); [lia| |done].
    intros j s f (Hr & Hlong & _) Hs.
    destruct (run_after _ _ _ _ _ _ Hrun Hr Hs) as [[-> ->]|]; [lia|done].
  - rewrite (proj2 (Nat.leb_gt _ _))
      by (unfold CONTEXT_COLLAPSE_THRESHOLD, CONTEXT_VISIBLE_LINES in *; lia).
    destruct (Hgo (collapse_range (i + CONTEXT_VISIBLE_LINES) (e - CONTEXT_VISIBLE_LINES) ls))
      as (ls' & -> & Hrest).
    + apply collapse_range_length.
    + intros j. apply collapse_range_types.
      unfold CONTEXT_COLLAPSE_THRESHOLD, CONTEXT_VISIBLE_LINES in *. lia.
    + exists ls'. split; [done|]. by apply (collapsed_from_run i e).
Qed.

Lemma collapse_context_regions_spec ls :
  exists ls', collapse_context_regions ls = Some ls' /\ collapsed_from 0 ls ls'.
Proof. apply collapse_loop_spec; [lia|]. intros _ j. lia. Qed.

(** ** Tokens *)

(** Tokens that lie one after the other from an offset. *)
Fixpoint tokens_laid (start : N) (tokens : list SyntaxToken) : Prop :=
  match tokens with
  | [] => True
  | t :: tokens =>
      tok_start t = start /\ tok_end t = (start + str_len (tok_text t))%N /\
      tokens_laid (tok_end t) tokens
  end.

(** The tokens of a line are the line, cut. *)
Definition tokens_of (content : str) (tokens : list SyntaxToken) : Prop :=
  concat (tok_text <$> tokens) = content /\ tokens_laid 0 tokens.

Lemma tokens_from_spec start pieces :
  concat (tok_text <$> tokens_from start pieces) = concat (snd <$> pieces) /\
  tokens_laid start (tokens_from start pieces).
Proof.
  revert start. induction pieces as [|[style text] pieces IH]; intros start; [done|]. simpl.
  destruct (IH (start + str_len text)%N) as [Ht Hl]. split; [|done]. f_equal. exact Ht.
Qed.

Lemma fallback_tokens content : tokens_of content (fallback_syntax_tokens content).
Proof. split; simpl; [apply app_nil_r|done]. Qed.

Lemma highlight_line_tokens self content : tokens_of content (highlight_line self content).1.
Proof.
  unfold highlight_line. destruct (_ <? _)%N; [apply fallback_tokens|].
  destruct (parse_line _ _) as [[ops|] ps]; [|apply fallback_tokens].
  destruct (is_invalid_scope _); [apply fallback_tokens|].
  pose proof (highlight_iterator_text (highlight_state self) ops content) as Htext.
  destruct (highlight_iterator _ ops content) as [pieces hs]. simpl in Htext.
  destruct (tokens_from_spec 0 pieces) as [Ht Hl].
  destruct (should_reset_parser_state _); simpl; split; congruence.
Qed.

Lemma highlight_lines_lookup self contents i content :
  contents !! i = Some content ->
  exists tokens, highlight_lines self contents !! i = Some tokens /\ tokens_of content tokens.
Proof.
  revert self i. induction contents as [|c contents IH]; intros self i Hi; [done|]. simpl.
  pose proof (highlight_line_tokens self c) as Hc.
  destruct (highlight_line self c) as [tokens self']. destruct i as [|i]; [|by apply IH].
  injection Hi as ->. by exists tokens.
Qed.

(** ** The lines of a diff *)

Definition trim_line (value : str) : str :=
  trim_end_matches (fun c => (c =? CR)%N || (c =? LF)%N) value.

(** The lines of each side with their numbers. *)
Definition old_side (l : DiffLine) : option (Z * str) :=
  n ← old_line_number l; Some (n, raw_content l).
Definition new_side (l : DiffLine) : option (Z * str) :=
  n ← new_line_number l; Some (n, raw_content l).

Definition numbered (start : Z) (pieces : list str) : list (Z * str) :=
  zip (seqZ start (Z.of_nat (length pieces))) (trim_line <$> pieces).

Lemma numbered_cons start p pieces :
  numbered start (p :: pieces) = (start, trim_line p) :: numbered (start + 1) pieces.
Proof.
  unfold numbered. rewrite length_cons, seqZ_cons by lia. simpl.
  by replace (Z.pred (Z.of_nat (S (length pieces)))) with (Z.of_nat (length pieces)) by lia.
Qed.

Lemma wrap_i32_small z : (0 <= z < 2147483648)%Z -> wrap_i32 z = z.
Proof. unfold wrap_i32. lia. Qed.

Lemma raw_lines_old o n changes :
  (0 <= o)%Z -> (o + Z.of_nat (length (old_part changes)) < 2147483648)%Z ->
  omap (fun r => k ← r.2.1; Some (k, r.1.1)) (raw_lines_from o n changes) =
    numbered o (old_part changes).
Proof.
  revert o n. induction changes as [|[[] v] changes IH]; intros o n Ho Hlen; [done|..].
  - change (old_part ((TEqual, v) :: changes)) with (v :: old_part changes) in *.
    rewrite numbered_cons, <- (IH (o + 1)%Z (wrap_i32 (n + 1))) by (simpl in *; lia).
    simpl. rewrite wrap_i32_small by (simpl in *; lia). done.
  - change (old_part ((TDelete, v) :: changes)) with (v :: old_part changes) in *.
    rewrite numbered_cons, <- (IH (o + 1)%Z n) by (simpl in *; lia).
    simpl. rewrite wrap_i32_small by (simpl in *; lia). done.
  - by apply IH.
Qed.

Lemma raw_lines_new o n changes :
  (0 <= n)%Z -> (n + Z.of_nat (length (new_part changes)) < 2147483648)%Z ->
  omap (fun r => k ← r.2.2; Some (k, r.1.1)) (raw_lines_from o n changes) =
    numbered n (new_part changes).
Proof.
  revert o n. induction changes as [|[[] v] changes IH]; intros o n Hn Hlen; [done|..].
  - change (new_part ((TEqual, v) :: changes)) with (v :: new_part changes) in *.
    rewrite numbered_cons, <- (IH (wrap_i32 (o + 1)) (n + 1)%Z) by (simpl in *; lia).
    simpl. rewrite (wrap_i32_small (n + 1)) by (simpl in *; lia). done.
  - by apply IH.
  - change (new_part ((TInsert, v) :: changes)) with (v :: new_part changes) in *.
    rewrite numbered_cons, <- (IH o (n + 1)%Z) by (simpl in *; lia).
    simpl. rewrite wrap_i32_small by (simpl in *; lia). done.
Qed.

(** Which numbers a line of each type has. *)
Definition sides (ty : LineType) : bool * bool :=
  match ty with LAdd => (false, true) | LDelete => (true, false) | LContext => (true, true) end.

Lemma raw_lines_sides o n changes r :
  r ∈ raw_lines_from o n changes ->
  (bool_decide (is_Some r.2.1), bool_decide (is_Some r.2.2)) = sides r.1.2.
Proof.
  revert o n. induction changes as [|[[] v] changes IH]; intros o n; simpl;
    [by intros ?%elem_of_nil|..]; intros [->|Hr]%elem_of_cons; try done; by eapply IH.
Qed.

Lemma omap_enumerate {A B C} (f : nat * A -> B) (g : B -> option C) (h : A -> option C) (l : list A) :
  (forall i x, g (f (i, x)) = h x) -> omap g (f <$> enumerate l) = omap h l.
Proof.
  intros Hf. unfold enumerate. generalize 0. induction l as [|x l IH]; intros k; [done|].
  simpl. rewrite Hf. unfold omap in IH. by destruct (h x); rewrite IH.
Qed.

Lemma build_diff_lines_numbers old new filename anns :
  let changes := diff_lines old new in
  let ls := build_diff_lines old new filename anns in
  (Z.of_nat (length (old_part changes)) < 2147483647)%Z ->
  (Z.of_nat (length (new_part changes)) < 2147483647)%Z ->
  omap old_side ls = numbered 1 (old_part changes) /\
  omap new_side ls = numbered 1 (new_part changes).
Proof.
  intros changes ls Ho Hn. subst ls. unfold build_diff_lines. split.
  - rewrite (omap_enumerate _ _ (fun r => k ← r.2.1; Some (k, r.1.1))) by (by intros i [[c ty] [a b]]).
    apply raw_lines_old; [done|lia].
  - rewrite (omap_enumerate _ _ (fun r => k ← r.2.2; Some (k, r.1.1))) by (by intros i [[c ty] [a b]]).
    apply raw_lines_new; [done|lia].
Qed.

(** What holds of each line as it is built. *)
Definition line_ok (anns : list TemplateAnnotation) (l : DiffLine) : Prop :=
  (bool_decide (is_Some (old_line_number l)), bool_decide (is_Some (new_line_number l))) =
    sides (line_type l) /\
  tokens_of (raw_content l) (syntax_tokens l) /\
  word_changes l = None /\ collapsed l = false /\ collapse_count l = None /\
  forall a, a ∈ line_annotations l <->
    exists n, new_line_number l = Some n /\ (0 < n)%Z /\ a ∈ anns /\ Z.of_N (ann_line a) = n.

Lemma elem_of_line_annotations n anns a :
  (0 < n)%Z -> a ∈ find_line_annotations n anns <-> a ∈ anns /\ Z.of_N (ann_line a) = n.
Proof.
  intros Hn. unfold find_line_annotations. rewrite (proj2 (Z.leb_gt _ _)) by done.
  rewrite elem_of_filter_bool, N.eqb_eq. split; intros [? ?]; (split; [done|lia]).
Qed.

Lemma build_line_ok anns tokens i r :
  (bool_decide (is_Some r.2.1), bool_decide (is_Some r.2.2)) = sides r.1.2 ->
  tokens_of r.1.1 (default (fallback_syntax_tokens r.1.1) (tokens !! i)) ->
  line_ok anns (build_line anns tokens (i, r)).
Proof.
  destruct r as [[content ty] [o n]]. cbn [fst snd]. intros Hsides Htok.
  split_and!; try done. simpl. intros a.
  destruct ty, n as [n|]; try done; simpl;
    [|split; [by intros ?%elem_of_nil|by intros (? & ? & _)]|];
    (destruct (Z.ltb_spec 0 n);
      [rewrite elem_of_line_annotations by done|]);
    first [split; [by intros ?%elem_of_nil|intros (? & [= <-] & ? & _); lia]
          |split; [intros [? ?]; by exists n|intros (? & [= <-] & _ & ?); done]].
Qed.

Lemma build_diff_lines_ok old new filename anns :
  Forall (line_ok anns) (build_diff_lines old new filename anns).
Proof.
  apply Forall_forall. intros l ([i r] & -> & Hin%elem_of_enumerate)%list_elem_of_fmap.
  simpl in Hin. apply build_line_ok; [by eapply raw_lines_sides, list_elem_of_lookup_2|].
  unfold highlight_hunk_lines.
  edestruct (highlight_lines_lookup) as (tokens & -> & Htok); [|exact Htok].
  rewrite list_lookup_fmap, Hin. done.
Qed.

(** ** Renames *)

Implicit Types (old_tree new_tree : FileTree) (p : PathBuf).

Record RenInv (st : RenameState) : Prop := {
  ri_old : forall p, p ∈ st.1.2 <-> p ∈ st.1.1.*1;
  ri_new : forall p, p ∈ st.2 <-> p ∈ st.1.1.*2;
  ri_old_once : NoDup st.1.1.*1;
  ri_new_once : NoDup st.1.1.*2;
}.

Lemma RenInv_init : RenInv ([], ∅, ∅).
Proof. split; simpl; try apply NoDup_nil_2; set_solver. Qed.

Lemma NoDup_snoc {A} (l : list A) x : NoDup (l ++ [x]) <-> NoDup l /\ x ∉ l.
Proof.
  rewrite NoDup_app. split.
  - intros (? & Hx & _). split; [done|]. intros Hin. apply (Hx x Hin). by apply list_elem_of_singleton.
  - intros [? Hx]. split_and!; [done| |apply NoDup_singleton].
    intros y Hy ->%list_elem_of_singleton. done.
Qed.

Lemma record_rename_inv st o n :
  RenInv st -> o ∉ st.1.2 -> n ∉ st.2 -> RenInv (record_rename st o n).
Proof.
  intros [Ho Hn Hoo Hnn] Ho' Hn'. destruct st as [[rs mo] mn]. simpl in *. split; simpl.
  - intros p. rewrite fmap_app, elem_of_app, elem_of_union, Ho. simpl.
    rewrite elem_of_singleton, list_elem_of_singleton. tauto.
  - intros p. rewrite fmap_app, elem_of_app, elem_of_union, Hn. simpl.
    rewrite elem_of_singleton, list_elem_of_singleton. tauto.
  - rewrite fmap_app. apply NoDup_snoc. split; [done|]. by rewrite <- Ho.
  - rewrite fmap_app. apply NoDup_snoc. split; [done|]. by rewrite <- Hn.
Qed.

(** After the first pass over [seen]. *)
Record Pass1 old_tree new_tree (added seen : list PathBuf) (st : RenameState) : Prop := {
  p1_inv : RenInv st;
  p1_pairs : forall o n, (o, n) ∈ st.1.1 ->
    o ∈ seen /\ n ∈ added /\ old_tree !! o = new_tree !! n;
  p1_complete : forall o n, o ∈ seen -> n ∈ added -> old_tree !! o = new_tree !! n ->
    o ∈ st.1.2 \/ n ∈ st.2;
}.

Lemma identical_pass_inv old_tree new_tree added seen st o :
  Pass1 old_tree new_tree added seen st -> o ∉ seen ->
  Pass1 old_tree new_tree added (seen ++ [o]) (identical_pass old_tree new_tree added st o).
Proof.
  intros [Hinv Hpairs Hcomp] Hnew. unfold identical_pass, same_content.
  destruct (List.find _ added) as [n|] eqn:Hf.
  - apply List.find_some in Hf as [Hn Hb]. apply list_elem_of_In in Hn.
    apply andb_true_iff in Hb as [Hb1 Hb2]. apply negb_true_iff, bool_decide_eq_false in Hb1.
    apply bool_decide_eq_true in Hb2.
    assert (o ∉ st.1.2) as Ho.
    { rewrite (ri_old _ Hinv). intros ([o' n'] & -> & Hin)%list_elem_of_fmap.
      by apply Hnew, (Hpairs _ _ Hin). }
    split.
    + by apply record_rename_inv.
    + destruct st as [[rs mo] mn]. simpl in *. intros o' n' [Hin|Hin]%elem_of_app.
      * destruct (Hpairs _ _ Hin) as (? & ? & ?). split_and!; [apply elem_of_app; by left|done|done].
      * apply list_elem_of_singleton in Hin as [= -> ->].
        split_and!; [apply elem_of_app; right; by apply list_elem_of_singleton|done|done].
    + destruct st as [[rs mo] mn]. simpl in *. intros o' n' [Hin|Hin]%elem_of_app Hn' Heq.
      * destruct (Hcomp o' n' Hin Hn' Heq); [left|right]; apply elem_of_union; by right.
      * apply list_elem_of_singleton in Hin as ->. left. apply elem_of_union. left.
        by apply elem_of_singleton.
  - split; [done|..].
    + intros o' n' Hin. destruct (Hpairs _ _ Hin) as (? & ? & ?).
      split_and!; [apply elem_of_app; by left|done|done].
    + intros o' n' [Hin|Hin]%elem_of_app Hn' Heq; [by apply Hcomp|].
      apply list_elem_of_singleton in Hin as ->.
      apply list_elem_of_In in Hn'. apply (List.find_none _ _ Hf) in Hn'.
      rewrite (bool_decide_eq_true_2 _ Heq), andb_true_r in Hn'.
      apply negb_false_iff, bool_decide_eq_true in Hn'. by right.
Qed.

Lemma identical_passes old_tree new_tree added deleted :
  NoDup deleted ->
  Pass1 old_tree new_tree added deleted
    (fold_left (identical_pass old_tree new_tree added) deleted ([], ∅, ∅)).
Proof.
  induction deleted as [|o deleted IH] using rev_ind; intros Hnd.
  - split; simpl; [apply RenInv_init|by intros o n ?%elem_of_nil|by intros o n ?%elem_of_nil].
  - apply NoDup_snoc in Hnd as [Hnd Ho]. rewrite fold_left_app. simpl.
    apply identical_pass_inv; auto.
Qed.

(** Two renames that have a path in common. *)
Definition shares (m m' : PathBuf * PathBuf) : Prop := m.1 = m'.1 \/ m.2 = m'.2.

(** After the second pass over [seen], that started in [st1]. *)
Record Pass2 (st1 : RenameState) (seen : list (Q * PathBuf * PathBuf)) (st : RenameState) : Prop := {
  p2_inv : RenInv st;
  p2_mono : forall m, m ∈ st1.1.1 -> m ∈ st.1.1;
  p2_pairs : forall m, m ∈ st.1.1 -> m ∈ st1.1.1 \/ exists r, (r, m.1, m.2) ∈ seen;
  p2_complete : forall r o n, (r, o, n) ∈ seen -> exists m, m ∈ st.1.1 /\ shares m (o, n) /\
    (m ∈ st1.1.1 \/ exists r', (r', m.1, m.2) ∈ seen /\ (r <= r')%Q);
}.

Lemma similar_pass_inv st1 seen st r o n :
  (forall m, m ∈ seen -> (r <= m.1.1)%Q) ->
  Pass2 st1 seen st -> Pass2 st1 (seen ++ [(r, o, n)]) (similar_pass st (r, o, n)).
Proof.
  intros Hmin [Hinv Hmono Hpairs Hcomp].
  assert (forall m, m ∈ seen -> m ∈ seen ++ [(r, o, n)]) as Hl
    by (intros m ?; apply elem_of_app; by left).
  assert ((r, o, n) ∈ seen ++ [(r, o, n)]) as Hlast
    by (apply elem_of_app; right; by apply list_elem_of_singleton).
  assert (forall r' o' n', (r', o', n') ∈ seen -> exists m, m ∈ st.1.1 /\ shares m (o', n') /\
    (m ∈ st1.1.1 \/ exists r'', (r'', m.1, m.2) ∈ seen ++ [(r, o, n)] /\ (r' <= r'')%Q)) as Hold.
  { intros r' o' n' (m & Hm & Hs & [?|(r'' & ? & ?)])%Hcomp; exists m; split_and!; eauto. }
  unfold similar_pass. pose proof (ri_old _ Hinv) as Ho. pose proof (ri_new _ Hinv) as Hn.
  assert (forall m, m ∈ st.1.1 -> m ∈ st1.1.1 \/ exists r', (r', m.1, m.2) ∈ seen /\ (r <= r')%Q)
    as Hbefore.
  { intros m Hm. destruct (Hpairs m Hm) as [?|[r' Hr']]; [by left|right].
    exists r'. split; [done|]. apply (Hmin _ Hr'). }
  destruct st as [[rs mo] mn]. cbn [fst snd] in *.
  destruct (bool_decide (o ∈ mo) || bool_decide (n ∈ mn)) eqn:Eb.
  - split; [done|done|..].
    + intros m [?|[r' ?]]%Hpairs; [by left|right; eauto].
    + intros r' o' n' [Hin|Hin]%elem_of_app; [by eapply Hold|].
      apply list_elem_of_singleton in Hin as [= -> -> ->].
      assert (exists m, m ∈ rs /\ shares m (o, n)) as (m & Hm & Hs).
      { apply orb_true_iff in Eb as [Eb|Eb]; apply bool_decide_eq_true in Eb.
        - apply Ho, list_elem_of_fmap in Eb as (m & -> & Hm). exists m. split; [done|by left].
        - apply Hn, list_elem_of_fmap in Eb as (m & -> & Hm). exists m. split; [done|by right]. }
      exists m. split_and!; [done|done|].
      destruct (Hbefore m Hm) as [?|(r' & ? & ?)]; [by left|right; eauto].
  - apply orb_false_iff in Eb as [E1 E2].
    apply bool_decide_eq_false in E1, E2. simpl.
    assert (forall m, m ∈ rs -> m ∈ rs ++ [(o, n)]) as Hrs
      by (intros m ?; apply elem_of_app; by left).
    split.
    + by apply (record_rename_inv (rs, mo, mn)).
    + intros m Hm. by apply Hrs, Hmono.
    + simpl. intros m [Hm|Hm]%elem_of_app.
      * destruct (Hpairs m Hm) as [?|[r' ?]]; [by left|right; eauto].
      * apply list_elem_of_singleton in Hm as ->. right. by exists r.
    + simpl. intros r' o' n' [Hin|Hin]%elem_of_app.
      * destruct (Hold _ _ _ Hin) as (m & ? & ? & ?). exists m. auto.
      * apply list_elem_of_singleton in Hin as [= -> -> ->]. exists (o, n).
        split_and!; [apply elem_of_app; right; by apply list_elem_of_singleton|by left|].
        right. exists r. split; [done|apply Qle_refl].
Qed.

Lemma sorted_by_ratio (l : list (Q * PathBuf * PathBuf)) :
  StronglySorted (fun a b => (b.1.1 <= a.1.1)%Q) (sort_by (fun a b => Qle_bool b.1.1 a.1.1) l).
Proof.
  apply Sorted_StronglySorted.
  - intros a b c Hab Hbc. by eapply Qle_trans.
  - assert (Sorted (fun a b => Qle_bool b.1.1 a.1.1 = true)
      (sort_by (fun a b => Qle_bool b.1.1 a.1.1) l)) as Hs.
    { apply sort_by_sorted. intros a b. rewrite !Qle_bool_iff.
      destruct (Qlt_le_dec a.1.1 b.1.1); [right; by apply Qlt_le_weak|by left]. }
    induction Hs as [|a l' _ IH Hhd]; [constructor|]. constructor; [done|].
    destruct Hhd; constructor. by apply Qle_bool_iff.
Qed.

Lemma similar_passes st1 matches :
  RenInv st1 -> StronglySorted (fun a b => (b.1.1 <= a.1.1)%Q) matches ->
  Pass2 st1 matches (fold_left similar_pass matches st1).
Proof.
  intros Hinv. induction matches as [|[[r o] n] matches IH] using rev_ind; intros Hs.
  - split; simpl; [done|done|by left|by intros r o n ?%elem_of_nil].
  - apply StronglySorted_snoc_inv in Hs as [Hs Hmin]. rewrite fold_left_app. simpl fold_left.
    apply similar_pass_inv; [done|auto].
Qed.

(** The similarity of two texts that makes them candidates for a rename. *)
Definition texts_alike old_tree new_tree (r : Q) (o n : PathBuf) : Prop :=
  exists s t, old_tree !! o = Some (Text s) /\ new_tree !! n = Some (Text t) /\
    r = lines_ratio s t /\ (RENAME_SIMILARITY_THRESHOLD <= r)%Q.

Lemma elem_of_similarity_matches old_tree new_tree olds news r o n :
  (r, o, n) ∈ similarity_matches old_tree new_tree olds news <->
  o ∈ olds /\ n ∈ news /\ texts_alike old_tree new_tree r o n.
Proof.
  unfold similarity_matches, texts_alike. rewrite list_elem_of_bind. split.
  - intros (o' & Hin & Ho). destruct (old_tree !! o') as [[s|]|] eqn:Eo;
      [|by apply elem_of_nil in Hin..].
    apply list_elem_of_omap in Hin as (n' & Hn & Hin).
    destruct (new_tree !! n') as [[t|]|] eqn:En; [|done..].
    destruct (Qle_bool _ _) eqn:Eq; [|done]. injection Hin as <- <- <-.
    apply Qle_bool_iff in Eq. eauto 10.
  - intros (Ho & Hn & s & t & Es & Et & -> & Hle). exists o. split; [|done]. rewrite Es.
    apply list_elem_of_omap. exists n. split; [done|]. rewrite Et.
    by rewrite (proj2 (Qle_bool_iff _ _)).
Qed.

Lemma detect_renames_spec old_tree new_tree deleted added :
  NoDup deleted -> NoDup added ->
  let renames := detect_renames old_tree new_tree deleted added in
  NoDup renames.*1 /\ NoDup renames.*2 /\
  (forall o n, (o, n) ∈ renames -> o ∈ deleted /\ n ∈ added /\
    (old_tree !! o = new_tree !! n \/ exists r, texts_alike old_tree new_tree r o n)) /\
  (forall o n, o ∈ deleted -> n ∈ added -> old_tree !! o = new_tree !! n ->
    exists m, m ∈ renames /\ shares m (o, n) /\ old_tree !! m.1 = new_tree !! m.2) /\
  (forall o n r, o ∈ deleted -> n ∈ added -> texts_alike old_tree new_tree r o n ->
    exists m, m ∈ renames /\ shares m (o, n) /\
      (old_tree !! m.1 = new_tree !! m.2 \/
       exists r', texts_alike old_tree new_tree r' m.1 m.2 /\ (r <= r')%Q)).
Proof.
  intros Hnd Hna renames.
  destruct (decide (deleted = [] \/ added = [])) as [Hnil|Hne].
  { assert (renames = []) as -> by (subst renames; destruct Hnil; subst; [done|by destruct deleted]).
    assert (forall o n, o ∈ deleted -> n ∈ added -> False) as Hno
      by (intros o n Ho Hn; destruct Hnil; subst; by eapply elem_of_nil).
    split_and!; [apply NoDup_nil_2|apply NoDup_nil_2|by intros o n ?%elem_of_nil|..];
      intros; exfalso; by eapply Hno. }
  subst renames. unfold detect_renames.
  destruct deleted as [|d0 deleted']; [tauto|]. destruct added as [|a0 added']; [tauto|].
  set (deleted := d0 :: deleted') in *. set (added := a0 :: added') in *.
  pose proof (identical_passes old_tree new_tree added deleted Hnd) as [Hinv1 Hp1 Hc1].
  set (st := fold_left (identical_pass old_tree new_tree added) deleted _) in *.
  set (olds := List.filter _ deleted). set (news := List.filter _ added).
  pose proof (similar_passes st _ Hinv1
    (sorted_by_ratio (similarity_matches old_tree new_tree olds news))) as [Hinv2 Hm2 Hp2 Hc2].
  assert (forall m, m ∈ sort_by (fun a b => Qle_bool b.1.1 a.1.1)
    (similarity_matches old_tree new_tree olds news) <->
    m ∈ similarity_matches old_tree new_tree olds news) as Hperm
    by (intros m; by rewrite sort_by_perm).
  assert (forall o n, o ∈ deleted -> n ∈ added -> o ∈ st.1.2 \/ n ∈ st.2 ->
    exists m, m ∈ st.1.1 /\ shares m (o, n) /\ old_tree !! m.1 = new_tree !! m.2) as Htaken.
  { intros o n _ _ [Ho|Hn].
    - apply (ri_old _ Hinv1), list_elem_of_fmap in Ho as ([o' n'] & -> & Hin).
      exists (o', n'). split_and!; [done|by left|]. by apply (Hp1 o' n').
    - apply (ri_new _ Hinv1), list_elem_of_fmap in Hn as ([o' n'] & -> & Hin).
      exists (o', n'). split_and!; [done|by right|]. by apply (Hp1 o' n'). }
  split_and!; [apply Hinv2|apply Hinv2|..].
  - intros o n [Hin|[r Hin]]%Hp2.
    + destruct (Hp1 o n Hin) as (? & ? & ?). auto.
    + apply Hperm, elem_of_similarity_matches in Hin as (Ho & Hn & ?).
      apply elem_of_filter_bool in Ho as [? _], Hn as [? _]. eauto.
  - intros o n Ho Hn Heq. destruct (Htaken o n Ho Hn (Hc1 o n Ho Hn Heq)) as (m & ? & ? & ?).
    exists m. auto.
  - intros o n r Ho Hn Hal.
    destruct (decide (o ∈ st.1.2 \/ n ∈ st.2)) as [Ht|Hnt].
    { destruct (Htaken o n Ho Hn Ht) as (m & ? & ? & ?). exists m. auto. }
    destruct (Hc2 r o n) as (m & Hm & Hs & Hor).
    { apply Hperm, elem_of_similarity_matches. split_and!; [..|done]; apply elem_of_filter_bool;
        (split; [done|]); apply negb_true_iff, bool_decide_eq_false; tauto. }
    exists m. split_and!; [done|done|]. destruct Hor as [Hin|(r' & Hin & Hle)].
    + left. destruct m as [o' n']. by apply (Hp1 o' n').
    + right. exists r'. split; [|done].
      by apply Hperm, elem_of_similarity_matches in Hin as (_ & _ & ?).
Qed.

(** ** Pairs of files *)

Lemma filter_partition {A} (f : A -> bool) (l : list A) :
  List.filter f l ++ List.filter (fun x => negb (f x)) l ≡ₚ l.
Proof.
  induction l as [|x l IH]; simpl; [done|]. destruct (f x); simpl.
  - by rewrite IH.
  - by rewrite <- Permutation_middle, IH.
Qed.

Lemma filter_none {A} (f : A -> bool) (l : list A) :
  (forall x, x ∈ l -> f x = false) -> List.filter f l = [].
Proof.
  induction l as [|x l IH]; intros Hall; simpl; [done|].
  rewrite (Hall x) by left. apply IH. intros y Hy. apply Hall. by right.
Qed.

Lemma NoDup_filter_bool {A} (f : A -> bool) (l : list A) : NoDup l -> NoDup (List.filter f l).
Proof. intros Hl. rewrite <- (list_fmap_id l) in Hl. apply (NoDup_fmap_filter _ f) in Hl.
  by rewrite list_fmap_id in Hl. Qed.

(** The paths of a list that are in a set, when all of the set are in the list. *)
Lemma split_renamed (l sub : list PathBuf) :
  NoDup l -> NoDup sub -> (forall p, p ∈ sub -> p ∈ l) ->
  List.filter (fun p => negb (bool_decide (p ∈ (list_to_set sub : gset PathBuf)))) l ++ sub ≡ₚ l.
Proof.
  intros Hl Hs Hsub.
  assert (List.filter (fun p => bool_decide (p ∈ (list_to_set sub : gset PathBuf))) l ≡ₚ sub) as Hp.
  { apply NoDup_Permutation; [by apply NoDup_filter_bool|done|]. intros p.
    rewrite elem_of_filter_bool, bool_decide_eq_true, elem_of_list_to_set. split; [tauto|auto]. }
  etrans; [apply Permutation_app; [done|symmetry; exact Hp]|].
  etrans; [apply Permutation_app_comm|apply filter_partition].
Qed.

Definition has (tree : FileTree) (p : PathBuf) : bool := bool_decide (is_Some (tree !! p)).

Lemma has_keys tree p : p ∈ bt_keys tree -> has tree p = true.
Proof. intros Hp%elem_of_bt_keys. by apply bool_decide_eq_true. Qed.

(** The deleted and added files that go into [detect_renames]. *)
Definition only_in (tree other : FileTree) : list PathBuf :=
  List.filter (fun p => negb (has other p)) (bt_keys tree).

Lemma elem_of_only_in tree other p :
  p ∈ only_in tree other <-> is_Some (tree !! p) /\ other !! p = None.
Proof.
  unfold only_in, has. rewrite elem_of_filter_bool, elem_of_bt_keys, negb_true_iff.
  rewrite bool_decide_eq_false. by rewrite eq_None_not_Some.
Qed.

Lemma NoDup_only_in tree other : NoDup (only_in tree other).
Proof. apply NoDup_filter_bool, NoDup_bt_keys. Qed.

Definition tree_renames (old_tree new_tree : FileTree) : list (PathBuf * PathBuf) :=
  detect_renames old_tree new_tree (only_in old_tree new_tree) (only_in new_tree old_tree).

Lemma fmap_twice {B} (g : PathBuf * PathBuf -> B) (l : list PathBuf) :
  g <$> ((fun p => (p, p)) <$> l) = (fun p => g (p, p)) <$> l.
Proof. by rewrite <- list_fmap_compose. Qed.

(** Every file of the old tree is on the old side of exactly one pair, and every file of the new
    tree on the new side of exactly one. *)
Lemma all_pairs_old old_tree new_tree :
  List.filter (has old_tree) (all_pairs old_tree new_tree).*1 ≡ₚ bt_keys old_tree.
Proof.
  unfold all_pairs. fold (has old_tree) (has new_tree).
  fold (only_in old_tree new_tree) (only_in new_tree old_tree).
  fold (tree_renames old_tree new_tree).
  rewrite !fmap_app, !fmap_twice, !list_fmap_id, !List.filter_app.
  destruct (detect_renames_spec old_tree new_tree _ _ (NoDup_only_in old_tree new_tree)
    (NoDup_only_in new_tree old_tree)) as (Hd & _ & Hin & _).
  fold (tree_renames old_tree new_tree) in *.
  assert (forall p, p ∈ (tree_renames old_tree new_tree).*1 -> p ∈ only_in old_tree new_tree) as Hsub.
  { intros p ([o n] & -> & Hp)%list_elem_of_fmap. by apply (Hin o n). }
  rewrite (filter_none _ (List.filter _ (only_in new_tree old_tree))).
  2: { intros p [Hp _]%elem_of_filter_bool. apply elem_of_only_in in Hp as [_ Hp].
       apply bool_decide_eq_false. by rewrite eq_None_not_Some in Hp. }
  rewrite (filter_all _ (List.filter (has new_tree) (bt_keys old_tree))),
    (filter_all _ (List.filter _ (only_in old_tree new_tree))),
    (filter_all _ (tree_renames old_tree new_tree).*1); cbn [app].
  - etrans; [|apply (filter_partition (has new_tree))]. apply Permutation_app_head.
    apply split_renamed; [apply NoDup_only_in|done|done].
  - intros p [Hp _]%Hsub%elem_of_only_in. by apply bool_decide_eq_true.
  - intros p [Hp _]%elem_of_filter_bool. apply elem_of_only_in in Hp as [Hp _].
    by apply bool_decide_eq_true.
  - intros p [Hp _]%elem_of_filter_bool. by apply has_keys.
Qed.

(** The files of both trees, from either side. *)
Lemma common_perm old_tree new_tree :
  List.filter (has new_tree) (bt_keys old_tree) ≡ₚ List.filter (has old_tree) (bt_keys new_tree).
Proof.
  apply NoDup_Permutation; [apply NoDup_filter_bool, NoDup_bt_keys..|].
  intros p. rewrite !elem_of_filter_bool, !elem_of_bt_keys. unfold has.
  rewrite !bool_decide_eq_true. tauto.
Qed.

Lemma all_pairs_new old_tree new_tree :
  List.filter (has new_tree) (all_pairs old_tree new_tree).*2 ≡ₚ bt_keys new_tree.
Proof.
  unfold all_pairs. fold (has old_tree) (has new_tree).
  fold (only_in old_tree new_tree) (only_in new_tree old_tree).
  fold (tree_renames old_tree new_tree).
  rewrite !fmap_app, !fmap_twice, !list_fmap_id, !List.filter_app.
  destruct (detect_renames_spec old_tree new_tree _ _ (NoDup_only_in old_tree new_tree)
    (NoDup_only_in new_tree old_tree)) as (_ & Hd & Hin & _).
  fold (tree_renames old_tree new_tree) in *.
  assert (forall p, p ∈ (tree_renames old_tree new_tree).*2 -> p ∈ only_in new_tree old_tree) as Hsub.
  { intros p ([o n] & -> & Hp)%list_elem_of_fmap. by apply (Hin o n). }
  rewrite (filter_none _ (List.filter _ (only_in old_tree new_tree))).
  2: { intros p [Hp _]%elem_of_filter_bool. apply elem_of_only_in in Hp as [_ Hp].
       apply bool_decide_eq_false. by rewrite eq_None_not_Some in Hp. }
  rewrite (filter_all _ (List.filter (has new_tree) (bt_keys old_tree))),
    (filter_all _ (List.filter _ (only_in new_tree old_tree))),
    (filter_all _ (tree_renames old_tree new_tree).*2); cbn [app].
  - etrans; [|apply (filter_partition (has old_tree))].
    apply Permutation_app; [apply common_perm|].
    apply split_renamed; [apply NoDup_only_in|done|done].
  - intros p [Hp _]%Hsub%elem_of_only_in. by apply bool_decide_eq_true.
  - intros p [Hp _]%elem_of_filter_bool. apply elem_of_only_in in Hp as [Hp _].
    by apply bool_decide_eq_true.
  - intros p [_ Hp]%elem_of_filter_bool. done.
Qed.

(** ** Whole diffs *)

(** Neither word changes nor folding touch the sides of a line. *)
Lemma same_fmap {B} (g : DiffLine -> B) ls ls' :
  (forall i, g <$> ls !! i = g <$> ls' !! i) -> g <$> ls = g <$> ls'.
Proof. intros Hg. apply list_eq. intros i. by rewrite !list_lookup_fmap. Qed.

Lemma same_omap {B} (g : DiffLine -> option B) ls ls' :
  (forall i, g <$> ls !! i = g <$> ls' !! i) -> omap g ls = omap g ls'.
Proof.
  intros Hg%same_fmap. revert ls' Hg. induction ls as [|l ls IH]; intros [|l' ls'] Hg; try done.
  simpl in Hg. injection Hg as Hl Hg. specialize (IH ls' Hg). unfold omap in *. simpl.
  rewrite Hl. destruct (g l'); congruence.
Qed.

Lemma same_lines_fmap {B} (g : DiffLine -> B) ls ls' :
  (forall l, g (erase l) = g l) -> same_lines ls ls' -> forall i, g <$> ls !! i = g <$> ls' !! i.
Proof.
  intros Hg Hs i. specialize (Hs i). destruct (ls !! i) as [l|], (ls' !! i) as [l'|]; try done.
  simpl in *. assert (erase l = erase l') as He by congruence.
  by rewrite <- (Hg l), <- (Hg l'), He.
Qed.

Lemma collapsed_fmap {B} (g : DiffLine -> B) ls ls' :
  (forall s e j l, g (hide s e j l) = g l) -> collapsed_from 0 ls ls' ->
  forall i, g <$> ls' !! i = g <$> ls !! i.
Proof.
  intros Hg Hc i. destruct (Hc i) as [(s & e & _ & _ & ->)|[_ ->]]; [|done].
  destruct (ls !! i); [|done]. simpl. by rewrite Hg.
Qed.

Definition shown (old new filename : str) (anns : list TemplateAnnotation) : option (list DiffLine) :=
  ls ← apply_word_highlighting (build_diff_lines old new filename anns);
  collapse_context_regions ls.

(** What a line keeps from when it was built: its type with the numbers of that type, and the
    annotations of its number in the new file. *)
Definition line_marked (anns : list TemplateAnnotation) (l : DiffLine) : Prop :=
  (bool_decide (is_Some (old_line_number l)), bool_decide (is_Some (new_line_number l))) =
    sides (line_type l) /\
  forall a, a ∈ line_annotations l <->
    exists n, new_line_number l = Some n /\ (0 < n)%Z /\ a ∈ anns /\ Z.of_N (ann_line a) = n.

Definition marks (l : DiffLine) : LineType * option Z * option Z * list TemplateAnnotation :=
  (line_type l, old_line_number l, new_line_number l, line_annotations l).

Lemma Forall_fmap_marks ls0 ls anns :
  marks <$> ls0 = marks <$> ls -> Forall (line_marked anns) ls0 -> Forall (line_marked anns) ls.
Proof.
  intros Hm H0f. apply Forall_lookup. intros i l Hi.
  assert (marks <$> ls0 !! i = Some (marks l)) as Hml
    by (by rewrite <- list_lookup_fmap, Hm, list_lookup_fmap, Hi).
  destruct (ls0 !! i) as [l0|] eqn:E0; [|done]. apply (inj Some) in Hml.
  pose proof (Forall_lookup_1 _ _ _ _ H0f E0) as [Hs Ha]. unfold line_marked.
  unfold marks in Hml. injection Hml as <- <- <- <-. done.
Qed.

(** Showing always succeeds, and the sides are those of the lines as they were built. *)
Lemma shown_spec old new filename anns :
  exists ls, shown old new filename anns = Some ls /\
    omap old_side ls = omap old_side (build_diff_lines old new filename anns) /\
    omap new_side ls = omap new_side (build_diff_lines old new filename anns) /\
    Forall (line_marked anns) ls.
Proof.
  set (ls0 := build_diff_lines old new filename anns).
  destruct (apply_word_highlighting_spec ls0) as (ls1 & Hw & Hsame & _).
  destruct (collapse_context_regions_spec ls1) as (ls2 & Hc & Hcol).
  exists ls2. unfold shown. fold ls0. rewrite Hw. cbn [mbind option_bind]. rewrite Hc.
  assert (forall B (g : DiffLine -> B), (forall l, g (erase l) = g l) ->
    (forall s e j l, g (hide s e j l) = g l) -> forall i, g <$> ls2 !! i = g <$> ls0 !! i) as Hg.
  { intros B g Hge Hgh i. etrans; [by apply (collapsed_fmap g ls1)|by apply same_lines_fmap]. }
  split_and!; [done|apply same_omap, Hg|apply same_omap, Hg|]; try done;
    try (intros s e j l; unfold hide; by destruct (_ =? _)).
  apply (Forall_fmap_marks ls0).
  - symmetry. apply same_fmap, Hg; [done|]. intros s e j l. unfold hide. by destruct (_ =? _).
  - eapply Forall_impl; [apply build_diff_lines_ok|]. intros l (Hs & _ & _ & _ & _ & Ha). done.
Qed.

(** A diff of two texts that aren't the same up to line endings. *)
Lemma diff_single_text old_name new_name (old new : option FileContent) before after anns :
  filenames old_name new_name old new = Some (before, after) ->
  is_Binary old = false -> is_Binary new = false ->
  normalize_line_endings (text_of old) <> normalize_line_endings (text_of new) ->
  exists ls,
    shown (normalize_line_endings (text_of old)) (normalize_line_endings (text_of new))
      new_name anns = Some ls /\
    diff_single_file_renamed old_name new_name old new anns =
      Some (Some {| filename_before := before; filename_after := after; is_binary := false;
                    lines := ls; line_ending_change := ending_change old new |}).
Proof.
  intros Hnames Hbo Hbn Hne. unfold diff_single_file_renamed.
  rewrite Hnames, Hbo, Hbn. cbn [orb]. unfold str_eqb. rewrite bool_decide_eq_false_2 by done.
  destruct (shown_spec (normalize_line_endings (text_of old))
    (normalize_line_endings (text_of new)) new_name anns) as (ls & Hls & _).
  exists ls. split; [done|]. unfold shown in Hls.
  destruct (apply_word_highlighting _) as [ls1|]; [|done]. cbn [mbind option_bind] in *.
  by rewrite Hls.
Qed.

(** Nothing is shown of a pair that has the same name and the same content, texts up to line
    endings that changed without a change of the file's kind of ending. *)
Definition unchanged (old_name new_name : str) (old new : option FileContent) : Prop :=
  filenames old_name new_name old new = None \/
  exists name, filenames old_name new_name old new = Some (name, name) /\
    if is_Binary old || is_Binary new then old = new
    else normalize_line_endings (text_of old) = normalize_line_endings (text_of new) /\
         ending_change old new = None.

Lemma diff_single_unchanged old_name new_name (old new : option FileContent) anns :
  exists o, diff_single_file_renamed old_name new_name old new anns = Some o /\
    (o = None <-> unchanged old_name new_name old new) /\
    forall d, o = Some d ->
      filenames old_name new_name old new = Some (filename_before d, filename_after d) /\
      is_binary d = is_Binary old || is_Binary new.
Proof.
  destruct (filenames old_name new_name old new) as [[before after]|] eqn:Hn.
  2: { exists None. unfold diff_single_file_renamed, unchanged. rewrite Hn. naive_solver. }
  destruct (is_Binary old || is_Binary new) eqn:Hb.
  - unfold diff_single_file_renamed, unchanged. rewrite Hn, Hb.
    destruct (bool_decide (old = new) && str_eqb before after) eqn:E; (eexists; split; [done|]).
    + apply andb_true_iff in E as [Ho Hs]. apply bool_decide_eq_true in Ho.
      apply str_eqb_spec in Hs. subst. split; [|done]. split; [|done]. intros _. right. eauto.
    + apply andb_false_iff in E. split; [|naive_solver]. split; [done|].
      intros [?|(name & [= <- <-] & Ho)]; [done|]. unfold str_eqb in E.
      rewrite !bool_decide_eq_true_2 in E by done. naive_solver.
  - destruct (decide (normalize_line_endings (text_of old) = normalize_line_endings (text_of new)))
      as [Heq|Hne].
    + unfold diff_single_file_renamed, unchanged. rewrite Hn, Hb. unfold str_eqb at 1.
      rewrite bool_decide_eq_true_2 by done.
      destruct (str_eqb before after && bool_decide (ending_change old new = None)) eqn:E;
        (eexists; split; [done|]).
      * apply andb_true_iff in E as [Hs Ho]. apply bool_decide_eq_true in Ho.
        apply str_eqb_spec in Hs. subst. split; [|done]. split; [|done]. intros _. right. eauto.
      * apply andb_false_iff in E. split; [|naive_solver]. split; [done|].
        intros [?|(name & [= <- <-] & _ & Ho)]; [done|]. unfold str_eqb in E.
        rewrite !bool_decide_eq_true_2 in E by done. naive_solver.
    + apply orb_false_iff in Hb as [Hb1 Hb2].
      destruct (diff_single_text _ _ _ _ _ _ anns Hn Hb1 Hb2 Hne) as (ls & _ & ->).
      eexists. split; [done|]. unfold unchanged. rewrite Hn, Hb1, Hb2. cbn [orb].
      split; [|naive_solver]. split; [done|]. intros [?|(name & _ & ? & _)]; done.
Qed.

(** ** Whole trees *)

Lemma mapM_total {A B} (f : A -> option B) (l : list A) :
  (forall x, is_Some (f x)) -> exists k, mapM f l = Some k /\ Forall2 (fun x y => f x = Some y) l k.
Proof.
  intros Hf. induction l as [|x l (k & Hk & Hall)]; [by exists []|].
  destruct (Hf x) as [y Hy]. exists (y :: k).
  split; [|by constructor]. simpl. by rewrite Hy, Hk.
Qed.
End compute_facts.
