(* ===== verification/DiffRenderFacts.v ===== *)
(** * Facts about rendering

    Without its tags, the HTML of a line is the escaped line. *)

From S2P Require Import Prelude RustStd WordDiff DiffLines DiffLinesFacts.
From S2P Require Import DiffRender DiffCompute DiffComputeFacts.

(** ** Text without tags *)

(** What an HTML text shows: everything outside of angle brackets. *)
Fixpoint strip (in_tag : bool) (s : str) : str :=
  match s with
  | [] => []
  | c :: s =>
      if in_tag then strip (negb (c =? 62)%N) s
      else if (c =? 60)%N then strip true s else c :: strip false s
  end.
Definition strip_tags (s : str) : str := strip false s.

(** [h] shows [t], whatever comes after it. *)
Definition renders (h t : str) : Prop := forall s, strip false (h ++ s) = t ++ strip false s.

Lemma renders_strip h t : renders h t -> strip_tags h = t.
Proof.
  intros Hr. specialize (Hr []). simpl in Hr. by rewrite !app_nil_r in Hr.
Qed.

Lemma renders_nil : renders [] [].
Proof. by intros s. Qed.

Lemma renders_app h1 t1 h2 t2 : renders h1 t1 -> renders h2 t2 -> renders (h1 ++ h2) (t1 ++ t2).
Proof. intros H1 H2 s. by rewrite <- !(assoc_L (++)), H1, H2. Qed.

Lemma renders_plain t : (forall c, c ∈ t -> c <> 60%N) -> renders t t.
Proof.
  intros Ht s. induction t as [|c t IH]; simpl; [done|].
  rewrite (proj2 (N.eqb_neq c 60)) by (apply Ht; left). f_equal. apply IH.
  intros d Hd. apply Ht. by right.
Qed.

Lemma strip_inside body s : (forall c, c ∈ body -> c <> 62%N) ->
  strip true (body ++ 62%N :: s) = strip false s.
Proof.
  intros Hb. induction body as [|c body IH]; simpl; [done|].
  rewrite (proj2 (N.eqb_neq c 62)) by (apply Hb; left). apply IH.
  intros d Hd. apply Hb. by right.
Qed.

Lemma renders_tag body : (forall c, c ∈ body -> c <> 62%N) -> renders (60%N :: body ++ [62%N]) [].
Proof.
  intros Hb s. simpl. rewrite <- (assoc_L (++)). by apply strip_inside.
Qed.

Lemma no_gt body : forallb (fun c => negb (c =? 62)%N) body = true -> forall c, c ∈ body -> c <> 62%N.
Proof.
  intros Hb c Hc%list_elem_of_In. rewrite forallb_forall in Hb. apply Hb in Hc.
  by apply negb_true_iff, N.eqb_neq in Hc.
Qed.

(** Content between two tags. *)
Lemma renders_wrapped open close h t :
  renders open [] -> renders close [] -> renders h t -> renders (open ++ h ++ close) t.
Proof.
  intros Ho Hc Hh. rewrite <- (app_nil_r t), <- (app_nil_l (t ++ [])).
  by apply renders_app, renders_app.
Qed.

(** Texts without a closing angle bracket. *)
Abbreviation no_close := (Forall (fun c => c <> 62%N)).

Lemma no_close_lit t : forallb (fun c => negb (c =? 62)%N) t = true -> no_close t.
Proof. intros Ht. apply Forall_forall. by apply no_gt. Qed.

Lemma no_close_join sep l : no_close sep -> Forall no_close l -> no_close (join sep l).
Proof.
  intros Hsep. induction 1 as [|s l Hs Hl IH]; [constructor|]. destruct l as [|s' l]; [done|].
  change (join sep (s :: s' :: l)) with (s ++ sep ++ join sep (s' :: l)).
  by apply Forall_app_2, Forall_app_2.
Qed.

Section render_facts.
Context `{Syntect, HtmlEscape}.

Lemma renders_encode a : renders (encode_text a) (encode_text a).
Proof. apply renders_plain. intros c Hc. by apply encode_text_plain in Hc as [? _]. Qed.

Lemma encode_text_nil : encode_text [] = [].
Proof.
  pose proof (encode_text_app [] []) as He. simpl in He.
  apply (f_equal length) in He. rewrite length_app in He.
  destruct (encode_text []); [done|]. simpl in He. lia.
Qed.

Lemma hex_digit_plain n : hex_digit n <> 62%N.
Proof. unfold hex_digit. destruct (N.ltb_spec n 10); lia. Qed.

Lemma hex2_plain n : no_close (hex2 n).
Proof. repeat constructor; apply hex_digit_plain. Qed.

(** A style's attributes don't end the tag they are in. *)
Lemma css_plain style : no_close (syntect_style_to_css style).
Proof.
  unfold syntect_style_to_css. destruct (foreground style) as [[[r g] b] a].
  assert (forall attr, no_close attr -> forall name, no_close name ->
    no_close (name ++ [34%N] ++ attr ++ [34%N])) as Hattr.
  { intros attr Ha name Hn. repeat apply Forall_app_2; try done; by apply no_close_lit. }
  set (style_parts := if (0 <? a)%N then _ else _).
  assert (Forall no_close style_parts) as Hs.
  { unfold style_parts. destruct (0 <? a)%N; [|constructor]. apply Forall_singleton.
    repeat apply Forall_app_2; try apply hex2_plain. by apply no_close_lit. }
  assert (forall x y z : bool, Forall no_close
    (omap (fun '(condition, class) => if condition : bool then Some class else None)
      [(x, lit "b"); (y, lit "i"); (z, lit "u")])) as Hcl.
  { intros [] [] []; simpl; repeat (apply Forall_cons; split; [by apply no_close_lit|]);
      constructor. }
  specialize (Hcl (is_bold style) (is_italic style) (is_underline style)).
  set (class_parts := omap _ _) in *.
  apply no_close_join; [by apply no_close_lit|].
  apply Forall_forall. intros attr (o & Hin & Ho)%list_elem_of_omap. simpl in Ho. subst o.
  rewrite !elem_of_cons in Hin. destruct Hin as [Hin|[Hin|Hin]]; [..|by apply elem_of_nil in Hin].
  - destruct class_parts; [done|]. apply (inj Some) in Hin as ->. apply Hattr; [|by apply no_close_lit].
    apply no_close_join; [by apply no_close_lit|done].
  - destruct style_parts; [done|]. apply (inj Some) in Hin as ->. apply Hattr; [|by apply no_close_lit].
    apply no_close_join; [by apply no_close_lit|done].
Qed.

Lemma renders_span css h t : no_close css -> renders h t -> renders (span css h) t.
Proof.
  intros Hcss Hh. unfold span. rewrite !(assoc_L (++)). rewrite <- (assoc_L (++) _ h).
  apply renders_wrapped; [| |done].
  - rewrite <- (assoc_L (++)). change (lit "<span ") with (60%N :: lit "span ").
    change (lit ">") with [62%N]. simpl app. rewrite app_comm_cons.
    apply (renders_tag (lit "span " ++ css)). intros c Hc. revert c Hc. apply Forall_forall.
    apply Forall_app_2; [by apply no_close_lit|done].
  - apply (renders_tag (lit "/span")). by apply no_gt.
Qed.

(** Text in a style. *)
Lemma renders_styled style a :
  renders (match syntect_style_to_css style with [] => encode_text a
           | _ => span (syntect_style_to_css style) (encode_text a) end) (encode_text a).
Proof.
  pose proof (css_plain style) as Hcss. destruct (syntect_style_to_css style) as [|c css];
    [apply renders_encode|]. apply renders_span; [done|apply renders_encode].
Qed.

Lemma renders_change_tags h t ty : renders h t -> renders (wrap_with_change_tags h ty) t.
Proof.
  intros Hh. destruct ty; cbn [wrap_with_change_tags apply_diff_styling]; [| |done]; apply renders_wrapped; done.
Qed.

Lemma renders_diff_styling h t ty : renders h t -> renders (apply_diff_styling h ty) t.
Proof.
  intros Hh. destruct ty; cbn [wrap_with_change_tags apply_diff_styling]; [| |done]; apply renders_wrapped; done.
Qed.

(** ** Several tokens *)

(** A change inside of a line. *)
Definition inside (content : str) (change : WordChangeSegment) : Prop :=
  exists pre post, content = pre ++ seg_text change ++ post /\ start_offset change = str_len pre /\
    end_offset change = (str_len pre + str_len (seg_text change))%N.

(** The part of the change before position [pos] of the line is done. *)
Definition rendered_to (change : WordChangeSegment) (o : N) (st : str * N) : Prop :=
  st.2 = N.max (start_offset change) (N.min (end_offset change) o) /\
  exists a b, seg_text change = a ++ b /\ (start_offset change + str_len a)%N = st.2 /\
    renders st.1 (encode_text a).

Lemma app_split_len (a1 b1 a2 b2 : str) :
  a1 ++ b1 = a2 ++ b2 -> (str_len a1 <= str_len a2)%N -> exists k, a2 = a1 ++ k /\ b1 = k ++ b2.
Proof.
  intros [k [[-> ->]|[-> ->]]]%app_eq_app Hle; [|by exists k].
  rewrite str_len_app in Hle. assert (k = []) as -> by (apply str_len_nil_inv; lia).
  exists []. by rewrite !app_nil_r.
Qed.

(** A position of the line between two characters, if it is in the change, is between two
    characters of the change. *)
Lemma inside_boundary content change a b :
  inside content change -> content = a ++ b ->
  (start_offset change <= str_len a <= end_offset change)%N ->
  exists c d, seg_text change = c ++ d /\ (start_offset change + str_len c)%N = str_len a.
Proof.
  intros (pre & post & Hc & Hs & He) Hab Hr. rewrite Hc in Hab.
  destruct (app_split_len pre (seg_text change ++ post) a b Hab) as (k & -> & Hk); [lia|].
  rewrite str_len_app in Hr |- *. symmetry in Hk.
  destruct (app_split_len k b (seg_text change) post Hk) as (d & Hd & _); [lia|].
  exists k, d. split; [done|lia].
Qed.

Lemma render_token_step content change D t R tok st :
  inside content change -> content = D ++ t ++ R ->
  tok_start tok = str_len D -> tok_end tok = (str_len D + str_len t)%N ->
  rendered_to change (str_len D) st ->
  rendered_to change (str_len D + str_len t) (render_token change st tok).
Proof.
  intros Hin Hc Hts Hte [Hpos (a & b & Hab & Ha & Hr)]. destruct st as [h pos].
  cbn [fst snd] in *. unfold render_token. rewrite Hts, Hte.
  assert (start_offset change <= end_offset change)%N as Hse
    by (destruct Hin as (? & ? & _ & -> & ->); lia).
  destruct (N.ltb_spec (N.max pos (str_len D)) (N.min (end_offset change) (str_len D + str_len t)))
    as [Hlt|Hge].
  2: { split; [simpl; lia|]. exists a, b. simpl. done. }
  set (e := N.min (end_offset change) (str_len D + str_len t)) in *.
  assert (exists c d, seg_text change = c ++ d /\ (start_offset change + str_len c)%N = e) as
    (c & d & Hcd & Hce).
  { destruct (N.min_spec (end_offset change) (str_len D + str_len t)) as [[_ Hm]|[_ Hm]];
      fold e in Hm; rewrite Hm.
    - exists (seg_text change), []. split; [by rewrite app_nil_r|].
      destruct Hin as (? & ? & _ & -> & ->). done.
    - rewrite <- str_len_app. apply (inside_boundary content _ _ R); [done| |].
      + by rewrite <- (assoc_L (++)).
      + rewrite str_len_app. lia. }
  pose proof Hab as Hab'. rewrite Hcd in Hab'. symmetry in Hab'.
  destruct (app_split_len a b c d Hab') as (k & -> & ->); [lia|].
  rewrite str_len_app in Hce.
  replace (N.max pos (str_len D) - start_offset change)%N with (str_len a) by lia.
  replace (e - start_offset change)%N with (str_len a + str_len k)%N by lia.
  rewrite Hab, str_get_app. split; [simpl; lia|].
  exists (a ++ k), d. cbn [fst snd]. split; [by rewrite <- (assoc_L (++))|].
  split; [rewrite str_len_app; lia|]. rewrite encode_text_app.
  pose proof (renders_styled (tok_style tok) k) as Hk.
  destruct (syntect_style_to_css (tok_style tok)); by apply renders_app.
Qed.

Lemma render_tokens content change tokens D st :
  inside content change -> content = D ++ concat (tok_text <$> tokens) ->
  tokens_laid (str_len D) tokens -> rendered_to change (str_len D) st ->
  rendered_to change (str_len content) (fold_left (render_token change) tokens st).
Proof.
  intros Hin. revert D st. induction tokens as [|t tokens IH]; intros D st Hc Hl Hst; simpl in *.
  - by rewrite Hc, app_nil_r.
  - destruct Hl as (Hs & He & Hl). rewrite He in Hl.
    apply (IH (D ++ tok_text t)).
    + by rewrite <- (assoc_L (++)).
    + by rewrite str_len_app.
    + rewrite str_len_app. eapply (render_token_step content change D _ _ t); try done.
Qed.

(** Tokens outside of the change do nothing. *)
Lemma render_filtered change tokens st :
  (start_offset change <= st.2 <= end_offset change)%N ->
  fold_left (render_token change) (List.filter (overlapping change) tokens) st =
    fold_left (render_token change) tokens st.
Proof.
  revert st. induction tokens as [|t tokens IH]; intros [h pos] Hpos; simpl in *; [done|].
  assert (start_offset change <= (render_token change (h, pos) t).2 <= end_offset change)%N as Hnext.
  { unfold render_token. destruct (N.ltb_spec (N.max pos (tok_start t)) (N.min (end_offset change) (tok_end t)));
      simpl; lia. }
  destruct (overlapping change t) eqn:E; [by apply IH|].
  assert (render_token change (h, pos) t = (h, pos)) as Heq.
  { unfold render_token, overlapping in *.
    rewrite (proj2 (N.ltb_ge _ _)); [done|]. apply andb_false_iff in E.
    destruct E as [E|E]; apply N.ltb_ge in E; lia. }
  change (fold_left (render_token change) (List.filter (overlapping change) tokens) (h, pos) =
    fold_left (render_token change) tokens (render_token change (h, pos) t)).
  rewrite Heq. by apply IH.
Qed.

Lemma render_change content change tokens :
  inside content change -> tokens_of content tokens ->
  renders (render_word_change_with_syntax tokens change) (encode_text (seg_text change)).
Proof.
  intros Hin [Htext Hlaid]. unfold render_word_change_with_syntax. apply renders_change_tags.
  assert (rendered_to change (str_len content)
    (fold_left (render_token change) (List.filter (overlapping change) tokens)
      ([], start_offset change))) as [Hpos (a & b & Hab & Ha & Hr)].
  { pose proof Hin as (pre & post & _ & Hs & He).
    rewrite render_filtered by (simpl; lia). apply (render_tokens content change tokens []); try done.
    split; [simpl; lia|]. exists [], (seg_text change). split_and!; [done|simpl; lia|].
    rewrite encode_text_nil. apply renders_nil. }
  destruct (List.filter (overlapping change) tokens) as [|t1 [|t2 ts]].
  - apply renders_encode.
  - apply (renders_styled (tok_style t1) (seg_text change)).
  - unfold render_multi_token_segment. destruct (fold_left _ _ _) as [h pos]. simpl in *.
    destruct Hin as (pre & post & Hc & Hs & He).
    assert (end_offset change <= str_len content)%N as Hle
      by (rewrite Hc, !str_len_app, He; lia).
    rewrite (proj2 (N.ltb_ge _ _)) by lia.
    assert (b = []) as -> by (apply str_len_nil_inv; rewrite Hab, str_len_app in He; lia).
    rewrite app_nil_r in Hab. by rewrite Hab.
Qed.

Lemma merge_renders content changes tokens pre :
  tokens_of content tokens -> content = pre ++ texts changes -> laid_out (str_len pre) changes ->
  renders (merge_syntax_and_word_highlighting tokens changes) (encode_text (texts changes)).
Proof.
  intros Htok. unfold merge_syntax_and_word_highlighting, texts.
  revert pre. induction changes as [|c changes IH]; intros pre Hc Hl; simpl in *.
  - rewrite encode_text_nil. apply renders_nil.
  - destruct Hl as (Hs & He & Hl). rewrite encode_text_app. apply renders_app.
    + apply (render_change content); [|done]. by exists pre, (concat (seg_text <$> changes)).
    + apply (IH (pre ++ seg_text c)).
      * by rewrite <- (assoc_L (++)).
      * by rewrite str_len_app, <- He.
Qed.

(** ** Lines without word changes *)

(** What an accumulator shows once it is flushed. *)
Definition acc_renders (acc : StyleAccumulator) (t : str) : Prop :=
  no_close (last_style acc) /\
  exists t1 t2, t = t1 ++ t2 /\ renders (html acc) (encode_text t1) /\
    accumulated_text acc = encode_text t2.

Lemma flush_renders acc t : acc_renders acc t -> renders (html (flush acc)) (encode_text t).
Proof.
  intros (Hstyle & t1 & t2 & -> & H1 & H2). rewrite encode_text_app. unfold flush. rewrite H2.
  pose proof (renders_encode t2) as He.
  destruct (encode_text t2) as [|c e]; [by rewrite app_nil_r|]. cbn [html].
  apply renders_app; [done|]. destruct (last_style acc); [done|]. by apply renders_span.
Qed.

Lemma process_style_text_renders acc t p :
  acc_renders acc t -> acc_renders (process_style_text acc p) (t ++ p.2).
Proof.
  intros Hacc. pose proof (flush_renders _ _ Hacc) as Hflush.
  destruct Hacc as (Hstyle & t1 & t2 & -> & H1 & H2). unfold process_style_text.
  destruct (str_eqb _ _).
  - split; [done|]. exists t1, (t2 ++ p.2). simpl.
    split_and!; [by rewrite (assoc_L (++))|done|]. by rewrite H2, encode_text_app.
  - split; [apply css_plain|]. by exists (t1 ++ t2), p.2.
Qed.

Lemma process_style_text_pairs_renders pairs :
  renders (process_style_text_pairs pairs) (encode_text (concat (snd <$> pairs))).
Proof.
  apply flush_renders.
  assert (forall acc t, acc_renders acc t ->
    acc_renders (fold_left process_style_text pairs acc) (t ++ concat (snd <$> pairs))) as Hgen.
  { induction pairs as [|p pairs IH]; intros acc t Hacc; simpl; [by rewrite app_nil_r|].
    rewrite (assoc_L (++)). by apply IH, process_style_text_renders. }
  apply (Hgen _ []). split; [constructor|]. exists [], []. simpl. rewrite encode_text_nil.
  split_and!; [done|apply renders_nil|done].
Qed.

(** The word changes of a line, if it has any, are the line, cut. *)
Definition changes_ok (l : DiffLine) : Prop :=
  match word_changes l with
  | Some segs => texts segs = raw_content l /\ laid_out 0 segs
  | None => True
  end.

Lemma html_content_renders l :
  tokens_of (raw_content l) (syntax_tokens l) -> changes_ok l ->
  renders (html_content l) (encode_text (raw_content l)).
Proof.
  intros Htok Hch. unfold html_content, changes_ok in *. destruct (word_changes l) as [segs|].
  - destruct Hch as [Ht Hl]. pose proof (merge_renders (raw_content l) segs (syntax_tokens l) []
      Htok) as Hm. rewrite Ht in Hm. by apply Hm.
  - apply renders_diff_styling. destruct Htok as [Htext _].
    pose proof (process_style_text_pairs_renders
      ((fun t => (tok_style t, tok_text t)) <$> syntax_tokens l)) as Hp.
    rewrite <- list_fmap_compose in Hp. rewrite <- Htext. exact Hp.
Qed.
End render_facts.

(** ** The lines of a shown diff *)

Section shown_facts.
Context `{Syntect, Strsim, Similar, TextDiff}.

Definition line_shown (l : DiffLine) : Prop :=
  tokens_of (raw_content l) (syntax_tokens l) /\ changes_ok l.

Lemma line_shown_changes l segs :
  line_shown l -> texts segs = raw_content l -> laid_out 0 segs ->
  line_shown (with_word_changes segs l).
Proof. intros [Htok _] Ht Hl. split; [done|]. by split. Qed.

Lemma line_shown_hide s e j l : line_shown l -> line_shown (hide s e j l).
Proof. intros [Htok Hch]. unfold hide. by destruct (_ =? _). Qed.

Lemma shown_lines old new filename anns ls :
  shown old new filename anns = Some ls -> Forall line_shown ls.
Proof.
  unfold shown. set (ls0 := build_diff_lines old new filename anns).
  assert (forall i l, ls0 !! i = Some l -> line_shown l) as Hbase.
  { intros i l Hi%list_elem_of_lookup_2.
    pose proof (build_diff_lines_ok old new filename anns) as Hok. rewrite Forall_forall in Hok.
    destruct (Hok l Hi) as (_ & Htok & Hw & _). split; [done|]. unfold changes_ok. by rewrite Hw. }
  destruct (apply_word_highlighting_spec ls0) as (ls1 & -> & _ & Hls1).
  assert (forall i l, ls1 !! i = Some l -> line_shown l) as Hword.
  { intros i l Hi. destruct (Hls1 i) as (Ho & Hn & Hu & [[a Ha]|[[d Hd]|Hnone]]).
    - rewrite (Ho a Ha) in Hi. destruct (ls0 !! i) as [l0|] eqn:E0; [|done].
      apply (inj Some) in Hi as <-.
      destruct (highlight_word_diff_sides (content_at ls0 i) (content_at ls0 a)
        MAX_WORD_DIFF_LINE_LENGTH) as [(Ht & Hl & _) _].
      apply line_shown_changes; [by apply (Hbase i)|etrans; [exact Ht|unfold content_at; by rewrite E0]|done].
    - rewrite (Hn d Hd) in Hi. destruct (ls0 !! i) as [l0|] eqn:E0; [|done].
      apply (inj Some) in Hi as <-.
      destruct (highlight_word_diff_sides (content_at ls0 d) (content_at ls0 i)
        MAX_WORD_DIFF_LINE_LENGTH) as [_ (Ht & Hl & _)].
      apply line_shown_changes; [by apply (Hbase i)|etrans; [exact Ht|unfold content_at; by rewrite E0]|done].
    - rewrite (Hu Hnone) in Hi. by apply (Hbase i). }
  cbn [mbind option_bind].
  destruct (collapse_context_regions_spec ls1) as (ls2 & -> & Hls2). intros [= <-].
  apply Forall_lookup. intros i l Hi. destruct (Hls2 i) as [(s & e & _ & _ & He)|[_ He]];
    rewrite He in Hi; [|by apply (Hword i)].
  destruct (ls1 !! i) as [l1|] eqn:E1; [|done]. apply (inj Some) in Hi as <-.
  apply line_shown_hide. by apply (Hword i).
Qed.
End shown_facts.
