(* ===== verification/DiffProps.v ===== *)
(** * Properties of the diff viewer (crate [apdiff-viewer])

    Concrete versions of the libraries, for the witnesses, and the theorems about unpacking
    apworlds, comparing trees, files, lines and words, and rendering. *)

From Stdlib Require Import QArith.
From S2P Require Import Prelude RustStd Ord WordDiff Apworld DiffLines.
From S2P Require Import DiffRender DiffCompute DiffLinesFacts DiffComputeFacts DiffRenderFacts.
#[local] Open Scope nat_scope.

(** ** Concrete libraries *)

(** The common prefix is equal, then everything old is deleted and everything new inserted. *)
Fixpoint prefix_diff (old new : list str) : list (ChangeTag * str) :=
  match old, new with
  | o :: old', n :: new' =>
      if decide (o = n) then (TEqual, o) :: prefix_diff old' new'
      else ((fun p => (TDelete, p)) <$> old) ++ ((fun p => (TInsert, p)) <$> new)
  | _, _ => ((fun p => (TDelete, p)) <$> old) ++ ((fun p => (TInsert, p)) <$> new)
  end.

Lemma old_part_replace old new :
  old_part (((fun p => (TDelete, p)) <$> old) ++ ((fun p => (TInsert, p)) <$> new)) = old.
Proof.
  unfold old_part. induction old as [|o old IH]; simpl; [by induction new|]. f_equal. exact IH.
Qed.

Lemma new_part_replace old new :
  new_part (((fun p => (TDelete, p)) <$> old) ++ ((fun p => (TInsert, p)) <$> new)) = new.
Proof.
  unfold new_part. induction old as [|o old IH]; simpl; [|exact IH].
  induction new as [|n new IH]; simpl; [done|]. f_equal. exact IH.
Qed.

Lemma prefix_diff_old old new : old_part (prefix_diff old new) = old.
Proof.
  revert new. induction old as [|o old IH]; intros [|n new];
    [done|apply (old_part_replace [])|apply (old_part_replace _ [])|]. simpl.
  case_decide; [|apply (old_part_replace (o :: old) (n :: new))].
  unfold old_part in *. simpl. f_equal. apply IH.
Qed.

Lemma prefix_diff_new old new : new_part (prefix_diff old new) = new.
Proof.
  revert new. induction old as [|o old IH]; intros [|n new];
    [done|apply (new_part_replace [])|apply (new_part_replace _ [])|]. simpl.
  case_decide; [|apply (new_part_replace (o :: old) (n :: new))].
  unfold new_part in *. simpl. subst. f_equal. apply IH.
Qed.

Definition ex_similar : Similar :=
  {| diff_slices := prefix_diff; diff_slices_old := prefix_diff_old;
     diff_slices_new := prefix_diff_new |}.

(** The lines of a text, with their line breaks. *)
Fixpoint lines_of (s : str) : list str :=
  match s with
  | [] => []
  | c :: s =>
      if (c =? LF)%N then [c] :: lines_of s
      else match lines_of s with l :: ls => (c :: l) :: ls | [] => [[c]] end
  end.

Lemma concat_lines_of s : concat (lines_of s) = s.
Proof.
  induction s as [|c s IH]; [done|]. cbn [lines_of]. destruct (c =? LF)%N.
  - simpl. by rewrite IH.
  - destruct (lines_of s) as [|l ls]; simpl in *; by rewrite <- IH.
Qed.

Definition ex_diff_lines (old new : str) : list (ChangeTag * str) :=
  prefix_diff (lines_of old) (lines_of new).

Lemma ex_diff_lines_old old new : concat (old_part (ex_diff_lines old new)) = old.
Proof. unfold ex_diff_lines. rewrite prefix_diff_old. apply concat_lines_of. Qed.
Lemma ex_diff_lines_new old new : concat (new_part (ex_diff_lines old new)) = new.
Proof. unfold ex_diff_lines. rewrite prefix_diff_new. apply concat_lines_of. Qed.

(** Texts that start alike are three quarters the same. *)
Definition ex_text_diff : TextDiff :=
  {| diff_lines := ex_diff_lines;
     lines_ratio := fun s t => if decide (head s = head t) then 3 # 4 else 0%Q;
     diff_lines_old := ex_diff_lines_old; diff_lines_new := ex_diff_lines_new |}.

Fixpoint mismatches (s t : str) : N :=
  match s, t with
  | c :: s, d :: t => (if (c =? d)%N then 0 else 1) + mismatches s t
  | _, _ => N.of_nat (length s + length t)
  end.
Definition ex_strsim : Strsim := {| levenshtein := mismatches |}.

Definition ex_syntect : Syntect :=
  {| SyntectStyle := (N * N * N) * N; foreground := id; is_bold := fun _ => true;
     is_italic := fun _ => false; is_underline := fun _ => false; plain_style := id;
     SyntaxReference := unit; ParseState := unit; HighlightState := list str; ScopeOps := unit;
     find_syntax_for_file := fun _ => None; find_syntax_plain_text := tt;
     ParseState_new := id; HighlightState_new := id; state_path := id;
     parse_line := fun s _ => (Some tt, s);
     highlight_iterator := fun st _ line => ([((1, 2, 3, 4)%N, take 2 line); ((0, 0, 0, 0)%N, drop 2 line)], st);
     highlight_iterator_text := fun _ _ line =>
       eq_trans (f_equal (app (take 2 line)) (app_nil_r (drop 2 line))) (take_drop 2 line) |}.

Definition escape_char (c : char) : str :=
  if (c =? 60)%N then lit "&lt;" else if (c =? 62)%N then lit "&gt;"
  else if (c =? 38)%N then lit "&amp;" else [c].

Lemma escape_plain (a : str) c : c ∈ a ≫= escape_char -> c <> 60%N /\ c <> 62%N.
Proof.
  intros (d & Hc & _)%list_elem_of_bind. unfold escape_char in Hc.
  destruct (N.eqb_spec d 60); [|destruct (N.eqb_spec d 62); [|destruct (N.eqb_spec d 38)]].
  - revert c Hc. apply Forall_forall. by repeat constructor.
  - revert c Hc. apply Forall_forall. by repeat constructor.
  - revert c Hc. apply Forall_forall. by repeat constructor.
  - by apply list_elem_of_singleton in Hc as ->.
Qed.

Definition ex_html : HtmlEscape :=
  {| encode_text := fun s => s ≫= escape_char;
     encode_text_app := fun a b => bind_app escape_char a b; encode_text_plain := escape_plain |}.

Lemma omap_length_le {A B} (f : A -> option B) (l : list A) : length (omap f l) <= length l.
Proof.
  unfold omap. induction l as [|x l IH]; simpl; [done|]. destruct (f x); simpl; lia.
Qed.

(** ** Words *)

(** [split_into_words] cuts a line into pieces that are not empty, each all whitespace or
    without whitespace, that alternate and that put together are the line. *)
Theorem split_into_words_exact (text : str) :
  concat (split_into_words text) = text /\ alternating (split_into_words text).
Proof. split; [apply split_into_words_concat|apply split_into_words_alternating]. Qed.

(** the segments of either side of a word diff are that side's line cut into consecutive
    pieces with the right byte offsets; the old side has only deletions, the new side only
    insertions, and after consolidation there is at most one of them on each side. *)
Theorem word_diff_covers_lines `{Similar} (old_line new_line : str) (max : N) :
  let r := highlight_word_diff_structured old_line new_line max in
  side_of WDelete old_line (old_changes r) /\ side_of WInsert new_line (new_changes r).
Proof. apply highlight_word_diff_sides. Qed.

Lemma word_diff_covers_lines_witness :
  let r := @highlight_word_diff_structured ex_similar (lit "a b c") (lit "a x c") 100 in
  side_of WDelete (lit "a b c") (old_changes r) /\ side_of WInsert (lit "a x c") (new_changes r).
Proof. exact (@word_diff_covers_lines ex_similar (lit "a b c") (lit "a x c") 100). Defined.

(** on a side with changes of one type, [consolidate_consecutive_changes] makes one segment out
    of everything from the first to the last change, unchanged words between them included, and
    leaves the segments before and after as they are; a side without changes stays the same. *)
Theorem consolidation_exact (t : WordChangeType) (l : list WordChangeSegment)
    (Ht : t <> WEqual)
    (Hl : Forall (fun s => change_type s = t \/ change_type s = WEqual) l) :
  Forall is_equal l /\ consolidate_consecutive_changes l = l \/
  exists pre x mid post y,
    l = pre ++ (x :: mid) ++ post /\ Forall is_equal pre /\ Forall is_equal post /\
    change_type x = t /\ last (x :: mid) = Some y /\ change_type y = t /\
    consolidate_consecutive_changes l =
      pre ++ create_segment (texts (x :: mid)) t (start_offset x) :: post.
Proof.
  destruct (one_side_split t l Ht Hl) as [He|(pre & x & mid & post & -> & Hpre & Hpost & Hx & y & Hy & Hty)].
  - left. split; [done|]. by apply consolidate_all_equal.
  - right. exists pre, x, mid, post, y. split_and!; try done.
    apply consolidate_one_side; eauto.
Qed.

(** Two deletions with a word between them that stays become one deletion. *)
Definition ex_segments : list WordChangeSegment :=
  [create_segment (lit "a") WDelete 0; create_segment (lit " b ") WEqual 1;
   create_segment (lit "c") WDelete 4].

Lemma consolidation_exact_witness :
  consolidate_consecutive_changes ex_segments = [create_segment (lit "a b c") WDelete 0] /\
  exists r, consolidate_consecutive_changes ex_segments = r /\
   (Forall is_equal ex_segments /\ r = ex_segments \/ exists pre x mid post y,
      ex_segments = pre ++ (x :: mid) ++ post /\ Forall is_equal pre /\ Forall is_equal post /\
      change_type x = WDelete /\ last (x :: mid) = Some y /\ change_type y = WDelete /\
      r = pre ++ create_segment (texts (x :: mid)) WDelete (start_offset x) :: post).
Proof.
  split; [vm_compute; reflexivity|]. eexists. split; [reflexivity|].
  apply (consolidation_exact WDelete ex_segments); [discriminate|].
  constructor; [by left|]. constructor; [by right|]. constructor; [by left|constructor].
Defined.

(** ** Lines *)

(** [LineEnding::detect] says [None] without line breaks, [LF] when no line break has a
    carriage return before it, [CRLF] when all have one, and [Mixed] when some have one and some
    have none. *)
Theorem line_ending_exact (text : str) :
  (detect text = NoEnding <-> forall i, ~ lf_at text i) /\
  (detect text = Lf <-> ~ (forall i, ~ lf_at text i) /\ forall i, ~ crlf_at text i) /\
  (detect text = Crlf <-> ~ (forall i, ~ lf_at text i) /\ forall i, lf_at text i -> crlf_at text i) /\
  (detect text = Mixed <->
     ~ (forall i, ~ crlf_at text i) /\ ~ (forall i, lf_at text i -> crlf_at text i)).
Proof.
  assert (crlfs false text = 0 <-> forall i, ~ crlf_at text i) as Hcz.
  { rewrite crlfs_zero. by setoid_rewrite crlf_after_false. }
  assert (crlfs false text = lfs text <-> forall i, lf_at text i -> crlf_at text i) as Hca.
  { rewrite crlfs_all. by setoid_rewrite crlf_after_false. }
  rewrite <- Hca, <- Hcz, <- lfs_zero, detect_counts. pose proof (crlfs_le false text).
  destruct (Nat.eqb_spec (lfs text) 0), (Nat.eqb_spec (crlfs false text) 0),
    (Nat.eqb_spec (crlfs false text) (lfs text)); split_and!; split; intros; try done; lia.
Qed.

(** [apply_word_highlighting] succeeds; it compares a deleted with an added line word by word
    exactly when they are matched inside of a block (a maximal run of deleted lines and the added
    lines right after it), puts the old side of their comparison on the deleted and the new side
    on the added line, and leaves every other line as it is. *)
Theorem word_changes_exact `{Syntect, Strsim, Similar} (ls : list DiffLine) :
  exists ls', apply_word_highlighting ls = Some ls' /\
    (forall d a, matched ls d a -> ty_at ls d = Some LDelete /\ ty_at ls a = Some LAdd) /\
    forall i,
      (exists a, matched ls i a /\
         ls' !! i = with_word_changes (old_changes (pair_diff ls i a)) <$> ls !! i) \/
      (exists d, matched ls d i /\
         ls' !! i = with_word_changes (new_changes (pair_diff ls d i)) <$> ls !! i) \/
      ((forall j, ~ matched ls i j /\ ~ matched ls j i) /\ ls' !! i = ls !! i).
Proof.
  destruct (apply_word_highlighting_spec ls) as (ls' & Hrun & _ & Hi).
  exists ls'. split; [done|]. split.
  - intros d a (b & Hb & Hm). destruct (block_matches_in _ _ _ _ Hb Hm).
    split; by apply (block_types ls b).
  - intros i. destruct (Hi i) as (Ho & Hn & Hu & [[a Ha]|[[d Hd]|Hnone]]); eauto 10.
Qed.

(** in a block, each deleted and each added line is matched at most once, only lines that are
    compared and similar enough (lengths within a factor of two, similarity above a quarter) are
    matched, and two such lines that aren't matched to each other lose to a match of one of them
    that is at least as similar. *)
Theorem best_matches_exact `{Syntect, Strsim} (ls : list DiffLine) (dels adds : list nat)
    (Hdels : NoDup dels) (Hadds : NoDup adds) :
  let ms := find_best_line_matches ls dels adds in
  NoDup ms.*1 /\ NoDup ms.*2 /\
  (forall d a, (d, a) ∈ ms -> alike ls d a /\ exists i j,
     dels !! i = Some d /\ adds !! j = Some a /\ compared dels adds i j) /\
  (forall i j d a, dels !! i = Some d -> adds !! j = Some a -> compared dels adds i j ->
     alike ls d a -> exists m, m ∈ ms /\ (m.1 = d \/ m.2 = a) /\
       (line_similarity ls d a <= line_similarity ls m.1 m.2)%Q).
Proof. by apply best_matches_spec. Qed.

(** [collapse_context_regions] succeeds; in every maximal run of more than twenty context lines
    it hides all but the first and last three, the first hidden line saying how many there are,
    and it changes no other line. *)
Theorem context_folded_exact `{Syntect} (ls : list DiffLine) :
  exists ls', collapse_context_regions ls = Some ls' /\ forall j,
    (exists s e, hidden ls j s e /\ ls' !! j = hide s e j <$> ls !! j) \/
    ((forall s e, ~ hidden ls j s e) /\ ls' !! j = ls !! j).
Proof.
  destruct (collapse_context_regions_spec ls) as (ls' & Hrun & Hj). exists ls'.
  split; [done|]. intros j. destruct (Hj j) as [(s & e & _ & ? & ?)|[Hnone ?]]; [eauto 6|].
  right. split; [|done]. intros s e. apply Hnone. lia.
Qed.

(** C8: the HTML of every line of a diff, without its tags, is the escaped text of the line,
    whatever the syntax highlighter and the word diff cut it into. *)
Theorem html_shows_lines `{Syntect, Strsim, Similar, TextDiff, HtmlEscape}
    (old new filename : str) (anns : list TemplateAnnotation) :
  exists ls, shown old new filename anns = Some ls /\
    Forall (fun l => strip_tags (html_content l) = encode_text (raw_content l)) ls.
Proof.
  destruct (shown_spec old new filename anns) as (ls & Hls & _). exists ls. split; [done|].
  eapply Forall_impl; [by eapply shown_lines|]. intros l [Htok Hch].
  by apply renders_strip, html_content_renders.
Qed.

(** ** Files *)


(** a pair of files gives a diff unless there is neither file, or both have the same name and
    the same content: the same bytes for binary files, and for texts the same text up to line
    endings without a change of their kind. *)
Theorem file_diff_unless_unchanged `{Syntect, Strsim, Similar, TextDiff}
    (old_name new_name : str) (old new : option FileContent) (anns : list TemplateAnnotation) :
  exists o, diff_single_file_renamed old_name new_name old new anns = Some o /\
    (o = None <-> unchanged old_name new_name old new) /\
    forall d, o = Some d ->
      filenames old_name new_name old new = Some (filename_before d, filename_after d) /\
      is_binary d = is_Binary old || is_Binary new.
Proof. apply diff_single_unchanged. Qed.

(** ** Trees *)

(** renames pair each deleted and each added file at most once, with the same content or texts
    that are at least half alike.  A deleted and an added file with the same content are paired
    unless one of them is in such a pair already, and two texts that are alike unless one of them
    is in a pair of identical or at least as similar files. *)
Theorem renames_exact `{TextDiff} (old_tree new_tree : FileTree) (deleted added : list PathBuf)
    (Hdeleted : NoDup deleted) (Hadded : NoDup added) :
  let renames := detect_renames old_tree new_tree deleted added in
  NoDup renames.*1 /\ NoDup renames.*2 /\
  (forall o n, (o, n) ∈ renames -> o ∈ deleted /\ n ∈ added /\
    (old_tree !! o = new_tree !! n \/ exists r, texts_alike old_tree new_tree r o n)) /\
  (forall o n, o ∈ deleted -> n ∈ added -> old_tree !! o = new_tree !! n ->
    exists m, m ∈ renames /\ shares m (o, n) /\ old_tree !! m.1 = new_tree !! m.2) /\
  (forall o n r, o ∈ deleted -> n ∈ added -> texts_alike old_tree new_tree r o n ->
    exists m, m ∈ renames /\ shares m (o, n) /\
      (old_tree !! m.1 = new_tree !! m.2 \/
       exists r', texts_alike old_tree new_tree r' m.1 m.2 /\ (r <= r')%Q)).
Proof. by apply detect_renames_spec. Qed.

(** C11: comparing two trees succeeds, whatever order the parallel workers finish in: every file of
    the old tree is on the old side of exactly one pair and every file of the new tree on the new
    side of exactly one, the result has the diff of each pair that has one, and it is sorted by the
    name after the change. *)
Theorem tree_diff_exact `{Syntect, Strsim, Similar, TextDiff}
    (shuffle : list FileDiff -> list FileDiff) (old_tree new_tree : FileTree)
    (anns : gmap str (list Annotations)) (Hshuffle : forall l, shuffle l ≡ₚ l) :
  exists result diffs,
    compute_file_tree_diff shuffle old_tree new_tree anns = Some result /\
    List.filter (has old_tree) (all_pairs old_tree new_tree).*1 ≡ₚ bt_keys old_tree /\
    List.filter (has new_tree) (all_pairs old_tree new_tree).*2 ≡ₚ bt_keys new_tree /\
    Forall2 (fun p o => diff_pair old_tree new_tree anns p = Some o)
      (all_pairs old_tree new_tree) diffs /\
    result ≡ₚ omap id diffs /\
    Sorted (fun a b => str_leb (filename_after a) (filename_after b) = true) result.
Proof.
  destruct (mapM_total (diff_pair old_tree new_tree anns) (all_pairs old_tree new_tree))
    as (diffs & Hdiffs & Hall).
  { intros p. unfold diff_pair. edestruct diff_single_unchanged as (o & Ho & _).
    rewrite Ho. done. }
  eexists _, diffs. unfold compute_file_tree_diff. rewrite Hdiffs. cbn [mbind option_bind].
  split_and!; [done|apply all_pairs_old|apply all_pairs_new|done|by rewrite sort_by_perm|].
  apply sort_by_sorted. intros a b. apply str_leb_total.
Qed.

(** ** Apworlds *)

(** [extract_apworld] gives a tree exactly for the archives that can be read, have at most ten
    thousand entries, only folders and files with paths that stay inside, no symlinks, no file of
    more than 10 MiB when it is unpacked, and at most 100 MiB in all; the tree has the content of
    the last file of each path. *)
Theorem extract_apworld_exact `{Zip, Sha256} (data : list N) (tree : FileTree) :
  extract_apworld data = Ok tree <->
  exists archive entries, zip_archive data = Ok archive /\
    (N.of_nat (length archive) <= MAX_ENTRY_COUNT)%N /\
    mapM accepted archive = Some entries /\
    let files := omap id entries in
    (total_bytes files <= MAX_TOTAL_SIZE)%N /\
    forall p, (tree : gmap PathBuf FileContent) !! p =
      match last (List.filter (fun f => bool_decide (f.1 = p)) files) with
      | Some f => Some (content_of f.2)
      | None => None
      end.
Proof.
  unfold extract_apworld. destruct (zip_archive data) as [archive|]; cbn [map_err].
  2: { split; [done|]. by intros (? & ? & ? & _). }
  rewrite result_bind_Ok. cbn zeta.
  destruct (N.ltb_spec MAX_ENTRY_COUNT (N.of_nat (length archive))).
  { split; [done|]. intros (? & ? & [= <-] & ? & _). lia. }
  pose proof (fun st => extract_loop archive 0 ∅ st ltac:(lia)) as Hloop. split.
  - destruct (try_fold extract_entry (0%N, ∅) archive) as [[total t]|] eqn:Hrun; [|done].
    intros [= <-]. destruct (proj1 (Hloop _) eq_refl) as (entries & Hacc & Hle & [= _ ->]).
    exists archive, entries. split_and!; [done|done|done|simpl in Hle; lia|].
    intros p. apply add_files_lookup.
  - intros (? & entries & [= <-] & _ & Hacc & Hle & Hlook).
    rewrite (proj2 (Hloop (total_bytes (omap id entries), add_files (omap id entries) ∅))).
    + simpl. f_equal. apply map_eq. intros p. rewrite Hlook. apply add_files_lookup.
    + exists entries. split; [done|]. simpl. split; [lia|done].
Qed.

(** ** Witnesses *)

Section witnesses.
#[local] Existing Instance ex_similar.
#[local] Existing Instance ex_text_diff.
#[local] Existing Instance ex_strsim.
#[local] Existing Instance ex_syntect.
#[local] Existing Instance ex_html.

Definition ex_old : FileTree :=
  {[ [lit "w"; lit "a.py"] := Text (lit "x = 1"); [lit "w"; lit "b.py"] := Text (lit "y = 2");
     [lit "w"; lit "c.bin"] := Binary [1%N] ]}.
Definition ex_new : FileTree :=
  {[ [lit "w"; lit "a.py"] := Text (lit "x = 2"); [lit "w"; lit "d.py"] := Text (lit "y = 2");
     [lit "w"; lit "c.bin"] := Binary [1%N] ]}.

Lemma renames_exact_witness :
  detect_renames ex_old ex_new [[lit "w"; lit "b.py"]] [[lit "w"; lit "d.py"]] =
    [([lit "w"; lit "b.py"], [lit "w"; lit "d.py"])] /\
  NoDup (detect_renames ex_old ex_new [[lit "w"; lit "b.py"]] [[lit "w"; lit "d.py"]]).*1.
Proof.
  split; [vm_compute; reflexivity|].
  apply (renames_exact ex_old ex_new [[lit "w"; lit "b.py"]] [[lit "w"; lit "d.py"]]);
    apply NoDup_singleton.
Defined.

Lemma tree_diff_exact_witness :
  option_map (fun ds => (fun d => (filename_before d, filename_after d)) <$> ds)
    (compute_file_tree_diff (fun l => l) ex_old ex_new ∅) =
    Some [(lit "w/a.py", lit "w/a.py"); (lit "w/b.py", lit "w/d.py")] /\
  exists result diffs,
    compute_file_tree_diff (fun l => l) ex_old ex_new ∅ = Some result /\
    Forall2 (fun p o => diff_pair ex_old ex_new ∅ p = Some o) (all_pairs ex_old ex_new) diffs /\
    result ≡ₚ omap id diffs.
Proof.
  split; [vm_compute; reflexivity|].
  destruct (tree_diff_exact (fun l => l) ex_old ex_new ∅ (fun l => Permutation_refl l))
    as (result & diffs & Hrun & _ & _ & Hall & Hperm & _).
  exists result, diffs. split; [exact Hrun|]. split; [exact Hall|exact Hperm].
Defined.

(** A deleted and two added lines. *)
Definition ex_lines : list DiffLine := build_diff_lines (lit "ab cd") (lit "ab ce") (lit "f.py") [].

Lemma best_matches_exact_witness :
  find_best_line_matches ex_lines [0] [1] = [(0, 1)] /\
  NoDup (find_best_line_matches ex_lines [0] [1]).*1.
Proof.
  split; [vm_compute; reflexivity|].
  apply (best_matches_exact ex_lines [0] [1]); apply NoDup_singleton.
Defined.

Lemma word_changes_exact_witness :
  exists ls', apply_word_highlighting ex_lines = Some ls' /\
    (forall d a, matched ex_lines d a -> ty_at ex_lines d = Some LDelete /\ ty_at ex_lines a = Some LAdd).
Proof.
  destruct (word_changes_exact ex_lines) as (ls' & Hrun & Hty & _).
  exists ls'. split; [exact Hrun|exact Hty].
Defined.

Lemma html_shows_lines_witness :
  exists ls, shown (lit "a < b") (lit "a > b") (lit "f.py") [] = Some ls /\
    Forall (fun l => strip_tags (html_content l) = encode_text (raw_content l)) ls.
Proof. exact (html_shows_lines (lit "a < b") (lit "a > b") (lit "f.py") []). Defined.

Lemma file_diff_unless_unchanged_witness :
  unchanged (lit "a") (lit "a") (Some (Text (lit "x"))) (Some (Text (lit "x"))) /\
  exists o, diff_single_file_renamed (lit "a") (lit "a") (Some (Text (lit "x")))
    (Some (Text (lit "x"))) [] = Some o.
Proof.
  split.
  - right. exists (lit "a"). split; [reflexivity|]. split; vm_compute; reflexivity.
  - destruct (file_diff_unless_unchanged (lit "a") (lit "a") (Some (Text (lit "x")))
      (Some (Text (lit "x"))) []) as (o & Ho & _). exists o. exact Ho.
Defined.


Lemma context_folded_exact_witness :
  exists ls', collapse_context_regions ex_lines = Some ls' /\ ls' !! 0 = ex_lines !! 0.
Proof.
  destruct (context_folded_exact ex_lines) as (ls' & Hrun & Hj). exists ls'.
  split; [exact Hrun|]. destruct (Hj 0) as [(s & e & (_ & _ & Hr) & _)|[_ Heq]]; [|exact Heq].
  unfold CONTEXT_VISIBLE_LINES in Hr. lia.
Defined.
End witnesses.
