(* ===== verification/Yaml.v ===== *)
(** * YAML documents

    [saphyr::YamlOwned] as the tools read it: what its accessors promise, and the text that a
    scalar stands for ([review/mod.rs]).  The crate itself isn't part of the repository. *)

From S2P Require Import Prelude RustStd.

(** What a value is.  [YOther] are nulls, aliases and values that could not be read. *)
Inductive ykind : Type :=
| YBool | YInteger | YFloat | YString | YSequence | YMapping | YOther.

#[export] Instance ykind_eq_dec : EqDecision ykind.
Proof. solve_decision. Defined.

(** The accessors of a value.  [floating_text] is [as_floating_point] followed by [to_string];
    [as_mapping] lists the entries in the order of their iterator; [mapping_update] is what a
    change through [as_mapping_get_mut] does, [mapping_insert] what [insert] with a text as key
    does; [load_from_str] gives the documents of a text. *)
Class YamlOps (Y : Type) : Type := {
  as_bool : Y -> option bool;
  as_integer : Y -> option Z;
  floating_text : Y -> option str;
  as_str : Y -> option str;
  as_sequence : Y -> option (list Y);
  as_mapping : Y -> option (list (Y * Y));
  as_mapping_get : Y -> str -> option Y;
  yaml_eqb : Y -> Y -> bool;
  of_integer : Z -> Y;
  mapping_update : Y -> str -> (Y -> Y) -> Y;
  mapping_insert : Y -> str -> Y -> Y;
  load_from_str : str -> result unit (list Y);
  yaml_kind : Y -> ykind;
  yaml_size : Y -> nat;
}.

(** What the documentation of the crate says about them: a value is of one kind, integers are
    [i64], values are finite trees, and what was put into a mapping is found there. *)
Class YamlLaws (Y : Type) {YO : YamlOps Y} : Prop := {
  as_bool_kind y b : as_bool y = Some b -> yaml_kind y = YBool;
  as_integer_kind y i : as_integer y = Some i -> yaml_kind y = YInteger;
  floating_text_kind y s : floating_text y = Some s -> yaml_kind y = YFloat;
  as_str_kind y s : as_str y = Some s -> yaml_kind y = YString;
  as_sequence_kind y l : as_sequence y = Some l -> yaml_kind y = YSequence;
  as_mapping_kind y m : as_mapping y = Some m -> yaml_kind y = YMapping;
  as_integer_range y i : as_integer y = Some i -> in_i64 i = true;
  as_mapping_get_kind y k v : as_mapping_get y k = Some v -> yaml_kind y = YMapping;
  is_mapping y : yaml_kind y = YMapping -> is_Some (as_mapping y);
  sequence_size y l x : as_sequence y = Some l -> x ∈ l -> (yaml_size x < yaml_size y)%nat;
  mapping_size y m k v : as_mapping y = Some m -> (k, v) ∈ m -> (yaml_size v < yaml_size y)%nat;
  mapping_key_size y m k v : as_mapping y = Some m -> (k, v) ∈ m -> (yaml_size k < yaml_size y)%nat;
  of_integer_spec i : in_i64 i = true -> as_integer (of_integer i) = Some i;
  mapping_update_get y k f k' :
    as_mapping_get (mapping_update y k f) k' =
      if decide (k' = k) then f <$> as_mapping_get y k else as_mapping_get y k';
  mapping_insert_get y k v k' :
    yaml_kind y = YMapping ->
    as_mapping_get (mapping_insert y k v) k' =
      if decide (k' = k) then Some v else as_mapping_get y k';
  mapping_insert_kind y k v : yaml_kind y = YMapping -> yaml_kind (mapping_insert y k v) = YMapping;
}.

Section yaml.
Context {Y : Type} {YO : YamlOps Y}.

(* src: community-ap-tools/src/review/mod.rs:58-69 yaml_value_as_string *)
Definition yaml_value_as_string (val : Y) : option str :=
  match as_str val with
  | Some s => Some s
  | None =>
      match as_bool val with
      | Some b => Some (bool_to_str b)
      | None =>
          match as_integer val with
          | Some i => Some (Z_to_str i)
          | None => None
          end
      end
  end.

Context {L : YamlLaws Y}.

Lemma integer_not_str y i : as_integer y = Some i -> as_str y = None.
Proof.
  intros Hi%as_integer_kind. destruct (as_str y) eqn:E; [|done].
  apply as_str_kind in E. congruence.
Qed.

Lemma integer_not_bool y i : as_integer y = Some i -> as_bool y = None.
Proof.
  intros Hi%as_integer_kind. destruct (as_bool y) eqn:E; [|done].
  apply as_bool_kind in E. congruence.
Qed.

Lemma integer_not_sequence y i : as_integer y = Some i -> as_sequence y = None.
Proof.
  intros Hi%as_integer_kind. destruct (as_sequence y) eqn:E; [|done].
  apply as_sequence_kind in E. congruence.
Qed.

Lemma integer_not_mapping y i : as_integer y = Some i -> as_mapping y = None.
Proof.
  intros Hi%as_integer_kind. destruct (as_mapping y) eqn:E; [|done].
  apply as_mapping_kind in E. congruence.
Qed.

Lemma mapping_not_str y m : as_mapping y = Some m -> as_str y = None.
Proof.
  intros Hi%as_mapping_kind. destruct (as_str y) eqn:E; [|done].
  apply as_str_kind in E. congruence.
Qed.

Lemma mapping_not_sequence y m : as_mapping y = Some m -> as_sequence y = None.
Proof.
  intros Hi%as_mapping_kind. destruct (as_sequence y) eqn:E; [|done].
  apply as_sequence_kind in E. congruence.
Qed.

Lemma mapping_not_scalar y m : as_mapping y = Some m -> yaml_value_as_string y = None.
Proof.
  intros Hm. pose proof (as_mapping_kind y m Hm) as Hk. unfold yaml_value_as_string.
  destruct (as_str y) eqn:E1; [apply as_str_kind in E1; congruence|].
  destruct (as_bool y) eqn:E2; [apply as_bool_kind in E2; congruence|].
  destruct (as_integer y) eqn:E3; [apply as_integer_kind in E3; congruence|]. done.
Qed.

Lemma integer_as_string y i :
  as_integer y = Some i -> yaml_value_as_string y = Some (Z_to_str i).
Proof.
  intros Hi. unfold yaml_value_as_string.
  by rewrite (integer_not_str _ _ Hi), (integer_not_bool _ _ Hi), Hi.
Qed.
End yaml.
