(* ===== verification/Review.v ===== *)
(** * Review rules

    [community-ap-tools/src/review/rules.rs], [mod.rs] and [builtin.rs]: predicates over the game
    section of a player's YAML, rules made of them, the rule that is built in, and the roles of
    reviewers. *)

From S2P Require Import Prelude RustStd Yaml.

(** ** Roles *)

(* src: community-ap-tools/src/review/mod.rs:13-21 Role *)
Inductive Role : Type := Viewer | Reviewer | RuleEditor | Editor | Moderator | Admin.

#[export] Instance Role_eq_dec : EqDecision Role.
Proof. solve_decision. Defined.

(** The derived order: that of the declaration. *)
Definition role_rank (r : Role) : nat :=
  match r with
  | Viewer => 0 | Reviewer => 1 | RuleEditor => 2 | Editor => 3 | Moderator => 4 | Admin => 5
  end.

(* src: community-ap-tools/src/review/mod.rs:24-33 Role::as_str *)
Definition role_as_str (r : Role) : str :=
  match r with
  | Viewer => lit "viewer"
  | Reviewer => lit "reviewer"
  | RuleEditor => lit "rule_editor"
  | Editor => lit "editor"
  | Moderator => lit "moderator"
  | Admin => lit "admin"
  end.

(* src: community-ap-tools/src/review/mod.rs:36-50 Role::from_str *)
Definition role_from_str (s : str) : result unit Role :=
  if str_eqb s (lit "viewer") then Ok Viewer
  else if str_eqb s (lit "reviewer") then Ok Reviewer
  else if str_eqb s (lit "rule_editor") then Ok RuleEditor
  else if str_eqb s (lit "editor") then Ok Editor
  else if str_eqb s (lit "moderator") then Ok Moderator
  else if str_eqb s (lit "admin") then Ok Admin
  else Err tt.

(** ** Rules *)

(* src: community-ap-tools/src/review/rules.rs:9-15 Severity *)
Inductive RuleSeverity : Type := SevInfo | SevWarning | SevError.

(* src: community-ap-tools/src/review/rules.rs:17-25 Outcome *)
Inductive Outcome : Type := Pass | Fail | Skipped | NotPresent | Error.

#[export] Instance Outcome_eq_dec : EqDecision Outcome.
Proof. solve_decision. Defined.

(* src: community-ap-tools/src/review/rules.rs:27-43 RuleCheck *)
Inductive RuleCheck : Type :=
| Truthy
| NotTruthy
| Equals (value : str)
| NotEquals (value : str)
| GreaterThan (value : Z)
| LessThan (value : Z)
| Range (min max : Z)
| Regex (pattern : str)
| Contains (value : str)
| NotContains (value : str)
| Count (check : RuleCheck)
| Exists
| NotExists.

(* src: community-ap-tools/src/review/rules.rs:45-65 Predicate *)
Inductive Predicate : Type :=
| Check (path : str) (check : RuleCheck)
| And (predicates : list Predicate)
| Or (predicates : list Predicate)
| Not (predicate : Predicate)
| AtLeast (count : N) (predicates : list Predicate).

(* src: community-ap-tools/src/review/rules.rs:110-117 Rule *)
Record Rule : Type := {
  rule_name_ : str;
  rule_game : option str;
  rule_when : option Predicate;
  rule_then : Predicate;
  rule_severity : RuleSeverity;
}.

(* src: community-ap-tools/src/review/rules.rs:137-144 RuleResult *)
Record RuleResult : Type := {
  rr_rule_name : str;
  rr_outcome : Outcome;
  rr_severity : RuleSeverity;
  rr_detail : option str;
}.

(* src: community-ap-tools/src/review/rules.rs:127-134 Rule::result *)
Definition rule_result (rule : Rule) (outcome : Outcome) (detail : option str) : RuleResult := {|
  rr_rule_name := rule_name_ rule;
  rr_outcome := outcome;
  rr_severity := rule_severity rule;
  rr_detail := detail;
|}.

(** What the evaluation takes from the [regex] crate; [regex_build] is [RegexBuilder] with a size
    limit. *)
Class RegexOps (R E : Type) : Type := {
  regex_new : str -> result E R;
  regex_build : N -> str -> result E R;
  is_match : R -> str -> bool;
  error_text : E -> str;
}.

(* src: community-ap-tools/src/review/rules.rs:203-203 REGEX_CACHE_MAX_ENTRIES *)
Definition REGEX_CACHE_MAX_ENTRIES : nat := 256.
(* src: community-ap-tools/src/review/rules.rs:204-204 REGEX_SIZE_LIMIT *)
Definition REGEX_SIZE_LIMIT : N := 1000000.

(** Evaluation threads the cache of regular expressions, may fail with an error, and is [None]
    where the code panics. *)
Definition M (R E A : Type) : Type := gmap str R -> option (result E A * gmap str R).

Definition m_ret {R E A} (a : A) : M R E A := fun c => Some (Ok a, c).
Definition m_bind {R E A B} (m : M R E A) (k : A -> M R E B) : M R E B := fun c =>
  match m c with
  | Some (Ok a, c) => k a c
  | Some (Err e, c) => Some (Err e, c)
  | None => None
  end.
Definition m_unreachable {R E A} : M R E A := fun _ => None.

Declare Scope review_scope.
Delimit Scope review_scope with review.
Notation "x <-- m ; k" := (m_bind m (fun x => k))
  (at level 20, m at level 100, k at level 200, right associativity) : review_scope.
#[local] Open Scope review_scope.

Section rules.
Context {Y : Type} {YO : YamlOps Y} {R E : Type} {X : RegexOps R E} {LC : Lowercase}.

(** ** Validation *)

(* src: community-ap-tools/src/review/rules.rs:68-107 Predicate::validate *)
Fixpoint validate (p : Predicate) : result str unit :=
  match p with
  | Check path check =>
      if bool_decide (trim path = []) then Err (lit "Check predicate has an empty path")
      else
        match check with
        | Regex pattern =>
            match regex_new pattern with
            | Ok _ => Ok tt
            | Err _ => Err (lit "Invalid regex pattern")
            end
        | Count inner =>
            match inner with
            | Equals _ | NotEquals _ | GreaterThan _ | LessThan _ | Range _ _ => Ok tt
            | _ => Err (lit "Count check must use a numeric comparison")
            end
        | _ => Ok tt
        end
  | And predicates | Or predicates =>
      (fix go l := match l with
                   | [] => Ok tt
                   | p :: l => _ ← validate p; go l
                   end) predicates
  | Not predicate => validate predicate
  | AtLeast count predicates =>
      if (count =? 0)%N then Err (lit "AtLeast count must be greater than 0")
      else if (N.of_nat (length predicates) <? count)%N then
        Err (lit "AtLeast count exceeds number of predicates")
      else
        (fix go l := match l with
                     | [] => Ok tt
                     | p :: l => _ ← validate p; go l
                     end) predicates
  end.

(* src: community-ap-tools/src/review/rules.rs:120-125 Rule::validate *)
Definition rule_validate (rule : Rule) : result str unit :=
  _ ← match rule_when rule with Some p => validate p | None => Ok tt end;
  validate (rule_then rule).

(** ** Scalars *)

(* src: community-ap-tools/src/review/rules.rs:146-171 is_trueish *)
Definition is_trueish (option : Y) : bool :=
  match as_bool option with
  | Some value => value
  | None =>
  match as_integer option with
  | Some value => negb (value =? 0)%Z
  | None =>
  match as_str option ≫= parse_i64 with
  | Some value => negb (value =? 0)%Z
  | None =>
  match as_str option with
  | Some value =>
      let value := to_lowercase value in
      str_eqb value (lit "true") || str_eqb value (lit "all") || str_eqb value (lit "full") ||
      starts_with (lit "random") value || starts_with (lit "enable") value
  | None => false
  end end end end.

(* src: community-ap-tools/src/review/rules.rs:173-175 yaml_value_as_string *)
Definition value_text (val : Y) : str := default [] (yaml_value_as_string val).

(* src: community-ap-tools/src/review/rules.rs:177-182 yaml_value_as_i64 *)
Definition yaml_value_as_i64 (val : Y) : option Z :=
  match as_integer val with
  | Some i => Some i
  | None => as_str val ≫= parse_i64
  end.

(* src: community-ap-tools/src/review/rules.rs:184-190 navigate_path *)
Definition navigate_path (yaml : Y) (path : str) : option Y :=
  fold_left (fun current part => c ← current; as_mapping_get c part)
    (split_on 46 path) (Some yaml).

(* src: community-ap-tools/src/review/rules.rs:196-211 cached_regex *)
Definition cached_regex (pattern : str) : M R E R := fun cache =>
  match cache !! pattern with
  | Some re => Some (Ok re, cache)
  | None =>
      match regex_build REGEX_SIZE_LIMIT pattern with
      | Err e => Some (Err e, cache)
      | Ok re =>
          let cache := if decide (REGEX_CACHE_MAX_ENTRIES <= size cache)%nat then ∅ else cache in
          Some (Ok re, <[pattern := re]> cache)
      end
  end.

(* src: community-ap-tools/src/review/rules.rs:213-231 parse_random *)
Definition parse_random (val : Y) : option (option (Z * Z)) :=
  s ← as_str val;
  if str_eqb s (lit "random") || str_eqb s (lit "random-low") ||
     str_eqb s (lit "random-middle") || str_eqb s (lit "random-high") then Some None
  else if starts_with (lit "random-range") s then
    let parts := split_on 45 s in
    if (4 <=? length parts)%nat then
      match reverse parts with
      | pb :: pa :: _ =>
          match parse_i64 pa, parse_i64 pb with
          | Some a, Some b => Some (Some (Z.min a b, Z.max a b))
          | _, _ => None
          end
      | _ => None
      end
    else None
  else None.

(* src: community-ap-tools/src/review/rules.rs:233-255 check_random *)
Definition check_random (bounds : option (Z * Z)) (check : RuleCheck) : M R E bool :=
  match bounds with
  | None => m_ret true
  | Some (min, max) =>
      match check with
      | Truthy => m_ret (negb (min =? 0)%Z || negb (max =? 0)%Z)
      | NotTruthy => m_ret ((min <=? 0)%Z && (0 <=? max)%Z)
      | Equals value =>
          m_ret (match parse_i64 value with
                 | Some v => (min <=? v)%Z && (v <=? max)%Z
                 | None => false
                 end)
      | NotEquals value =>
          m_ret (match parse_i64 value with
                 | Some v => negb (min =? max)%Z || negb (v =? min)%Z
                 | None => false
                 end)
      | GreaterThan value => m_ret (value <? max)%Z
      | LessThan value => m_ret (min <? value)%Z
      | Range rmin rmax => m_ret ((rmin <=? max)%Z && (min <=? rmax)%Z)
      | Regex _ | Contains _ => m_ret true
      | Count _ | NotContains _ => m_ret false
      | Exists | NotExists => m_unreachable
      end
  end.

(* src: community-ap-tools/src/review/rules.rs:257-266 evaluate_count_check *)
Definition evaluate_count_check (count : Z) (check : RuleCheck) : bool :=
  match check with
  | Equals value => match parse_i64 value with Some v => (count =? v)%Z | None => false end
  | NotEquals value => match parse_i64 value with Some v => negb (count =? v)%Z | None => true end
  | GreaterThan value => (value <? count)%Z
  | LessThan value => (count <? value)%Z
  | Range min max => (min <=? count)%Z && (count <=? max)%Z
  | _ => false
  end.

(** The part that [Contains] and [NotContains] share: the item is in the list, is a key that is
    switched on, or is one of the parts between commas. *)
(* src: community-ap-tools/src/review/rules.rs:287-298 check_single_value *)
Definition value_contains (val : Y) (value : str) : bool :=
  match as_sequence val with
  | Some seq => existsb (fun item => str_eqb (value_text item) value) seq
  | None =>
      match as_mapping val with
      | Some map => existsb (fun e => str_eqb (value_text e.1) value && is_trueish e.2) map
      | None => existsb (fun part => str_eqb (trim part) value) (split_on 44 (value_text val))
      end
  end.

(* src: community-ap-tools/src/review/rules.rs:268-315 check_single_value *)
Definition check_single_value (val : Y) (check : RuleCheck) : M R E bool :=
  match parse_random val with
  | Some bounds => check_random bounds check
  | None =>
      match check with
      | Truthy => m_ret (is_trueish val)
      | NotTruthy => m_ret (negb (is_trueish val))
      | Equals value => m_ret (str_eqb (value_text val) value)
      | NotEquals value => m_ret (negb (str_eqb (value_text val) value))
      | GreaterThan value =>
          m_ret (match yaml_value_as_i64 val with Some v => (value <? v)%Z | None => false end)
      | LessThan value =>
          m_ret (match yaml_value_as_i64 val with Some v => (v <? value)%Z | None => false end)
      | Range min max =>
          m_ret (match yaml_value_as_i64 val with
                 | Some v => (min <=? v)%Z && (v <=? max)%Z
                 | None => false
                 end)
      | Regex pattern =>
          re <-- cached_regex pattern; m_ret (is_match re (value_text val))
      | Contains value => m_ret (value_contains val value)
      | NotContains value => m_ret (negb (value_contains val value))
      | Count _ | Exists | NotExists => m_unreachable
      end
  end.

(** The loop over the keys of a weighted option: the first one that can be rolled and passes. *)
(* src: community-ap-tools/src/review/rules.rs:343-352 evaluate_check *)
Fixpoint check_weighted (map : list (Y * Y)) (check : RuleCheck) : M R E bool :=
  match map with
  | [] => m_ret false
  | (key, weight) :: map =>
      if (default 0%Z (as_integer weight) =? 0)%Z then check_weighted map check
      else
        b <-- check_single_value key check;
        if (b : bool) then m_ret true else check_weighted map check
  end.

Definition looks_like_weighted (map : list (Y * Y)) : bool :=
  forallb (fun e => bool_decide (is_Some (as_integer e.2))) map.

(* src: community-ap-tools/src/review/rules.rs:317-359 evaluate_check *)
Definition evaluate_check (val : Y) (check : RuleCheck) : M R E bool :=
  match check with
  | Count inner =>
      match as_sequence val with
      | Some seq => m_ret (evaluate_count_check (Z.of_nat (length seq)) inner)
      | None =>
          match as_mapping val with
          | Some map => m_ret (evaluate_count_check (Z.of_nat (length map)) inner)
          | None => m_ret false
          end
      end
  | _ =>
      match as_mapping val with
      | Some map =>
          if looks_like_weighted map && bool_decide (map <> []) then
            match check with
            | Contains _ | NotContains _ => check_single_value val check
            | _ => check_weighted map check
            end
          else check_single_value val check
      | None => check_single_value val check
      end
  end.

(* src: community-ap-tools/src/review/rules.rs:361-413 evaluate_predicate *)
Fixpoint evaluate_predicate (predicate : Predicate) (game_yaml : Y) : M R E bool :=
  match predicate with
  | Check path check =>
      match check with
      | Exists => m_ret (bool_decide (is_Some (navigate_path game_yaml path)))
      | NotExists => m_ret (bool_decide (navigate_path game_yaml path = None))
      | NotContains _ =>
          match navigate_path game_yaml path with
          | None => m_ret true
          | Some val => evaluate_check val check
          end
      | _ =>
          match navigate_path game_yaml path with
          | None => m_ret false
          | Some val => evaluate_check val check
          end
      end
  | And predicates =>
      (fix go l := match l with
                   | [] => m_ret true
                   | p :: l =>
                       b <-- evaluate_predicate p game_yaml;
                       if (b : bool) then go l else m_ret false
                   end) predicates
  | Or predicates =>
      (fix go l := match l with
                   | [] => m_ret false
                   | p :: l =>
                       b <-- evaluate_predicate p game_yaml;
                       if (b : bool) then m_ret true else go l
                   end) predicates
  | Not predicate => b <-- evaluate_predicate predicate game_yaml; m_ret (negb b)
  | AtLeast count predicates =>
      (fix go (matched : N) l :=
         match l with
         | [] => m_ret false
         | p :: l =>
             b <-- evaluate_predicate p game_yaml;
             if (b : bool) then
               if (count <=? matched + 1)%N then m_ret true else go (matched + 1)%N l
             else go matched l
         end) 0%N predicates
  end.

(** The arms of a [match] on an evaluation: its value or the text of its error. *)
Definition m_match {A} (m : M R E bool) (k : bool -> M R E A) (h : E -> A) : M R E A := fun c =>
  match m c with
  | Some (Ok b, c) => k b c
  | Some (Err e, c) => Some (Ok (h e), c)
  | None => None
  end.

(* src: community-ap-tools/src/review/rules.rs:415-451 evaluate_rule *)
Definition evaluate_rule (rule : Rule) (yaml : Y) (game_name : str) : M R E RuleResult :=
  let evaluate_then game_yaml :=
    m_match (evaluate_predicate (rule_then rule) game_yaml)
      (fun b => m_ret (rule_result rule (if b then Fail else Pass) None))
      (fun e => rule_result rule Error
                  (Some (lit "Error evaluating rule: " ++ error_text e))) in
  let evaluate_present :=
    match as_mapping_get yaml game_name with
    | None =>
        m_ret (rule_result rule NotPresent
                 (Some (lit "Game section '" ++ game_name ++ lit "' not found")))
    | Some game_yaml =>
        match rule_when rule with
        | Some when =>
            m_match (evaluate_predicate when game_yaml)
              (fun b => if b then evaluate_then game_yaml
                        else m_ret (rule_result rule Skipped None))
              (fun e => rule_result rule Error
                          (Some (lit "Error evaluating condition: " ++ error_text e)))
        | None => evaluate_then game_yaml
        end
    end in
  match rule_game rule with
  | Some game_filter =>
      if str_eqb game_filter game_name then evaluate_present
      else m_ret (rule_result rule Skipped None)
  | None => evaluate_present
  end.

(* src: community-ap-tools/src/review/rules.rs:453-458 evaluate_rules_for_yaml *)
Fixpoint evaluate_rules_for_yaml (rules : list Rule) (yaml : Y) (game_name : str)
    : M R E (list RuleResult) :=
  match rules with
  | [] => m_ret []
  | rule :: rules =>
      r <-- evaluate_rule rule yaml game_name;
      rs <-- evaluate_rules_for_yaml rules yaml game_name;
      m_ret (r :: rs)
  end.

(** ** The rule that is built in *)

(* src: community-ap-tools/src/review/builtin.rs:5-7 RoomYaml *)
Record RoomYaml : Type := { ry_player_name : str }.

(* src: community-ap-tools/src/review/builtin.rs:9-20 BuiltinRule *)
Record BuiltinRule : Type := {
  br_id : str;
  br_name : str;
  br_description : str;
  br_evaluate : Y -> str -> str -> list RoomYaml -> RuleResult;
}.

(* src: community-ap-tools/src/review/builtin.rs:128-158 check_value_for_player_names *)
Definition check_value_for_player_names (val : Y) (field_name : str) (other_names : list str)
    (violations : list str) : list str :=
  let check (v : Y) (violations : list str) :=
    match as_str v with
    | Some name =>
        if bool_decide (name ∈ other_names) then violations ++ [field_name ++ lit ": " ++ name]
        else violations
    | None => violations
    end in
  let violations := check val violations in
  let violations :=
    match as_sequence val with
    | Some seq => fold_left (fun vs item => check item vs) seq violations
    | None => violations
    end in
  match as_mapping val with
  | Some map => fold_left (fun vs e => check e.1 vs) map violations
  | None => violations
  end.

(* src: community-ap-tools/src/review/builtin.rs:116-126 check_plando_entry_for_cross_refs *)
Definition check_plando_entry_for_cross_refs (entry : Y) (other_names : list str)
    (violations : list str) : list str :=
  fold_left (fun vs field =>
    match as_mapping_get entry field with
    | Some val => check_value_for_player_names val field other_names vs
    | None => vs
    end) [lit "from_player"; lit "to_player"; lit "world"] violations.

(* src: community-ap-tools/src/review/builtin.rs:59-113 NoCrossPlando::evaluate *)
Definition no_cross_plando_evaluate (yaml : Y) (game_name player_name : str)
    (room_yamls : list RoomYaml) : RuleResult :=
  let result outcome detail := {|
    rr_rule_name := lit "No cross-player plando"; rr_outcome := outcome;
    rr_severity := SevError; rr_detail := detail |} in
  let other_names :=
    ry_player_name <$>
      List.filter (fun y => negb (str_eqb (ry_player_name y) player_name)) room_yamls in
  match as_mapping_get yaml game_name with
  | None => result Skipped None
  | Some game_section =>
      match as_mapping_get game_section (lit "plando_items") with
      | None => result Pass None
      | Some plando =>
          let violations :=
            match as_sequence plando with
            | Some seq =>
                fold_left (fun vs entry =>
                  check_plando_entry_for_cross_refs entry other_names vs) seq []
            | None => []
            end in
          if bool_decide (violations = []) then result Pass None
          else result Fail
                 (Some (lit "Plando references other players: " ++ join (lit ", ") violations))
      end
  end.

(* src: community-ap-tools/src/review/builtin.rs:44-57 NoCrossPlando *)
Definition NoCrossPlando : BuiltinRule := {|
  br_id := lit "no_cross_plando";
  br_name := lit "No cross-player plando";
  br_description :=
    lit "Checks that plando sections don't reference other players' slot names";
  br_evaluate := no_cross_plando_evaluate;
|}.

(* src: community-ap-tools/src/review/builtin.rs:22-24 builtin_rules *)
Definition builtin_rules : list BuiltinRule := [NoCrossPlando].

(* src: community-ap-tools/src/review/builtin.rs:37-42 BuiltinRuleInfo *)
Record BuiltinRuleInfo : Type := { bi_id : str; bi_name : str; bi_description : str }.

(* src: community-ap-tools/src/review/builtin.rs:26-35 builtin_rule_info *)
Definition builtin_rule_info : list BuiltinRuleInfo :=
  (fun r => {| bi_id := br_id r; bi_name := br_name r; bi_description := br_description r |})
    <$> builtin_rules.
End rules.
