(* ===== verification/ReviewFacts.v ===== *)
(** * Facts about the evaluation of review rules

    Evaluation is compared with what a predicate means: [holds] is the boolean reading of a
    predicate, without caches, errors or short cuts. *)

From Stdlib Require Import Bool.
From S2P Require Import Prelude RustStd Yaml Review.

#[local] Open Scope review_scope.

(** The texts of the roles are read back, and no other text is a role. *)
Lemma role_roundtrip s r : role_from_str s = Ok r <-> s = role_as_str r.
Proof.
  unfold role_from_str. split.
  - repeat match goal with |- context [str_eqb ?a ?b] => destruct (str_eqb a b) eqn:? end;
      reflect_bools; intros [= <-]; done.
  - intros ->. by destruct r.
Qed.

(** Induction over predicates that goes into their lists. *)
Section Predicate_induction.
Context (P : Predicate -> Prop).
Context (HCheck : forall path check, P (Check path check)).
Context (HAnd : forall ps, Forall P ps -> P (And ps)).
Context (HOr : forall ps, Forall P ps -> P (Or ps)).
Context (HNot : forall p, P p -> P (Not p)).
Context (HAtLeast : forall n ps, Forall P ps -> P (AtLeast n ps)).

Definition Predicate_rect_list : forall p, P p :=
  fix go p : P p :=
    let go_list := fix go_list l : Forall P l :=
      match l with
      | [] => Forall_nil_2 P
      | p :: l => Forall_cons_2 P p l (go p) (go_list l)
      end in
    match p with
    | Check path check => HCheck path check
    | And ps => HAnd ps (go_list ps)
    | Or ps => HOr ps (go_list ps)
    | Not p => HNot p (go p)
    | AtLeast n ps => HAtLeast n ps (go_list ps)
    end.
End Predicate_induction.

Section facts.
Context {Y : Type} {YO : YamlOps Y} {R E : Type} {X : RegexOps R E} {LC : Lowercase}.

(** ** The cache *)

(** A cache is good if it holds what compiling the patterns gives, and no more than it may. *)
Definition cache_good (c : gmap str R) : Prop :=
  (forall p re, c !! p = Some re -> regex_build REGEX_SIZE_LIMIT p = Ok re) /\
  (size c <= REGEX_CACHE_MAX_ENTRIES)%nat.

Lemma cache_good_empty : cache_good ∅.
Proof. split; [done|]. rewrite map_size_empty. unfold REGEX_CACHE_MAX_ENTRIES. lia. Qed.

(** [m] gives [r] whatever good cache it starts from, and leaves a good cache. *)
Definition gives {A} (m : M R E A) (r : result E A) : Prop :=
  forall c, cache_good c -> exists c', m c = Some (r, c') /\ cache_good c'.

Lemma gives_ret {A} (a : A) : gives (m_ret a) (Ok a).
Proof. intros c Hc. by exists c. Qed.

Lemma gives_bind {A B} (m : M R E A) (k : A -> M R E B) a r :
  gives m (Ok a) -> gives (k a) r -> gives (m_bind m k) r.
Proof.
  intros Hm Hk c Hc. unfold m_bind. destruct (Hm c Hc) as (c1 & -> & Hc1). by apply Hk.
Qed.

Lemma gives_bind_err {A B} (m : M R E A) (k : A -> M R E B) e :
  gives m (Err e) -> gives (m_bind m k) (Err e).
Proof. intros Hm c Hc. unfold m_bind. destruct (Hm c Hc) as (c1 & -> & Hc1). eauto. Qed.

Lemma gives_match {A} (m : M R E bool) (k : bool -> M R E A) h b r :
  gives m (Ok b) -> gives (k b) r -> gives (m_match m k h) r.
Proof.
  intros Hm Hk c Hc. unfold m_match. destruct (Hm c Hc) as (c1 & -> & Hc1). by apply Hk.
Qed.

Lemma gives_match_err {A} (m : M R E bool) (k : bool -> M R E A) h e :
  gives m (Err e) -> gives (m_match m k h) (Ok (h e)).
Proof. intros Hm c Hc. unfold m_match. destruct (Hm c Hc) as (c1 & -> & Hc1). eauto. Qed.

Lemma gives_unique {A} (m : M R E A) r1 r2 : gives m r1 -> gives m r2 -> r1 = r2.
Proof.
  intros H1 H2. destruct (H1 ∅ cache_good_empty) as (c1 & E1 & _).
  destruct (H2 ∅ cache_good_empty) as (c2 & E2 & _). congruence.
Qed.

Lemma cached_regex_gives p : gives (cached_regex p) (regex_build REGEX_SIZE_LIMIT p).
Proof.
  intros c [Hc Hs]. unfold cached_regex. destruct (c !! p) as [re|] eqn:Ep.
  { exists c. by rewrite (Hc _ _ Ep). }
  destruct (regex_build REGEX_SIZE_LIMIT p) as [re|e] eqn:Eb; [|by exists c].
  eexists. split; [done|]. case_decide as Hd; split.
  - intros p' re' [[<- <-]|[_ ?]]%lookup_insert_Some; done.
  - rewrite map_size_insert_None, map_size_empty by done. unfold REGEX_CACHE_MAX_ENTRIES. lia.
  - intros p' re' [[<- <-]|[_ ?]]%lookup_insert_Some; [done|by apply Hc].
  - rewrite map_size_insert_None by done. lia.
Qed.

(** ** What predicates mean *)

(** Whether an option that the game rolls between two bounds can satisfy a check. *)
Definition random_holds (bounds : option (Z * Z)) (check : RuleCheck) : bool :=
  match check_random (R := R) (E := E) bounds check ∅ with
  | Some (Ok b, _) => b
  | _ => false
  end.

(** One value and a check that is about single values. *)
Definition value_holds (check : RuleCheck) (v : Y) : bool :=
  match parse_random v with
  | Some bounds => random_holds bounds check
  | None =>
      match check with
      | Truthy => is_trueish v
      | NotTruthy => negb (is_trueish v)
      | Equals s => str_eqb (value_text v) s
      | NotEquals s => negb (str_eqb (value_text v) s)
      | GreaterThan n => from_option (fun i => n <? i)%Z false (yaml_value_as_i64 v)
      | LessThan n => from_option (fun i => i <? n)%Z false (yaml_value_as_i64 v)
      | Range lo hi =>
          from_option (fun i => (lo <=? i)%Z && (i <=? hi)%Z) false (yaml_value_as_i64 v)
      | Regex p =>
          match regex_build REGEX_SIZE_LIMIT p with
          | Ok re => is_match re (value_text v)
          | Err _ => false
          end
      | Contains s => value_contains v s
      | NotContains s => negb (value_contains v s)
      | Count _ | Exists | NotExists => false
      end
  end.

(** The keys of a weighted option that can be rolled. *)
Definition rollable (m : list (Y * Y)) : list Y :=
  (List.filter (fun e => negb (default 0%Z (as_integer e.2) =? 0)%Z) m).*1.

(** The values that a check is about: what a weighted option can be, or the value itself. *)
Definition candidates (v : Y) (check : RuleCheck) : list Y :=
  match as_mapping v, check with
  | Some m, Contains _ | Some m, NotContains _ => [v]
  | Some m, _ => if looks_like_weighted m && bool_decide (m <> []) then rollable m else [v]
  | None, _ => [v]
  end.

(** The number of items of a list or mapping. *)
Definition item_count (v : Y) : option Z :=
  match as_sequence v, as_mapping v with
  | Some l, _ => Some (Z.of_nat (length l))
  | None, Some m => Some (Z.of_nat (length m))
  | None, None => None
  end.

Definition check_holds (v : Y) (check : RuleCheck) : bool :=
  match check with
  | Exists => true
  | NotExists => false
  | Count inner => from_option (fun n => evaluate_count_check n inner) false (item_count v)
  | _ => existsb (value_holds check) (candidates v check)
  end.

(** Where the path leads nowhere, only the checks for absence hold. *)
Definition absent_holds (check : RuleCheck) : bool :=
  match check with NotExists | NotContains _ => true | _ => false end.

Fixpoint holds (p : Predicate) (y : Y) : bool :=
  match p with
  | Check path check =>
      match navigate_path y path with
      | Some v => check_holds v check
      | None => absent_holds check
      end
  | And ps => forallb (fun p => holds p y) ps
  | Or ps => existsb (fun p => holds p y) ps
  | Not p => negb (holds p y)
  | AtLeast n ps =>
      (N.max 1 n <=? N.of_nat (length (List.filter (fun p => holds p y) ps)))%N
  end.

(** The patterns of a predicate. *)
Definition check_patterns (check : RuleCheck) : list str :=
  match check with Regex pattern => [pattern] | _ => [] end.

Fixpoint patterns (p : Predicate) : list str :=
  match p with
  | Check _ check => check_patterns check
  | And ps | Or ps | AtLeast _ ps => flat_map patterns ps
  | Not p => patterns p
  end.

Definition compiles (pattern : str) : Prop :=
  is_Ok (regex_build (R := R) (E := E) REGEX_SIZE_LIMIT pattern).

(** [m] gives [b], or the error of one of the patterns [ps]. *)
Definition gives_or_err (ps : list str) (m : M R E bool) (b : bool) : Prop :=
  gives m (Ok b) \/
  exists p e, p ∈ ps /\ regex_build (R := R) REGEX_SIZE_LIMIT p = Err e /\ gives m (Err e).

Lemma goe_ret ps b : gives_or_err ps (m_ret b) b.
Proof. left. apply gives_ret. Qed.

Lemma goe_bind ps m (k : bool -> M R E bool) a b :
  gives_or_err ps m a -> gives_or_err ps (k a) b -> gives_or_err ps (m_bind m k) b.
Proof.
  intros [Hm|(p & e & Hp & He & Hm)] Hk.
  - destruct Hk as [Hk|(p & e & Hp & He & Hk)].
    + left. by eapply gives_bind.
    + right. exists p, e. split_and!; [done..|]. by eapply gives_bind.
  - right. exists p, e. split_and!; [done..|]. by apply gives_bind_err.
Qed.

Lemma goe_mono ps qs m b : ps ⊆ qs -> gives_or_err ps m b -> gives_or_err qs m b.
Proof. intros Hs [Hm|(p & e & Hp & ?)]; [by left|]. right. exists p, e. set_solver. Qed.

(** ** Checks *)

(** The checks that are about one value. *)
Definition single_check (check : RuleCheck) : bool :=
  match check with Count _ | Exists | NotExists => false | _ => true end.

Lemma value_goe check v :
  single_check check = true ->
  gives_or_err (check_patterns check) (check_single_value v check) (value_holds check v).
Proof.
  intros Hc. unfold check_single_value, value_holds.
  destruct (parse_random v) as [bounds|].
  { unfold random_holds. destruct check, bounds as [[lo hi]|]; try done; apply goe_ret. }
  destruct check; try done; try apply goe_ret.
  pose proof (cached_regex_gives pattern) as Hg.
  destruct (regex_build REGEX_SIZE_LIMIT pattern) as [re|e] eqn:Eb.
  - left. eapply gives_bind; [done|apply gives_ret].
  - right. exists pattern, e. split_and!; [set_solver|done|by apply gives_bind_err].
Qed.

Lemma weighted_goe check m :
  single_check check = true ->
  gives_or_err (check_patterns check) (check_weighted m check)
    (existsb (value_holds check) (rollable m)).
Proof.
  intros Hc. induction m as [|[key weight] m IH]; simpl; [apply goe_ret|].
  unfold rollable in *. simpl. destruct (default 0%Z (as_integer weight) =? 0)%Z; simpl; [done|].
  eapply goe_bind; [by apply value_goe|]. destruct (value_holds check key); [apply goe_ret|done].
Qed.

Lemma check_goe check v :
  match check with Exists | NotExists => False | _ => True end ->
  gives_or_err (check_patterns check) (evaluate_check v check) (check_holds v check).
Proof.
  intros Hc.
  destruct (single_check check) eqn:Hn; cycle 1.
  { destruct check; try done. simpl. unfold item_count.
    destruct (as_sequence v), (as_mapping v); apply goe_ret. }
  assert (Hone : gives_or_err (check_patterns check) (check_single_value v check)
                   (existsb (value_holds check) [v])).
  { simpl. rewrite orb_false_r. by apply value_goe. }
  assert (Hall : forall m, gives_or_err (check_patterns check) (check_weighted m check)
                   (existsb (value_holds check) (rollable m))).
  { intros m. by apply weighted_goe. }
  replace (check_holds v check) with (existsb (value_holds check) (candidates v check))
    by (by destruct check).
  unfold candidates. destruct check; try done; simpl evaluate_check;
    (destruct (as_mapping v) as [m|]; [|done]);
    destruct (looks_like_weighted m && bool_decide (m <> [])); done.
Qed.

Lemma path_goe path check y :
  gives_or_err (check_patterns check) (evaluate_predicate (Check path check) y)
    (holds (Check path check) y).
Proof.
  assert (Hv : match check with Exists | NotExists => False | _ => True end ->
    forall v, gives_or_err (check_patterns check) (evaluate_check v check) (check_holds v check)).
  { intros Hc v. by apply check_goe. }
  simpl. destruct check; simpl in *; destruct (navigate_path y path) as [v|]; simpl; auto using goe_ret.
Qed.

(** ** Predicates *)

Lemma predicate_goe p y : gives_or_err (patterns p) (evaluate_predicate p y) (holds p y).
Proof.
  induction p as [path check|ps IH|ps IH|p IH|n ps IH] using Predicate_rect_list.
  - apply path_goe.
  - simpl. induction IH as [|p ps Hp _ IH]; simpl; [apply goe_ret|].
    eapply goe_bind; [eapply goe_mono, Hp; set_solver|].
    destruct (holds p y); simpl; [|apply goe_ret]. eapply goe_mono, IH. set_solver.
  - simpl. induction IH as [|p ps Hp _ IH]; simpl; [apply goe_ret|].
    eapply goe_bind; [eapply goe_mono, Hp; set_solver|].
    destruct (holds p y); simpl; [apply goe_ret|]. eapply goe_mono, IH. set_solver.
  - simpl. eapply goe_bind; [exact IH|apply goe_ret].
  - simpl.
    cut (forall k, (N.max 1 n <=? k)%N = false \/ k = 0%N -> gives_or_err (flat_map patterns ps)
      ((fix go (matched : N) l :=
         match l with
         | [] => m_ret false
         | p :: l =>
             b <-- evaluate_predicate p y;
             if (b : bool) then
               if (n <=? matched + 1)%N then m_ret true else go (matched + 1)%N l
             else go matched l
         end) k ps)
      (N.max 1 n <=? k + N.of_nat (length (List.filter (fun p => holds p y) ps)))%N).
    { intros Hgo. apply (Hgo 0%N). by right. }
    induction IH as [|p ps Hp _ IH]; intros k Hk; rewrite N.leb_gt in Hk.
    { replace (_ <=? _)%N with false by (symmetry; apply N.leb_gt; simpl; lia). apply goe_ret. }
    eapply goe_bind; [eapply goe_mono, Hp; set_solver|]. cbn [List.filter].
    destruct (holds p y); cbn [length].
    + destruct (N.leb_spec n (k + 1)) as [Hle|Hgt].
      * replace (_ <=? _)%N with true by (symmetry; apply N.leb_le; lia). apply goe_ret.
      * rewrite Nat2N.inj_succ, <- N.add_1_l, N.add_assoc.
        eapply goe_mono, IH; [set_solver|]. left. rewrite N.leb_gt. lia.
    + eapply goe_mono, IH; [set_solver|]. by rewrite N.leb_gt.
Qed.

Lemma predicate_compiles p y :
  Forall compiles (patterns p) -> gives (evaluate_predicate p y) (Ok (holds p y)).
Proof.
  intros Hc. destruct (predicate_goe p y) as [?|(pat & e & Hp & He & _)]; [done|].
  rewrite Forall_forall in Hc. destruct (Hc _ Hp) as [re Hre]. congruence.
Qed.

Lemma predicate_result p y :
  exists r, gives (evaluate_predicate p y) r /\
    (r = Ok (holds p y) \/
     exists pat e, pat ∈ patterns p /\ regex_build (R := R) REGEX_SIZE_LIMIT pat = Err e /\ r = Err e).
Proof. destruct (predicate_goe p y) as [?|(pat & e & ? & ? & ?)]; eauto 10. Qed.

(** ** Rules *)

(** What a rule says about a game, if its patterns compile. *)
Definition rule_outcome (rule : Rule) (yaml : Y) (game_name : str) : Outcome :=
  if negb (from_option (fun g => str_eqb g game_name) true (rule_game rule)) then Skipped
  else match as_mapping_get yaml game_name with
       | None => NotPresent
       | Some section =>
           if from_option (fun p => holds p section) true (rule_when rule) then
             if holds (rule_then rule) section then Fail else Pass
           else Skipped
       end.

Definition rule_detail (rule : Rule) (yaml : Y) (game_name : str) : option str :=
  if bool_decide (rule_outcome rule yaml game_name = NotPresent) then
    Some (lit "Game section '" ++ game_name ++ lit "' not found")
  else None.

Definition rule_patterns (rule : Rule) : list str :=
  from_option patterns [] (rule_when rule) ++ patterns (rule_then rule).

Definition expected (rule : Rule) (yaml : Y) (game_name : str) : RuleResult :=
  rule_result rule (rule_outcome rule yaml game_name) (rule_detail rule yaml game_name).

(** The result for a rule that runs into a pattern that does not compile. *)
Definition rule_error (rule : Rule) (r : RuleResult) : Prop :=
  exists pat e text,
    pat ∈ rule_patterns rule /\ regex_build (R := R) REGEX_SIZE_LIMIT pat = Err e /\
    (text = lit "Error evaluating condition: " \/ text = lit "Error evaluating rule: ") /\
    r = rule_result rule Error (Some (text ++ error_text e)).

Lemma rule_gives rule yaml game_name :
  exists r, gives (evaluate_rule rule yaml game_name) (Ok r) /\
    (r = expected rule yaml game_name \/ rule_error rule r).
Proof.
  unfold evaluate_rule, expected, rule_error, rule_detail, rule_outcome, rule_patterns.
  assert (Hthen : forall section ws, exists r,
    gives (m_match (evaluate_predicate (rule_then rule) section)
      (fun b => m_ret (rule_result rule (if b then Fail else Pass) None))
      (fun e => rule_result rule Error (Some (lit "Error evaluating rule: " ++ error_text e)))) (Ok r) /\
    (r = rule_result rule (if holds (rule_then rule) section then Fail else Pass) None \/
     exists pat e text, pat ∈ ws ++ patterns (rule_then rule) /\
       regex_build (R := R) REGEX_SIZE_LIMIT pat = Err e /\
       (text = lit "Error evaluating condition: " \/ text = lit "Error evaluating rule: ") /\
       r = rule_result rule Error (Some (text ++ error_text e)))).
  { intros section ws.
    destruct (predicate_result (rule_then rule) section) as (r & Hr & [->|(pat & e & Hp & He & ->)]).
    - eexists. split; [eapply gives_match; [done|apply gives_ret]|]. by left.
    - eexists. split; [by apply gives_match_err|]. right. exists pat, e.
      eexists. split_and!; [set_solver|done|by right|done]. }
  destruct (from_option (fun g => str_eqb g game_name) true (rule_game rule)) eqn:Eg; cbn [negb].
  2: { destruct (rule_game rule) as [g|]; [|done]. simpl in Eg. rewrite Eg.
       eexists. split; [apply gives_ret|by left]. }
  assert (forall A (a b : A), match rule_game rule with
    | Some g => if str_eqb g game_name then a else b | None => a end = a) as ->.
  { intros A a b. destruct (rule_game rule); [|done]. simpl in Eg. by rewrite Eg. }
  destruct (as_mapping_get yaml game_name) as [section|].
  2: { eexists. split; [apply gives_ret|by left]. }
  destruct (rule_when rule) as [when|]; simpl.
  2: { destruct (Hthen section []) as (r & Hr & [->|Herr]); eexists; (split; [done|]); [left|by right].
       by destruct (holds (rule_then rule) section). }
  destruct (predicate_result when section) as (r & Hr & [->|(pat & e & Hp & He & ->)]).
  - destruct (holds when section).
    + destruct (Hthen section (patterns when)) as (r & Hr' & [->|Herr]); eexists;
        (split; [by eapply gives_match|]); [left|by right].
      by destruct (holds (rule_then rule) section).
    + eexists. split; [eapply gives_match; [done|apply gives_ret]|by left].
  - eexists. split; [by apply gives_match_err|]. right. exists pat, e.
    eexists. split_and!; [set_solver|done|by left|done].
Qed.

Lemma rule_compiles rule yaml game_name :
  Forall compiles (rule_patterns rule) ->
  gives (evaluate_rule rule yaml game_name) (Ok (expected rule yaml game_name)).
Proof.
  intros Hc. destruct (rule_gives rule yaml game_name) as (r & Hr & [->|(pat & e & t & Hp & He & _)]);
    [done|]. rewrite Forall_forall in Hc. destruct (Hc _ Hp) as [re Hre]. congruence.
Qed.

Lemma rules_gives rules yaml game_name :
  exists rs, gives (evaluate_rules_for_yaml rules yaml game_name) (Ok rs) /\
    Forall2 (fun rule r => gives (evaluate_rule rule yaml game_name) (Ok r)) rules rs.
Proof.
  induction rules as [|rule rules (rs & Hrs & Hall)]; simpl.
  - exists []. split; [apply gives_ret|constructor].
  - destruct (rule_gives rule yaml game_name) as (r & Hr & _). exists (r :: rs).
    split; [|by constructor]. do 2 (eapply gives_bind; [done|]). apply gives_ret.
Qed.

Lemma rules_compile rules yaml game_name :
  Forall (fun rule => Forall compiles (rule_patterns rule)) rules ->
  gives (evaluate_rules_for_yaml rules yaml game_name)
    (Ok ((fun rule => expected rule yaml game_name) <$> rules)).
Proof.
  intros Hc. destruct (rules_gives rules yaml game_name) as (rs & Hrs & Hall).
  replace (_ <$> rules) with rs; [done|]. clear Hrs. revert Hc.
  induction Hall as [|rule r rules' rs' Hr _ IH]; [done|].
  intros [Hc1 Hc2]%Forall_cons. simpl. f_equal; [|by apply IH].
  pose proof (gives_unique _ _ _ Hr (rule_compiles rule yaml game_name Hc1)). congruence.
Qed.

(** ** The built-in rule *)

(** The names among [others] that a value of a field mentions: the value, its items or its keys. *)
Definition mentioned (val : Y) (others : list str) : list str :=
  List.filter (fun name => bool_decide (name ∈ others))
    (omap as_str (val :: default [] (as_sequence val) ++ (default [] (as_mapping val)).*1)).

Definition entry_violations (others : list str) (entry : Y) : list str :=
  flat_map (fun field =>
    match as_mapping_get entry field with
    | Some val => (fun name => field ++ lit ": " ++ name) <$> mentioned val others
    | None => []
    end) [lit "from_player"; lit "to_player"; lit "world"].

Lemma fold_append {A B} (g : list B -> A -> list B) (f : A -> list B) l acc :
  (forall acc x, g acc x = acc ++ f x) -> fold_left g l acc = acc ++ flat_map f l.
Proof.
  intros Hg. revert acc. induction l as [|x l IH]; intros acc; simpl; [by rewrite app_nil_r|].
  by rewrite IH, Hg, app_assoc.
Qed.

Lemma check_value_violations val field others vs :
  check_value_for_player_names val field others vs =
  vs ++ ((fun name => field ++ lit ": " ++ name) <$> mentioned val others).
Proof.
  unfold mentioned.
  set (text := fun name : str => field ++ lit ": " ++ name).
  set (check := fun (v : Y) (vs : list str) =>
    match as_str v with
    | Some name => if bool_decide (name ∈ others) then vs ++ [field ++ lit ": " ++ name] else vs
    | None => vs
    end).
  set (known := fun name => bool_decide (name ∈ others)).
  set (one := fun v => text <$> List.filter known (from_option (fun s => [s]) [] (as_str v))).
  assert (Hone : forall v vs, check v vs = vs ++ one v).
  { intros v ws. subst check one known. simpl. destruct (as_str v) as [name|]; simpl;
      [|by rewrite app_nil_r]. by destruct (bool_decide _); simpl; [|rewrite app_nil_r]. }
  assert (Hall : forall l, text <$> List.filter known (omap as_str l) = flat_map one l).
  { induction l as [|v l IH]; [done|]. simpl. rewrite <- IH. unfold one.
    destruct (as_str v) as [name|]; simpl; [|done]. by destruct (known name). }
  rewrite Hall. cbn [flat_map]. rewrite flat_map_app.
  assert (Hseq : forall l ws, fold_left (fun ws item => check item ws) l ws = ws ++ flat_map one l).
  { intros l ws. apply fold_append. intros ? ?. apply Hone. }
  assert (Hmap : forall (m : list (Y * Y)) ws,
    fold_left (fun ws e => check e.1 ws) m ws = ws ++ flat_map one m.*1).
  { intros m ws. rewrite (fold_append _ (fun e => one e.1)) by (intros; apply Hone).
    f_equal. induction m as [|e m IH]; [done|]. simpl. by rewrite IH. }
  transitivity (
    let ws := match as_sequence val with
              | Some seq => fold_left (fun ws item => check item ws) seq (check val vs)
              | None => check val vs
              end in
    match as_mapping val with
    | Some m => fold_left (fun ws e => check e.1 ws) m ws
    | None => ws
    end); [reflexivity|]. cbv zeta. rewrite Hone.
  destruct (as_sequence val) as [l|]; [rewrite Hseq|]; (destruct (as_mapping val) as [m|]; [rewrite Hmap|]);
    simpl; by rewrite ?app_nil_r, ?app_assoc.
Qed.

Lemma plando_entry_violations entry others vs :
  check_plando_entry_for_cross_refs entry others vs = vs ++ entry_violations others entry.
Proof.
  apply fold_append. intros ws field. destruct (as_mapping_get entry field); [|by rewrite app_nil_r].
  apply check_value_violations.
Qed.
End facts.

(** ** Random values *)

Lemma parse_i64_range s z : parse_i64 s = Some z -> (i64_min <= z <= i64_max)%Z.
Proof.
  unfold parse_i64, parse_int.
  match goal with |- match ?x with _ => _ end = _ -> _ => destruct x as [sign [|d ds]] end; [done|].
  destruct (parse_digits 0 (d :: ds)) as [v|]; [|done]. cbn [mbind option_bind].
  destruct (in_i64 (sign * v)) eqn:Ev; [|done]. intros [= <-]. by apply in_i64_spec.
Qed.

Lemma Z_to_str_inj a b : in_i64 a = true -> in_i64 b = true -> Z_to_str a = Z_to_str b -> a = b.
Proof. intros Ha Hb Hab. apply (f_equal parse_i64) in Hab. rewrite !parse_i64_to_str in Hab by done. congruence. Qed.

(** The checks whose answer for a range of integers is exact: those that compare integers. *)
Definition numeric_check (check : RuleCheck) : Prop :=
  match check with
  | Truthy | NotTruthy | GreaterThan _ | LessThan _ => True
  | Range lo hi => (lo <= hi)%Z
  | Equals s | NotEquals s => exists n, in_i64 n = true /\ s = Z_to_str n
  | _ => False
  end.

Section random.
Context {Y : Type} {YO : YamlOps Y} {YL : YamlLaws Y} {R E : Type} {X : RegexOps R E} {LC : Lowercase}.

Lemma parse_random_bounds (v : Y) a b :
  parse_random v = Some (Some (a, b)) -> (a <= b /\ i64_min <= a /\ b <= i64_max)%Z.
Proof.
  unfold parse_random. destruct (as_str v) as [s|]; [|done]. cbn [mbind option_bind].
  destruct (_ || _); [done|]. destruct (starts_with _ s); [|done].
  destruct (4 <=? _); [|done]. destruct (reverse _) as [|pb [|pa ps]]; [done..|].
  destruct (parse_i64 pa) as [a'|] eqn:Ea; [|done]. destruct (parse_i64 pb) as [b'|] eqn:Eb; [|done].
  intros [= <- <-]. apply parse_i64_range in Ea, Eb. lia.
Qed.

(** What an integer satisfies. *)
Definition integer_holds (check : RuleCheck) (u : Z) : bool :=
  match check with
  | Truthy => negb (u =? 0)%Z
  | NotTruthy => (u =? 0)%Z
  | Equals s => str_eqb (Z_to_str u) s
  | NotEquals s => negb (str_eqb (Z_to_str u) s)
  | GreaterThan n => (n <? u)%Z
  | LessThan n => (u <? n)%Z
  | Range lo hi => (lo <=? u)%Z && (u <=? hi)%Z
  | _ => false
  end.

Lemma value_holds_integer check (v : Y) u :
  as_integer v = Some u -> numeric_check check ->
  value_holds (R := R) (E := E) check v = integer_holds check u.
Proof.
  intros Hu Hc. unfold value_holds, parse_random. rewrite (integer_not_str _ _ Hu). simpl.
  destruct check; try done; simpl;
    unfold is_trueish, value_text, yaml_value_as_i64;
    rewrite ?(integer_as_string _ _ Hu), ?(integer_not_bool _ _ Hu), ?Hu; try done.
  simpl. by rewrite negb_involutive.
Qed.

Lemma random_range_integer check a b :
  numeric_check check -> (a <= b)%Z -> (i64_min <= a)%Z -> (b <= i64_max)%Z ->
  random_holds (R := R) (E := E) (Some (a, b)) check = true <->
  exists u, (a <= u <= b)%Z /\ integer_holds check u = true.
Proof.
  intros Hc Hab Ha Hb. unfold random_holds, check_random, integer_holds.
  destruct check; try done; cbn [m_ret numeric_check] in *.
  - rewrite orb_true_iff, !negb_true_iff, !Z.eqb_neq. split.
    + intros [?|?]; [exists a|exists b]; rewrite negb_true_iff, Z.eqb_neq; lia.
    + intros (u & Hu & Hne). rewrite negb_true_iff, Z.eqb_neq in Hne. lia.
  - rewrite andb_true_iff, !Z.leb_le. split.
    + intros. exists 0%Z. by rewrite Z.eqb_eq.
    + intros (u & Hu & Hz). rewrite Z.eqb_eq in Hz. lia.
  - destruct Hc as (n & Hn & ->). rewrite parse_i64_to_str by done.
    rewrite andb_true_iff, !Z.leb_le. split.
    + intros. exists n. by rewrite str_eqb_spec.
    + intros (u & Hu & Heq%str_eqb_spec). apply Z_to_str_inj in Heq as ->; [done| |done].
      rewrite in_i64_spec. lia.
  - destruct Hc as (n & Hn & ->). rewrite parse_i64_to_str by done.
    assert (Hne : forall u, (a <= u <= b)%Z -> negb (str_eqb (Z_to_str u) (Z_to_str n)) = true <-> u <> n).
    { intros u Hu. rewrite negb_true_iff, <- not_true_iff_false, str_eqb_spec.
      split; [congruence|]. intros Hun Heq. apply Hun, Z_to_str_inj; [rewrite in_i64_spec; lia|done..]. }
    rewrite orb_true_iff, !negb_true_iff, !Z.eqb_neq. split.
    + intros Hor. destruct (decide (a = n)) as [->|Hd].
      * exists b. rewrite Hne; lia.
      * exists a. rewrite Hne; lia.
    + intros (u & Hu & Hun). rewrite Hne in Hun by done. lia.
  - rewrite Z.ltb_lt. split; [intros; exists b|intros (u & ? & ?)]; rewrite ?Z.ltb_lt in *; lia.
  - rewrite Z.ltb_lt. split; [intros; exists a|intros (u & ? & ?)]; rewrite ?Z.ltb_lt in *; lia.
  - rewrite andb_true_iff, !Z.leb_le. split.
    + intros. exists (Z.max a min). rewrite andb_true_iff, !Z.leb_le. lia.
    + intros (u & ? & [? ?]%andb_true_iff). rewrite !Z.leb_le in *. lia.
Qed.

(** A range is never said to differ from a text that isn't a number, although every integer does. *)
Lemma range_not_equals_text a b s :
  parse_i64 s = None ->
  random_holds (R := R) (E := E) (Some (a, b)) (NotEquals s) = false /\
  forall u, in_i64 u = true -> integer_holds (NotEquals s) u = true.
Proof.
  intros Hs. unfold random_holds, check_random. rewrite Hs. split; [done|]. intros u Hu. simpl.
  apply negb_true_iff, bool_decide_eq_false. intros <-. by rewrite parse_i64_to_str in Hs.
Qed.
End random.

(** ** Validation *)

(** What the editor accepts: paths that are not blank, patterns that compile, counts that compare
    numbers, and thresholds that can be reached. *)
Inductive acceptable {R E} {X : RegexOps R E} : Predicate -> Prop :=
| acc_check path check :
    trim path <> [] ->
    Forall (fun p => is_Ok (regex_new p)) (check_patterns check) ->
    match check with
    | Count (Equals _ | NotEquals _ | GreaterThan _ | LessThan _ | Range _ _) => True
    | Count _ => False
    | _ => True
    end ->
    acceptable (Check path check)
| acc_and ps : Forall acceptable ps -> acceptable (And ps)
| acc_or ps : Forall acceptable ps -> acceptable (Or ps)
| acc_not p : acceptable p -> acceptable (Not p)
| acc_at_least n ps :
    (0 < n <= N.of_nat (length ps))%N -> Forall acceptable ps -> acceptable (AtLeast n ps).

Section validation.
Context {R E : Type} {X : RegexOps R E} {LC : Lowercase}.

Lemma validate_all ps :
  Forall (fun p => validate p = Ok tt <-> acceptable p) ps ->
  (fix go l := match l with
               | [] => Ok tt
               | p :: l => _ ← validate p; go l
               end) ps = Ok tt <-> Forall acceptable ps.
Proof.
  induction 1 as [|p ps Hp _ IH]; [by rewrite Forall_nil|]. rewrite Forall_cons, <- Hp, <- IH.
  destruct (validate p) as [[]|]; simpl; [naive_solver|]. split; [done|by intros [? _]].
Qed.

Lemma validate_acceptable p : validate p = Ok tt <-> acceptable p.
Proof.
  induction p as [path check|ps IH|ps IH|p IH|n ps IH] using Predicate_rect_list; simpl.
  - case_bool_decide as Hp.
    { split; [done|]. by inversion 1. }
    split.
    + intros Hc. constructor; [done| |]; destruct check; simpl; try constructor; try constructor;
        try by (destruct (regex_new pattern); [eexists|]). by destruct check.
    + inversion 1 as [? ? _ Hpat Hcount| | | |]; subst. destruct check; try done.
      * apply Forall_singleton in Hpat as [re ->]. done.
      * by destruct check.
  - rewrite validate_all by done. split; [by constructor|by inversion 1].
  - rewrite validate_all by done. split; [by constructor|by inversion 1].
  - rewrite IH. split; [by constructor|by inversion 1].
  - destruct (N.eqb_spec n 0); [split; [done|inversion 1; lia]|].
    destruct (N.ltb_spec (N.of_nat (length ps)) n); [split; [done|inversion 1; lia]|].
    rewrite validate_all by done. split; [constructor; [lia|done]|by inversion 1].
Qed.
End validation.
