(* ===== verification/ReviewTriggers.v ===== *)
(** * Triggers of player options

    [community-ap-tools/src/review/triggers.rs]: a player's YAML may change options when another
    option has a value; the review looks at the YAML after these changes. *)

From S2P Require Import Prelude RustStd Yaml.

Section triggers.
Context {Y : Type} {YO : YamlOps Y}.

(** The order in which the iterator of a [HashMap] gives the entries. *)
Context (hash_iter : gmap str Y -> list (str * Y)).

(* src: community-ap-tools/src/review/triggers.rs:7-9 is_trueish_match *)
Definition is_trueish_match (option_val : Y) (trigger_result : str) : bool :=
  match yaml_value_as_string option_val with
  | Some s => str_eqb s trigger_result
  | None => false
  end.

(* src: community-ap-tools/src/review/triggers.rs:11-26 value_can_match *)
Definition value_can_match (val : Y) (trigger_result : str) : bool :=
  if is_trueish_match val trigger_result then true
  else match as_mapping val with
       | Some map =>
           existsb (fun e => negb (default 0%Z (as_integer e.2) =? 0)%Z &&
                             is_trueish_match e.1 trigger_result) map
       | None => false
       end.

(** One option that a trigger sets: the game, the key, the value, and whether it is added to
    what is there. *)
Record TriggerOption : Type := {
  to_game : str;
  to_key : str;
  to_value : Y;
  to_additive : bool;
}.

(* src: community-ap-tools/src/review/triggers.rs:28-33 Trigger *)
Record Trigger : Type := {
  option_category : str;
  option_name : str;
  option_result : str;
  options : list TriggerOption;
}.

(* src: community-ap-tools/src/review/triggers.rs:47-58 parse_trigger *)
Definition parse_option (game_name : str) (e : Y * Y) : option TriggerOption :=
  raw_key ← as_str e.1;
  let is_additive := starts_with (lit "+") raw_key in
  let key := if is_additive then drop 1 raw_key else raw_key in
  Some {| to_game := game_name; to_key := key; to_value := e.2; to_additive := is_additive |}.

(* src: community-ap-tools/src/review/triggers.rs:35-69 parse_trigger *)
Definition parse_trigger (trigger_yaml : Y) : option Trigger :=
  category ← (as_mapping_get trigger_yaml (lit "option_category") ≫= as_str);
  name ← (as_mapping_get trigger_yaml (lit "option_name") ≫= as_str);
  result_str ← (as_mapping_get trigger_yaml (lit "option_result") ≫= yaml_value_as_string);
  options_map ← as_mapping_get trigger_yaml (lit "options");
  options ←
    match as_mapping options_map with
    | Some outer =>
        (@concat _) <$> mapM (fun e : Y * Y =>
          game_name ← as_str e.1;
          match as_mapping e.2 with
          | Some inner => mapM (parse_option game_name) inner
          | None => Some []
          end) outer
    | None => Some []
    end;
  Some {| option_category := category; option_name := name; option_result := result_str;
          options := options |}.

(* src: community-ap-tools/src/review/triggers.rs:71-76 parse_triggers_from *)
Definition parse_triggers_from (val : Y) : list Trigger :=
  omap parse_trigger (default [] (as_sequence val)).

(* src: community-ap-tools/src/review/triggers.rs:78-100 collect_triggers *)
Definition collect_triggers (yaml : Y) : list Trigger :=
  match as_mapping_get yaml (lit "triggers") with
  | Some top_triggers => parse_triggers_from top_triggers
  | None => []
  end ++
  match as_mapping yaml with
  | Some map =>
      flat_map (fun e : Y * Y =>
        match as_str e.1 with
        | None => []
        | Some key_str =>
            if str_eqb key_str (lit "triggers") || str_eqb key_str (lit "game") ||
               str_eqb key_str (lit "name") || str_eqb key_str (lit "description") then []
            else match as_mapping_get e.2 (lit "triggers") with
                 | Some game_triggers => parse_triggers_from game_triggers
                 | None => []
                 end
        end) map
  | None => []
  end.

(* src: community-ap-tools/src/review/triggers.rs:165-176 yaml_values_equal *)
Definition yaml_values_equal (a b : Y) : bool :=
  match as_str a, as_str b with
  | Some a_str, Some b_str => str_eqb a_str b_str
  | _, _ =>
      match as_integer a, as_integer b with
      | Some a_int, Some b_int => (a_int =? b_int)%Z
      | _, _ =>
          match as_bool a, as_bool b with
          | Some a_bool, Some b_bool => eqb a_bool b_bool
          | _, _ => false
          end
      end
  end.

(** ** Text *)

(* src: community-ap-tools/src/review/triggers.rs:204-220 yaml_value_to_inline *)
Definition yaml_value_to_inline (val : Y) : str :=
  match as_str val with
  | Some s =>
      let escaped := replace [34%N] [92%N; 34%N] (replace [92%N] [92%N; 92%N] s) in
      [34%N] ++ escaped ++ [34%N]
  | None =>
  match as_bool val with
  | Some b => bool_to_str b
  | None =>
  match as_integer val with
  | Some i => Z_to_str i
  | None =>
  match floating_text val with
  | Some f => f
  | None => lit "null"
  end end end end.

Definition spaces (n : nat) : str := repeat 32%N n.

(** The keys of a mapping that are not texts count as the empty text. *)
Definition key_text (key : Y) : str := default [] (as_str key).

(** [fuel] bounds the depth of the value. *)
(* src: community-ap-tools/src/review/triggers.rs:274-296 serialize_yaml_entry *)
Fixpoint serialize_entry_fuel (fuel : nat) (key : str) (value : Y) (indent : nat) : list str :=
  match fuel with
  | O => []
  | S fuel =>
      let prefix := spaces indent in
      match as_mapping value with
      | Some map =>
          (prefix ++ key ++ lit ":") ::
          flat_map (fun e => serialize_entry_fuel fuel (key_text e.1) e.2 (indent + 2)) map
      | None =>
          match as_sequence value with
          | Some seq =>
              (prefix ++ key ++ lit ":") ::
              ((fun item => prefix ++ lit "  - " ++ yaml_value_to_inline item) <$> seq)
          | None => [prefix ++ key ++ lit ": " ++ yaml_value_to_inline value]
          end
      end
  end.

(* src: community-ap-tools/src/review/triggers.rs:274-296 serialize_yaml_entry *)
Definition serialize_yaml_entry (key : str) (value : Y) (indent : nat) : list str :=
  serialize_entry_fuel (S (yaml_size value)) key value indent.

(* src: community-ap-tools/src/review/triggers.rs:298-312 serialize_yaml_value *)
Definition serialize_yaml_value (value : Y) (indent : nat) : list str :=
  let prefix := spaces indent in
  match as_mapping value with
  | Some map => flat_map (fun e => serialize_yaml_entry (key_text e.1) e.2 indent) map
  | None =>
      match as_sequence value with
      | Some seq => (fun item => prefix ++ lit "- " ++ yaml_value_to_inline item) <$> seq
      | None => [prefix ++ yaml_value_to_inline value]
      end
  end.

(** [docs.pop()] is the last document. *)
Definition load_last (text : str) (fallback : Y) : Y :=
  match load_from_str text with
  | Ok docs => default fallback (last docs)
  | Err _ => fallback
  end.

(* src: community-ap-tools/src/review/triggers.rs:178-202 merge_additive *)
Definition merge_additive (existing : option Y) (addition : Y) : Y :=
  let items (v : Y) := (fun item => lit "- " ++ yaml_value_to_inline item) <$>
                         default [] (as_sequence v) in
  let before := match existing with Some e => items e | None => [] end in
  let added := match as_sequence addition with
               | Some _ => items addition
               | None => [lit "- " ++ yaml_value_to_inline addition]
               end in
  load_last (join [10%N] (before ++ added)) addition.

(* src: community-ap-tools/src/review/triggers.rs:228-232 set_yaml_values *)
Definition group_by_game (changes : gmap (str * str) Y) : gmap str (gmap str Y) :=
  map_fold (fun gk value by_game => <[gk.1 := <[gk.2 := value]> (default ∅ (by_game !! gk.1))]> by_game)
    ∅ changes.

(* src: community-ap-tools/src/review/triggers.rs:238-258 set_yaml_values *)
Definition game_lines (game_changes : gmap str Y) (top_val : Y) : list str :=
  match as_mapping top_val with
  | Some game_map =>
      let seen_keys := (fun e : Y * Y => key_text e.1) <$> game_map in
      flat_map (fun e : Y * Y =>
        serialize_yaml_entry (key_text e.1) (default e.2 (game_changes !! key_text e.1)) 2) game_map ++
      flat_map (fun e : str * Y =>
        if bool_decide (e.1 ∈ seen_keys) then [] else serialize_yaml_entry e.1 e.2 2)
        (hash_iter game_changes)
  | None => serialize_yaml_value top_val 2
  end.

(** The lines of the document with the changes. *)
(* src: community-ap-tools/src/review/triggers.rs:222-264 set_yaml_values *)
Definition set_yaml_lines (top_map : list (Y * Y)) (changes : gmap (str * str) Y) : list str :=
  let by_game := group_by_game changes in
  flat_map (fun e : Y * Y =>
    let top_key_str := key_text e.1 in
    (top_key_str ++ lit ":") ::
    match by_game !! top_key_str with
    | Some game_changes => game_lines game_changes e.2
    | None => serialize_yaml_value e.2 2
    end) top_map.

(* src: community-ap-tools/src/review/triggers.rs:222-272 set_yaml_values *)
Definition set_yaml_values (yaml : Y) (changes : gmap (str * str) Y) : Y :=
  match as_mapping yaml with
  | None => yaml
  | Some top_map => load_last (join [10%N] (set_yaml_lines top_map changes)) yaml
  end.

(** ** Rounds *)

(** What one option of a trigger that fires changes. *)
(* src: community-ap-tools/src/review/triggers.rs:133-152 resolve_triggers *)
Definition option_change (current : Y) (o : TriggerOption) : option ((str * str) * Y) :=
  game_section ← as_mapping_get current (to_game o);
  let existing := as_mapping_get game_section (to_key o) in
  if to_additive o then
    let merged := merge_additive existing (to_value o) in
    if match existing with Some e => yaml_eqb e merged | None => false end then None
    else Some ((to_game o, to_key o), merged)
  else
    if match existing with Some e => yaml_values_equal e (to_value o) | None => false end then None
    else Some ((to_game o, to_key o), to_value o).

(* src: community-ap-tools/src/review/triggers.rs:121-131 resolve_triggers *)
Definition fires (current : Y) (trigger : Trigger) : bool :=
  match as_mapping_get current (option_category trigger) ≫=
          (fun game => as_mapping_get game (option_name trigger)) with
  | Some option_val => value_can_match option_val (option_result trigger)
  | None => false
  end.

(* src: community-ap-tools/src/review/triggers.rs:116-154 resolve_triggers *)
Definition round_changes (current : Y) : gmap (str * str) Y :=
  fold_left (fun changes trigger =>
    if fires current trigger then
      fold_left (fun changes o =>
        match option_change current o with
        | Some (gk, value) => <[gk := value]> changes
        | None => changes
        end) (options trigger) changes
    else changes) (collect_triggers current) ∅.

(* src: community-ap-tools/src/review/triggers.rs:110-110 MAX_ITERATIONS *)
Definition MAX_ITERATIONS : nat := 50.

(* src: community-ap-tools/src/review/triggers.rs:112-163 resolve_triggers *)
Fixpoint trigger_rounds (iterations : nat) (current : Y) : Y :=
  match iterations with
  | O => current
  | S iterations =>
      let changes := round_changes current in
      if bool_decide (changes = ∅) then current
      else trigger_rounds iterations (set_yaml_values current changes)
  end.

(* src: community-ap-tools/src/review/triggers.rs:102-163 resolve_triggers *)
Definition resolve_triggers (yaml : Y) : Y :=
  match collect_triggers yaml with
  | [] => yaml
  | _ :: _ => trigger_rounds MAX_ITERATIONS yaml
  end.
End triggers.

Arguments TriggerOption : clear implicits.
Arguments Trigger : clear implicits.

(** ** Facts about triggers

    The rounds end, the changes of a round are those of the last trigger that fires, and the
    rebuilt text has every option once. *)

Section facts.
Context {Y : Type} {YO : YamlOps Y}.
Context (hash_iter : gmap str Y -> list (str * Y)).

(** ** Rounds *)

(** One round: the document with the changes of the triggers that fire. *)
Definition round (y : Y) : Y := set_yaml_values hash_iter y (round_changes y).

Lemma trigger_rounds_spec n y :
  exists k, (k <= n)%nat /\ trigger_rounds hash_iter n y = Nat.iter k round y /\
    (forall i, (i < k)%nat -> round_changes (Nat.iter i round y) <> ∅) /\
    (k = n \/ round_changes (Nat.iter k round y) = ∅).
Proof.
  revert y. induction n as [|n IH]; intros y; simpl.
  { exists 0%nat. split_and!; [lia|done| |by left]. intros i Hi. lia. }
  case_bool_decide as Hc.
  { exists 0%nat. split_and!; [lia|done| |by right]. intros i Hi. lia. }
  destruct (IH (round y)) as (k & Hk & Hr & Hbefore & Hend). exists (S k).
  assert (Hiter : forall i, Nat.iter i round (round y) = Nat.iter (S i) round y).
  { intros i. by rewrite Nat.iter_succ_r. }
  split_and!; [lia| | |].
  - rewrite <- Hiter. exact Hr.
  - intros [|i] Hi; [done|]. rewrite <- Hiter. apply Hbefore. lia.
  - rewrite <- Hiter. destruct Hend as [->|?]; [by left|by right].
Qed.

Lemma no_triggers_no_changes y : collect_triggers y = [] -> round_changes y = ∅.
Proof. unfold round_changes. by intros ->. Qed.

Lemma resolve_triggers_spec y :
  exists k, (k <= MAX_ITERATIONS)%nat /\ resolve_triggers hash_iter y = Nat.iter k round y /\
    (forall i, (i < k)%nat -> round_changes (Nat.iter i round y) <> ∅) /\
    (k = MAX_ITERATIONS \/ round_changes (Nat.iter k round y) = ∅).
Proof.
  unfold resolve_triggers. destruct (collect_triggers y) eqn:Ec; [|apply trigger_rounds_spec].
  exists 0%nat. split_and!; [unfold MAX_ITERATIONS; lia|done|intros i Hi; lia|].
  right. by apply no_triggers_no_changes.
Qed.

(** ** The changes of a round *)

(** The changes that the triggers ask for, in order. *)
Definition wanted_changes (y : Y) : list ((str * str) * Y) :=
  flat_map (fun t => if fires y t then omap (option_change y) (options t) else [])
    (collect_triggers y).

Lemma insert_all_lookup {K A} `{Countable K} (l : list (K * A)) (m : gmap K A) k :
  fold_left (fun m e => <[e.1 := e.2]> m) l m !! k =
  match last (List.filter (fun e => bool_decide (e.1 = k)) l) with
  | Some e => Some e.2
  | None => m !! k
  end.
Proof.
  revert m. induction l as [|[k' v] l IH]; intros m; simpl; [done|]. rewrite IH.
  case_bool_decide as Hk; simpl.
  - subst. rewrite last_cons. destruct (last _); [done|]. by simplify_map_eq.
  - destruct (last _); [done|]. by simplify_map_eq.
Qed.

Lemma round_changes_fold y :
  round_changes y = fold_left (fun m e => <[e.1 := e.2]> m) (wanted_changes y) ∅.
Proof.
  unfold round_changes, wanted_changes. generalize (∅ : gmap (str * str) Y).
  induction (collect_triggers y) as [|t ts IH]; intros m; simpl; [done|].
  rewrite fold_left_app, IH. f_equal. destruct (fires y t); [|done].
  revert m. induction (options t) as [|o os IHo]; intros m; simpl; [done|].
  by destruct (option_change y o) as [[gk v]|]; simpl; rewrite IHo.
Qed.

Lemma elem_of_wanted y gk v :
  (gk, v) ∈ wanted_changes y <->
  exists t o, t ∈ collect_triggers y /\ fires y t = true /\ o ∈ options t /\
    option_change y o = Some (gk, v).
Proof.
  unfold wanted_changes. rewrite list_elem_of_In, in_flat_map. split.
  - intros (t & Ht & Hin). destruct (fires y t) eqn:Ef; [|done].
    apply list_elem_of_In, list_elem_of_omap in Hin as (o & Ho & Hc).
    exists t, o. by rewrite list_elem_of_In.
  - intros (t & o & Ht & Hf & Ho & Hc). exists t. rewrite Hf, <- !list_elem_of_In, list_elem_of_omap.
    eauto.
Qed.

(** ** Text *)

Context {YL : YamlLaws Y}.

Lemma serialize_fuel fuel1 fuel2 key (v : Y) indent :
  (yaml_size v < fuel1)%nat -> (yaml_size v < fuel2)%nat ->
  serialize_entry_fuel fuel1 key v indent = serialize_entry_fuel fuel2 key v indent.
Proof.
  revert fuel2 key v indent. induction fuel1 as [|fuel1 IH]; intros [|fuel2] key v indent H1 H2; try lia.
  simpl. destruct (as_mapping v) as [m|] eqn:Em; [|done]. f_equal.
  assert (Hsize : forall k x, (k, x) ∈ m -> (yaml_size x < yaml_size v)%nat)
    by (intros k x; by apply mapping_size). clear Em.
  induction m as [|[k x] m IHm]; [done|]. simpl. f_equal.
  - assert (yaml_size x < yaml_size v)%nat by (apply (Hsize k); left). apply IH; lia.
  - apply IHm. intros k' x' Hx. apply (Hsize k'). by right.
Qed.

(** The recursion of [serialize_yaml_entry] as the source has it. *)
Lemma serialize_yaml_entry_eq key (v : Y) indent :
  serialize_yaml_entry key v indent =
    match as_mapping v with
    | Some m =>
        (spaces indent ++ key ++ lit ":") ::
        flat_map (fun e => serialize_yaml_entry (key_text e.1) e.2 (indent + 2)) m
    | None =>
        match as_sequence v with
        | Some seq =>
            (spaces indent ++ key ++ lit ":") ::
            ((fun item => spaces indent ++ lit "  - " ++ yaml_value_to_inline item) <$> seq)
        | None => [spaces indent ++ key ++ lit ": " ++ yaml_value_to_inline v]
        end
    end.
Proof.
  unfold serialize_yaml_entry at 1. cbn [serialize_entry_fuel].
  destruct (as_mapping v) as [m|] eqn:Em; [|done]. f_equal.
  assert (Hsize : forall k x, (k, x) ∈ m -> (yaml_size x < yaml_size v)%nat)
    by (intros k x; by apply mapping_size). clear Em.
  induction m as [|[k x] m IHm]; [done|]. simpl. f_equal.
  - assert (yaml_size x < yaml_size v)%nat by (apply (Hsize k); left). apply serialize_fuel; lia.
  - apply IHm. intros k' x' Hx. apply (Hsize k'). by right.
Qed.

Lemma mapping_inline (v : Y) : yaml_kind v = YMapping -> yaml_value_to_inline v = lit "null".
Proof.
  intros Hk. unfold yaml_value_to_inline.
  destruct (as_str v) eqn:E1; [apply as_str_kind in E1; congruence|].
  destruct (as_bool v) eqn:E2; [apply as_bool_kind in E2; congruence|].
  destruct (as_integer v) eqn:E3; [apply as_integer_kind in E3; congruence|].
  destruct (floating_text v) eqn:E4; [apply floating_text_kind in E4; congruence|]. done.
Qed.

(** Items of a list that are mappings are written as nulls. *)
Lemma mappings_in_lists_are_lost key (v : Y) items indent :
  as_sequence v = Some items -> Forall (fun x => yaml_kind x = YMapping) items ->
  serialize_yaml_entry key v indent =
    (spaces indent ++ key ++ lit ":") ::
    repeat (spaces indent ++ lit "  - null") (length items) /\
  serialize_yaml_value v indent = repeat (spaces indent ++ lit "- null") (length items).
Proof.
  intros Hseq Hmaps. rewrite serialize_yaml_entry_eq. unfold serialize_yaml_value.
  destruct (as_mapping v) eqn:Em; [by rewrite (mapping_not_sequence _ _ Em) in Hseq|].
  rewrite Hseq. clear Hseq. induction Hmaps as [|x items Hx _ [IH1 IH2]]; [done|].
  simpl. rewrite (mapping_inline x Hx). split.
  - simplify_eq. by do 2 f_equal.
  - by f_equal.
Qed.

(** ** Grouping *)

Lemma group_by_game_lookup (changes : gmap (str * str) Y) g k :
  (group_by_game changes !! g ≫= fun m => m !! k) = changes !! (g, k).
Proof.
  unfold group_by_game. revert g k.
  apply (map_fold_weak_ind (fun (r : gmap str (gmap str Y)) (m : gmap (str * str) Y) =>
    forall g k, (r !! g ≫= fun m => m !! k) = m !! (g, k))).
  - intros g k. by rewrite !lookup_empty.
  - intros [g' k'] v m r Hnone IH g k. simpl. destruct (decide (g = g')) as [->|Hg].
    + rewrite lookup_insert_eq. simpl. destruct (decide (k = k')) as [->|Hk].
      * by rewrite !lookup_insert_eq.
      * rewrite !lookup_insert_ne by congruence. rewrite <- IH. by destruct (r !! g').
    + rewrite !lookup_insert_ne by congruence. apply IH.
Qed.

Lemma group_by_game_none (changes : gmap (str * str) Y) g k :
  group_by_game changes !! g = None -> changes !! (g, k) = None.
Proof. intros Hg. by rewrite <- group_by_game_lookup, Hg. Qed.

(** The options that are added to a section: the changed ones that it doesn't have. *)
Definition added_options (changes : gmap (str * str) Y) (g : str) (section : list (Y * Y))
    (l : list (str * Y)) : Prop :=
  NoDup l.*1 /\
  forall k v, (k, v) ∈ l <->
    changes !! (g, k) = Some v /\ k ∉ (fun e : Y * Y => key_text e.1) <$> section.

(** The lines of a section with its changes. *)
Definition section_lines (changes : gmap (str * str) Y) (e : Y * Y) (lines : list str) : Prop :=
  match as_mapping e.2 with
  | None => lines = serialize_yaml_value e.2 2
  | Some section =>
      exists added, added_options changes (key_text e.1) section added /\
        lines =
          flat_map (fun o : Y * Y =>
            serialize_yaml_entry (key_text o.1)
              (default o.2 (changes !! (key_text e.1, key_text o.1))) 2) section ++
          flat_map (fun o => serialize_yaml_entry o.1 o.2 2) added
  end.

Context (hash_iter_perm : forall m, hash_iter m ≡ₚ map_to_list m).

Lemma flat_map_if {A B} (p : A -> bool) (f : A -> list B) l :
  flat_map (fun x => if p x then [] else f x) l = flat_map f (List.filter (fun x => negb (p x)) l).
Proof. induction l as [|x l IH]; simpl; [done|]. destruct (p x); simpl; by rewrite IH. Qed.

Lemma game_lines_spec changes top_key top_val m :
  group_by_game changes !! key_text top_key = Some m ->
  section_lines changes (top_key, top_val) (game_lines hash_iter m top_val).
Proof.
  intros Hm. unfold section_lines, game_lines. simpl.
  destruct (as_mapping top_val) as [section|]; [|done].
  assert (Hlook : forall k, m !! k = changes !! (key_text top_key, k))
    by (intros k; by rewrite <- group_by_game_lookup, Hm).
  rewrite (flat_map_if (fun e => bool_decide (e.1 ∈ (fun e : Y * Y => key_text e.1) <$> section))).
  eexists. split; [|f_equal; apply flat_map_ext; intros o; by rewrite Hlook].
  split.
  - apply NoDup_fmap_filter. rewrite hash_iter_perm. apply NoDup_fst_map_to_list.
  - intros k v. rewrite elem_of_filter_bool, hash_iter_perm, elem_of_map_to_list, Hlook. simpl.
    by rewrite negb_true_iff, bool_decide_eq_false.
Qed.

Lemma unchanged_lines changes top_key top_val :
  group_by_game changes !! key_text top_key = None ->
  section_lines changes (top_key, top_val) (serialize_yaml_value top_val 2).
Proof.
  intros Hm. unfold section_lines, serialize_yaml_value. simpl.
  destruct (as_mapping top_val) as [section|]; [|done].
  exists []. split.
  - split; [constructor|]. intros k v. rewrite (group_by_game_none _ _ _ Hm). set_solver.
  - simpl. rewrite app_nil_r. apply flat_map_ext. intros o. by rewrite (group_by_game_none _ _ _ Hm).
Qed.

(** Every section in order: its key, and its lines with the changes. *)
Lemma set_yaml_lines_spec top changes :
  exists ls, Forall2 (section_lines changes) top ls /\
    set_yaml_lines hash_iter top changes =
      concat (zip_with (fun e lines => (key_text e.1 ++ lit ":") :: lines) top ls).
Proof.
  unfold set_yaml_lines. induction top as [|[k v] top (ls & Hls & IH)]; simpl; [by exists []|].
  rewrite IH. destruct (group_by_game changes !! key_text k) as [m|] eqn:Em.
  - exists (game_lines hash_iter m v :: ls). split; [|done]. constructor; [|done].
    by apply game_lines_spec.
  - exists (serialize_yaml_value v 2 :: ls). split; [|done]. constructor; [|done].
    by apply unchanged_lines.
Qed.
End facts.
