(* ===== verification/ReviewEval.v ===== *)
(** * Evaluation of a room's YAMLs

    [community-ap-tools/src/review/api/evaluate.rs]: triggers are resolved, the numbers of the
    analysis are put into the sections of the games, and the rules are evaluated for every game
    that the YAML can be. *)

From S2P Require Import Prelude RustStd Yaml Review ReviewFacts ReviewTriggers.

#[local] Open Scope review_scope.

Section evaluate.
Context {Y : Type} {YO : YamlOps Y} {R E : Type} {X : RegexOps R E} {LC : Lowercase}.
Context (hash_iter : gmap str Y -> list (str * Y)).

(* src: community-ap-tools/src/review/api/evaluate.rs:99-110 BulkYamlInfo *)
Record BulkYamlInfo : Type := {
  bulk_id : str;
  bulk_player_name : str;
  bulk_discord_handle : str;
  bulk_discord_id : str;
  bulk_game : str;
  bulk_content : str;
  bulk_created_at : str;
  bulk_last_edited_by_name : option str;
  bulk_last_edited_at : option str;
}.

(* src: community-ap-tools/src/review/db.rs:93-104 YamlAnalysisStatus *)
Record YamlAnalysisStatus : Type := {
  ya_room_id : str;
  ya_yaml_id : str;
  ya_status : str;
  ya_success : Z;
  ya_total_checks : Z;
  ya_starting_checks : Z;
  ya_gen_ms : Z;
  ya_changed_at : Z;
}.

(* src: community-ap-tools/src/review/api/evaluate.rs:85-97 RuleResultResponse *)
Record RuleResultResponse : Type := {
  resp_rule_name : str;
  resp_outcome : Outcome;
  resp_severity : RuleSeverity;
  resp_detail : option str;
  resp_builtin : bool;
  resp_condition : option Predicate;
  resp_predicate : option Predicate;
}.

(* src: community-ap-tools/src/review/api/evaluate.rs:34-45 YamlEvalResult *)
Record YamlEvalResult : Type := {
  ev_yaml_id : str;
  ev_player_name : str;
  ev_discord_handle : str;
  ev_discord_id : str;
  ev_game : str;
  ev_games : list str;
  ev_created_at : str;
  ev_results : list RuleResultResponse;
}.

(* src: community-ap-tools/src/review/api/evaluate.rs:278-296 extract_game_names *)
Definition extract_game_names (yaml : Y) : list str :=
  match as_mapping_get yaml (lit "game") with
  | None => []
  | Some game_val =>
      match as_str game_val with
      | Some name => [name]
      | None =>
          match as_mapping game_val with
          | Some map =>
              omap (fun e : Y * Y => as_str e.1)
                (List.filter (fun e : Y * Y =>
                   negb (default 0%Z (as_integer e.2) =? 0)%Z) map)
          | None => []
          end
      end
  end.

(* src: community-ap-tools/src/review/api/evaluate.rs:340-359 evaluate_single_yaml *)
Definition insert_analysis (a : YamlAnalysisStatus) (resolved : Y) (game_name : str) : Y :=
  mapping_update resolved game_name (fun game_section =>
    match as_mapping game_section with
    | None => game_section
    | Some _ =>
        mapping_insert
          (mapping_insert
            (mapping_insert game_section (lit "_checks") (of_integer (ya_total_checks a)))
            (lit "_starting_checks") (of_integer (ya_starting_checks a)))
          (lit "_gen_ms") (of_integer (ya_gen_ms a))
    end).

(* src: community-ap-tools/src/review/api/evaluate.rs:377-381 evaluate_single_yaml *)
Definition game_detail (multi_game : bool) (game_name : str) (detail : option str) : option str :=
  match multi_game, detail with
  | true, Some d => Some (lit "[" ++ game_name ++ lit "] " ++ d)
  | true, None => Some (lit "[" ++ game_name ++ lit "]")
  | false, d => d
  end.

Definition reported (o : Outcome) : bool := bool_decide (o = Fail) || bool_decide (o = Error).

(* src: community-ap-tools/src/review/api/evaluate.rs:366-392 evaluate_single_yaml *)
Definition custom_responses (multi_game : bool) (game_name : str) (rule_results : list RuleResult)
    (custom_rules : list Rule) : list RuleResultResponse :=
  (fun rr : RuleResult * Rule =>
     let '(r, rule) := rr in
     let failed := bool_decide (rr_outcome r = Fail) in
     {| resp_rule_name := rr_rule_name r;
        resp_outcome := rr_outcome r;
        resp_severity := rr_severity r;
        resp_detail := game_detail multi_game game_name (rr_detail r);
        resp_builtin := false;
        resp_condition := if failed then rule_when rule else None;
        resp_predicate := if failed then Some (rule_then rule) else None |})
    <$> List.filter (fun rr : RuleResult * Rule => reported (rr_outcome rr.1))
          (zip rule_results custom_rules).

(* src: community-ap-tools/src/review/api/evaluate.rs:394-413 evaluate_single_yaml *)
Definition builtin_responses (multi_game : bool) (game_name : str) (resolved : Y)
    (player_name : str) (room_yamls : list RoomYaml) (active_builtins : list (BuiltinRule (Y := Y)))
    : list RuleResultResponse :=
  flat_map (fun builtin_rule =>
    let br := br_evaluate builtin_rule resolved game_name player_name room_yamls in
    if negb (reported (rr_outcome br)) then []
    else [{| resp_rule_name := rr_rule_name br;
             resp_outcome := rr_outcome br;
             resp_severity := rr_severity br;
             resp_detail := game_detail multi_game game_name (rr_detail br);
             resp_builtin := true;
             resp_condition := None;
             resp_predicate := None |}]) active_builtins.

(* src: community-ap-tools/src/review/api/evaluate.rs:361-414 evaluate_single_yaml *)
Fixpoint evaluate_games (multi_game : bool) (game_names : list str) (resolved : Y)
    (player_name : str) (custom_rules : list Rule) (active_builtins : list (BuiltinRule (Y := Y)))
    (room_yamls : list RoomYaml) : M R E (list RuleResultResponse) :=
  match game_names with
  | [] => m_ret []
  | game_name :: game_names =>
      rule_results <-- evaluate_rules_for_yaml custom_rules resolved game_name;
      rest <-- evaluate_games multi_game game_names resolved player_name custom_rules
                 active_builtins room_yamls;
      m_ret (custom_responses multi_game game_name rule_results custom_rules ++
             builtin_responses multi_game game_name resolved player_name room_yamls
               active_builtins ++ rest)
  end.

(** The YAML that the rules look at, and the games they are evaluated for. *)
(* src: community-ap-tools/src/review/api/evaluate.rs:330-359 evaluate_single_yaml *)
Definition prepare (yaml : Y) (game : str) (analysis : option YamlAnalysisStatus) : Y * list str :=
  let resolved := resolve_triggers hash_iter yaml in
  let game_names := extract_game_names resolved in
  let game_names := match game_names with [] => [game] | _ :: _ => game_names end in
  (match analysis with
   | Some a => fold_left (insert_analysis a) game_names resolved
   | None => resolved
   end, game_names).

(* src: community-ap-tools/src/review/api/evaluate.rs:298-436 evaluate_single_yaml *)
Definition evaluate_single_yaml (info : BulkYamlInfo) (custom_rules : list Rule)
    (active_builtins : list (BuiltinRule (Y := Y))) (room_yamls : list RoomYaml)
    (analysis : option YamlAnalysisStatus) : M R E YamlEvalResult :=
  let result game games results := {|
    ev_yaml_id := bulk_id info;
    ev_player_name := bulk_player_name info;
    ev_discord_handle := bulk_discord_handle info;
    ev_discord_id := bulk_discord_id info;
    ev_game := game;
    ev_games := games;
    ev_created_at := bulk_created_at info;
    ev_results := results |} in
  match ok (load_from_str (bulk_content info)) ≫= last with
  | None =>
      m_ret (result (bulk_game info) []
        [{| resp_rule_name := lit "YAML Parse";
            resp_outcome := Error;
            resp_severity := SevError;
            resp_detail := Some (lit "Failed to parse YAML");
            resp_builtin := false;
            resp_condition := None;
            resp_predicate := None |}])
  | Some yaml =>
      let '(resolved, game_names) := prepare yaml (bulk_game info) analysis in
      let multi_game := (1 <? length game_names)%nat in
      all_results <-- evaluate_games multi_game game_names resolved (bulk_player_name info)
                        custom_rules active_builtins room_yamls;
      let '(display_game, games) :=
        if multi_game then
          (lit "Random (" ++ N_to_str (N.of_nat (length game_names)) ++ lit ")", game_names)
        else (default (bulk_game info) (head game_names), []) in
      m_ret (result display_game games all_results)
  end.

(** The built-in rules that a preset switches on. *)
(* src: community-ap-tools/src/review/api/evaluate.rs:250-255 evaluate *)
Definition active_builtins (enabled_builtins : list str) : list (BuiltinRule (Y := Y)) :=
  List.filter (fun r => bool_decide (br_id r ∈ enabled_builtins)) builtin_rules.

(* src: community-ap-tools/src/review/api/evaluate.rs:47-63 YamlEvalResultWithAnalysis *)
Record YamlEvalResultWithAnalysis : Type := {
  with_result : YamlEvalResult;
  with_status : option str;
  with_success : option Z;
  with_total_checks : option Z;
  with_starting_checks : option Z;
  with_gen_ms : option Z;
}.

(* src: community-ap-tools/src/review/api/evaluate.rs:65-83 YamlEvalResult::with_analysis *)
Definition with_analysis (r : YamlEvalResult) (analysis : option YamlAnalysisStatus)
    : YamlEvalResultWithAnalysis := {|
  with_result := r;
  with_status := ya_status <$> analysis;
  with_success := ya_success <$> analysis;
  with_total_checks := ya_total_checks <$> analysis;
  with_starting_checks := ya_starting_checks <$> analysis;
  with_gen_ms := ya_gen_ms <$> analysis;
|}.

(** The worker threads of [par_iter]: each evaluates YAMLs with a cache of its own, and the
    results come back in the order of the YAMLs.  [caches] are the caches that the threads have
    when they get to each of them. *)
(* src: community-ap-tools/src/review/api/evaluate.rs:257-273 evaluate *)
Definition evaluate_all (bulk_yamls : list BulkYamlInfo) (caches : list (gmap str R))
    (custom_rules : list Rule) (active : list (BuiltinRule (Y := Y)))
    (yaml_analysis : list YamlAnalysisStatus)
    : list (option (result E YamlEvalResultWithAnalysis)) :=
  let room_yamls : list RoomYaml :=
    (fun y => {| ry_player_name := bulk_player_name y |}) <$> bulk_yamls in
  let analysis_map : gmap str YamlAnalysisStatus :=
    fold_left (fun m a => <[ya_yaml_id a := a]> m) yaml_analysis ∅ in
  zip_with (fun info cache =>
    match evaluate_single_yaml info custom_rules active room_yamls
            (analysis_map !! bulk_id info) cache with
    | Some (r, _) => Some ((fun r => with_analysis r (analysis_map !! ev_yaml_id r)) <$> r)
    | None => None
    end) bulk_yamls caches.
End evaluate.

(** ** Facts about the evaluation of a room *)

#[local] Open Scope review_scope.

Section facts.
Context {Y : Type} {YO : YamlOps Y} {R E : Type} {X : RegexOps R E} {LC : Lowercase}.
Context (hash_iter : gmap str Y -> list (str * Y)).

(** ** Reports *)

(** The report of a custom rule that fails for a game. *)
Definition failure_report (multi_game : bool) (game_name : str) (rule : Rule) : RuleResultResponse := {|
  resp_rule_name := rule_name_ rule;
  resp_outcome := Fail;
  resp_severity := rule_severity rule;
  resp_detail := if multi_game then Some (lit "[" ++ game_name ++ lit "]") else None;
  resp_builtin := false;
  resp_condition := rule_when rule;
  resp_predicate := Some (rule_then rule);
|}.

(** The reports for one game: the custom rules that fail, in order, then the built-in ones. *)
Definition game_reports (multi_game : bool) (resolved : Y) (player_name : str)
    (rules : list Rule) (active : list (BuiltinRule (Y := Y))) (room : list RoomYaml)
    (game_name : str) : list RuleResultResponse :=
  (failure_report multi_game game_name <$>
    List.filter (fun rule => bool_decide (rule_outcome (R := R) (E := E) rule resolved game_name = Fail)) rules) ++
  builtin_responses multi_game game_name resolved player_name room active.

Lemma reported_outcome rule (y : Y) g :
  reported (rule_outcome (R := R) (E := E) rule y g) =
  bool_decide (rule_outcome (R := R) (E := E) rule y g = Fail).
Proof. unfold reported, rule_outcome. repeat case_match; done. Qed.

Lemma custom_responses_compile multi_game game_name (resolved : Y) rules :
  custom_responses multi_game game_name
    ((fun rule => expected (R := R) (E := E) rule resolved game_name) <$> rules) rules =
  failure_report multi_game game_name <$>
    List.filter (fun rule => bool_decide (rule_outcome (R := R) (E := E) rule resolved game_name = Fail)) rules.
Proof.
  unfold custom_responses. induction rules as [|rule rules IH]; [done|]. simpl.
  rewrite reported_outcome. case_bool_decide as Hf; [|exact IH]. simpl. f_equal; [|exact IH].
  unfold failure_report, game_detail, rule_detail. rewrite Hf. simpl. by destruct multi_game.
Qed.

Lemma games_compile multi_game games (resolved : Y) player rules active room :
  Forall (fun rule => Forall compiles (rule_patterns rule)) rules ->
  gives (evaluate_games multi_game games resolved player rules active room)
    (Ok (flat_map (game_reports multi_game resolved player rules active room) games)).
Proof.
  intros Hc. induction games as [|g games IH]; simpl; [apply gives_ret|].
  eapply gives_bind; [by apply rules_compile|]. eapply gives_bind; [exact IH|].
  rewrite custom_responses_compile, app_assoc. apply gives_ret.
Qed.

Lemma games_give multi_game games (resolved : Y) player rules active room :
  exists rs, gives (evaluate_games multi_game games resolved player rules active room) (Ok rs).
Proof.
  induction games as [|g games (rs & IH)]; simpl; [eexists; apply gives_ret|].
  destruct (rules_gives rules resolved g) as (rr & Hrr & _). eexists.
  do 2 (eapply gives_bind; [done|]). apply gives_ret.
Qed.

Lemma evaluate_single_gives info rules active room analysis :
  exists res, gives (evaluate_single_yaml hash_iter info rules active room analysis) (Ok res) /\
    ev_yaml_id res = bulk_id info.
Proof.
  unfold evaluate_single_yaml.
  destruct (ok (load_from_str (bulk_content info)) ≫= last) as [yaml|];
    [|eexists; split; [apply gives_ret|done]].
  destruct (prepare hash_iter yaml (bulk_game info) analysis) as [resolved games].
  destruct (games_give (1 <? length games)%nat games resolved (bulk_player_name info) rules
              active room) as (rs & Hrs).
  destruct (1 <? length games)%nat; (eexists; split; [eapply gives_bind; [exact Hrs|apply gives_ret]|done]).
Qed.

(** ** The numbers of the analysis *)

Context {YL : YamlLaws Y}.

(** What the analysis puts under a key. *)
Definition analysis_field (a : YamlAnalysisStatus) (k : str) : option Y :=
  if bool_decide (k = lit "_gen_ms") then Some (of_integer (ya_gen_ms a))
  else if bool_decide (k = lit "_starting_checks") then Some (of_integer (ya_starting_checks a))
  else if bool_decide (k = lit "_checks") then Some (of_integer (ya_total_checks a))
  else None.

(** [section'] is [section] with the numbers of the analysis. *)
Definition annotated (a : YamlAnalysisStatus) (section section' : Y) : Prop :=
  yaml_kind section' = YMapping /\
  forall k, as_mapping_get section' k =
    match analysis_field a k with Some v => Some v | None => as_mapping_get section k end.

Lemma insert_analysis_other a (y : Y) g g' :
  g' <> g -> as_mapping_get (insert_analysis a y g) g' = as_mapping_get y g'.
Proof. intros Hne. unfold insert_analysis. by rewrite mapping_update_get, decide_False. Qed.

Lemma insert_analysis_same a (y : Y) g section :
  as_mapping_get y g = Some section -> yaml_kind section = YMapping ->
  exists section', as_mapping_get (insert_analysis a y g) g = Some section' /\
    annotated a section section'.
Proof.
  intros Hg Hk. unfold insert_analysis. rewrite mapping_update_get, decide_True, Hg by done. simpl.
  destruct (is_mapping section Hk) as [m ->]. eexists. split; [done|]. split.
  - by repeat apply mapping_insert_kind.
  - intros k. rewrite !mapping_insert_get by (by repeat apply mapping_insert_kind).
    unfold analysis_field. repeat case_decide; repeat case_bool_decide; congruence.
Qed.

Lemma annotated_twice a (s1 s2 s3 : Y) :
  annotated a s1 s2 -> annotated a s2 s3 -> annotated a s1 s3.
Proof.
  intros [_ H12] [Hk H23]. split; [done|]. intros k. rewrite H23, H12.
  by destruct (analysis_field a k).
Qed.

Lemma fold_analysis_other a games (y : Y) g :
  g ∉ games -> as_mapping_get (fold_left (insert_analysis a) games y) g = as_mapping_get y g.
Proof.
  revert y. induction games as [|g' games IH]; intros y Hg; simpl; [done|].
  apply not_elem_of_cons in Hg as [Hne Hg]. by rewrite IH, insert_analysis_other.
Qed.

Lemma fold_analysis_same a games (y : Y) g section :
  g ∈ games -> as_mapping_get y g = Some section -> yaml_kind section = YMapping ->
  exists section', as_mapping_get (fold_left (insert_analysis a) games y) g = Some section' /\
    annotated a section section'.
Proof.
  intros Hin. revert y section. induction games as [|g' games IH]; intros y section Hg Hk; simpl;
    [by apply not_elem_of_nil in Hin|].
  destruct (decide (g = g')) as [<-|Hne].
  - destruct (insert_analysis_same a y g section Hg Hk) as (s1 & Hs1 & Ha1).
    destruct (decide (g ∈ games)) as [Hin'|Hnin].
    + destruct (IH Hin' _ _ Hs1 (proj1 Ha1)) as (s2 & Hs2 & Ha2). exists s2.
      split; [done|]. by eapply annotated_twice.
    + exists s1. by rewrite fold_analysis_other.
  - apply elem_of_cons in Hin as [?|Hin]; [done|]. apply (IH Hin); [|done].
    by rewrite insert_analysis_other.
Qed.
End facts.
