(* ===== verification/ReviewDoc.v ===== *)
(** * A small YAML implementation

    An instance of the interface of [Yaml], so that the theorems about review rules can be applied
    to documents that are written out, and an instance of the regular expressions in which a
    pattern is searched as it stands. *)

From S2P Require Import Prelude RustStd Yaml Review.

Inductive doc : Type :=
| DNull
| DBool (b : bool)
| DInt (z : Z)
| DFloat (text : str)
| DStr (s : str)
| DSeq (l : list doc)
| DMap (m : list (doc * doc)).

Definition doc_key (k : str) (e : doc * doc) : bool :=
  match e.1 with DStr s => str_eqb s k | _ => false end.

Fixpoint doc_get (m : list (doc * doc)) (k : str) : option doc :=
  match m with
  | [] => None
  | e :: m => if doc_key k e then Some e.2 else doc_get m k
  end.

Fixpoint doc_update (m : list (doc * doc)) (k : str) (f : doc -> doc) : list (doc * doc) :=
  match m with
  | [] => []
  | e :: m => if doc_key k e then (e.1, f e.2) :: m else e :: doc_update m k f
  end.

Fixpoint doc_insert (m : list (doc * doc)) (k : str) (v : doc) : list (doc * doc) :=
  match m with
  | [] => [(DStr k, v)]
  | e :: m => if doc_key k e then (e.1, v) :: m else e :: doc_insert m k v
  end.

Fixpoint doc_size (d : doc) : nat :=
  match d with
  | DSeq l => S (foldr (fun d n => doc_size d + n)%nat 0%nat l)
  | DMap m => S (foldr (fun e n => doc_size e.1 + doc_size e.2 + n)%nat 0%nat m)
  | _ => 1%nat
  end.

Fixpoint doc_eqb (a b : doc) : bool :=
  match a, b with
  | DNull, DNull => true
  | DBool a, DBool b => Bool.eqb a b
  | DInt a, DInt b => (a =? b)%Z
  | DFloat a, DFloat b | DStr a, DStr b => str_eqb a b
  | DSeq l, DSeq l' =>
      (fix go l l' := match l, l' with
                      | [], [] => true
                      | a :: l, b :: l' => doc_eqb a b && go l l'
                      | _, _ => false
                      end) l l'
  | DMap m, DMap m' =>
      (fix go m m' := match m, m' with
                      | [], [] => true
                      | (k, v) :: m, (k', v') :: m' => doc_eqb k k' && doc_eqb v v' && go m m'
                      | _, _ => false
                      end) m m'
  | _, _ => false
  end.

(** [known] are the texts that can be loaded, with their documents. *)
Definition doc_ops (known : list (str * list doc)) : YamlOps doc := {|
  as_bool d := match d with DBool b => Some b | _ => None end;
  as_integer d := match d with DInt z => if in_i64 z then Some z else None | _ => None end;
  floating_text d := match d with DFloat s => Some s | _ => None end;
  as_str d := match d with DStr s => Some s | _ => None end;
  as_sequence d := match d with DSeq l => Some l | _ => None end;
  as_mapping d := match d with DMap m => Some m | _ => None end;
  as_mapping_get d k := match d with DMap m => doc_get m k | _ => None end;
  yaml_eqb := doc_eqb;
  of_integer := DInt;
  mapping_update d k f := match d with DMap m => DMap (doc_update m k f) | _ => d end;
  mapping_insert d k v := match d with DMap m => DMap (doc_insert m k v) | _ => d end;
  load_from_str text :=
    match List.find (fun e => str_eqb e.1 text) known with
    | Some e => Ok e.2
    | None => Err tt
    end;
  yaml_kind d := match d with
                 | DNull => YOther | DBool _ => YBool | DInt _ => YInteger | DFloat _ => YFloat
                 | DStr _ => YString | DSeq _ => YSequence | DMap _ => YMapping
                 end;
  yaml_size := doc_size;
|}.

Lemma doc_key_other k k' e : k <> k' -> doc_key k e = true -> doc_key k' e = false.
Proof.
  unfold doc_key. destruct e.1; try done. intros Hne ->%str_eqb_spec.
  by apply bool_decide_eq_false.
Qed.

Lemma doc_update_get m k f k' :
  doc_get (doc_update m k f) k' = if decide (k' = k) then f <$> doc_get m k else doc_get m k'.
Proof.
  induction m as [|e m IH]; simpl; [by case_decide|].
  destruct (doc_key k e) eqn:Ek; simpl.
  - change (doc_key k' (e.1, f e.2)) with (doc_key k' e). case_decide as Hd; [by rewrite Hd, Ek|].
    rewrite (doc_key_other k k' e); [done|congruence|done].
  - rewrite IH. case_decide as Hd; [|done]. by rewrite Hd, Ek.
Qed.

Lemma doc_insert_get m k v k' :
  doc_get (doc_insert m k v) k' = if decide (k' = k) then Some v else doc_get m k'.
Proof.
  induction m as [|e m IH]; simpl.
  - unfold doc_key. simpl. unfold str_eqb. case_bool_decide; case_decide; congruence.
  - destruct (doc_key k e) eqn:Ek; simpl.
    + change (doc_key k' (e.1, v)) with (doc_key k' e). case_decide as Hd; [by rewrite Hd, Ek|].
      rewrite (doc_key_other k k' e); [done|congruence|done].
    + rewrite IH. case_decide as Hd; [|done]. by rewrite Hd, Ek.
Qed.

Lemma foldr_size {A} (f : A -> nat) l x :
  x ∈ l -> (f x <= foldr (fun a n => f a + n) 0 l)%nat.
Proof. induction 1; simpl; lia. Qed.

Lemma doc_laws known : YamlLaws doc (YO := doc_ops known).
Proof.
  split; try (intros []; simpl; intros; by repeat case_match; simplify_eq).
  - intros [] seq x; simpl; try done. intros [= <-] Hx.
    pose proof (foldr_size doc_size _ _ Hx). lia.
  - intros [] entries k v; simpl; try done. intros [= <-] Hx.
    pose proof (foldr_size (fun e : doc * doc => doc_size e.1 + doc_size e.2)%nat _ _ Hx).
    simpl in *. lia.
  - intros [] entries k v; simpl; try done. intros [= <-] Hx.
    pose proof (foldr_size (fun e : doc * doc => doc_size e.1 + doc_size e.2)%nat _ _ Hx).
    simpl in *. lia.
  - intros [] k f k'; simpl; try by case_decide. apply doc_update_get.
  - intros [] k v k'; simpl; try done. intros _. apply doc_insert_get.
Qed.

(** Patterns with an opening parenthesis don't compile. *)
Definition search_ops : RegexOps str str := {|
  regex_new p := if str_contains (lit "(") p then Err (lit "unclosed group") else Ok p;
  regex_build _ p := if str_contains (lit "(") p then Err (lit "unclosed group") else Ok p;
  is_match := str_contains;
  error_text e := e;
|}.
