(* ===== verification/ReviewProps.v ===== *)
(** * What the review of a room guarantees

    The theorems about review rules, triggers and the evaluation of a room, with examples. *)

From S2P Require Import Prelude RustStd Yaml Review ReviewFacts ReviewTriggers ReviewEval ReviewDoc.

(** [val] is [name], a list with [name], or a mapping with [name] as a key. *)
Definition mentions {Y} {YO : YamlOps Y} (val : Y) (name : str) : Prop :=
  as_str val = Some name \/
  (exists l x, as_sequence val = Some l /\ x ∈ l /\ as_str x = Some name) \/
  (exists m e, as_mapping val = Some m /\ e ∈ m /\ as_str e.1 = Some name).

(** The entries of the plando section of a game. *)
Definition plando_entries {Y} {YO : YamlOps Y} (yaml : Y) (game_name : str) : list Y :=
  default [] (as_mapping_get yaml game_name ≫= fun section =>
    as_mapping_get section (lit "plando_items") ≫= as_sequence).

(** The names of the other players of the room. *)
Definition other_players (player_name : str) (room : list RoomYaml) : list str :=
  ry_player_name <$> List.filter (fun y => negb (str_eqb (ry_player_name y) player_name)) room.

(** ** Lemmas *)

Lemma elem_of_mentioned {Y} {YO : YamlOps Y} (val : Y) others name :
  name ∈ mentioned val others <-> mentions val name /\ name ∈ others.
Proof.
  unfold mentioned, mentions. rewrite elem_of_filter_bool, bool_decide_eq_true, list_elem_of_omap.
  setoid_rewrite elem_of_cons. setoid_rewrite elem_of_app. setoid_rewrite list_elem_of_fmap.
  split.
  - intros ([x [[->|[Hx|(e & -> & He)]] Hs]] & Ho); (split; [|done]); [by left|right..].
    + left. destruct (as_sequence val) as [l|]; simpl in Hx; [by exists l, x|set_solver].
    + right. destruct (as_mapping val) as [m|]; simpl in He; [by exists m, e|set_solver].
  - intros [[Hs|[(l & x & Hl & Hx & Hs)|(m & e & Hm & He & Hs)]] Ho]; (split; [|done]).
    + exists val. by split; [left|].
    + exists x. rewrite Hl. by split; [right; left|].
    + exists e.1. rewrite Hm. split; [right; right; by exists e|done].
Qed.

Lemma elem_of_entry_violations {Y} {YO : YamlOps Y} others (entry : Y) v :
  v ∈ entry_violations others entry <->
  exists field val name, field ∈ [lit "from_player"; lit "to_player"; lit "world"] /\
    as_mapping_get entry field = Some val /\ mentions val name /\ name ∈ others /\
    v = field ++ lit ": " ++ name.
Proof.
  unfold entry_violations. rewrite list_elem_of_In, in_flat_map. split.
  - intros (field & Hf & Hv). rewrite <- list_elem_of_In in Hf, Hv.
    destruct (as_mapping_get entry field) as [val|] eqn:Ev; [|set_solver].
    apply list_elem_of_fmap in Hv as (name & -> & [Hm Ho]%elem_of_mentioned).
    by exists field, val, name.
  - intros (field & val & name & Hf & Hval & Hm & Ho & ->). exists field.
    rewrite Hval, <- !list_elem_of_In. split; [done|].
    apply list_elem_of_fmap. exists name. by rewrite elem_of_mentioned.
Qed.

Lemma no_cross_plando_eq {Y} {YO : YamlOps Y} (yaml : Y) game_name player_name room :
  no_cross_plando_evaluate yaml game_name player_name room =
  let violations :=
    flat_map (entry_violations (other_players player_name room)) (plando_entries yaml game_name) in
  {| rr_rule_name := lit "No cross-player plando";
     rr_outcome :=
       if bool_decide (as_mapping_get yaml game_name = None) then Skipped
       else if bool_decide (violations = []) then Pass else Fail;
     rr_severity := SevError;
     rr_detail :=
       if bool_decide (violations = []) then None
       else Some (lit "Plando references other players: " ++ join (lit ", ") violations) |}.
Proof.
  unfold no_cross_plando_evaluate, plando_entries. fold (other_players player_name room).
  destruct (as_mapping_get yaml game_name) as [section|]; [|done]. cbn [mbind option_bind default].
  destruct (as_mapping_get section (lit "plando_items")) as [plando|]; [|done]. cbn [mbind option_bind].
  destruct (as_sequence plando) as [l|]; [|done]. cbn [default from_option].
  cbv zeta. rewrite (fold_append _ (entry_violations (other_players player_name room)))
    by (intros; apply plando_entry_violations).
  rewrite app_nil_l. unfold default, from_option, id.
  by destruct (bool_decide (flat_map _ l = [])).
Qed.

Lemma elem_of_other_players player_name room name :
  name ∈ other_players player_name room <-> name <> player_name /\ name ∈ ry_player_name <$> room.
Proof.
  unfold other_players. rewrite !list_elem_of_fmap. split.
  - intros (y & -> & [Hy Hne]%elem_of_filter_bool). apply negb_true_iff, bool_decide_eq_false in Hne.
    eauto.
  - intros (Hne & y & -> & Hy). exists y. rewrite elem_of_filter_bool, negb_true_iff.
    split; [done|]. split; [done|]. by apply bool_decide_eq_false.
Qed.

Lemma violations_spec {Y} {YO : YamlOps Y} others (entries : list Y) :
  flat_map (entry_violations others) entries <> [] <->
  exists entry field val name, entry ∈ entries /\
    field ∈ [lit "from_player"; lit "to_player"; lit "world"] /\
    as_mapping_get entry field = Some val /\ mentions val name /\ name ∈ others.
Proof.
  set (vs := flat_map _ entries). split.
  - destruct vs as [|v vs'] eqn:E1; [done|]. intros _. assert (Hv : v ∈ vs) by (rewrite E1; by left).
    apply list_elem_of_In, in_flat_map in Hv as (entry & Hentry & Hv).
    apply list_elem_of_In in Hentry, Hv.
    apply elem_of_entry_violations in Hv as (f & val & name & ? & ? & ? & ? & _).
    by exists entry, f, val, name.
  - intros (entry & f & val & name & Hentry & Hf & Hval & Hm & Ho) Hnil.
    assert (Hin : f ++ lit ": " ++ name ∈ vs); [|rewrite Hnil in Hin; by apply not_elem_of_nil in Hin].
    apply list_elem_of_In, in_flat_map. exists entry. rewrite <- !list_elem_of_In.
    split; [done|]. apply elem_of_entry_violations. by exists f, val, name.
Qed.

Section theorems.
Context {Y : Type} {YO : YamlOps Y} {R E : Type} {X : RegexOps R E} {LC : Lowercase}.

(** ** Theorems *)

(** C10: Evaluating a predicate never panics.  Whatever the cache of regular expressions holds, the
    result is the same: the boolean reading of the predicate, or the error of a pattern of the
    predicate that does not compile.  The cache stays within its bound and only holds what
    compiling the patterns gives. *)
Theorem predicate_means (p : Predicate) (game_yaml : Y) :
  exists r, gives (R := R) (E := E) (evaluate_predicate p game_yaml) r /\
    (r = Ok (holds (R := R) (E := E) p game_yaml) \/
     exists pat e, pat ∈ patterns p /\ regex_build (R := R) REGEX_SIZE_LIMIT pat = Err e /\
       r = Err e).
Proof. apply predicate_result. Qed.


(** A predicate passes validation exactly if every path is not blank, every pattern compiles,
    counts compare numbers, and every threshold is positive and within the number of its
    predicates. *)
Theorem validate_exact (p : Predicate) :
  validate (R := R) (E := E) p = Ok tt <-> acceptable (R := R) (E := E) p.
Proof. apply validate_acceptable. Qed.

(** The built-in rule is skipped exactly if the game has no section.  Otherwise it fails
    exactly if an entry of the plando section names, as the sender, the receiver or the world,
    another player of the room: directly, in a list, or as a key of a mapping; the detail then
    lists these references. *)
Theorem no_cross_plando_exact (yaml : Y) (game_name player_name : str) (room : list RoomYaml) :
  let r := no_cross_plando_evaluate yaml game_name player_name room in
  let others := other_players player_name room in
  (rr_outcome r = Skipped <-> as_mapping_get yaml game_name = None) /\
  (rr_outcome r = Fail <->
     exists entry field val name, entry ∈ plando_entries yaml game_name /\
       field ∈ [lit "from_player"; lit "to_player"; lit "world"] /\
       as_mapping_get entry field = Some val /\ mentions val name /\
       name <> player_name /\ name ∈ ry_player_name <$> room) /\
  (rr_outcome r = Skipped \/ rr_outcome r = Pass \/ rr_outcome r = Fail) /\
  (rr_outcome r = Fail -> rr_detail r = Some (lit "Plando references other players: " ++
     join (lit ", ") (flat_map (entry_violations others) (plando_entries yaml game_name)))).
Proof.
  cbv zeta. rewrite no_cross_plando_eq. cbn [rr_outcome rr_detail].
  setoid_rewrite <- elem_of_other_players. rewrite <- violations_spec.
  assert (Hsec : as_mapping_get yaml game_name = None -> plando_entries yaml game_name = [])
    by (unfold plando_entries; by intros ->).
  destruct (bool_decide_reflect (as_mapping_get yaml game_name = None)) as [Hn|Hn].
  - rewrite (Hsec Hn). split_and!; [done|done|by left|done].
  - case_bool_decide as Hv; split_and!; try done; try tauto; by intros ?.
Qed.



(** The worker threads do not influence each other: whatever their caches hold, every YAML of
    the room gets a result, under its own identifier and in the order of the room, and the
    results are the same as with any other caches. *)
Theorem threads_irrelevant (hash_iter : gmap str Y -> list (str * Y)) (yamls : list BulkYamlInfo)
    (caches caches' : list (gmap str R)) (rules : list Rule) (active : list (BuiltinRule (Y := Y)))
    (analysis : list YamlAnalysisStatus) :
  length caches = length yamls -> length caches' = length yamls ->
  Forall (cache_good (E := E)) caches -> Forall (cache_good (E := E)) caches' ->
  evaluate_all (E := E) hash_iter yamls caches rules active analysis =
    evaluate_all (E := E) hash_iter yamls caches' rules active analysis /\
  Forall2 (fun info o => exists r, o = Some (Ok r) /\ ev_yaml_id (with_result r) = bulk_id info)
    yamls (evaluate_all (E := E) hash_iter yamls caches rules active analysis).
Proof.
  unfold evaluate_all. cbv zeta.
  set (room := _ <$> yamls). clearbody room.
  set (found := fold_left _ analysis _). clearbody found. revert caches caches'.
  induction yamls as [|info yamls IH]; intros [|c cs] [|c' cs']; simpl; try done.
  intros [= Hl] [= Hl'] [Hc Hcs]%Forall_cons [Hc' Hcs']%Forall_cons.
  destruct (IH cs cs' Hl Hl' Hcs Hcs') as [-> Hall].
  destruct (evaluate_single_gives hash_iter info rules active room
    (found !! bulk_id info)) as (res & Hres & Hid).
  destruct (Hres c Hc) as (c1 & -> & _), (Hres c' Hc') as (c1' & -> & _). split; [done|].
  constructor; [|done]. eexists. split; [done|]. done.
Qed.

Context {YL : YamlLaws Y}.

(** For an option whose value is a random range, a check that compares integers holds exactly
    if an integer of the range satisfies it: the check says whether the game can roll a value
    that the rule is about. *)
Theorem random_range_exact (v : Y) (a b : Z) (check : RuleCheck) :
  parse_random v = Some (Some (a, b)) -> numeric_check check ->
  exists verdict, gives (R := R) (E := E) (evaluate_check v check) (Ok verdict) /\
    (verdict = true <->
     exists u, (a <= u <= b)%Z /\
       gives (R := R) (E := E) (evaluate_check (of_integer (Y := Y) u) check) (Ok true)).
Proof.
  intros Hv Hc. destruct (parse_random_bounds v a b Hv) as (Hab & Ha & Hb).
  assert (Hscalar : forall y : Y, as_mapping y = None ->
    gives (R := R) (E := E) (evaluate_check y check) (Ok (value_holds (R := R) (E := E) check y))).
  { intros y Hy. destruct (check_goe (R := R) (E := E) check y) as [Hg|(p & e & Hp & _)];
      [by destruct check| |by destruct check; try done; apply not_elem_of_nil in Hp].
    unfold check_holds, candidates in Hg. rewrite Hy in Hg.
    destruct check; try done; simpl existsb in Hg; by rewrite orb_false_r in Hg. }
  assert (Hmap : as_mapping v = None).
  { destruct (as_mapping v) eqn:Em; [|done]. apply mapping_not_str in Em.
    unfold parse_random in Hv. by rewrite Em in Hv. }
  eexists. split; [by apply Hscalar|]. unfold value_holds at 1. rewrite Hv.
  rewrite random_range_integer by done. split.
  - intros (u & Hu & Hh). exists u. split; [done|].
    assert (Hi : as_integer (of_integer (Y := Y) u) = Some u) by (apply of_integer_spec, in_i64_spec; lia).
    rewrite <- Hh, <- (value_holds_integer (R := R) (E := E) check _ u Hi Hc).
    by apply Hscalar, (integer_not_mapping _ u).
  - intros (u & Hu & Hh). exists u. split; [done|].
    assert (Hi : as_integer (of_integer (Y := Y) u) = Some u) by (apply of_integer_spec, in_i64_spec; lia).
    rewrite <- (value_holds_integer (R := R) (E := E) check _ u Hi Hc).
    pose proof (gives_unique _ _ _ Hh (Hscalar _ (integer_not_mapping _ u Hi))). congruence.
Qed.

(** After the changes of a round, the document is the one that loads from a text with every
    section of the old one in order; a section that is a mapping has its options in order, each
    with its changed value if it has one, followed by the changed options that it lacked, once
    each.  Where the text does not load, the document stays as it was.  In that text the items of
    a list that are mappings are nulls: once a trigger has changed anything, the triggers and the
    plando entries of the document are gone, so no other trigger can follow, and the built-in rule
    has nothing left to see. *)
Theorem rebuilt_document_exact (hash_iter : gmap str Y -> list (str * Y)) (yaml : Y)
    (top : list (Y * Y)) (changes : gmap (str * str) Y) :
  (forall m, hash_iter m ≡ₚ map_to_list m) -> as_mapping yaml = Some top ->
  (exists sections, Forall2 (section_lines changes) top sections /\
     set_yaml_values hash_iter yaml changes =
       load_last (join [10%N] (concat
         (zip_with (fun e lines => (key_text e.1 ++ lit ":") :: lines) top sections))) yaml) /\
  (forall key v items indent,
     as_sequence v = Some items -> Forall (fun x : Y => yaml_kind x = YMapping) items ->
     serialize_yaml_entry key v indent =
       (spaces indent ++ key ++ lit ":") ::
       repeat (spaces indent ++ lit "  - null") (length items) /\
     serialize_yaml_value v indent = repeat (spaces indent ++ lit "- null") (length items)).
Proof.
  intros Hperm Htop. split; [|intros; by apply mappings_in_lists_are_lost].
  unfold set_yaml_values. rewrite Htop.
  destruct (set_yaml_lines_spec hash_iter Hperm top changes) as (ls & Hls & ->). by exists ls.
Qed.

(** Every game that the YAML can be shows the numbers of the analysis to the rules, under keys of
    their own; the other options of its section, and the sections of other games, stay as the
    triggers left them. *)
Theorem analysis_visible (hash_iter : gmap str Y -> list (str * Y)) (yaml : Y) (game : str)
    (a : YamlAnalysisStatus) (g : str) (section : Y) :
  as_mapping_get (resolve_triggers hash_iter yaml) g = Some section ->
  yaml_kind section = YMapping ->
  let '(resolved, games) := prepare hash_iter yaml game (Some a) in
  (g ∈ games -> exists section', as_mapping_get resolved g = Some section' /\
     annotated a section section') /\
  (g ∉ games -> as_mapping_get resolved g = Some section).
Proof.
  intros Hg Hk. unfold prepare. split; intros Hin.
  - by apply fold_analysis_same.
  - by rewrite fold_analysis_other.
Qed.
End theorems.

(** ** Examples

    A player who lets the game roll a number of deaths, and who plans an item for another player. *)

Definition ex_section : doc := DMap [
  (DStr (lit "mode"), DStr (lit "hard"));
  (DStr (lit "deaths"), DStr (lit "random-range-2-7"));
  (DStr (lit "plando_items"), DSeq [DMap [(DStr (lit "world"), DStr (lit "Bob"))]])].

Definition ex_doc : doc := DMap [
  (DStr (lit "name"), DStr (lit "Ann"));
  (DStr (lit "game"), DStr (lit "Game"));
  (DStr (lit "Game"), ex_section)].

#[local] Instance ex_yaml : YamlOps doc := doc_ops [(lit "document", [ex_doc])].
#[local] Instance ex_regex : RegexOps str str := search_ops.
#[local] Instance ex_lower : Lowercase := ascii_lowercase.

Definition ex_info : BulkYamlInfo := {|
  bulk_id := lit "1"; bulk_player_name := lit "Ann"; bulk_discord_handle := [];
  bulk_discord_id := []; bulk_game := lit "Game"; bulk_content := lit "document";
  bulk_created_at := []; bulk_last_edited_by_name := None; bulk_last_edited_at := None |}.

(** No more than five deaths on the hard mode. *)
Definition ex_rule : Rule := {|
  rule_name_ := lit "deaths"; rule_game := None;
  rule_when := Some (Check (lit "mode") (Equals (lit "hard")));
  rule_then := Check (lit "deaths") (GreaterThan 5); rule_severity := SevWarning |}.

Definition ex_room : list RoomYaml :=
  [{| ry_player_name := lit "Ann" |}; {| ry_player_name := lit "Bob" |}].

Definition ex_analysis : YamlAnalysisStatus := {|
  ya_room_id := []; ya_yaml_id := lit "1"; ya_status := lit "done"; ya_success := 1;
  ya_total_checks := 120; ya_starting_checks := 7; ya_gen_ms := 900; ya_changed_at := 0 |}.

Definition ex_changes : gmap (str * str) doc := {[(lit "Game", lit "mode") := DStr (lit "easy")]}.

#[local] Instance ex_laws : YamlLaws doc.
Proof. apply doc_laws. Qed.


Lemma threads_irrelevant_witness :
  evaluate_all map_to_list [ex_info; ex_info] [∅; ∅] [ex_rule] builtin_rules [ex_analysis] =
  evaluate_all map_to_list [ex_info; ex_info] [∅; {[lit "a+" := lit "a+"]}] [ex_rule]
    builtin_rules [ex_analysis].
Proof.
  apply threads_irrelevant; [done|done| |].
  - repeat constructor; apply cache_good_empty.
  - constructor; [apply cache_good_empty|]. constructor; [|constructor]. split.
    + intros p re [<- <-]%lookup_singleton_Some. reflexivity.
    + rewrite map_size_singleton. unfold REGEX_CACHE_MAX_ENTRIES. lia.
Defined.

Lemma random_range_exact_witness :
  exists verdict,
    gives (evaluate_check (DStr (lit "random-range-2-7")) (GreaterThan 5)) (Ok verdict) /\
    (verdict = true <->
     exists u, (2 <= u <= 7)%Z /\ gives (evaluate_check (of_integer u) (GreaterThan 5)) (Ok true)).
Proof. apply random_range_exact; [vm_compute; reflexivity|exact I]. Defined.

Lemma rebuilt_document_exact_witness :
  (exists sections,
     Forall2 (section_lines ex_changes)
       [(DStr (lit "name"), DStr (lit "Ann")); (DStr (lit "game"), DStr (lit "Game"));
        (DStr (lit "Game"), ex_section)] sections) /\
  serialize_yaml_entry (lit "plando_items") (DSeq [DMap [(DStr (lit "world"), DStr (lit "Bob"))]]) 2 =
    [lit "  plando_items:"; lit "    - null"].
Proof.
  destruct (rebuilt_document_exact (YO := ex_yaml) map_to_list ex_doc _ ex_changes
    (fun m => reflexivity _) eq_refl) as ((sections & Hs & _) & Hlost).
  split; [exists sections; exact Hs|].
  destruct (Hlost (lit "plando_items") (DSeq [DMap [(DStr (lit "world"), DStr (lit "Bob"))]])
    [DMap [(DStr (lit "world"), DStr (lit "Bob"))]] 2%nat eq_refl) as [Hlines _].
  - by repeat constructor.
  - rewrite Hlines. vm_compute. reflexivity.
Defined.

Lemma analysis_visible_witness :
  exists section',
    as_mapping_get (prepare map_to_list ex_doc (lit "Game") (Some ex_analysis)).1 (lit "Game") =
      Some section' /\ annotated ex_analysis ex_section section'.
Proof.
  pose proof (analysis_visible (YO := ex_yaml) map_to_list ex_doc (lit "Game") ex_analysis (lit "Game") ex_section
    eq_refl eq_refl) as Hv.
  destruct (prepare map_to_list ex_doc (lit "Game") (Some ex_analysis)) as [resolved games] eqn:Ep.
  apply (proj1 Hv). vm_compute in Ep. injection Ep as _ <-. by left.
Defined.
