(* ===== verification/ReviewDb.v ===== *)
(** * The tables of the review tools, and who may

    [community-ap-tools/src/review/db.rs], [auth.rs] and [error.rs]: the tables, the queries on them,
    sessions, and the roles that requests ask for.  A request is a program that reads and writes the
    tables and may fail ([rm]); what it wrote before it failed stays.  A query is one step, and
    constraints of the schema are written out. *)

From S2P Require Import Prelude RustStd Apwm Yaml Review ReviewEval.

(** ** Answers *)

(** A status and a text; a handler that panics is answered by Rocket. *)
(* src: community-ap-tools/src/error.rs:11-15 Error *)
Inductive ToolError := Answered (status : N) (error : str) | ToolPanic.

(* src: community-ap-tools/src/error.rs:21-26 Error::from *)
Definition internal (e : str) : ToolError := Answered 500 e.
(* src: community-ap-tools/src/error.rs:29-34 forbidden *)
Definition forbidden (msg : str) : ToolError := Answered 403 msg.
(* src: community-ap-tools/src/error.rs:36-41 bad_request *)
Definition bad_request (msg : str) : ToolError := Answered 400 msg.
(* src: community-ap-tools/src/error.rs:43-48 not_found *)
Definition not_found (msg : str) : ToolError := Answered 404 msg.

Section db.
(** [J] is [serde_json::Value]. *)
Context {SV : SemVer} {J : Type}.

(** ** Rows *)

(* src: community-ap-tools/src/review/db.rs:25-33 ReviewPreset *)
Record ReviewPreset := {
  preset_id : Z; preset_name : str; preset_builtin_rules : J; preset_team : option Z; preset_ap_version : str }.
(* src: community-ap-tools/src/review/db.rs:35-40 PresetSummary *)
Record PresetSummary := { ps_id : Z; ps_name : str; ps_ap_version : str }.
(* src: community-ap-tools/src/review/db.rs:42-50 NewPreset *)
Record NewPreset := { np_name : str; np_builtin_rules : J; np_team : option Z; np_ap_version : str }.
(* src: community-ap-tools/src/review/db.rs:52-58 UpdatePreset *)
Record UpdatePreset := { up_name : option str; up_builtin_rules : option J; up_ap_version : option str }.
(* src: community-ap-tools/src/review/db.rs:60-70 PresetRule *)
Record PresetRule := {
  pr_id : Z; pr_preset : Z; pr_rule : J; pr_position : Z; pr_last_edited_by : option Z;
  pr_last_edited_at : option Z; pr_last_edited_by_name : option str }.
(* src: community-ap-tools/src/review/db.rs:72-81 NewPresetRule *)
Record NewPresetRule := {
  nr_preset : Z; nr_rule : J; nr_position : Z; nr_last_edited_by : option Z; nr_last_edited_at : option Z;
  nr_last_edited_by_name : option str }.
(* src: community-ap-tools/src/review/db.rs:83-91 UpdatePresetRule *)
Record UpdatePresetRule := {
  ur_rule : option J; ur_position : option Z; ur_last_edited_by : option Z; ur_last_edited_at : option Z;
  ur_last_edited_by_name : option str }.
(* src: community-ap-tools/src/review/db.rs:283-292 YamlReviewStatus *)
Record YamlReviewStatus := {
  rs_room : str; rs_yaml : str; rs_status : str; rs_changed_by : Z; rs_changed_at : Z; rs_changed_by_name : option str }.
(* src: community-ap-tools/src/review/db.rs:344-354 YamlReviewNote *)
Record YamlReviewNote := {
  note_id : Z; note_room : str; note_yaml : str; note_content : str; note_author : Z; note_author_name : option str;
  note_created_at : Z }.
(* src: community-ap-tools/src/review/db.rs:419-426 Team *)
Record Team := { team_id : Z; team_name : str; team_guild : Z }.
(* src: community-ap-tools/src/review/db.rs:435-443 TeamMember *)
Record TeamMember := { tm_team : Z; tm_user : Z; tm_username : option str; tm_role : str }.
(* src: community-ap-tools/src/review/db.rs:454-460 TeamRoom *)
Record TeamRoom := { tr_team : Z; tr_room : str; tr_name : str }.

(** The tables by their primary keys, and the next number of each sequence.  [lobby_rooms] and
    [lobby_yamls] are tables of the lobby that are read here: the version of a room, and the room and
    the releases of a YAML. *)
(* src: community-ap-tools/src/schema.rs:3-91 schema *)
Record Tables := {
  presets : gmap Z ReviewPreset;
  preset_rules : gmap Z PresetRule;
  room_config : gmap str Z;
  review_status : gmap (str * str) YamlReviewStatus;
  notes : gmap Z YamlReviewNote;
  teams : gmap Z Team;
  members : gmap (Z * Z) TeamMember;
  team_rooms : gmap (Z * str) TeamRoom;
  analysis : gmap (str * str) YamlAnalysisStatus;
  lobby_rooms : gmap str str;
  lobby_yamls : gmap str (str * str);
  next_preset : Z; next_rule : Z; next_note : Z; next_team : Z;
}.

Definition with_presets f (t : Tables) : Tables :=
  {| presets := f (presets t); preset_rules := preset_rules t; room_config := room_config t;
     review_status := review_status t; notes := notes t; teams := teams t; members := members t;
     team_rooms := team_rooms t; analysis := analysis t; lobby_rooms := lobby_rooms t; lobby_yamls := lobby_yamls t;
     next_preset := next_preset t; next_rule := next_rule t; next_note := next_note t; next_team := next_team t |}.
Definition with_preset_rules f (t : Tables) : Tables :=
  {| presets := presets t; preset_rules := f (preset_rules t); room_config := room_config t;
     review_status := review_status t; notes := notes t; teams := teams t; members := members t;
     team_rooms := team_rooms t; analysis := analysis t; lobby_rooms := lobby_rooms t; lobby_yamls := lobby_yamls t;
     next_preset := next_preset t; next_rule := next_rule t; next_note := next_note t; next_team := next_team t |}.
Definition with_room_config f (t : Tables) : Tables :=
  {| presets := presets t; preset_rules := preset_rules t; room_config := f (room_config t);
     review_status := review_status t; notes := notes t; teams := teams t; members := members t;
     team_rooms := team_rooms t; analysis := analysis t; lobby_rooms := lobby_rooms t; lobby_yamls := lobby_yamls t;
     next_preset := next_preset t; next_rule := next_rule t; next_note := next_note t; next_team := next_team t |}.
Definition with_review_status f (t : Tables) : Tables :=
  {| presets := presets t; preset_rules := preset_rules t; room_config := room_config t;
     review_status := f (review_status t); notes := notes t; teams := teams t; members := members t;
     team_rooms := team_rooms t; analysis := analysis t; lobby_rooms := lobby_rooms t; lobby_yamls := lobby_yamls t;
     next_preset := next_preset t; next_rule := next_rule t; next_note := next_note t; next_team := next_team t |}.
Definition with_notes f (t : Tables) : Tables :=
  {| presets := presets t; preset_rules := preset_rules t; room_config := room_config t;
     review_status := review_status t; notes := f (notes t); teams := teams t; members := members t;
     team_rooms := team_rooms t; analysis := analysis t; lobby_rooms := lobby_rooms t; lobby_yamls := lobby_yamls t;
     next_preset := next_preset t; next_rule := next_rule t; next_note := next_note t; next_team := next_team t |}.
Definition with_teams f (t : Tables) : Tables :=
  {| presets := presets t; preset_rules := preset_rules t; room_config := room_config t;
     review_status := review_status t; notes := notes t; teams := f (teams t); members := members t;
     team_rooms := team_rooms t; analysis := analysis t; lobby_rooms := lobby_rooms t; lobby_yamls := lobby_yamls t;
     next_preset := next_preset t; next_rule := next_rule t; next_note := next_note t; next_team := next_team t |}.
Definition with_members f (t : Tables) : Tables :=
  {| presets := presets t; preset_rules := preset_rules t; room_config := room_config t;
     review_status := review_status t; notes := notes t; teams := teams t; members := f (members t);
     team_rooms := team_rooms t; analysis := analysis t; lobby_rooms := lobby_rooms t; lobby_yamls := lobby_yamls t;
     next_preset := next_preset t; next_rule := next_rule t; next_note := next_note t; next_team := next_team t |}.
Definition with_team_rooms f (t : Tables) : Tables :=
  {| presets := presets t; preset_rules := preset_rules t; room_config := room_config t;
     review_status := review_status t; notes := notes t; teams := teams t; members := members t;
     team_rooms := f (team_rooms t); analysis := analysis t; lobby_rooms := lobby_rooms t; lobby_yamls := lobby_yamls t;
     next_preset := next_preset t; next_rule := next_rule t; next_note := next_note t; next_team := next_team t |}.
Definition with_analysis_table f (t : Tables) : Tables :=
  {| presets := presets t; preset_rules := preset_rules t; room_config := room_config t;
     review_status := review_status t; notes := notes t; teams := teams t; members := members t;
     team_rooms := team_rooms t; analysis := f (analysis t); lobby_rooms := lobby_rooms t; lobby_yamls := lobby_yamls t;
     next_preset := next_preset t; next_rule := next_rule t; next_note := next_note t; next_team := next_team t |}.
(** The sequences of presets, rules, notes and teams. *)
Definition with_next (p r n m : Z) (t : Tables) : Tables :=
  {| presets := presets t; preset_rules := preset_rules t; room_config := room_config t;
     review_status := review_status t; notes := notes t; teams := teams t; members := members t;
     team_rooms := team_rooms t; analysis := analysis t; lobby_rooms := lobby_rooms t; lobby_yamls := lobby_yamls t;
     next_preset := p; next_rule := r; next_note := n; next_team := m |}.

(** ** Requests *)

Definition rm (A : Type) : Type := Tables -> result ToolError A * Tables.
#[export] Instance rm_ret : MRet rm := fun A a t => (Ok a, t).
#[export] Instance rm_bind : MBind rm := fun A B f m t =>
  match m t with (Ok a, t) => f a t | (Err e, t) => (Err e, t) end.

Definition refuse {A} (e : ToolError) : rm A := fun t => (Err e, t).
Definition select {A} (f : Tables -> A) : rm A := fun t => (Ok (f t), t).
Definition write (f : Tables -> Tables) : rm unit := fun t => (Ok tt, f t).
Definition checked {A} (r : result ToolError A) : rm A := fun t => (r, t).
(** [get_result] without a row. *)
Definition row {A} (o : option A) : rm A := checked (ok_or o (internal (lit "Record not found"))).
Definition violates {A} (constraint : string) : rm A := refuse (internal (lit constraint)).
Definition ensure (b : bool) (e : ToolError) : rm unit := if b then mret tt else refuse e.

(** A number that no row has had; the sequence is of [i32]. *)
Definition max_id : Z := 2147483647.
Definition nextval (get : Tables -> Z) (set : Z -> Tables -> Tables) : rm Z := fun t =>
  if (get t <=? max_id)%Z then (Ok (get t), set (get t + 1)%Z t)
  else (Err (internal (lit "nextval: reached maximum value of sequence")), t).

(** A primary key is that of one row. *)
Definition unused {A} (table : Tables -> gmap Z A) (id : Z) : rm unit :=
  taken ← select (fun t => bool_decide (is_Some (table t !! id)));
  if taken : bool then violates "duplicate key value violates unique constraint" else mret tt.

Definition values {K A} `{Countable K} (m : gmap K A) : list A := snd <$> map_to_list m.

(** The database's order of texts. *)
Context (collate : str -> str -> bool).

(** ** Presets *)

Definition summary (p : ReviewPreset) : PresetSummary :=
  {| ps_id := preset_id p; ps_name := preset_name p; ps_ap_version := preset_ap_version p |}.
Definition by_preset_name (ps : list ReviewPreset) : list PresetSummary :=
  summary <$> sort_by (fun a b => collate (preset_name a) (preset_name b)) ps.

(* src: community-ap-tools/src/review/db.rs:118-137 list_presets *)
Definition list_presets : rm (list PresetSummary) := select (fun t => by_preset_name (values (presets t))).

(* src: community-ap-tools/src/review/db.rs:139-148 get_preset *)
Definition get_preset (id : Z) : rm ReviewPreset := p ← select (fun t => presets t !! id); row p.

(** The name is unique and the team is one. *)
Definition preset_constraints (id : Z) (p : ReviewPreset) : rm unit :=
  taken ← select (fun t => existsb (fun q => str_eqb (preset_name q) (preset_name p) && negb (preset_id q =? id)%Z)
                             (values (presets t)));
  known ← select (fun t => match preset_team p with Some team => bool_decide (is_Some (teams t !! team)) | None => true end);
  if taken : bool then violates "duplicate key value violates unique constraint"
  else if negb known then violates "insert or update violates foreign key constraint"
  else mret tt.

(* src: community-ap-tools/src/review/db.rs:150-159 create_preset *)
Definition create_preset (n : NewPreset) : rm ReviewPreset :=
  id ← nextval next_preset (fun p t => with_next p (next_rule t) (next_note t) (next_team t) t);
  let p := {| preset_id := id; preset_name := np_name n; preset_builtin_rules := np_builtin_rules n;
              preset_team := np_team n; preset_ap_version := np_ap_version n |} in
  _ ← unused presets id;
  _ ← preset_constraints id p;
  _ ← write (with_presets <[id := p]>);
  mret p.

(** Absent fields stay; a change of nothing is an error of [diesel]. *)
(* src: community-ap-tools/src/review/db.rs:161-171 update_preset *)
Definition update_preset (id : Z) (u : UpdatePreset) : rm ReviewPreset :=
  match up_name u, up_builtin_rules u, up_ap_version u with
  | None, None, None => violates "There are no changes to save. This query cannot be built"
  | _, _, _ =>
      p ← get_preset id;
      let p := {| preset_id := id; preset_name := default (preset_name p) (up_name u);
                  preset_builtin_rules := default (preset_builtin_rules p) (up_builtin_rules u);
                  preset_team := preset_team p; preset_ap_version := default (preset_ap_version p) (up_ap_version u) |} in
      _ ← preset_constraints id p;
      _ ← write (with_presets <[id := p]>);
      mret p
  end.

(** With its rules and the rooms that use it. *)
Definition drop_presets (gone : Z -> bool) (t : Tables) : Tables :=
  with_presets (filter (fun e => gone e.1 = false))
    (with_preset_rules (filter (fun e => gone (pr_preset e.2) = false))
       (with_room_config (filter (fun e => gone e.2 = false)) t)).
(* src: community-ap-tools/src/review/db.rs:173-178 delete_preset *)
Definition delete_preset (id : Z) : rm unit := write (drop_presets (fun p => p =? id)%Z).

(* src: community-ap-tools/src/review/db.rs:180-190 list_rules_for_preset *)
Definition list_rules_for_preset (id : Z) : rm (list PresetRule) :=
  select (fun t => sort_by (fun a b => (pr_position a <=? pr_position b)%Z)
                     (List.filter (fun r => (pr_preset r =? id)%Z) (values (preset_rules t)))).

(* src: community-ap-tools/src/review/db.rs:192-201 create_rule *)
Definition create_rule (n : NewPresetRule) : rm PresetRule :=
  id ← nextval next_rule (fun r t => with_next (next_preset t) r (next_note t) (next_team t) t);
  _ ← unused preset_rules id;
  known ← select (fun t => bool_decide (is_Some (presets t !! nr_preset n)));
  if negb known then violates "insert or update violates foreign key constraint"
  else
    let r := {| pr_id := id; pr_preset := nr_preset n; pr_rule := nr_rule n; pr_position := nr_position n;
                pr_last_edited_by := nr_last_edited_by n; pr_last_edited_at := nr_last_edited_at n;
                pr_last_edited_by_name := nr_last_edited_by_name n |} in
    _ ← write (with_preset_rules <[id := r]>);
    mret r.

Definition rule_of_preset (t : Tables) (preset id : Z) : option PresetRule :=
  r ← preset_rules t !! id; if (pr_preset r =? preset)%Z then Some r else None.

Definition or_else {A} (o : option A) (a : option A) : option A := match o with Some _ => o | None => a end.

(* src: community-ap-tools/src/review/db.rs:203-218 update_rule *)
Definition update_rule (preset id : Z) (u : UpdatePresetRule) : rm PresetRule :=
  r ← select (fun t => rule_of_preset t preset id);
  r ← row r;
  let r := {| pr_id := id; pr_preset := preset; pr_rule := default (pr_rule r) (ur_rule u);
              pr_position := default (pr_position r) (ur_position u);
              pr_last_edited_by := or_else (ur_last_edited_by u) (pr_last_edited_by r);
              pr_last_edited_at := or_else (ur_last_edited_at u) (pr_last_edited_at r);
              pr_last_edited_by_name := or_else (ur_last_edited_by_name u) (pr_last_edited_by_name r) |} in
  _ ← write (with_preset_rules <[id := r]>);
  mret r.

(* src: community-ap-tools/src/review/db.rs:220-233 delete_rule *)
Definition delete_rule (preset id : Z) : rm unit :=
  write (with_preset_rules (filter (fun e => e.1 <> id \/ pr_preset e.2 <> preset))).

(** ** Rooms *)

(* src: community-ap-tools/src/review/db.rs:249-259 get_room_config *)
Definition get_room_config (room : str) : rm (option Z) := select (fun t => room_config t !! room).
(* src: community-ap-tools/src/review/db.rs:261-274 set_room_preset *)
Definition set_room_preset (room : str) (preset : Z) : rm unit :=
  known ← select (fun t => bool_decide (is_Some (presets t !! preset)));
  if negb known then violates "insert or update violates foreign key constraint"
  else write (with_room_config <[room := preset]>).
(* src: community-ap-tools/src/review/db.rs:276-281 remove_room_preset *)
Definition remove_room_preset (room : str) : rm unit := write (with_room_config (delete room)).

(* src: community-ap-tools/src/review/db.rs:304-313 get_review_statuses *)
Definition get_review_statuses (room : str) : rm (list YamlReviewStatus) :=
  select (fun t => List.filter (fun s => str_eqb (rs_room s) room) (values (review_status t))).

Definition valid_statuses : list str := [lit "unreviewed"; lit "reported"; lit "ok"; lit "nok"].

(** [now] is the database's clock. *)
Context (now : Z).

(* src: community-ap-tools/src/review/db.rs:315-342 set_review_status *)
Definition set_review_status (room yaml status : str) (user : Z) (username : str) : rm YamlReviewStatus :=
  if negb (bool_decide (status ∈ valid_statuses)) then violates "violates check constraint"
  else
    let s := {| rs_room := room; rs_yaml := yaml; rs_status := status; rs_changed_by := user; rs_changed_at := now;
                rs_changed_by_name := Some username |} in
    _ ← write (with_review_status <[(room, yaml) := s]>);
    mret s.

(* src: community-ap-tools/src/review/db.rs:366-378 get_notes *)
Definition get_notes (room yaml : str) : rm (list YamlReviewNote) :=
  select (fun t => sort_by (fun a b => (note_created_at a <=? note_created_at b)%Z)
    (List.filter (fun n => str_eqb (note_room n) room && str_eqb (note_yaml n) yaml) (values (notes t)))).

(* src: community-ap-tools/src/review/db.rs:380-399 add_note *)
Definition add_note (room yaml content : str) (author : Z) (author_name : str) : rm YamlReviewNote :=
  id ← nextval next_note (fun n t => with_next (next_preset t) (next_rule t) n (next_team t) t);
  _ ← unused notes id;
  let n := {| note_id := id; note_room := room; note_yaml := yaml; note_content := content; note_author := author;
              note_author_name := Some author_name; note_created_at := now |} in
  _ ← write (with_notes <[id := n]>);
  mret n.

(** How many rows went. *)
(* src: community-ap-tools/src/review/db.rs:401-415 delete_note *)
Definition delete_note (id : Z) (room : str) (author : Z) : rm nat :=
  n ← select (fun t => notes t !! id);
  match n with
  | Some n =>
      if str_eqb (note_room n) room && (note_author n =? author)%Z then _ ← write (with_notes (delete id)); mret 1
      else mret 0
  | None => mret 0
  end.

(** ** Teams *)

(* src: community-ap-tools/src/review/db.rs:470-476 list_teams *)
Definition list_teams : rm (list Team) :=
  select (fun t => sort_by (fun a b => collate (team_name a) (team_name b)) (values (teams t))).

(* src: community-ap-tools/src/review/db.rs:478-484 create_team *)
Definition create_team (name : str) (guild : Z) : rm Team :=
  id ← nextval next_team (fun m t => with_next (next_preset t) (next_rule t) (next_note t) m t);
  _ ← unused teams id;
  taken ← select (fun t => existsb (fun q => str_eqb (team_name q) name) (values (teams t)));
  if taken : bool then violates "duplicate key value violates unique constraint"
  else
    let team := {| team_id := id; team_name := name; team_guild := guild |} in
    _ ← write (with_teams <[id := team]>);
    mret team.

(** With its members, rooms and presets. *)
(* src: community-ap-tools/src/review/db.rs:486-488 delete_team *)
Definition delete_team (id : Z) : rm unit := write (fun t =>
  let gone p := match presets t !! p with Some p => bool_decide (preset_team p = Some id) | None => false end in
  with_teams (delete id) (with_members (filter (fun e => e.1.1 <> id)) (with_team_rooms (filter (fun e => e.1.1 <> id))
    (drop_presets gone t)))).

(* src: community-ap-tools/src/review/db.rs:490-500 list_team_members *)
Definition list_team_members (team : Z) : rm (list TeamMember) :=
  select (fun t => sort_by (fun a b => match tm_username a, tm_username b with
                                       | Some a, Some b => collate a b
                                       | _, None => true
                                       | None, Some _ => false
                                       end)
    (List.filter (fun m => (tm_team m =? team)%Z) (values (members t)))).

(** The schema's check of a role. *)
Definition known_roles : list str :=
  [lit "viewer"; lit "reviewer"; lit "rule_editor"; lit "editor"; lit "moderator"; lit "admin"].

(** A member that is there already gets the role and the name. *)
(* src: community-ap-tools/src/review/db.rs:502-525 add_team_member *)
Definition add_team_member (team user : Z) (username : option str) (role : str) : rm TeamMember :=
  known ← select (fun t => bool_decide (is_Some (teams t !! team)));
  if negb (bool_decide (role ∈ known_roles)) then violates "violates check constraint"
  else if negb known then violates "insert or update violates foreign key constraint"
  else
    let m := {| tm_team := team; tm_user := user; tm_username := username; tm_role := role |} in
    _ ← write (with_members <[(team, user) := m]>);
    mret m.

(* src: community-ap-tools/src/review/db.rs:527-535 remove_team_member *)
Definition remove_team_member (team user : Z) : rm unit := write (with_members (delete (team, user))).

(* src: community-ap-tools/src/review/db.rs:537-548 update_team_member_role *)
Definition update_team_member_role (team user : Z) (role : str) : rm TeamMember :=
  m ← select (fun t => members t !! (team, user));
  m ← row m;
  if negb (bool_decide (role ∈ known_roles)) then violates "violates check constraint"
  else
    let m := {| tm_team := team; tm_user := user; tm_username := tm_username m; tm_role := role |} in
    _ ← write (with_members <[(team, user) := m]>);
    mret m.

(* src: community-ap-tools/src/review/db.rs:550-559 list_team_rooms *)
Definition list_team_rooms (team : Z) : rm (list TeamRoom) :=
  select (fun t => List.filter (fun r => (tr_team r =? team)%Z) (values (team_rooms t))).

(* src: community-ap-tools/src/review/db.rs:561-579 add_team_room *)
Definition add_team_room (team : Z) (room name : str) : rm TeamRoom :=
  known ← select (fun t => bool_decide (is_Some (teams t !! team)));
  if negb known then violates "insert or update violates foreign key constraint"
  else
    let r := {| tr_team := team; tr_room := room; tr_name := name |} in
    _ ← write (with_team_rooms <[(team, room) := r]>);
    mret r.

(* src: community-ap-tools/src/review/db.rs:581-595 update_room_name *)
Definition update_room_name (room name : str) : rm unit :=
  write (with_team_rooms (fmap (fun r =>
    if str_eqb (tr_room r) room && negb (str_eqb (tr_name r) name)
    then {| tr_team := tr_team r; tr_room := tr_room r; tr_name := name |} else r))).

(* src: community-ap-tools/src/review/db.rs:597-605 remove_team_room *)
Definition remove_team_room (team : Z) (room : str) : rm unit := write (with_team_rooms (delete (team, room))).

(** ** Roles *)

Definition user_teams (t : Tables) (user : Z) : list (Team * TeamMember) :=
  omap (fun m => if (tm_user m =? user)%Z then team ← teams t !! tm_team m; Some (team, m) else None) (values (members t)).
(* src: community-ap-tools/src/review/db.rs:607-617 get_user_teams *)
Definition get_user_teams (user : Z) : rm (list (Team * TeamMember)) := select (fun t => user_teams t user).

(** [Option<Role>] is ordered with [None] first. *)
Definition role_leb (a b : Role) : bool := (role_rank a <=? role_rank b)%nat.
Definition at_least (minimum : Role) (r : option Role) : bool :=
  match r with Some r => role_leb minimum r | None => false end.

(** The last of the greatest. *)
Definition max_role (rs : list Role) : option Role :=
  fold_left (fun best r => match best with
                           | Some b => if role_leb b r then Some r else Some b
                           | None => Some r
                           end) rs None.

Definition member_role (m : TeamMember) : option Role := ok (role_from_str (tm_role m)).

(* src: community-ap-tools/src/review/db.rs:619-632 get_user_role_for_team *)
Definition get_user_role_for_team (user team : Z) : rm (option Role) :=
  select (fun t => m ← members t !! (team, user); member_role m).

(** The roles in the teams that have the room. *)
Definition room_roles (t : Tables) (user : Z) (room : str) : list Role :=
  omap (fun m => if (tm_user m =? user)%Z && bool_decide (is_Some (team_rooms t !! (tm_team m, room)))
                 then member_role m else None) (values (members t)).
(* src: community-ap-tools/src/review/db.rs:666-680 get_user_role_for_room *)
Definition get_user_role_for_room (user : Z) (room : str) : rm (option Role) :=
  select (fun t => max_role (room_roles t user room)).

Definition preset_roles (t : Tables) (user preset : Z) : list Role :=
  omap (fun m => p ← presets t !! preset;
                 if (tm_user m =? user)%Z && bool_decide (preset_team p = Some (tm_team m)) then member_role m else None)
    (values (members t)).
(* src: community-ap-tools/src/review/db.rs:682-698 get_user_role_for_preset *)
Definition get_user_role_for_preset (user preset : Z) : rm (option Role) :=
  select (fun t => max_role (preset_roles t user preset)).

(* src: community-ap-tools/src/review/db.rs:713-736 list_presets_for_teams *)
Definition list_presets_for_teams (ids : list Z) : rm (list PresetSummary) :=
  select (fun t => by_preset_name (List.filter (fun p => match preset_team p with
                                                         | Some team => bool_decide (team ∈ ids)
                                                         | None => false
                                                         end) (values (presets t)))).

(* src: community-ap-tools/src/review/db.rs:700-711 list_presets_for_user *)
Definition list_presets_for_user (user : Z) (super : bool) : rm (list PresetSummary) :=
  if super then list_presets
  else ts ← get_user_teams user; list_presets_for_teams ((fun e => team_id e.1) <$> ts).

(** A room once, under one of its names. *)
(* src: community-ap-tools/src/review/db.rs:639-648 list_all_rooms *)
Definition list_all_rooms : rm (list (str * str)) :=
  select (fun t => map_to_list (list_to_map (M := gmap str str)
                     ((fun r => (tr_room r, tr_name r)) <$> values (team_rooms t)))).
(* src: community-ap-tools/src/review/db.rs:650-664 list_user_rooms *)
Definition list_user_rooms (user : Z) : rm (list (str * str)) :=
  select (fun t => map_to_list (list_to_map (M := gmap str str)
    ((fun r => (tr_room r, tr_name r)) <$>
       List.filter (fun r => bool_decide (is_Some (members t !! (tr_team r, user)))) (values (team_rooms t))))).

(** ** Analyses *)

(* src: community-ap-tools/src/review/db.rs:738-771 set_yaml_analysis_status *)
Definition set_yaml_analysis_status (room yaml status : str) (success total_checks starting_checks gen_ms : Z) :
    rm YamlAnalysisStatus :=
  let a := {| ya_room_id := room; ya_yaml_id := yaml; ya_status := status; ya_success := success;
              ya_total_checks := total_checks; ya_starting_checks := starting_checks; ya_gen_ms := gen_ms;
              ya_changed_at := now |} in
  _ ← write (with_analysis_table <[(room, yaml) := a]>);
  mret a.
(* src: community-ap-tools/src/review/db.rs:773-784 get_yaml_analysis_status *)
Definition get_yaml_analysis_status (room yaml : str) : rm (option YamlAnalysisStatus) :=
  select (fun t => analysis t !! (room, yaml)).
(* src: community-ap-tools/src/review/db.rs:786-795 get_room_analysis_statuses *)
Definition get_room_analysis_statuses (room : str) : rm (list YamlAnalysisStatus) :=
  select (fun t => List.filter (fun a => str_eqb (ya_room_id a) room) (values (analysis t))).
(* src: community-ap-tools/src/review/db.rs:803-815 get_room_ap_version *)
Definition get_room_ap_version (room : str) : rm (option Version) :=
  select (fun t => v ← lobby_rooms t !! room; ok (version_parse v)).
(* src: community-ap-tools/src/review/db.rs:817-830 reset_yaml_analysis_status *)
Definition reset_yaml_analysis_status (room yaml : str) : rm unit :=
  write (with_analysis_table (delete (room, yaml))).
(* src: community-ap-tools/src/review/db.rs:832-840 UnanalyzedYamlRow *)
Record UnanalyzedYamlRow := { ua_room : str; ua_yaml : str; ua_apworlds_json : str }.
(** YAMLs of rooms of teams, on a version, that have no analysis. *)
(* src: community-ap-tools/src/review/db.rs:842-863 get_unanalyzed_yamls *)
Definition get_unanalyzed_yamls (base : Version) : rm (list UnanalyzedYamlRow) :=
  select (fun t => omap (fun e : str * (str * str) =>
    let '(yaml, (room, apworlds)) := e in
    version ← lobby_rooms t !! room;
    if str_eqb version (version_to_string base) &&
       existsb (fun r => str_eqb (tr_room r) room) (values (team_rooms t)) &&
       bool_decide (analysis t !! (room, yaml) = None)
    then Some {| ua_room := room; ua_yaml := yaml; ua_apworlds_json := apworlds |} else None)
    (map_to_list (lobby_yamls t))).
(* src: community-ap-tools/src/review/db.rs:865-878 get_yaml_apworlds *)
Definition get_yaml_apworlds (yaml : str) : rm str :=
  y ← select (fun t => lobby_yamls t !! yaml); y ← row y; mret y.2.

(** ** Sessions *)

(* src: community-ap-tools/src/auth.rs:24-32 Session *)
Record ToolSession := {
  ts_user_id : option Z; ts_username : option str; ts_logged_in : bool; ts_redirect : option str; ts_super_admin : bool }.

Definition nobody : ToolSession :=
  {| ts_user_id := None; ts_username := None; ts_logged_in := false; ts_redirect := None; ts_super_admin := false |}.

(** The session of the cookie, and whether the cookie is thrown away. *)
(* src: community-ap-tools/src/auth.rs:35-61 Session::from_request_sync *)
Definition session_of_cookie (from_json : str -> option ToolSession) (cookie : option str) : ToolSession * bool :=
  match cookie with
  | Some text => match from_json text with Some s => (s, false) | None => (nobody, true) end
  | None => (nobody, false)
  end.

(** The guards, by the status that they refuse with. *)
(* src: community-ap-tools/src/auth.rs:172-180 LoggedInSession::from_request *)
Definition logged_in_session (s : ToolSession) : result ToolError ToolSession :=
  if ts_logged_in s then Ok s else Err (Answered 401 (lit "Not logged in")).
(* src: community-ap-tools/src/auth.rs:241-253 AdminSession::from_request *)
Definition admin_session (s : ToolSession) : result ToolError ToolSession :=
  if negb (ts_logged_in s) then Err (Answered 401 (lit "Not logged in"))
  else if negb (ts_super_admin s) then Err (forbidden (lit "Forbidden"))
  else Ok s.

(* src: community-ap-tools/src/auth.rs:80-82 LoggedInSession::user_id *)
Definition session_user (s : ToolSession) : result ToolError Z := ok_or (ts_user_id s) ToolPanic.
(* src: community-ap-tools/src/auth.rs:84-86 LoggedInSession::username *)
Definition session_username (s : ToolSession) : str := default (lit "Unknown") (ts_username s).

Definition require (s : ToolSession) (minimum : Role) (role : Z -> rm (option Role)) : rm unit :=
  if ts_super_admin s then mret tt
  else
    user ← checked (session_user s);
    role ← role user;
    ensure (at_least minimum role) (forbidden (lit "Forbidden")).

(* src: community-ap-tools/src/auth.rs:92-106 LoggedInSession::require_room_role *)
Definition require_room_role (s : ToolSession) (room : str) (minimum : Role) : rm unit :=
  require s minimum (fun user => get_user_role_for_room user room).
(* src: community-ap-tools/src/auth.rs:108-122 LoggedInSession::require_team_role *)
Definition require_team_role (s : ToolSession) (team : Z) (minimum : Role) : rm unit :=
  require s minimum (fun user => get_user_role_for_team user team).
(* src: community-ap-tools/src/auth.rs:124-138 LoggedInSession::require_preset_role *)
Definition require_preset_role (s : ToolSession) (preset : Z) (minimum : Role) : rm unit :=
  require s minimum (fun user => get_user_role_for_preset user preset).

(** Who moderates a room: super administrators, its author and moderators of a team that has it.  The
    authors that were asked for are remembered in [owners]; [fetch_author] asks the lobby. *)
(* src: community-ap-tools/src/auth.rs:187-234 ModeratorSession::from_request *)
Definition moderator_session (fetch_author : str -> result ToolError Z) (owners : gmap str Z) (room : str)
    (s : ToolSession) : rm (gmap str Z) :=
  if negb (ts_logged_in s) then refuse (Answered 401 [])
  else if ts_super_admin s then mret owners
  else
    '(author, owners) ← checked (match owners !! room with
                                 | Some id => Ok (id, owners)
                                 | None => id ← fetch_author room; Ok (id, <[room := id]> owners)
                                 end);
    user ← checked (session_user s);
    if (user =? author)%Z then mret owners
    else _ ← require_room_role s room Moderator; mret owners.

(** A key of the tools, or a session; [key] is the header. *)
Inductive AnyAuth := BySession (s : ToolSession) | ByApiKey.
(* src: community-ap-tools/src/auth.rs:314-330 AnyAuth::from_request *)
Definition any_auth (api_key : str) (key : option str) (s : ToolSession) : result ToolError AnyAuth :=
  match key with
  | Some k => if str_eqb k api_key then Ok ByApiKey else Err (forbidden (lit "Invalid or missing API key"))
  | None => BySession <$> logged_in_session s
  end.
(* src: community-ap-tools/src/auth.rs:334-344 AnyAuth::require_room_role *)
Definition any_require_room_role (a : AnyAuth) (room : str) (minimum : Role) : rm unit :=
  match a with ByApiKey => mret tt | BySession s => require_room_role s room minimum end.

(** ** Logging in *)

(* src: community-ap-tools/src/auth.rs:348-364 login *)
Definition login (redirect : option str) (s : ToolSession) : ToolSession :=
  match redirect with
  | Some r => if starts_with (lit "/") r
              then {| ts_user_id := ts_user_id s; ts_username := ts_username s; ts_logged_in := ts_logged_in s;
                      ts_redirect := Some r; ts_super_admin := ts_super_admin s |}
              else s
  | None => s
  end.

(* src: community-ap-tools/src/auth.rs:273-278 is_super_admin *)
Definition is_super_admin (user : Z) (admins : option (list Z)) : bool :=
  match admins with Some l => bool_decide (user ∈ l) | None => false end.

(** What Discord answered, its number and its name; the session that is saved and where it goes. *)
(* src: community-ap-tools/src/auth.rs:373-421 login_discord_callback *)
Definition login_discord_callback (admins : option (list Z)) (user : result ToolError (str * str)) (s : ToolSession) :
    result ToolError (ToolSession * str) :=
  '(id, name) ← user;
  discord_id ← ok_or (parse_i64 id) (internal (lit "invalid digit found in string"));
  Ok ({| ts_user_id := Some discord_id; ts_username := Some name; ts_logged_in := true; ts_redirect := ts_redirect s;
         ts_super_admin := is_super_admin discord_id admins |},
      default (lit "/") (ts_redirect s)).
End db.
Arguments Tables : clear implicits.
Arguments ReviewPreset : clear implicits.
Arguments NewPreset : clear implicits.
Arguments UpdatePreset : clear implicits.
Arguments PresetRule : clear implicits.
Arguments NewPresetRule : clear implicits.
Arguments UpdatePresetRule : clear implicits.
Arguments rm : clear implicits.
