(* ===== verification/ReviewApi.v ===== *)
(** * The requests of the review tools

    [community-ap-tools/src/review/api/] and [review/page.rs]: presets and their rules, teams, statuses
    and notes of YAMLs, what is passed on to the lobby, the evaluation of rooms, and the values of pages.
    A handler starts with the guard of its session.  The lobby answers over HTTP, and JSON is read by
    [serde_json] ([Outside]).  Then the analyses that are queued, with their keys in Redis. *)

From S2P Require Import Prelude RustStd WqCore Apwm Yaml Review ReviewTriggers ReviewEval ReviewDb.

(** A request to the lobby, with its key: the method, the path with a query, and the body. *)
Record LobbyCall := { call_method : str; call_path : str; call_query : list (str * str); call_body : option str }.

(** What is read by other crates, what the lobby answers, a status and a text, and where it is. *)
Record Outside {J : Type} := {
  parse_uuid : str -> option str;
  rule_from_value : J -> result str Rule;
  names_from_value : J -> result str (list str);
  value_from_str : str -> result str J;
  values_from_str : str -> result str (list J);
  text_at : J -> str -> option str;
  ask_lobby : LobbyCall -> result str (N * str);
  status_text : N -> str;
  room_from_str : str -> result str (str * Z);
  locked_from_str : str -> result str (str * bool);
  yamls_from_str : str -> result str (list BulkYamlInfo);
  detail_from_str : str -> result str J;
  edit_to_str : str -> Z -> str -> str;
  lobby_public_url : option str;
  lobby_root_url : str;
}.
Arguments Outside : clear implicits.

Section api.
Context {SV : SemVer} {J Y : Type} {YO : YamlOps Y} {R E : Type} {X : RegexOps R E} {LC : Lowercase}.
Context (out : Outside J) (collate : str -> str -> bool) (now : Z) (ap_versions : list Version).
Local Abbreviation rm := (rm J).

Definition internally {A} (r : result str A) : rm A := checked (map_err internal r).
Definition uuid (what : string) (s : str) : rm str :=
  checked (ok_or (parse_uuid out s) (bad_request (lit "Invalid " ++ lit what ++ lit " ID"))).

(** ** Presets *)

(* src: community-ap-tools/src/review/api/presets.rs:16-25 list_presets *)
Definition list_presets_route (s : ToolSession) : rm (list PresetSummary) :=
  s ← checked (logged_in_session s);
  user ← checked (session_user s);
  list_presets_for_user collate user (ts_super_admin s).

(* src: community-ap-tools/src/review/api/presets.rs:27-39 get_preset *)
Definition get_preset_route (s : ToolSession) (id : Z) : rm (ReviewPreset J) :=
  s ← checked (logged_in_session s);
  _ ← require_preset_role s id Viewer;
  get_preset id.

Definition supported_version (text : str) : rm unit :=
  match version_parse text with
  | Err _ => refuse (bad_request (lit "Invalid semver for ap_version"))
  | Ok v => ensure (bool_decide (v ∈ ap_versions))
              (bad_request (lit "ap_version is not in the list of supported versions"))
  end.

(* src: community-ap-tools/src/review/api/presets.rs:41-60 create_preset *)
Definition create_preset_route (s : ToolSession) (body : NewPreset J) : rm (ReviewPreset J) :=
  _ ← checked (admin_session s);
  _ ← supported_version (np_ap_version body);
  create_preset body.

(* src: community-ap-tools/src/review/api/presets.rs:62-84 update_preset *)
Definition update_preset_route (s : ToolSession) (id : Z) (body : UpdatePreset J) : rm (ReviewPreset J) :=
  _ ← checked (admin_session s);
  _ ← match up_ap_version body with Some v => supported_version v | None => mret tt end;
  update_preset id body.

(* src: community-ap-tools/src/review/api/presets.rs:86-95 delete_preset *)
Definition delete_preset_route (s : ToolSession) (id : Z) : rm unit :=
  _ ← checked (admin_session s); delete_preset id.

(* src: community-ap-tools/src/review/api/presets.rs:97-100 list_builtin_rules *)
Definition list_builtin_rules (s : ToolSession) : rm (list BuiltinRuleInfo) :=
  _ ← checked (logged_in_session s); mret builtin_rule_info.

(* src: community-ap-tools/src/review/api/presets.rs:102-114 list_preset_rules *)
Definition list_preset_rules (s : ToolSession) (id : Z) : rm (list (PresetRule J)) :=
  s ← checked (logged_in_session s);
  _ ← require_preset_role s id Viewer;
  list_rules_for_preset id.

(** A rule that can be read and is valid. *)
Definition valid_rule (v : J) : rm unit :=
  match rule_from_value out v with
  | Err e => refuse (internal (lit "Invalid rule: " ++ e))
  | Ok rule => internally (rule_validate rule)
  end.

Definition new_rule (s : ToolSession) (user : Z) (id : Z) (rule : J) (position : Z) : NewPresetRule J :=
  {| nr_preset := id; nr_rule := rule; nr_position := position; nr_last_edited_by := Some user;
     nr_last_edited_at := Some now; nr_last_edited_by_name := Some (session_username s) |}.

(* src: community-ap-tools/src/review/api/presets.rs:128-157 create_preset_rule *)
Definition create_preset_rule (s : ToolSession) (id : Z) (rule : J) (position : Z) : rm (PresetRule J) :=
  s ← checked (logged_in_session s);
  _ ← require_preset_role s id RuleEditor;
  _ ← valid_rule rule;
  user ← checked (session_user s);
  create_rule (new_rule s user id rule position).

(* src: community-ap-tools/src/review/api/presets.rs:159-192 update_preset_rule *)
Definition update_preset_rule (s : ToolSession) (id rule_id : Z) (rule : option J) (position : option Z) :
    rm (PresetRule J) :=
  s ← checked (logged_in_session s);
  _ ← require_preset_role s id RuleEditor;
  _ ← match rule with Some v => valid_rule v | None => mret tt end;
  user ← checked (session_user s);
  update_rule id rule_id
    {| ur_rule := rule; ur_position := position; ur_last_edited_by := Some user; ur_last_edited_at := Some now;
       ur_last_edited_by_name := Some (session_username s) |}.

(* src: community-ap-tools/src/review/api/presets.rs:194-207 delete_preset_rule *)
Definition delete_preset_rule (s : ToolSession) (id rule_id : Z) : rm unit :=
  s ← checked (logged_in_session s);
  _ ← require_preset_role s id RuleEditor;
  delete_rule id rule_id.

(** The rules are what the file has. *)
(* src: community-ap-tools/src/review/api/presets.rs:209-227 export_preset *)
Definition export_preset (s : ToolSession) (id : Z) : rm (list (PresetRule J) * str) :=
  s ← checked (logged_in_session s);
  _ ← require_preset_role s id Viewer;
  rules ← list_rules_for_preset id;
  mret (rules, lit "attachment; filename=" ++ [34%N] ++ lit "preset_" ++ Z_to_str id ++ lit "_rules.json" ++ [34%N]).

Fixpoint valid_rules (entries : list (J * Z)) : rm unit :=
  match entries with
  | [] => mret tt
  | e :: entries => _ ← valid_rule e.1; valid_rules entries
  end.

(** The user is asked for with each rule; rules that were added before one fails stay. *)
Fixpoint create_rules (s : ToolSession) (id : Z) (entries : list (J * Z)) : rm (list (PresetRule J)) :=
  match entries with
  | [] => mret []
  | e :: entries =>
      user ← checked (session_user s);
      r ← create_rule (new_rule s user id e.1 e.2);
      rs ← create_rules s id entries;
      mret (r :: rs)
  end.

(* src: community-ap-tools/src/review/api/presets.rs:235-276 import_preset *)
Definition import_preset (s : ToolSession) (id : Z) (entries : list (J * Z)) : rm (list (PresetRule J)) :=
  s ← checked (logged_in_session s);
  _ ← require_preset_role s id RuleEditor;
  _ ← valid_rules entries;
  create_rules s id entries.

(** ** Teams *)

Definition is_admin_member (m : TeamMember) : bool := at_least Admin (member_role m).

(* src: community-ap-tools/src/review/api/teams.rs:27-43 admin_list_teams *)
Definition admin_list_teams (s : ToolSession) : rm (list Team) :=
  s ← checked (logged_in_session s);
  if ts_super_admin s then list_teams collate
  else
    user ← checked (session_user s);
    ts ← get_user_teams user;
    mret (fst <$> List.filter (fun e => is_admin_member e.2) ts).

(* src: community-ap-tools/src/review/api/teams.rs:45-62 admin_create_team *)
Definition admin_create_team (s : ToolSession) (name : str) (guild : Z) : rm Team :=
  _ ← checked (admin_session s); create_team name guild.

(* src: community-ap-tools/src/review/api/teams.rs:64-73 admin_delete_team *)
Definition admin_delete_team (s : ToolSession) (id : Z) : rm unit :=
  _ ← checked (admin_session s); delete_team id.

(* src: community-ap-tools/src/review/api/teams.rs:75-86 admin_list_members *)
Definition admin_list_members (s : ToolSession) (team : Z) : rm (list TeamMember) :=
  s ← checked (logged_in_session s);
  _ ← require_team_role s team Admin;
  list_team_members collate team.

Definition parse_role (text : str) : rm Role :=
  checked (map_err (fun _ => bad_request (lit "Invalid role: " ++ text)) (role_from_str text)).

(* src: community-ap-tools/src/review/api/teams.rs:96-126 admin_add_member *)
Definition admin_add_member (s : ToolSession) (team user : Z) (username : option str) (role : str) : rm TeamMember :=
  s ← checked (logged_in_session s);
  _ ← require_team_role s team Admin;
  role ← parse_role role;
  if role_leb Moderator role && negb (ts_super_admin s) then
    refuse (forbidden (lit "Only super admins can assign the moderator or admin role"))
  else add_team_member team user username (role_as_str role).

(** The role that a member has can keep others from changing it. *)
Definition refuse_for_admin (team user : Z) (msg : string) : rm unit :=
  target_role ← get_user_role_for_team user team;
  if at_least Admin target_role then refuse (forbidden (lit msg)) else mret tt.

(* src: community-ap-tools/src/review/api/teams.rs:133-166 admin_update_member_role *)
Definition admin_update_member_role (s : ToolSession) (team user : Z) (role : str) : rm TeamMember :=
  s ← checked (logged_in_session s);
  _ ← require_team_role s team Admin;
  new_role ← parse_role role;
  _ ← (if ts_super_admin s then mret tt
       else if role_leb Admin new_role then
         refuse (forbidden (lit "Only super admins can assign the admin role"))
       else refuse_for_admin team user "Only super admins can modify admin members");
  update_team_member_role team user (role_as_str new_role).

(* src: community-ap-tools/src/review/api/teams.rs:168-189 admin_remove_member *)
Definition admin_remove_member (s : ToolSession) (team user : Z) : rm unit :=
  s ← checked (logged_in_session s);
  _ ← require_team_role s team Admin;
  _ ← (if ts_super_admin s then mret tt
       else refuse_for_admin team user "Only super admins can remove admin members");
  remove_team_member team user.

(* src: community-ap-tools/src/review/api/teams.rs:191-202 admin_list_rooms *)
Definition admin_list_rooms (s : ToolSession) (team : Z) : rm (list TeamRoom) :=
  s ← checked (logged_in_session s);
  _ ← require_team_role s team Admin;
  list_team_rooms team.

Definition room_call (room : str) : LobbyCall :=
  {| call_method := lit "GET"; call_path := lit "/api/room/" ++ room; call_query := []; call_body := None |}.
Definition success (status : N) : bool := (200 <=? status)%N && (status <? 300)%N.

(* src: community-ap-tools/src/review/api/teams.rs:209-245 admin_add_room *)
Definition admin_add_room (s : ToolSession) (team : Z) (room : str) : rm TeamRoom :=
  s ← checked (logged_in_session s);
  _ ← require_team_role s team Admin;
  '(status, text) ← internally (ask_lobby out (room_call room));
  if negb (success status) then refuse (not_found (lit "Room not found on the lobby"))
  else
    '(name, author) ← internally (room_from_str out text);
    allowed ← (if ts_super_admin s then mret true
               else user ← checked (session_user s); mret (author =? user)%Z);
    if negb allowed then refuse (forbidden (lit "You can only add rooms you own on the lobby"))
    else add_team_room team room name.

(* src: community-ap-tools/src/review/api/teams.rs:247-263 admin_remove_room *)
Definition admin_remove_room (s : ToolSession) (team : Z) (room : str) : rm unit :=
  s ← checked (logged_in_session s);
  room ← uuid "room" room;
  _ ← require_team_role s team Admin;
  remove_team_room team room.

(** ** Rooms and their YAMLs *)

(* src: community-ap-tools/src/review/api/review.rs:31-46 get_room_preset *)
Definition get_room_preset (s : ToolSession) (room : str) : rm (option Z) :=
  s ← checked (logged_in_session s);
  room ← uuid "room" room;
  _ ← require_room_role s room Viewer;
  get_room_config room.

(** Here a bad identifier is an internal error. *)
Definition uuid_or_500 (s : str) : rm str := internally (ok_or (parse_uuid out s) (lit "Invalid room ID")).
(* src: community-ap-tools/src/review/api/review.rs:48-59 set_room_preset *)
Definition set_room_preset_route (s : ToolSession) (room : str) (preset : Z) : rm unit :=
  _ ← checked (admin_session s);
  room ← uuid_or_500 room;
  set_room_preset room preset.
(* src: community-ap-tools/src/review/api/review.rs:61-71 remove_room_preset *)
Definition remove_room_preset_route (s : ToolSession) (room : str) : rm unit :=
  _ ← checked (admin_session s);
  room ← uuid_or_500 room;
  remove_room_preset room.

(** The version keeps the lobby from answering for its default one. *)
(* src: community-ap-tools/src/review/api/review.rs:79-84 preset_games_url *)
Definition preset_games_url (url_path base : str) : LobbyCall :=
  {| call_method := lit "GET"; call_path := url_path; call_query := [(lit "base", base)]; call_body := None |}.

(* src: community-ap-tools/src/review/api/review.rs:87-107 fetch_from_ap_version_games *)
Definition fetch_from_ap_version_games (ap_version url_path : str) : rm J :=
  '(status, text) ← internally (ask_lobby out (preset_games_url url_path ap_version));
  if negb (success status) then
    refuse (internal (lit "The lobby answered " ++ url_path ++ lit " with " ++ status_text out status ++ lit ": " ++ text))
  else internally (value_from_str out text).

(* src: community-ap-tools/src/review/api/review.rs:109-124 proxy_games *)
Definition proxy_games (s : ToolSession) (id : Z) : rm J :=
  s ← checked (logged_in_session s);
  _ ← require_preset_role s id Viewer;
  preset ← get_preset id;
  fetch_from_ap_version_games (preset_ap_version preset) (lit "/api/games").

(* src: community-ap-tools/src/review/api/review.rs:127-144 proxy_game_options *)
Definition proxy_game_options (s : ToolSession) (id : Z) (apworld : str) : rm J :=
  s ← checked (logged_in_session s);
  _ ← require_preset_role s id Viewer;
  preset ← get_preset id;
  fetch_from_ap_version_games (preset_ap_version preset) (lit "/api/games/" ++ apworld ++ lit "/options").

(* src: community-ap-tools/src/review/api/review.rs:156-189 proxy_yaml_content *)
Definition proxy_yaml_content (s : ToolSession) (room yaml : str) : rm J :=
  s ← checked (logged_in_session s);
  room ← uuid "room" room;
  yaml ← uuid "YAML" yaml;
  _ ← require_room_role s room Viewer;
  '(status, text) ← internally (ask_lobby out
     {| call_method := lit "GET"; call_path := lit "/api/room/" ++ room ++ lit "/info/" ++ yaml; call_query := [];
        call_body := None |});
  if negb (success status) then refuse (internal (lit "Failed to fetch YAML: " ++ status_text out status))
  else internally (detail_from_str out text).

(* src: community-ap-tools/src/review/api/review.rs:201-230 get_review_statuses *)
Definition get_review_statuses_route (s : ToolSession) (room : str) : rm (list YamlReviewStatus) :=
  s ← checked (logged_in_session s);
  room ← uuid "room" room;
  _ ← require_room_role s room Viewer;
  get_review_statuses room.

(* src: community-ap-tools/src/review/api/review.rs:237-279 set_review_status *)
Definition set_review_status_route (s : ToolSession) (room yaml status : str) : rm YamlReviewStatus :=
  s ← checked (logged_in_session s);
  room ← uuid "room" room;
  yaml ← uuid "YAML" yaml;
  _ ← require_room_role s room Reviewer;
  _ ← ensure (bool_decide (status ∈ valid_statuses)) (bad_request (lit "Invalid status: " ++ status));
  user ← checked (session_user s);
  set_review_status now room yaml status user (session_username s).

(** The lobby's answer is passed on, and so is its text when it refuses. *)
Definition passed_on (c : LobbyCall) : rm J :=
  '(status, text) ← internally (ask_lobby out c);
  if negb (success status) then refuse (internal text) else internally (value_from_str out text).

Definition yaml_path (room yaml : str) : str := lit "/api/room/" ++ room ++ lit "/yaml/" ++ yaml.

(* src: community-ap-tools/src/review/api/review.rs:293-347 proxy_yaml_edit *)
Definition proxy_yaml_edit (s : ToolSession) (room yaml content : str) : rm J :=
  s ← checked (logged_in_session s);
  room ← uuid "room" room;
  yaml ← uuid "YAML" yaml;
  _ ← require_room_role s room Editor;
  user ← checked (session_user s);
  passed_on {| call_method := lit "PUT"; call_path := yaml_path room yaml ++ lit "/edit"; call_query := [];
               call_body := Some (edit_to_str out content user (session_username s)) |}.

(* src: community-ap-tools/src/review/api/review.rs:349-390 proxy_yaml_delete *)
Definition proxy_yaml_delete (s : ToolSession) (room yaml : str) : rm J :=
  s ← checked (logged_in_session s);
  room ← uuid "room" room;
  yaml ← uuid "YAML" yaml;
  _ ← require_room_role s room Editor;
  passed_on {| call_method := lit "DELETE"; call_path := yaml_path room yaml; call_query := []; call_body := None |}.

(** Rocket reads these identifiers. *)
(* src: community-ap-tools/src/review/api/review.rs:392-404 get_notes *)
Definition get_notes_route (s : ToolSession) (room yaml : str) : rm (list YamlReviewNote) :=
  s ← checked (logged_in_session s);
  _ ← require_room_role s room Viewer;
  get_notes room yaml.

(* src: community-ap-tools/src/review/api/review.rs:411-440 add_note *)
Definition add_note_route (s : ToolSession) (room yaml content : str) : rm YamlReviewNote :=
  s ← checked (logged_in_session s);
  _ ← require_room_role s room Reviewer;
  if bool_decide (trim content = []) then refuse (bad_request (lit "Note content cannot be empty"))
  else
    user ← checked (session_user s);
    add_note now room yaml content user (session_username s).

(* src: community-ap-tools/src/review/api/review.rs:442-458 delete_note *)
Definition delete_note_route (s : ToolSession) (room : str) (id : Z) : rm unit :=
  s ← checked (logged_in_session s);
  _ ← require_room_role s room Reviewer;
  user ← checked (session_user s);
  deleted ← delete_note id room user;
  ensure (negb (deleted =? 0)%nat) (not_found (lit "Note not found or you are not the author")).

(** ** Evaluation *)

(** The rules that can be read, and the names of the built-in ones. *)
Definition preset_rules_of (id : Z) : rm (list Rule * list str) :=
  db_rules ← list_rules_for_preset id;
  preset ← get_preset id;
  names ← internally (names_from_value out (preset_builtin_rules preset));
  mret (omap (fun r => ok (rule_from_value out (pr_rule r))) db_rules, names).

Definition fetch_yamls (room : str) : rm (list BulkYamlInfo) :=
  '(status, text) ← internally (ask_lobby out
     {| call_method := lit "GET"; call_path := lit "/api/room/" ++ room ++ lit "/yamls"; call_query := [];
        call_body := None |});
  if negb (success status) then refuse (internal (lit "Failed to fetch room YAMLs: " ++ status_text out status))
  else internally (yamls_from_str out text).

Context (hash_iter : gmap str Y -> list (str * Y)).

(** What the rules report for one YAML; [cache] is the thread's cache of regular expressions. *)
(* src: community-ap-tools/src/review/api/evaluate.rs:112-190 evaluate_single_yaml_endpoint *)
Definition evaluate_single_yaml_endpoint (a : AnyAuth) (cache : gmap str R) (room yaml : str) :
    rm (option (result E YamlEvalResultWithAnalysis)) :=
  room ← uuid "room" room;
  yaml ← uuid "YAML" yaml;
  _ ← any_require_room_role a room Viewer;
  cfg ← get_room_config room;
  '(custom_rules, enabled) ← match cfg with Some id => preset_rules_of id | None => mret ([], []) end;
  bulk_yamls ← fetch_yamls room;
  let room_yamls := (fun y => {| ry_player_name := bulk_player_name y |}) <$> bulk_yamls in
  info ← internally (ok_or (List.find (fun y => str_eqb (bulk_id y) yaml) bulk_yamls)
                       (lit "YAML " ++ yaml ++ lit " not found in room " ++ room));
  analysis ← get_yaml_analysis_status room yaml;
  mret (match evaluate_single_yaml hash_iter info custom_rules (active_builtins enabled) room_yamls analysis cache with
        | Some (r, _) => Some ((fun r => with_analysis r analysis) <$> r)
        | None => None
        end).

(** [caches] are those of the threads when they get to each YAML. *)
(* src: community-ap-tools/src/review/api/evaluate.rs:192-276 evaluate *)
Definition evaluate_route (s : ToolSession) (caches : list (gmap str R)) (room : str) (preset : option Z)
    (rules : option (list Rule)) (builtins : option (list str)) :
    rm (list (option (result E YamlEvalResultWithAnalysis))) :=
  s ← checked (logged_in_session s);
  room ← uuid "room" room;
  _ ← require_room_role s room Viewer;
  '(custom_rules, enabled) ← match preset with
    | Some id =>
        _ ← require_preset_role s id Viewer;
        p ← get_preset id;
        db_rules ← list_rules_for_preset id;
        names ← internally (names_from_value out (preset_builtin_rules p));
        mret (omap (fun r => ok (rule_from_value out (pr_rule r))) db_rules, names)
    | None => mret (default [] rules, default [] builtins)
    end;
  bulk_yamls ← fetch_yamls room;
  analyses ← get_room_analysis_statuses room;
  mret (evaluate_all hash_iter bulk_yamls caches custom_rules (active_builtins enabled) analyses).

(** ** Pages *)

(* src: community-ap-tools/src/review/page.rs:16-22 OrgTplContext *)
Record OrgTplContext := { oc_super_admin : bool; oc_team_admin : bool; oc_username : str; cur_page : str }.

Definition team_admin (s : ToolSession) : rm bool :=
  if ts_super_admin s then mret true
  else user ← checked (session_user s); ts ← get_user_teams user; mret (existsb (fun e => is_admin_member e.2) ts).

(* src: community-ap-tools/src/review/page.rs:25-48 OrgTplContext::new *)
Definition org_context (s : ToolSession) (page : string) : rm OrgTplContext :=
  is_team_admin ← team_admin s;
  mret {| oc_super_admin := ts_super_admin s; oc_team_admin := is_team_admin; oc_username := session_username s;
          cur_page := lit page |}.

(* src: community-ap-tools/src/review/page.rs:64-78 rooms_list *)
Definition rooms_list (s : ToolSession) : rm (OrgTplContext * list (str * str)) :=
  s ← checked (logged_in_session s);
  rooms ← (if ts_super_admin s then list_all_rooms else user ← checked (session_user s); list_user_rooms user);
  base ← org_context s "rooms";
  mret (base, rooms).

(* src: community-ap-tools/src/review/page.rs:80-91 ReviewTpl *)
Record ReviewTpl := {
  rt_base : OrgTplContext; rt_room_id : str; rt_room_name : str; rt_preset : option Z;
  rt_lobby_root_url : str; rt_locked : bool; rt_user_id : Z; rt_user_role : str }.

(** Super administrators see the page as editors; the room gets the lobby's name. *)
(* src: community-ap-tools/src/review/page.rs:93-148 review_page *)
Definition review_page (s : ToolSession) (room_id : str) : rm ReviewTpl :=
  s ← checked (logged_in_session s);
  room ← uuid "room" room_id;
  user_role ← (if ts_super_admin s then mret (role_as_str Editor)
               else
                 user ← checked (session_user s);
                 role ← get_user_role_for_room user room;
                 match role with Some r => mret (role_as_str r) | None => refuse (forbidden (lit "Forbidden")) end);
  '(status, text) ← internally (ask_lobby out (room_call room));
  if negb (success status) then refuse (internal (lit "Failed to fetch room info: " ++ status_text out status))
  else
    '(name, locked) ← internally (locked_from_str out text);
    _ ← update_room_name room name;
    cfg ← get_room_config room;
    base ← org_context s "room";
    user ← checked (session_user s);
    mret {| rt_base := base; rt_room_id := room; rt_room_name := name; rt_preset := cfg;
            rt_lobby_root_url := default (lobby_root_url out) (lobby_public_url out);
            rt_locked := locked; rt_user_id := user; rt_user_role := user_role |}.

(* src: community-ap-tools/src/review/page.rs:171-192 presets_list *)
Definition presets_list (s : ToolSession) : rm (OrgTplContext * list PresetSummary) :=
  s ← checked (logged_in_session s);
  user ← checked (session_user s);
  ps ← list_presets_for_user collate user (ts_super_admin s);
  base ← org_context s "presets";
  mret (base, ps).

(* src: community-ap-tools/src/review/page.rs:214-222 PresetEditTpl *)
Record PresetEditTpl := {
  pe_base : OrgTplContext; pe_preset : ReviewPreset J; pe_rules : list (PresetRule J); pe_back_url : option str;
  can_edit_rules : bool; available_ap_versions : list str }.

(* src: community-ap-tools/src/review/page.rs:224-282 preset_edit *)
Definition preset_edit (s : ToolSession) (id : Z) (from_room : option str) : rm PresetEditTpl :=
  s ← checked (logged_in_session s);
  can_edit ← (if ts_super_admin s then mret true
              else
                user ← checked (session_user s);
                role ← get_user_role_for_preset user id;
                match role with
                | Some r => mret (role_leb RuleEditor r)
                | None => refuse (forbidden (lit "Forbidden"))
                end);
  preset ← get_preset id;
  db_rules ← list_rules_for_preset id;
  base ← org_context s "preset_edit";
  mret {| pe_base := base; pe_preset := preset; pe_rules := db_rules;
          pe_back_url := (fun room => lit "/room/" ++ room ++ lit "/review") <$> from_room; can_edit_rules := can_edit;
          available_ap_versions := version_to_string <$> ap_versions |}.

(* src: community-ap-tools/src/review/page.rs:290-308 admin_teams_page *)
Definition admin_teams_page (s : ToolSession) : rm OrgTplContext :=
  s ← checked (logged_in_session s);
  is_team_admin ← team_admin s;
  if negb is_team_admin then refuse (internal (lit "Forbidden")) else org_context s "teams".

(** ** Analyses *)

(* src: community-ap-tools/src/jobs.rs:17-25 YamlAnalysisParams *)
Record YamlAnalysisParams := {
  ap_room_id : str; ap_yaml_id : str; ap_apworlds : list (str * Version); ap_otlp_context : gmap str str;
  ap_ap_version : option Version }.
(* src: community-ap-tools/src/jobs.rs:27-34 YamlAnalysisResponse *)
Record YamlAnalysisResponse := {
  ar_total_checks : option N; ar_starting_checks : option N; ar_status : option str; ar_gen_ms : option N;
  ar_error : option str }.

Definition as_i32 (n : option N) : Z := wrap_i32 (Z.of_N (default 0%N n)).

(** A write doesn't fail, so that the key of the job in flight stays.  The job is processed in any case; what it says is written for a success and for failures. *)
(* src: community-ap-tools/src/jobs.rs:59-166 get_yaml_analysis_callback *)
Definition yaml_analysis_callback (desc : JobDesc YamlAnalysisParams) (res : JobResult YamlAnalysisResponse) : rm bool :=
  match parse_uuid out (ap_yaml_id (desc_params desc)), parse_uuid out (ap_room_id (desc_params desc)) with
  | Some yaml, Some room =>
      match res_status res with
      | Success =>
          match res_result res with
          | None => mret true
          | Some r =>
              let failed := match ar_error r with Some e => negb (bool_decide (e = [])) | None => false end in
              _ ← set_yaml_analysis_status now room yaml (default (lit "success") (ar_status r)) (if failed then 0 else 1)
                    (as_i32 (ar_total_checks r)) (as_i32 (ar_starting_checks r)) (as_i32 (ar_gen_ms r));
              mret true
          end
      | Failure =>
          _ ← set_yaml_analysis_status now room yaml (default (lit "generic failure") (res_result res ≫= ar_status)) 0 0 0 0;
          mret true
      | InternalError =>
          _ ← set_yaml_analysis_status now room yaml (lit "internal error") 0 0 0 0;
          mret true
      | _ => mret true
      end
  | _, _ => mret true
  end.
End api.

(** ** Queueing analyses *)

Section analyses.
Context {SV : SemVer} {J : Type} (out : Outside J) (now : Z).

(** What Redis and the queue answer at this time: an error for the [SET] of a key, a [DEL] that doesn't
    arrive, an error for a job. *)
Record Answers := {
  set_error : str -> option str;
  del_lost : str -> bool;
  enqueue_error : YamlAnalysisParams -> option str;
}.
Context (answers : Answers).

Record Submission := { sub_partition : str; sub_params : YamlAnalysisParams; sub_priority : Priority; sub_deadline_in : Z }.

(** The tables, the keys in Redis with the time that they expire at, and the jobs given to the queue. *)
Record AnalysisState := { an_tables : Tables J; inflight : gmap str Z; submitted : list Submission }.
Definition with_tables f a := {| an_tables := f (an_tables a); inflight := inflight a; submitted := submitted a |}.
Definition with_inflight f a := {| an_tables := an_tables a; inflight := f (inflight a); submitted := submitted a |}.
Definition with_submitted f a := {| an_tables := an_tables a; inflight := inflight a; submitted := f (submitted a) |}.

Definition am (A : Type) : Type := AnalysisState -> result ToolError A * AnalysisState.
#[export] Instance am_ret : MRet am := fun A x a => (Ok x, a).
#[export] Instance am_bind : MBind am := fun A B f m a =>
  match m a with (Ok x, a) => f x a | (Err e, a) => (Err e, a) end.
Definition on_tables {A} (m : rm J A) : am A := fun a =>
  let '(r, t) := m (an_tables a) in (r, with_tables (fun _ => t) a).
Definition answer {A} (r : result str A) : am A := fun a => (map_err internal r, a).

(* src: community-ap-tools/src/jobs.rs:38-38 INFLIGHT_TTL_SECS *)
Definition INFLIGHT_TTL_SECS : Z := 3600.
(* src: community-ap-tools/src/jobs.rs:40-42 inflight_key *)
Definition inflight_key (yaml : str) : str := lit "yaml_analysis:inflight:" ++ yaml.
(* src: community-ap-tools/src/jobs.rs:44-57 release_inflight_key *)
Definition release_inflight_key (key : str) (a : AnalysisState) : AnalysisState :=
  if del_lost answers key then a else with_inflight (delete key) a.

(** [SET key 1 NX EX]. *)
Definition free (a : AnalysisState) (key : str) : bool :=
  match inflight a !! key with Some until => (until <=? now)%Z | None => true end.
Definition acquire (key : str) (a : AnalysisState) : result str bool * AnalysisState :=
  match set_error answers key with
  | Some e => (Err e, a)
  | None => if free a key then (Ok true, with_inflight <[key := (now + INFLIGHT_TTL_SECS)%Z]> a) else (Ok false, a)
  end.

(** Entries without a name or a version that can be read are left out. *)
Definition apworld_entry (v : J) : option (str * Version) :=
  name ← text_at out v (lit "name");
  ver ← text_at out v (lit "version");
  version ← ok (version_parse ver);
  Some (name, version).
Definition read_apworlds (text : str) : result str (list (str * Version)) :=
  match values_from_str out text with Ok raw => Ok (omap apworld_entry raw) | Err e => Err e end.

Definition analysis_params (room yaml : str) (apworlds : list (str * Version)) (version : Version) : YamlAnalysisParams :=
  {| ap_room_id := room; ap_yaml_id := yaml; ap_apworlds := apworlds; ap_otlp_context := ∅; ap_ap_version := Some version |}.
Definition submission (room yaml : str) (apworlds : list (str * Version)) (version : Version) (priority : Priority) : Submission :=
  {| sub_partition := version_to_string version; sub_params := analysis_params room yaml apworlds version;
     sub_priority := priority; sub_deadline_in := 1800 |}.
(** The key is given back when the queue doesn't take the job. *)
Definition submit (key : str) (s : Submission) (a : AnalysisState) : result str unit * AnalysisState :=
  match enqueue_error answers (sub_params s) with
  | Some e => (Err e, release_inflight_key key a)
  | None => (Ok tt, with_submitted (fun l => l ++ [s]) a)
  end.

Definition to_tool {A} (m : AnalysisState -> result str A * AnalysisState) : am A := fun a =>
  let '(r, a) := m a in (map_err internal r, a).

(** Analyses a YAML again: what is known goes, and so does the key. *)
(* src: community-ap-tools/src/jobs.rs:168-242 priority_queue_yaml *)
Definition priority_queue_yaml (room yaml : str) (version : Version) : am unit :=
  _ ← on_tables (reset_yaml_analysis_status room yaml);
  let key := inflight_key yaml in
  _ ← (fun a => (Ok tt, release_inflight_key key a)) : am unit;
  text ← on_tables (get_yaml_apworlds yaml);
  apworlds ← answer (read_apworlds text);
  acquired ← to_tool (acquire key);
  if negb acquired then mret tt else to_tool (submit key (submission room yaml apworlds version High)).

(** [fallback] is the version 0.6.8. *)
(* src: community-ap-tools/src/review/api/review.rs:460-483 queue_analysis *)
Definition queue_analysis (fallback : Version) (s : ToolSession) (room yaml : str) : am unit :=
  s ← on_tables (checked (logged_in_session s));
  _ ← on_tables (require_room_role s room Reviewer);
  version ← on_tables (get_room_ap_version room);
  priority_queue_yaml room yaml (default fallback version).

(** A YAML is queued if its key can be had; whatever fails for one leaves the others alone. *)
Definition poll_row (version : Version) (a : AnalysisState) (r : UnanalyzedYamlRow) : AnalysisState :=
  let key := inflight_key (ua_yaml r) in
  match acquire key a with
  | (Ok true, a) =>
      match read_apworlds (ua_apworlds_json r) with
      | Err _ => release_inflight_key key a
      | Ok apworlds => (submit key (submission (ua_room r) (ua_yaml r) apworlds version Normal) a).2
      end
  | (_, a) => a
  end.
(** One round of the loop. *)
(* src: community-ap-tools/src/jobs.rs:245-369 start_unanalyzed_yaml_poller *)
Definition poll_round (version : Version) (a : AnalysisState) : AnalysisState :=
  match (get_unanalyzed_yamls version (an_tables a)).1 with
  | Err _ => a
  | Ok rows => fold_left (poll_row version) rows a
  end.
End analyses.
Arguments AnalysisState {SV} J.
Arguments am {SV} J.
