(* ===== verification/ReviewApiProps.v ===== *)
(** * What the review tools guarantee

    What requests may change, as a relation between tables ([permitted]): each request of a session is
    made of changes that its roles permit.  From it: the tables stay well formed, administrators are
    made by super administrators, and users change nothing of the teams, presets and rooms that they
    have no part in. *)

From S2P Require Import Prelude RustStd WqCore Apwm Yaml Review ReviewTriggers ReviewEval ReviewFacts ReviewDoc ReviewDb ReviewApi Examples.

(** ** Roles *)

Lemma role_leb_refl r : role_leb r r = true.
Proof. by destruct r. Qed.
Lemma role_leb_trans a b c : role_leb a b = true -> role_leb b c = true -> role_leb a c = true.
Proof. by destruct a, b, c. Qed.
Lemma role_leb_total a b : role_leb a b = false -> role_leb b a = true.
Proof. by destruct a, b. Qed.

Lemma max_role_from best rs m :
  at_least m (fold_left (fun best r => match best with
                                       | Some b => if role_leb b r then Some r else Some b
                                       | None => Some r
                                       end) rs best) = true <->
  at_least m best = true \/ exists r, r ∈ rs /\ role_leb m r = true.
Proof.
  revert best. induction rs as [|r rs IH]; intros best; simpl.
  { split; [by left|intros [?|(r & Hr%elem_of_nil & _)]; done]. }
  rewrite IH. setoid_rewrite elem_of_cons.
  assert (at_least m (match best with Some b => if role_leb b r then Some r else Some b | None => Some r end) = true <->
          at_least m best = true \/ role_leb m r = true) as ->; [|naive_solver].
  destruct best as [b|]; simpl; [|naive_solver]. destruct (role_leb b r) eqn:E; simpl.
  - split; [by right|]. intros [H|H]; [by eapply role_leb_trans|done].
  - split; [by left|]. intros [H|H]; [done|]. apply role_leb_total in E. by eapply role_leb_trans.
Qed.
Lemma max_role_at_least rs m : at_least m (max_role rs) = true <-> exists r, r ∈ rs /\ role_leb m r = true.
Proof. unfold max_role. rewrite max_role_from. naive_solver. Qed.

Lemma elem_of_values {K A} `{Countable K} (m : gmap K A) x : x ∈ values m <-> exists k, m !! k = Some x.
Proof.
  unfold values. rewrite list_elem_of_fmap. split.
  - intros ([k y] & -> & Hk%elem_of_map_to_list). by exists k.
  - intros [k Hk%elem_of_map_to_list]. by exists (k, x).
Qed.

Section roles.
Context {J : Type}.
Implicit Types t : Tables J.

(** The keys of members are their team and user. *)
Definition members_keyed t : Prop := forall k m, members t !! k = Some m -> k = (tm_team m, tm_user m).

(** The user has the role in the team, or a greater one. *)
Definition ranks t (minimum : Role) (team user : Z) : Prop :=
  exists m r, members t !! (team, user) = Some m /\ member_role m = Some r /\ role_leb minimum r = true.

Lemma room_roles_best t user room minimum (K : members_keyed t) :
  at_least minimum (max_role (room_roles t user room)) = true <->
  exists team, is_Some (team_rooms t !! (team, room)) /\ ranks t minimum team user.
Proof.
  rewrite max_role_at_least. unfold room_roles. split.
  - intros (r & (m & Hm & Hr)%list_elem_of_omap & Hle). case_match eqn:E; [|done].
    apply andb_true_iff in E as [<-%Z.eqb_eq Hroom%bool_decide_eq_true].
    apply elem_of_values in Hm as [k Hk]. pose proof (K _ _ Hk) as ->.
    exists (tm_team m). split; [done|]. by exists m, r.
  - intros (team & Hroom & m & r & Hm & Hr & Hle). pose proof (K _ _ Hm) as [= -> ->].
    exists r. split; [|done]. apply list_elem_of_omap. exists m. split; [apply elem_of_values; eauto|].
    rewrite Z.eqb_refl, bool_decide_true; done.
Qed.

Lemma preset_roles_best t user preset minimum (K : members_keyed t) :
  at_least minimum (max_role (preset_roles t user preset)) = true <->
  exists p team, presets t !! preset = Some p /\ preset_team p = Some team /\ ranks t minimum team user.
Proof.
  rewrite max_role_at_least. unfold preset_roles. split.
  - intros (r & (m & Hm & Hr)%list_elem_of_omap & Hle).
    destruct (presets t !! preset) as [p|] eqn:Ep; simpl in Hr; [|done]. case_match eqn:E; [|done].
    apply andb_true_iff in E as [<-%Z.eqb_eq Hteam%bool_decide_eq_true].
    apply elem_of_values in Hm as [k Hk]. pose proof (K _ _ Hk) as ->.
    exists p, (tm_team m). split; [done|]. split; [done|]. by exists m, r.
  - intros (p & team & Hp & Hteam & m & r & Hm & Hr & Hle). pose proof (K _ _ Hm) as [= -> ->].
    exists r. split; [|done]. apply list_elem_of_omap. exists m. split; [apply elem_of_values; eauto|].
    rewrite Hp. simpl. rewrite Z.eqb_refl, bool_decide_true; done.
Qed.

(** ** What a session may *)

Definition may_team (s : ToolSession) t (minimum : Role) (team : Z) : Prop :=
  ts_super_admin s = true \/ exists user, ts_user_id s = Some user /\ ranks t minimum team user.
Definition may_room (s : ToolSession) t (minimum : Role) (room : str) : Prop :=
  ts_super_admin s = true \/
  exists user team, ts_user_id s = Some user /\ is_Some (team_rooms t !! (team, room)) /\ ranks t minimum team user.
Definition may_preset (s : ToolSession) t (minimum : Role) (preset : Z) : Prop :=
  ts_super_admin s = true \/
  exists user p team, ts_user_id s = Some user /\ presets t !! preset = Some p /\ preset_team p = Some team /\
    ranks t minimum team user.
End roles.

(** ** How a request ends *)

Section ends.
Context {J : Type}.
Local Abbreviation rm := (rm J).
Local Abbreviation Tables := (Tables J).

Definition ends {A} (m : rm A) (t : Tables) (Q : result ToolError A -> Tables -> Prop) : Prop := Q (m t).1 (m t).2.

Lemma tool_ends_bind {A B} (m : rm A) (f : A -> rm B) t (Q : result ToolError B -> Tables -> Prop) :
  ends m t (fun r t' => match r with Ok a => ends (f a) t' Q | Err e => Q (Err e) t' end) -> ends (m ≫= f) t Q.
Proof. unfold ends, mbind, rm_bind. by destruct (m t) as [[a|e] t']. Qed.
Lemma tool_ends_weaken {A} (m : rm A) t (Q Q' : result ToolError A -> Tables -> Prop) :
  ends m t Q -> (forall r t', Q r t' -> Q' r t') -> ends m t Q'.
Proof. unfold ends. auto. Qed.
Lemma tool_ends_checked {A} (r : result ToolError A) t (Q : result ToolError A -> Tables -> Prop) : Q r t -> ends (checked r) t Q.
Proof. done. Qed.
Lemma tool_ends_mret {A} (a : A) t (Q : result ToolError A -> Tables -> Prop) : Q (Ok a) t -> ends (mret a) t Q.
Proof. done. Qed.
Lemma tool_ends_select {A} (f : Tables -> A) t (Q : result ToolError A -> Tables -> Prop) : Q (Ok (f t)) t -> ends (select f) t Q.
Proof. done. Qed.
Lemma tool_ends_write f t (Q : result ToolError unit -> Tables -> Prop) : Q (Ok tt) (f t) -> ends (write f) t Q.
Proof. done. Qed.
Lemma tool_ends_refuse {A} e t (Q : result ToolError A -> Tables -> Prop) : Q (Err e) t -> ends (refuse e) t Q.
Proof. done. Qed.
Lemma tool_ends_if {A} (b : bool) (m m' : rm A) t Q :
  (b = true -> ends m t Q) -> (b = false -> ends m' t Q) -> ends (if b then m else m') t Q.
Proof. by destruct b; auto. Qed.
Lemma tool_ends_nextval (get : Tables -> Z) set t (Q : result ToolError Z -> Tables -> Prop) :
  (forall id, Q (Ok id) (set (id + 1)%Z t)) -> (forall e, Q (Err e) t) -> ends (nextval get set) t Q.
Proof. unfold ends, nextval. intros H1 H2. destruct (_ <=? _)%Z; simpl; auto. Qed.

Lemma tool_ends_logged_in {A} s (f : ToolSession -> rm A) t (Q : result ToolError A -> Tables -> Prop) :
  (forall e, Q (Err e) t) -> ends (f s) t Q -> ends (checked (logged_in_session s) ≫= f) t Q.
Proof. unfold ends, logged_in_session, mbind, rm_bind, checked. intros He Hf. destruct (ts_logged_in s); simpl; auto. Qed.
Lemma tool_ends_admin {A} s (f : ToolSession -> rm A) t (Q : result ToolError A -> Tables -> Prop) :
  (forall e, Q (Err e) t) -> (ts_super_admin s = true -> ends (f s) t Q) -> ends (checked (admin_session s) ≫= f) t Q.
Proof.
  unfold ends, admin_session, mbind, rm_bind, checked. intros He Hf.
  destruct (ts_logged_in s); simpl; auto. destruct (ts_super_admin s); simpl; auto.
Qed.
Lemma tool_ends_user s t (Q : result ToolError Z -> Tables -> Prop) :
  (forall e, Q (Err e) t) -> (forall user, ts_user_id s = Some user -> Q (Ok user) t) -> ends (checked (session_user s)) t Q.
Proof. unfold ends, checked, session_user. intros He Hok. destruct (ts_user_id s); simpl; auto. Qed.
Lemma tool_ends_require s minimum (f : Tables -> Z -> option Role) t (Q : result ToolError unit -> Tables -> Prop) :
  (forall e, Q (Err e) t) ->
  (ts_super_admin s = true \/ (exists user, ts_user_id s = Some user /\ at_least minimum (f t user) = true) -> Q (Ok tt) t) ->
  ends (require s minimum (fun user => select (fun t => f t user))) t Q.
Proof.
  unfold ends, require. intros Herr Hok. destruct (ts_super_admin s); [apply Hok; by left|].
  unfold mbind, rm_bind, checked, session_user, select, ensure. destruct (ts_user_id s) as [user|]; simpl; [|apply Herr].
  destruct (at_least minimum (f t user)) eqn:E; simpl; [|apply Herr]. apply Hok. eauto.
Qed.

Lemma tool_ends_room_role s room minimum t (Q : result ToolError unit -> Tables -> Prop) (K : members_keyed t) :
  (forall e, Q (Err e) t) -> (may_room s t minimum room -> Q (Ok tt) t) -> ends (require_room_role s room minimum) t Q.
Proof.
  intros Herr Hok. apply (tool_ends_require _ _ (fun t user => max_role (room_roles t user room))); [done|].
  intros H. apply Hok. destruct H as [H|(user & Hu & (team & H)%room_roles_best)]; [by left| |done]. right. eauto.
Qed.
Lemma tool_ends_team_role s team minimum t (Q : result ToolError unit -> Tables -> Prop) :
  (forall e, Q (Err e) t) -> (may_team s t minimum team -> Q (Ok tt) t) -> ends (require_team_role s team minimum) t Q.
Proof.
  intros Herr Hok. apply (tool_ends_require _ _ (fun t user => m ← members t !! (team, user); member_role m)); [done|].
  intros H. apply Hok. destruct H as [H|(user & Hu & H)]; [by left|]. right. exists user. split; [done|].
  destruct (members t !! (team, user)) as [m|] eqn:Em; simpl in H; [|done].
  destruct (member_role m) as [r|] eqn:Er; simpl in H; [|done]. by exists m, r.
Qed.
Lemma tool_ends_preset_role s preset minimum t (Q : result ToolError unit -> Tables -> Prop) (K : members_keyed t) :
  (forall e, Q (Err e) t) -> (may_preset s t minimum preset -> Q (Ok tt) t) ->
  ends (require_preset_role s preset minimum) t Q.
Proof.
  intros Herr Hok. apply (tool_ends_require _ _ (fun t user => max_role (preset_roles t user preset))); [done|].
  intros H. apply Hok. destruct H as [H|(user & Hu & (p & team & H)%preset_roles_best)]; [by left| |done].
  right. exists user, p, team. naive_solver.
Qed.
End ends.

Create HintDb permits discriminated.
#[export] Hint Constants Opaque : permits.
#[export] Hint Constructors or ex and eq : permits.
#[export] Hint Resolve mk_is_Some : permits.
Create HintDb tools.
#[export] Hint Unfold create_preset update_preset delete_preset list_rules_for_preset create_rule update_rule delete_rule
  get_preset get_room_config set_room_preset remove_room_preset set_review_status add_note delete_note create_team delete_team
  add_team_member remove_team_member update_team_member_role add_team_room update_room_name remove_team_room get_user_teams
  unused preset_constraints row violates ensure internally uuid uuid_or_500 supported_version valid_rule parse_role
  refuse_for_admin get_user_role_for_team get_user_role_for_room get_user_role_for_preset list_all_rooms list_user_rooms
  org_context team_admin list_presets list_presets_for_user list_presets_for_teams list_teams list_team_members list_team_rooms
  get_notes get_review_statuses passed_on fetch_from_ap_version_games
  list_presets_route get_preset_route create_preset_route update_preset_route delete_preset_route list_builtin_rules
  list_preset_rules create_preset_rule update_preset_rule delete_preset_rule export_preset import_preset
  admin_list_teams admin_create_team admin_delete_team admin_list_members admin_add_member admin_update_member_role
  admin_remove_member admin_list_rooms admin_add_room admin_remove_room get_room_preset set_room_preset_route
  remove_room_preset_route proxy_games proxy_game_options proxy_yaml_content get_review_statuses_route
  set_review_status_route proxy_yaml_edit proxy_yaml_delete get_notes_route add_note_route delete_note_route rooms_list
  review_page presets_list preset_edit admin_teams_page yaml_analysis_callback set_yaml_analysis_status : tools.

Ltac walk1 :=
  cbn [map_err ok_or];
  lazymatch goal with
  | |- match ?r with Ok _ => _ | Err _ => _ end =>
      let rec go r := lazymatch r with map_err _ ?r => go r | ok_or ?o _ => destruct o eqn:? | _ => destruct r eqn:? end in go r
  | |- ends (mbind _ (checked (logged_in_session _))) _ _ => apply tool_ends_logged_in; [intros ?|]
  | |- ends (mbind _ (checked (admin_session _))) _ _ => apply tool_ends_admin; [intros ?|intros ?]
  | |- ends (mbind _ _) _ _ => apply tool_ends_bind
  | |- ends (mret _) _ _ => apply tool_ends_mret
  | |- ends (select _) _ _ => apply tool_ends_select
  | |- ends (write _) _ _ => apply tool_ends_write
  | |- ends (refuse _) _ _ => apply tool_ends_refuse
  | |- ends (checked (session_user _)) _ _ => apply tool_ends_user; [intros ?|intros ? ?]
  | |- ends (checked _) _ _ => apply tool_ends_checked
  | |- ends (nextval _ _) _ _ => apply tool_ends_nextval; [intros ?|intros ?]
  | |- ends (require_room_role _ _ _) _ _ => fail
  | |- ends (require_team_role _ _ _) _ _ => fail
  | |- ends (require_preset_role _ _ _) _ _ => fail
  | |- ends (match ?x with _ => _ end) _ _ =>
      lazymatch type of x with bool => apply tool_ends_if; intros ? | _ => destruct x eqn:? end
  | |- ends _ _ _ => progress autounfold with tools
  end.
Ltac walk := repeat walk1.

(** ** Requests and what they are permitted *)

(** The requests, the callback of analyses among them, with what their routes take. *)
Inductive tool_request {SV : SemVer} {J : Type} :=
  | ListPresets | GetPreset (id : Z) | CreatePreset (body : NewPreset J) | EditPreset (id : Z) (body : UpdatePreset J)
  | DropPreset (id : Z) | ListBuiltins | ListRules (id : Z) | CreateRule (id : Z) (rule : J) (position : Z)
  | EditRule (id rule_id : Z) (rule : option J) (position : option Z) | DropRule (id rule_id : Z)
  | ExportRules (id : Z) | ImportRules (id : Z) (entries : list (J * Z))
  | ListTeams | CreateTeam (name : str) (guild : Z) | DropTeam (id : Z) | ListMembers (team : Z)
  | AddMember (team user : Z) (username : option str) (role : str) | ChangeRole (team user : Z) (role : str)
  | DropMember (team user : Z) | ListRooms (team : Z) | AddRoom (team : Z) (room : str) | DropRoom (team : Z) (room : str)
  | GetRoomPreset (room : str) | SetRoomPreset (room : str) (preset : Z) | UnsetRoomPreset (room : str)
  | Games (id : Z) | GameOptions (id : Z) (apworld : str) | YamlContent (room yaml : str) | GetStatuses (room : str)
  | SetStatus (room yaml status : str) | EditYaml (room yaml content : str) | DropYaml (room yaml : str)
  | GetNotes (room yaml : str) | AddNote (room yaml content : str) | DropNote (room : str) (id : Z)
  | RoomsPage | RoomPage (room : str) | PresetsPage | PresetPage (id : Z) (from_room : option str) | TeamsPage
  | Analysed (desc : JobDesc YamlAnalysisParams) (res : JobResult YamlAnalysisResponse).
Arguments tool_request {SV} J.

Section permitted.
Context {SV : SemVer} {J Y : Type} {YO : YamlOps Y} {R E : Type} {X : RegexOps R E} {LC : Lowercase}.
Context (out : Outside J) (collate : str -> str -> bool) (ap_versions : list Version).
Implicit Types (t : Tables J) (s : ToolSession).

Definition quietly {A} (m : rm J A) : rm J unit := _ ← m; mret tt.

Definition serve_tool (now : Z) (s : ToolSession) (q : tool_request J) : rm J unit :=
  match q with
  | ListPresets => quietly (list_presets_route collate s)
  | GetPreset id => quietly (get_preset_route s id)
  | CreatePreset body => quietly (create_preset_route ap_versions s body)
  | EditPreset id body => quietly (update_preset_route ap_versions s id body)
  | DropPreset id => delete_preset_route s id
  | ListBuiltins => quietly (list_builtin_rules s)
  | ListRules id => quietly (list_preset_rules s id)
  | CreateRule id rule position => quietly (create_preset_rule out now s id rule position)
  | EditRule id rule_id rule position => quietly (update_preset_rule out now s id rule_id rule position)
  | DropRule id rule_id => delete_preset_rule s id rule_id
  | ExportRules id => quietly (export_preset s id)
  | ImportRules id entries => quietly (import_preset out now s id entries)
  | ListTeams => quietly (admin_list_teams collate s)
  | CreateTeam name guild => quietly (admin_create_team s name guild)
  | DropTeam id => admin_delete_team s id
  | ListMembers team => quietly (admin_list_members collate s team)
  | AddMember team user username role => quietly (admin_add_member s team user username role)
  | ChangeRole team user role => quietly (admin_update_member_role s team user role)
  | DropMember team user => admin_remove_member s team user
  | ListRooms team => quietly (admin_list_rooms s team)
  | AddRoom team room => quietly (admin_add_room out s team room)
  | DropRoom team room => admin_remove_room out s team room
  | GetRoomPreset room => quietly (get_room_preset out s room)
  | SetRoomPreset room preset => set_room_preset_route out s room preset
  | UnsetRoomPreset room => remove_room_preset_route out s room
  | Games id => quietly (proxy_games out s id)
  | GameOptions id apworld => quietly (proxy_game_options out s id apworld)
  | YamlContent room yaml => quietly (proxy_yaml_content out s room yaml)
  | GetStatuses room => quietly (get_review_statuses_route out s room)
  | SetStatus room yaml status => quietly (set_review_status_route out now s room yaml status)
  | EditYaml room yaml content => quietly (proxy_yaml_edit out s room yaml content)
  | DropYaml room yaml => quietly (proxy_yaml_delete out s room yaml)
  | GetNotes room yaml => quietly (get_notes_route s room yaml)
  | AddNote room yaml content => quietly (add_note_route now s room yaml content)
  | DropNote room id => delete_note_route s room id
  | RoomsPage => quietly (rooms_list s)
  | RoomPage room => quietly (review_page out s room)
  | PresetsPage => quietly (presets_list collate s)
  | PresetPage id from_room => quietly (preset_edit ap_versions s id from_room)
  | TeamsPage => quietly (admin_teams_page s)
  | Analysed desc res => quietly (yaml_analysis_callback out now desc res)
  end.

(** Requests one after the other, each at a time of its own; what they answer is left aside. *)
Definition serve_tools (qs : list (Z * ToolSession * tool_request J)) (t : Tables J) : Tables J :=
  fold_left (fun t e => (serve_tool e.1.1 e.1.2 e.2 t).2) qs t.

(** A rule that can be read and is valid. *)
Definition rule_ok (v : J) : Prop := exists rule, rule_from_value out v = Ok rule /\ rule_validate rule = Ok tt.
Definition version_ok (v : str) : Prop := exists version, version_parse v = Ok version.
Definition known_team t (team : option Z) : Prop := match team with Some team => is_Some (teams t !! team) | None => True end.
Definition name_unused t (id : Z) (name : str) : Prop :=
  forall k p, presets t !! k = Some p -> preset_name p = name -> preset_id p = id.
(** The lobby says who the room's author is. *)
Definition lobby_author (room : str) (author : Z) : Prop :=
  exists status text name, ask_lobby out (room_call room) = Ok (status, text) /\ success status = true /\
    room_from_str out text = Ok (name, author).

(** What a session may change at once. *)
Inductive permitted (s : ToolSession) t : Tables J -> Prop :=
  | p_sequences p r n m : permitted s t (with_next p r n m t)
  | p_preset_made p : ts_super_admin s = true -> presets t !! preset_id p = None -> known_team t (preset_team p) ->
      name_unused t (preset_id p) (preset_name p) -> version_ok (preset_ap_version p) ->
      permitted s t (with_presets <[preset_id p := p]> t)
  | p_preset_changed p old : ts_super_admin s = true -> presets t !! preset_id p = Some old ->
      preset_team p = preset_team old -> name_unused t (preset_id p) (preset_name p) ->
      (preset_ap_version p = preset_ap_version old \/ version_ok (preset_ap_version p)) ->
      permitted s t (with_presets <[preset_id p := p]> t)
  | p_preset_gone id : ts_super_admin s = true -> permitted s t (drop_presets (fun p => p =? id)%Z t)
  | p_rule r : may_preset s t RuleEditor (pr_preset r) ->
      (preset_rules t !! pr_id r = None /\ is_Some (presets t !! pr_preset r) /\ rule_ok (pr_rule r) \/
       exists old, preset_rules t !! pr_id r = Some old /\ pr_preset old = pr_preset r /\
         (pr_rule r = pr_rule old \/ rule_ok (pr_rule r))) ->
      permitted s t (with_preset_rules <[pr_id r := r]> t)
  | p_rule_gone preset id : may_preset s t RuleEditor preset ->
      permitted s t (with_preset_rules (filter (fun e => e.1 <> id \/ pr_preset e.2 <> preset)) t)
  | p_room_preset room preset : ts_super_admin s = true -> is_Some (presets t !! preset) ->
      permitted s t (with_room_config <[room := preset]> t)
  | p_room_preset_gone room : ts_super_admin s = true -> permitted s t (with_room_config (delete room) t)
  | p_status st : may_room s t Reviewer (rs_room st) -> rs_status st ∈ valid_statuses ->
      ts_user_id s = Some (rs_changed_by st) -> permitted s t (with_review_status <[(rs_room st, rs_yaml st) := st]> t)
  | p_note n : may_room s t Reviewer (note_room n) -> notes t !! note_id n = None -> ts_user_id s = Some (note_author n) ->
      permitted s t (with_notes <[note_id n := n]> t)
  | p_note_gone id n : may_room s t Reviewer (note_room n) -> notes t !! id = Some n -> ts_user_id s = Some (note_author n) ->
      permitted s t (with_notes (delete id) t)
  | p_team team : ts_super_admin s = true -> teams t !! team_id team = None ->
      (forall k x, teams t !! k = Some x -> team_name x <> team_name team) ->
      permitted s t (with_teams <[team_id team := team]> t)
  | p_team_gone id : ts_super_admin s = true -> permitted s t (delete_team id t).2
  | p_member m r : may_team s t Admin (tm_team m) ->
      is_Some (teams t !! tm_team m) \/ is_Some (members t !! (tm_team m, tm_user m)) -> member_role m = Some r ->
      (ts_super_admin s = true \/ r <> Admin) -> permitted s t (with_members <[(tm_team m, tm_user m) := m]> t)
  | p_member_gone team user : may_team s t Admin team ->
      (ts_super_admin s = true \/ forall m, members t !! (team, user) = Some m -> member_role m <> Some Admin) ->
      permitted s t (with_members (delete (team, user)) t)
  | p_room r : may_team s t Admin (tr_team r) -> is_Some (teams t !! tr_team r) ->
      (ts_super_admin s = true \/ exists user, ts_user_id s = Some user /\ lobby_author (tr_room r) user) ->
      permitted s t (with_team_rooms <[(tr_team r, tr_room r) := r]> t)
  | p_room_gone team room : may_team s t Admin team -> permitted s t (with_team_rooms (delete (team, room)) t)
  | p_room_named room name : may_room s t Viewer room -> permitted s t (update_room_name room name t).2
  | p_analysis f : permitted s t (with_analysis_table f t).

Local Abbreviation reaches s := (rtc (permitted s)).

Definition within s t0 {A} : result ToolError A -> Tables J -> Prop := fun _ t => reaches s t0 t.

Lemma reaches_one s t t' : permitted s t t' -> reaches s t t'.
Proof. apply rtc_once. Qed.

Ltac guard1 K :=
  lazymatch goal with
  | |- ends (require_room_role _ _ _) _ _ => apply tool_ends_room_role; [exact K|intros ?|intros ?]
  | |- ends (require_team_role _ _ _) _ _ => apply tool_ends_team_role; [intros ?|intros ?]
  | |- ends (require_preset_role _ _ _) _ _ => apply tool_ends_preset_role; [exact K|intros ?|intros ?]
  end.
Ltac serve1 K := repeat first [walk1 | guard1 K].

Lemma reads_permitted now s q t (K : members_keyed t) :
  match q with
  | ListPresets | GetPreset _ | ListBuiltins | ListRules _ | ExportRules _ | ListTeams | ListMembers _ | ListRooms _
  | GetRoomPreset _ | Games _ | GameOptions _ _ | YamlContent _ _ | GetStatuses _ | EditYaml _ _ _ | DropYaml _ _
  | GetNotes _ _ | RoomsPage | PresetsPage | PresetPage _ _ | TeamsPage => ends (serve_tool now s q) t (fun _ t' => t' = t)
  | _ => True
  end.
Proof.
  destruct q; try exact I; cbn [serve_tool]; unfold quietly.
  all: serve1 K; try reflexivity.
Qed.

Lemma name_unused_intro t id name :
  existsb (fun q => str_eqb (preset_name q) name && negb (preset_id q =? id)%Z) (values (presets t)) = false ->
  name_unused t id name.
Proof.
  intros H k p Hp Hn. destruct (decide (preset_id p = id)) as [|Hne]; [done|]. exfalso.
  apply (eq_true_false_abs _) in H; [done|]. apply existsb_exists. exists p. split.
  - apply list_elem_of_In, elem_of_values. eauto.
  - rewrite (proj2 (str_eqb_spec _ _) Hn). simpl. by rewrite (proj2 (Z.eqb_neq _ _) Hne).
Qed.
Lemma team_names_unused t name :
  existsb (fun q => str_eqb (team_name q) name) (values (teams t)) = false ->
  forall k x, teams t !! k = Some x -> team_name x <> name.
Proof.
  intros H k x Hx Hn. apply (eq_true_false_abs _) in H; [done|]. apply existsb_exists. exists x. split.
  - apply list_elem_of_In, elem_of_values. eauto.
  - by apply str_eqb_spec.
Qed.
Lemma known_team_intro t team :
  negb (match team with Some team => bool_decide (is_Some (teams t !! team)) | None => true end) = false -> known_team t team.
Proof. destruct team as [team|]; [|done]. by intros H%negb_false_iff%bool_decide_eq_true. Qed.
Lemma absent_intro {A} (o : option A) : bool_decide (is_Some o) = false -> o = None.
Proof. intros H%bool_decide_eq_false. by apply eq_None_not_Some. Qed.
Lemma present_intro {A} (o : option A) : negb (bool_decide (is_Some o)) = false -> is_Some o.
Proof. by intros H%negb_false_iff%bool_decide_eq_true. Qed.
Lemma status_intro (st : str) : negb (bool_decide (st ∈ valid_statuses)) = false -> st ∈ valid_statuses.
Proof. by intros H%negb_false_iff%bool_decide_eq_true. Qed.
Lemma version_ok_intro text v : version_parse text = Ok v -> version_ok text.
Proof. by exists v. Qed.
Lemma rule_ok_intro v rule a : rule_from_value out v = Ok rule -> rule_validate rule = Ok a -> rule_ok v.
Proof. destruct a. by exists rule. Qed.
Lemma member_role_of team user username r :
  member_role {| tm_team := team; tm_user := user; tm_username := username; tm_role := role_as_str r |} = Some r.
Proof. unfold member_role. simpl. by rewrite (proj2 (role_roundtrip _ r) eq_refl). Qed.
Lemma not_admin_added s r : role_leb Moderator r && negb (ts_super_admin s) = false -> ts_super_admin s = true \/ r <> Admin.
Proof. intros [H|H%negb_false_iff]%andb_false_iff; [right; by intros ->|by left]. Qed.
Lemma not_admin_changed s r : role_leb Admin r = false -> ts_super_admin s = true \/ r <> Admin.
Proof. intros H. right. by intros ->. Qed.
Lemma not_admin_before s t team user :
  at_least Admin (m ← members t !! (team, user); member_role m) = false ->
  ts_super_admin s = true \/ forall m, members t !! (team, user) = Some m -> member_role m <> Some Admin.
Proof. intros H. right. intros m Hm Hr. by rewrite Hm in H; simpl in H; rewrite Hr in H. Qed.
Lemma viewer_of_room s t user room r (K : members_keyed t) :
  ts_user_id s = Some user -> max_role (room_roles t user room) = Some r -> may_room s t Viewer room.
Proof.
  intros Hu Hr. right. assert (at_least Viewer (max_role (room_roles t user room)) = true) as (team & H)%room_roles_best; [|eauto..].
  rewrite Hr. by destruct r.
Qed.
Lemma author_intro room status text name author :
  ask_lobby out (room_call room) = Ok (status, text) -> negb (success status) = false -> room_from_str out text = Ok (name, author) ->
  lobby_author room author.
Proof. intros H1 H2%negb_false_iff H3. by exists status, text, name. Qed.
Lemma own_room_intro s room status text name author user :
  ask_lobby out (room_call room) = Ok (status, text) -> negb (success status) = false -> room_from_str out text = Ok (name, author) ->
  ts_user_id s = Some user -> negb (author =? user)%Z = false ->
  ts_super_admin s = true \/ exists user, ts_user_id s = Some user /\ lobby_author room user.
Proof. intros H1 H2 H3 Hu ->%negb_false_iff%Z.eqb_eq. right. eauto using author_intro. Qed.
Lemma rule_of_preset_Some t preset id r :
  rule_of_preset t preset id = Some r -> preset_rules t !! id = Some r /\ pr_preset r = preset.
Proof.
  unfold rule_of_preset. destruct (preset_rules t !! id) as [r'|]; simpl; [|done].
  destruct (Z.eqb_spec (pr_preset r') preset); naive_solver.
Qed.

Lemma super_room s t minimum room : ts_super_admin s = true -> may_room s t minimum room.
Proof. by left. Qed.
Lemma own_note_room s t n room user :
  may_room s t Reviewer room -> str_eqb (note_room n) room && (note_author n =? user)%Z = true -> may_room s t Reviewer (note_room n).
Proof. by intros H [->%str_eqb_spec _]%andb_true_iff. Qed.
Lemma own_note_author s (n : YamlReviewNote) room user :
  ts_user_id s = Some user -> str_eqb (note_room n) room && (note_author n =? user)%Z = true -> ts_user_id s = Some (note_author n).
Proof. by intros H [_ ->%Z.eqb_eq]%andb_true_iff. Qed.
Lemma rule_changed_intro t preset id r v :
  rule_of_preset t preset id = Some r -> (v = pr_rule r \/ rule_ok v) ->
  preset_rules t !! id = None /\ is_Some (presets t !! preset) /\ rule_ok v \/
  exists old, preset_rules t !! id = Some old /\ pr_preset old = preset /\ (v = pr_rule old \/ rule_ok v).
Proof. intros [? ?]%rule_of_preset_Some ?. right. eauto. Qed.

Hint Resolve super_room rule_changed_intro name_unused_intro team_names_unused known_team_intro absent_intro
  present_intro status_intro version_ok_intro rule_ok_intro member_role_of not_admin_added not_admin_changed
  not_admin_before viewer_of_room own_room_intro : permits.

(** The change that a handler ends with. *)
Ltac change1 :=
  unfold within;
  lazymatch goal with
  | |- reaches _ _ (_ (with_next ?p ?r ?n ?m ?t)) => apply (rtc_l _ _ (with_next p r n m t)); [apply p_sequences|]
  | |- _ => idtac
  end;
  apply reaches_one;
  lazymatch goal with
  | |- permitted _ _ (with_presets <[_ := ?p]> _) =>
      lazymatch goal with
      | _ : presets _ !! _ = Some _ |- _ => eapply (p_preset_changed _ _ p)
      | _ => apply (p_preset_made _ _ p)
      end
  | |- permitted _ _ (with_preset_rules <[_ := ?r]> _) => apply (p_rule _ _ r)
  | |- permitted _ _ (with_review_status <[_ := ?st]> _) => apply (p_status _ _ st)
  | |- permitted _ _ (with_notes <[_ := ?n]> _) => apply (p_note _ _ n)
  | |- permitted _ _ (with_notes (delete _) _) =>
      eapply p_note_gone; [eapply own_note_room; eassumption|eassumption|eapply own_note_author; eassumption]
  | |- permitted _ _ (with_teams <[_ := ?x]> _) => apply (p_team _ _ x)
  | |- permitted _ _ (with_members <[_ := ?m]> _) => eapply (p_member _ _ m)
  | |- permitted _ _ (with_team_rooms <[_ := ?r]> _) => apply (p_room _ _ r)
  | |- permitted _ _ (drop_presets _ _) => apply p_preset_gone
  | |- permitted _ _ (with_preset_rules (filter _) _) => apply p_rule_gone
  | |- permitted _ _ (with_room_config <[_ := _]> _) => apply p_room_preset
  | |- permitted _ _ (with_room_config (delete _) _) => apply p_room_preset_gone
  | |- permitted _ _ (with_teams (delete ?id) _) => apply (p_team_gone _ _ id)
  | |- permitted _ _ (with_members (delete _) _) => apply p_member_gone
  | |- permitted _ _ (with_team_rooms (delete _) _) => apply p_room_gone
  | |- permitted _ _ (with_team_rooms (fmap _) _) => apply p_room_named
  | |- permitted _ _ (with_analysis_table _ _) => apply p_analysis
  end; cbn; eauto 7 with permits nocore.

Lemma preset_requests_permitted now s q t (K : members_keyed t) :
  match q with
  | CreatePreset _ | EditPreset _ _ | DropPreset _ | SetRoomPreset _ _ | UnsetRoomPreset _ =>
      ends (serve_tool now s q) t (within s t)
  | _ => True
  end.
Proof.
  destruct q; try exact I; cbn [serve_tool]; unfold quietly.
  all: serve1 K; try (apply rtc_refl); try (apply reaches_one, p_sequences).
  all: change1.
Qed.

Lemma team_requests_permitted now s q t (K : members_keyed t) :
  match q with
  | CreateTeam _ _ | DropTeam _ | AddMember _ _ _ _ | ChangeRole _ _ _ | DropMember _ _ | AddRoom _ _ | DropRoom _ _ =>
      ends (serve_tool now s q) t (within s t)
  | _ => True
  end.
Proof.
  destruct q; try exact I; cbn [serve_tool]; unfold quietly.
  all: serve1 K; try (apply rtc_refl); try (apply reaches_one, p_sequences).
  all: change1.
Qed.

Lemma room_requests_permitted now s q t (K : members_keyed t) :
  match q with
  | SetStatus _ _ _ | AddNote _ _ _ | DropNote _ _ | RoomPage _ | Analysed _ _ | CreateRule _ _ _ | EditRule _ _ _ _ | DropRule _ _ =>
      ends (serve_tool now s q) t (within s t)
  | _ => True
  end.
Proof.
  destruct q; try exact I; cbn [serve_tool]; unfold quietly.
  all: serve1 K; try (apply rtc_refl); try (apply reaches_one, p_sequences).
  all: change1.
Qed.

Lemma valid_rule_ends v t (Q : result ToolError unit -> Tables J -> Prop) :
  (forall e, Q (Err e) t) -> (rule_ok v -> Q (Ok tt) t) -> ends (valid_rule out v) t Q.
Proof.
  unfold ends, valid_rule, internally, refuse, checked. intros He Hok.
  destruct (rule_from_value out v) as [rule|e] eqn:E1; simpl; [|done].
  destruct (rule_validate rule) as [[]|e] eqn:E2; simpl; [|done]. apply Hok. by exists rule.
Qed.
Lemma valid_rules_end entries t (Q : result ToolError unit -> Tables J -> Prop) :
  (forall e, Q (Err e) t) -> (Forall (fun e => rule_ok e.1) entries -> Q (Ok tt) t) -> ends (valid_rules out entries) t Q.
Proof.
  revert Q. induction entries as [|e entries IH]; intros Q He Hok; simpl; [by apply Hok|].
  apply tool_ends_bind, valid_rule_ends; [done|]. intros Hv. apply IH; [done|]. auto.
Qed.

Lemma create_rules_permitted now s id entries t :
  may_preset s t RuleEditor id -> Forall (fun e => rule_ok e.1) entries ->
  ends (create_rules now s id entries) t (within s t).
Proof.
  intros H Hv. revert t H. induction Hv as [|e entries He Hv IH]; intros t H; simpl; [apply rtc_refl|].
  serve1 K; try (apply rtc_refl); try (apply reaches_one, p_sequences).
  assert (Hstep : forall t1, t1 = with_preset_rules <[id0 := {| pr_id := id0; pr_preset := id; pr_rule := e.1; pr_position := e.2;
                    pr_last_edited_by := Some user; pr_last_edited_at := Some now;
                    pr_last_edited_by_name := Some (session_username s) |}]>
                    (with_next (next_preset t) (id0 + 1) (next_note t) (next_team t) t) ->
                  reaches s t t1 /\ may_preset s t1 RuleEditor id).
  { intros t1 ->. split; [|exact H]. change1. }
  destruct (Hstep _ eq_refl) as [H3 H4]. eapply tool_ends_weaken; [apply IH, H4|].
  intros [rs|err] t' Ht; simpl; [apply tool_ends_mret|]; by apply (transitivity (R := reaches s) H3).
Qed.

Lemma import_permitted now s id entries t (K : members_keyed t) :
  ends (serve_tool now s (ImportRules id entries)) t (within s t).
Proof.
  cbn [serve_tool]. unfold quietly, import_preset.
  serve1 K; try apply rtc_refl. apply valid_rules_end; [intros; apply rtc_refl|]. intros Hv.
  eapply tool_ends_weaken; [by apply create_rules_permitted|].
  intros [rs|e] t' Ht; [|done]. by apply tool_ends_mret.
Qed.

(** A request makes permitted changes, when the members are at their keys. *)
Lemma serve_tool_permitted now s q t (K : members_keyed t) : reaches s t (serve_tool now s q t).2.
Proof.
  change (ends (serve_tool now s q) t (within s t)).
  pose proof (reads_permitted now s q t K) as H1. pose proof (preset_requests_permitted now s q t K) as H2.
  pose proof (team_requests_permitted now s q t K) as H3. pose proof (room_requests_permitted now s q t K) as H4.
  destruct q; cbv beta iota in H1, H2, H3, H4.
  all: first
    [ lazymatch type of H1 with ends _ _ _ => eapply tool_ends_weaken; [exact H1|]; intros r t' ->; apply rtc_refl end
    | lazymatch type of H2 with ends _ _ _ => exact H2 end
    | lazymatch type of H3 with ends _ _ _ => exact H3 end
    | lazymatch type of H4 with ends _ _ _ => exact H4 end
    | exact (import_permitted now s id entries t K) ].
Qed.
(** ** Well-formed tables *)

(** Rows are at their keys and refer to rows that are there; roles, statuses, rules and versions are ones,
    and presets and teams have names of their own. *)
Record valid_tables t : Prop := {
  v_members : forall k m, members t !! k = Some m ->
    k = (tm_team m, tm_user m) /\ is_Some (teams t !! tm_team m) /\ is_Some (member_role m);
  v_rooms : forall k r, team_rooms t !! k = Some r -> k = (tr_team r, tr_room r) /\ is_Some (teams t !! tr_team r);
  v_teams : forall k x, teams t !! k = Some x -> k = team_id x;
  v_team_names : forall k k' x x', teams t !! k = Some x -> teams t !! k' = Some x' -> team_name x = team_name x' -> k = k';
  v_presets : forall k p, presets t !! k = Some p ->
    k = preset_id p /\ known_team t (preset_team p) /\ version_ok (preset_ap_version p);
  v_preset_names : forall k k' p p', presets t !! k = Some p -> presets t !! k' = Some p' ->
    preset_name p = preset_name p' -> k = k';
  v_rules : forall k r, preset_rules t !! k = Some r ->
    k = pr_id r /\ is_Some (presets t !! pr_preset r) /\ rule_ok (pr_rule r);
  v_config : forall room p, room_config t !! room = Some p -> is_Some (presets t !! p);
  v_statuses : forall k st, review_status t !! k = Some st -> k = (rs_room st, rs_yaml st) /\ rs_status st ∈ valid_statuses;
  v_notes : forall k n, notes t !! k = Some n -> k = note_id n;
}.

Ltac learn fact :=
  let T := type of fact in
  lazymatch goal with _ : T |- _ => fail | _ => pose proof fact end.

Lemma valid_keyed t : valid_tables t -> members_keyed t.
Proof. intros V k m Hm. by destruct (v_members _ V _ _ Hm). Qed.

Lemma is_Some_insert {K A} `{Countable K} (m : gmap K A) i x k : is_Some (m !! k) -> is_Some (<[i:=x]> m !! k).
Proof. intros Hk. destruct (decide (i = k)) as [->|]; [rewrite lookup_insert_eq|rewrite lookup_insert_ne]; eauto. Qed.

Lemma known_team_insert t x team : known_team t team -> known_team (with_teams <[team_id x := x]> t) team.
Proof. destruct team; [|done]. apply is_Some_insert. Qed.

(** What the rows of the tables are. *)
Ltac rows Vm Vr Vt Vp Vu Vs Vn :=
  repeat match goal with
  | H : members _ !! _ = Some _ |- _ => learn (Vm _ _ H)
  | H : team_rooms _ !! _ = Some _ |- _ => learn (Vr _ _ H)
  | H : teams _ !! _ = Some _ |- _ => learn (Vt _ _ H)
  | H : presets _ !! _ = Some _ |- _ => learn (Vp _ _ H)
  | H : preset_rules _ !! _ = Some _ |- _ => learn (Vu _ _ H)
  | H : review_status _ !! _ = Some _ |- _ => learn (Vs _ _ H)
  | H : notes _ !! _ = Some _ |- _ => learn (Vn _ _ H)
  end.
Lemma is_Some_filter {A} (gone : Z -> bool) (m : gmap Z A) k :
  is_Some (m !! k) -> gone k = false -> is_Some (filter (fun e => gone e.1 = false) m !! k).
Proof. intros [x Hx] Hg. exists x. by apply map_lookup_filter_Some. Qed.
Lemma is_Some_delete {K A} `{Countable K} (m : gmap K A) i k : is_Some (m !! k) -> k <> i -> is_Some (delete i m !! k).
Proof. intros Hk Hne. by rewrite lookup_delete_ne by done. Qed.
Lemma name_unused_l t id name k p :
  name_unused t id name -> presets t !! k = Some p -> name = preset_name p -> k = preset_id p -> id = k.
Proof. intros H Hp -> ->. symmetry. by eapply H. Qed.
Lemma name_unused_r t id name k p :
  name_unused t id name -> presets t !! k = Some p -> preset_name p = name -> k = preset_id p -> k = id.
Proof. intros H Hp <- ->. by eapply H. Qed.
Lemma renamed (room name : str) (rooms : gmap (Z * str) TeamRoom) k r :
  ((fun r => if str_eqb (tr_room r) room && negb (str_eqb (tr_name r) name)
             then {| tr_team := tr_team r; tr_room := tr_room r; tr_name := name |} else r) <$> rooms) !! k = Some r ->
  exists r0, rooms !! k = Some r0 /\ tr_team r = tr_team r0 /\ tr_room r = tr_room r0.
Proof. rewrite lookup_fmap_Some. intros (r0 & <- & Hr). exists r0. split; [done|]. by destruct (_ && _). Qed.

Ltac table1 :=
  match goal with
  | H : (_ <$> _) !! _ = Some _ |- _ => apply renamed in H as (? & ? & ? & ?)
  | H : <[_ := _]> _ !! _ = Some _ |- _ => apply lookup_insert_Some in H as [[? ?]|[? ?]]
  | H : delete _ _ !! _ = Some _ |- _ => apply lookup_delete_Some in H as [? ?]
  | H : filter _ _ !! _ = Some _ |- _ => apply map_lookup_filter_Some in H as [? ?]
  end.
Ltac opened :=
  repeat match goal with
  | H : exists _, _ |- _ => destruct H
  | H : _ /\ _ |- _ => destruct H
  | H : _ \/ _ |- _ => destruct H
  | H : is_Some (members _ !! _) |- _ => destruct H
  end.

(** The presets that go with a team. *)
Definition of_team t (id p : Z) : bool := match presets t !! p with Some p => bool_decide (preset_team p = Some id) | None => false end.
Lemma other_team t id p x :
  of_team t id p = false -> presets t !! p = Some x -> known_team t (preset_team x) -> known_team (delete_team id t).2 (preset_team x).
Proof.
  unfold of_team, known_team. intros Hid Hx H. rewrite Hx in Hid.
  apply bool_decide_eq_false in Hid. destruct (preset_team x) as [team|]; [|done].
  apply is_Some_delete; [exact H|]. congruence.
Qed.

Lemma permitted_valid s t t' : permitted s t t' -> valid_tables t -> valid_tables t'.
Proof.
  intros P [Vm Vr Vt Vtn Vp Vpn Vu Vc Vs Vn]. destruct P.
  all: constructor; cbn; try assumption; intros; repeat table1; subst; opened; rows Vm Vr Vt Vp Vu Vs Vn; opened.
  all: split_and?; eauto 3 using is_Some_insert, known_team_insert, name_unused_l, name_unused_r.
  all: try match goal with H : preset_team _ = preset_team _ |- _ => rewrite H; auto using known_team_insert end.
  all: try match goal with H : forall _ _, teams _ !! _ = _ -> team_name _ <> _ |- _ =>
             exfalso; eapply H; [eassumption|congruence] end.
  all: try match goal with
           | |- is_Some (delete _ _ !! _) => apply is_Some_delete; [done|simplify_eq; simpl in *; congruence]
           | |- is_Some (filter (fun e => (e.1 =? ?id)%Z = false) _ !! _) => apply (is_Some_filter (fun p => p =? id)%Z); eauto
           | |- is_Some (filter _ _ !! _) => eapply (is_Some_filter (of_team t _)); eauto
           | |- known_team _ _ => eapply other_team; eassumption
           end.
  all: congruence.
Qed.
Lemma reaches_valid s t t' : reaches s t t' -> valid_tables t -> valid_tables t'.
Proof. induction 1; eauto using permitted_valid. Qed.

(** What permitted changes of some sessions keep, their requests keep. *)
Lemma serve_tools_keep (I : Tables J -> Prop) (P : ToolSession -> Prop) qs t :
  (forall s t t', P s -> valid_tables t -> I t -> permitted s t t' -> I t') ->
  valid_tables t -> I t -> Forall (fun e => P e.1.2) qs -> I (serve_tools qs t).
Proof.
  intros Hstep V Hi Hqs. revert t V Hi. induction Hqs as [|[[now s] q] qs Hs Hqs IH]; intros t V Hi; simpl in *; [done|].
  pose proof (serve_tool_permitted now s q t (valid_keyed _ V)) as Hr.
  apply IH; [by eapply reaches_valid|]. revert V Hi. induction Hr; eauto using permitted_valid.
Qed.

(** Each request is made of changes that its session is permitted. *)
Fixpoint permitted_run (qs : list (Z * ToolSession * tool_request J)) (t t' : Tables J) : Prop :=
  match qs with
  | [] => t' = t
  | (_, s, _) :: qs => exists t1, reaches s t t1 /\ permitted_run qs t1 t'
  end.

(** C6: The tables stay well formed through any requests of anyone, and every request changes only what the
    roles of its session permit at the time: presets, teams and the presets of rooms are for super
    administrators, rules for rule editors of the preset's team, members and rooms of a team for its
    administrators (rooms when the lobby says that they are theirs), statuses and own notes for reviewers
    of a team that has the room. *)
Theorem requests_stay_in_roles qs t (V : valid_tables t) :
  valid_tables (serve_tools qs t) /\ permitted_run qs t (serve_tools qs t).
Proof.
  split; [by apply (serve_tools_keep valid_tables (fun _ => True)); eauto using permitted_valid, Forall_true|].
  revert t V. induction qs as [|[[now s] q] qs IH]; intros t V; simpl; [done|].
  pose proof (serve_tool_permitted now s q t (valid_keyed _ V)) as Hr. eauto using reaches_valid.
Qed.

(** ** Administrators *)

Definition admin_of t (team user : Z) : Prop := exists m, members t !! (team, user) = Some m /\ member_role m = Some Admin.

(** C15: Without super administrators, teams, presets and the presets of rooms stay as they are, and nobody
    becomes an administrator of a team. *)
Theorem only_super_admins_make_admins qs t (V : valid_tables t)
    (H : Forall (fun e : Z * ToolSession * tool_request J => ts_super_admin e.1.2 = false) qs) :
  let t' := serve_tools qs t in
  teams t' = teams t /\ presets t' = presets t /\ room_config t' = room_config t /\
  forall team user, admin_of t' team user -> admin_of t team user.
Proof.
  apply (serve_tools_keep (fun t' => teams t' = teams t /\ presets t' = presets t /\ room_config t' = room_config t /\
    forall team user, admin_of t' team user -> admin_of t team user) (fun s => ts_super_admin s = false)); [|done..|done].
  clear. intros s t1 t2 Hs _ (Ht & Hp & Hc & Ha) P. destruct P; try congruence; try (by split_and!); split_and!; try done.
  all: intros team' user' (m' & Hm & Hr); apply Ha; cbn in Hm; repeat table1; subst; try (by exists m').
  all: opened; congruence.
Qed.
(** ** Those who have no part *)

Section outsiders.
(** Users, and the tables before they ask. *)
Context (us : gset Z) (t0 : Tables J).

Definition one_of_them s : Prop := ts_super_admin s = false /\ forall user, ts_user_id s = Some user -> user ∈ us.

(** None of them is in the team, the preset is of no team of theirs, and no team of theirs has the room,
    which is none of theirs on the lobby. *)
Definition foreign_team (team : Z) : Prop := forall user, user ∈ us -> members t0 !! (team, user) = None.
Definition foreign_preset (id : Z) : Prop :=
  forall p team, presets t0 !! id = Some p -> preset_team p = Some team -> foreign_team team.
Definition foreign_room (room : str) : Prop :=
  (forall team, is_Some (team_rooms t0 !! (team, room)) -> foreign_team team) /\
  (forall author, lobby_author room author -> author ∉ us).

Record left_alone t : Prop := {
  la_presets : presets t = presets t0;
  la_members : forall team user, foreign_team team -> members t !! (team, user) = members t0 !! (team, user);
  la_has : forall team room, foreign_team team ->
    is_Some (team_rooms t !! (team, room)) <-> is_Some (team_rooms t0 !! (team, room));
  la_rooms : forall team room, foreign_room room -> team_rooms t !! (team, room) = team_rooms t0 !! (team, room);
  la_rules : forall k r, foreign_preset (pr_preset r) -> preset_rules t !! k = Some r <-> preset_rules t0 !! k = Some r;
  la_statuses : forall room yaml, foreign_room room -> review_status t !! (room, yaml) = review_status t0 !! (room, yaml);
  la_notes : forall k n, foreign_room (note_room n) -> notes t !! k = Some n <-> notes t0 !! k = Some n;
}.

Lemma no_rank s t minimum team user :
  one_of_them s -> left_alone t -> ts_user_id s = Some user -> ranks t minimum team user -> foreign_team team -> False.
Proof.
  intros [_ Hus] L Hu (m & r & Hm & _) Hf. rewrite (la_members _ L) in Hm by done. rewrite Hf in Hm; [done|by apply Hus].
Qed.
Lemma not_foreign_team s t minimum team : one_of_them s -> left_alone t -> may_team s t minimum team -> foreign_team team -> False.
Proof. intros Hs L [Ha|(user & Hu & Hr)]; [by destruct Hs; congruence|]. eauto using no_rank. Qed.
Lemma not_foreign_room s t minimum room : one_of_them s -> left_alone t -> may_room s t minimum room -> foreign_room room -> False.
Proof.
  intros Hs L [Ha|(user & team & Hu & Hroom & Hr)] Hf; [by destruct Hs; congruence|].
  eapply no_rank; [done..|]. apply Hf. by rewrite <- (la_rooms _ L).
Qed.
Lemma not_foreign_preset s t minimum id :
  one_of_them s -> left_alone t -> may_preset s t minimum id -> foreign_preset id -> False.
Proof.
  intros Hs L [Ha|(user & p & team & Hu & Hp & Ht & Hr)] Hf; [by destruct Hs; congruence|].
  rewrite (la_presets _ L) in Hp. eauto using no_rank.
Qed.

Lemma permitted_left_alone s t t' : one_of_them s -> valid_tables t -> left_alone t -> permitted s t t' -> left_alone t'.
Proof.
  intros Hs V L P.
  pose proof (not_foreign_team s t Admin) as NT. pose proof (not_foreign_room s t Reviewer) as NR.
  pose proof (not_foreign_room s t Viewer) as NV. pose proof (not_foreign_preset s t RuleEditor) as NP.
  assert (ts_super_admin s <> true) by (destruct Hs; congruence).
  pose proof L as [L1 L2 L3 L4 L5 L6 L7]. destruct P; try done.
  all: constructor; cbn; try done.
  - intros k r' Hf. rewrite <- L5 by done. destruct (decide (pr_id r = k)) as [<-|]; [|by rewrite lookup_insert_ne].
    rewrite lookup_insert_eq. split; [intros [= ->]; exfalso; eauto|]. intros Hk. exfalso.
    opened; first [congruence|eapply (NP (pr_preset r)); [done..|]; replace (pr_preset r) with (pr_preset r') by congruence; done].
  - intros k r Hf. rewrite <- L5, map_lookup_filter_Some by done. split; [by intros []|]. intros Hk. split; [done|].
    right. simpl. intros <-. eauto.
  - intros room yaml Hf. rewrite lookup_insert_ne; [auto|]. intros [= <- _]. eauto.
  - intros k n' Hf. rewrite <- L7 by done. destruct (decide (note_id n = k)) as [<-|]; [|by rewrite lookup_insert_ne].
    rewrite lookup_insert_eq. split; [intros [= ->]; exfalso; eauto|congruence].
  - intros k n' Hf. rewrite <- L7 by done. destruct (decide (id = k)) as [<-|]; [|by rewrite lookup_delete_ne].
    rewrite lookup_delete_eq. split; [done|]. intros Hk. exfalso. replace n' with n in Hf by congruence. eauto.
  - intros team user Hf. rewrite lookup_insert_ne; [auto|]. intros [= <- _]. eauto.
  - intros team' user' Hf. rewrite lookup_delete_ne; [auto|]. intros [= <- _]. eauto.
  - intros team room Hf. rewrite lookup_insert_ne; [auto|]. intros [= <- _]. eauto.
  - intros team room Hf. rewrite lookup_insert_ne; [auto|]. intros [= _ <-]. opened; [done|]. destruct Hs, Hf. naive_solver.
  - intros team' room' Hf. rewrite lookup_delete_ne; [auto|]. intros [= <- _]. eauto.
  - intros team' room' Hf. rewrite <- L4 by done. destruct (decide ((team, room) = (team', room'))) as [[= <- <-]|].
    + rewrite lookup_delete_eq. destruct (team_rooms t !! (team, room)) as [x|] eqn:Ex; [|done]. exfalso.
      apply (NT team); [done..|]. apply Hf. rewrite <- L4, Ex by done. eauto.
    + by rewrite lookup_delete_ne.
  - intros team room' Hf. by rewrite lookup_fmap, fmap_is_Some, L3.
  - intros team room' Hf. rewrite <- L4, lookup_fmap by done. destruct (team_rooms t !! (team, room')) as [x|] eqn:Ex; simpl; [|done].
    destruct (v_rooms _ V _ _ Ex) as [[= -> ->] _]. destruct (str_eqb (tr_room x) room) eqn:Er; simpl; [|done].
    apply str_eqb_spec in Er as <-. exfalso. eauto.
Qed.
End outsiders.

(** C14: Users without a super administrator among them change no member and no room of a team that they are
    not in, no preset, no rule of a preset of no team of theirs, and no row, status or note of a room that
    no team of theirs has, unless the lobby says that the room is one of theirs. *)
Theorem outsiders_change_nothing (us : gset Z) qs t (V : valid_tables t)
    (H : Forall (fun e : Z * ToolSession * tool_request J => one_of_them us e.1.2) qs) :
  left_alone us t (serve_tools qs t).
Proof.
  apply (serve_tools_keep (left_alone us t) (one_of_them us)); eauto using permitted_left_alone. by constructor.
Qed.
End permitted.

(** ** Analyses *)

Section polling.
Context {SV : SemVer} {J : Type} (out : Outside J).
Implicit Types (a : AnalysisState J) (t : Tables J).

Definition yaml_of (s : Submission) : str := ap_yaml_id (sub_params s).

(** A YAML of a room that some team has, on the version, that has no analysis. *)
Definition waiting t (version : Version) (room yaml json : str) : Prop :=
  lobby_yamls t !! yaml = Some (room, json) /\ lobby_rooms t !! room = Some (version_to_string version) /\
  (exists k r, team_rooms t !! k = Some r /\ tr_room r = room) /\ analysis t !! (room, yaml) = None.

Lemma unanalyzed_rows t version : exists rows, (get_unanalyzed_yamls version t).1 = Ok rows /\
  NoDup (ua_yaml <$> rows) /\
  forall r, r ∈ rows <-> waiting t version (ua_room r) (ua_yaml r) (ua_apworlds_json r).
Proof.
  eexists. split; [reflexivity|]. split.
  - match goal with |- NoDup (_ <$> omap ?f ?l) => assert (sublist (ua_yaml <$> omap f l) l.*1) as Hs end.
    { induction (map_to_list (lobby_yamls t)) as [|[yaml [room json]] l IH]; cbn; [done|].
      destruct (lobby_rooms t !! room); cbn; [|by apply sublist_cons].
      match goal with |- context [if ?b then Some _ else None] => destruct b end; cbn;
        [by apply sublist_skip|by apply sublist_cons]. }
    refine (sublist_NoDup _ _ _ Hs). apply NoDup_fst_map_to_list.
  - intros [room yaml json]. rewrite list_elem_of_omap. unfold waiting. cbn. split.
    + intros ([yaml' [room' json']] & Hy%elem_of_map_to_list & Hr). cbn in Hr.
      destruct (lobby_rooms t !! room') as [v|] eqn:Ev; cbn in Hr; [|done]. case_match eqn:E; [|done].
      injection Hr as -> -> ->. apply andb_true_iff in E as [[Hv%str_eqb_spec Hex]%andb_true_iff Ha%bool_decide_eq_true].
      subst. apply existsb_exists in Hex as (x & Hx%list_elem_of_In%elem_of_values & Hx'%str_eqb_spec). naive_solver.
    + intros (Hy & Hv & (k & x & Hk & Hx) & Ha). exists (yaml, (room, json)). split; [by apply elem_of_map_to_list|].
      cbn. rewrite Hv. cbn. rewrite (proj2 (str_eqb_spec _ _) eq_refl), bool_decide_true by done.
      replace (existsb _ _) with true; [done|]. symmetry. apply existsb_exists. exists x. split; [|by apply str_eqb_spec].
      apply list_elem_of_In, elem_of_values. eauto.
Qed.

Section round.
Context (now : Z) (answers : Answers) (version : Version).

(** The job of a YAML that is waiting, if its key can be had, its worlds can be read and the queue takes it. *)
Definition given a (r : UnanalyzedYamlRow) : option Submission :=
  if free now a (inflight_key (ua_yaml r)) && bool_decide (set_error answers (inflight_key (ua_yaml r)) = None) then
    match read_apworlds out (ua_apworlds_json r) with
    | Ok apworlds =>
        let s := submission (ua_room r) (ua_yaml r) apworlds version Normal in
        match enqueue_error answers (sub_params s) with None => Some s | Some _ => None end
    | Err _ => None
    end
  else None.

Lemma poll_row_spec a r :
  let a' := poll_row out now answers version a r in
  let key := inflight_key (ua_yaml r) in
  an_tables a' = an_tables a /\ submitted a' = submitted a ++ option_list (given a r) /\
  (forall k, k <> key -> inflight a' !! k = inflight a !! k) /\
  (is_Some (given a r) -> free now a key = true /\ inflight a' !! key = Some (now + INFLIGHT_TTL_SECS)%Z) /\
  (given a r = None -> del_lost answers key = false -> free now a' key = free now a key).
Proof.
  cbn. unfold poll_row, given, acquire, submit, release_inflight_key.
  destruct (set_error answers (inflight_key (ua_yaml r))) as [e|]; cbn.
  { rewrite andb_false_r. cbn. rewrite app_nil_r. by split_and!; [..|intros []|]. }
  destruct (free now a (inflight_key (ua_yaml r))) eqn:Ef; cbn.
  2:{ rewrite app_nil_r. by split_and!; [..|intros []|]. }
  destruct (read_apworlds out (ua_apworlds_json r)) as [apworlds|e]; cbn; [destruct (enqueue_error _ _) as [e|]; cbn|].
  2:{ split_and!; try done; intros; [by rewrite lookup_insert_ne|]. split; [done|]. by rewrite lookup_insert_eq. }
  all: destruct (del_lost answers (inflight_key (ua_yaml r))); cbn; rewrite app_nil_r; split_and!; try done.
  all: try (by intros []); intros.
  all: unfold free; cbn; rewrite ?lookup_delete_eq, ?lookup_delete_ne, ?lookup_insert_ne by done; done.
Qed.
Lemma inflight_key_inj y y' : inflight_key y = inflight_key y' -> y = y'.
Proof. unfold inflight_key. apply app_inv_head. Qed.

Lemma given_yaml a r s : given a r = Some s -> yaml_of s = ua_yaml r.
Proof. unfold given. intros Hr. case_match; [|done]. case_match; [|done]. case_match; [done|]. by injection Hr as <-. Qed.
Lemma given_ext a a' r :
  inflight a !! inflight_key (ua_yaml r) = inflight a' !! inflight_key (ua_yaml r) -> given a r = given a' r.
Proof. intros H. unfold given, free. by rewrite H. Qed.

Lemma poll_rows_spec rows a : NoDup (ua_yaml <$> rows) ->
  let a' := fold_left (poll_row out now answers version) rows a in
  an_tables a' = an_tables a /\ submitted a' = submitted a ++ omap (given a) rows /\
  (forall k, (forall r, r ∈ rows -> inflight_key (ua_yaml r) <> k) -> inflight a' !! k = inflight a !! k) /\
  (forall r, r ∈ rows -> is_Some (given a r) -> inflight a' !! inflight_key (ua_yaml r) = Some (now + INFLIGHT_TTL_SECS)%Z) /\
  (forall r, r ∈ rows -> given a r = None -> del_lost answers (inflight_key (ua_yaml r)) = false ->
     free now a' (inflight_key (ua_yaml r)) = free now a (inflight_key (ua_yaml r))).
Proof.
  revert a. induction rows as [|r rows IH]; intros a Hnd; cbn.
  { rewrite app_nil_r. split_and!; try done; intros r Hr; by apply elem_of_nil in Hr. }
  apply NoDup_cons in Hnd as [Hr Hnd]. pose proof (poll_row_spec a r) as (Ht & Hs & Hk & Hg & Hn).
  destruct (IH (poll_row out now answers version a r) Hnd) as (Ht' & Hs' & Hk' & Hg' & Hn').
  assert (forall r', r' ∈ rows -> inflight_key (ua_yaml r') <> inflight_key (ua_yaml r)) as Hne.
  { intros r' Hr' E%inflight_key_inj. apply Hr. rewrite <- E. by apply list_elem_of_fmap_2. }
  assert (forall r', r' ∈ rows -> given (poll_row out now answers version a r) r' = given a r') as He.
  { intros r' Hr'. apply given_ext, Hk, Hne, Hr'. }
  split; [by rewrite Ht', Ht|]. split.
  { rewrite Hs', Hs, <- app_assoc. f_equal. replace (omap (given (poll_row out now answers version a r)) rows) with (omap (given a) rows).
    - by destruct (given a r).
    - clear -He. induction rows as [|r' rows IH]; [done|]. cbn. rewrite He by (by left). rewrite IH; [done|].
      intros r'' Hr''. apply He. by right. }
  split_and!.
  - intros k Hall. rewrite Hk', Hk; [done|..]; intros; [symmetry|]; apply Hall; by constructor.
  - intros r' [->|Hr']%elem_of_cons Hsome; [|apply Hg'; [done|by rewrite He]].
    rewrite Hk'; [by apply Hg|]. intros r'' Hr''. by apply Hne.
  - intros r' [->|Hr']%elem_of_cons Hnone Hl.
    + unfold free at 1. rewrite Hk' by (intros r'' Hr''; by apply Hne). by apply Hn.
    + rewrite Hn' by (by rewrite ?He). unfold free. by rewrite Hk by (by apply Hne).
Qed.

(** C22: A round gives the queue exactly the YAMLs that wait for an analysis, whose key is free and whose worlds
    can be read, if Redis and the queue answer; each once, and nothing else changes: those YAMLs are in
    flight for an hour, and all other keys are as free as before (if what frees them arrives). *)
Theorem poll_round_exact a :
  let a' := poll_round out now answers version a in
  an_tables a' = an_tables a /\
  exists jobs, submitted a' = submitted a ++ jobs /\ NoDup (yaml_of <$> jobs) /\
    (forall s, s ∈ jobs <-> exists room yaml json apworlds,
       waiting (an_tables a) version room yaml json /\ free now a (inflight_key yaml) = true /\
       set_error answers (inflight_key yaml) = None /\ read_apworlds out json = Ok apworlds /\
       s = submission room yaml apworlds version Normal /\ enqueue_error answers (sub_params s) = None) /\
    (forall s, s ∈ jobs -> inflight a' !! inflight_key (yaml_of s) = Some (now + INFLIGHT_TTL_SECS)%Z) /\
    (forall yaml, yaml ∉ yaml_of <$> jobs -> del_lost answers (inflight_key yaml) = false ->
       free now a' (inflight_key yaml) = free now a (inflight_key yaml)).
Proof.
  cbv zeta. unfold poll_round. destruct (unanalyzed_rows (an_tables a) version) as (rows & -> & Hnd & Hrows).
  destruct (poll_rows_spec rows a Hnd) as (Ht & Hs & Hk & Hg & Hn). split; [done|]. exists (omap (given a) rows).
  pose proof (given_yaml a) as Hy. split_and!; [done|..].
  - clear -Hnd Hy. induction rows as [|r rows IH]; [constructor|]. cbn. apply NoDup_cons in Hnd as [Hr Hnd].
    destruct (given a r) as [s|] eqn:Er; [|by apply IH]. cbn. apply NoDup_cons. split; [|by apply IH].
    rewrite (Hy _ _ Er). intros (s' & Hs' & (r' & Hr' & Er')%list_elem_of_omap)%list_elem_of_fmap.
    apply Hr. rewrite Hs', (Hy _ _ Er'). by apply list_elem_of_fmap_2.
  - intros s. rewrite list_elem_of_omap. split.
    + intros (r & Hr & Er). unfold given in Er. case_match eqn:E1; [|done]. case_match eqn:E2; [|done].
      case_match eqn:E3; [done|]. injection Er as <-. apply andb_true_iff in E1 as [? ?%bool_decide_eq_true].
      apply Hrows in Hr. do 4 eexists. split_and!; done.
    + intros (room & yaml & json & apworlds & Hw & Hf & He & Ha & -> & Hq).
      exists {| ua_room := room; ua_yaml := yaml; ua_apworlds_json := json |}. split; [by apply Hrows|].
      unfold given. cbn in Hq |- *. rewrite Hf, He, Ha. cbn. by rewrite Hq.
  - intros s (r & Hr & Er)%list_elem_of_omap. rewrite (Hy _ _ Er). apply Hg; [done|]. by rewrite Er.
  - intros yaml Hnot Hl. destruct (decide (yaml ∈ ua_yaml <$> rows)) as [(r & -> & Hr)%list_elem_of_fmap|Hno].
    + apply Hn; [done| |done]. destruct (given a r) as [s|] eqn:Er; [|done]. destruct Hnot. rewrite <- (Hy _ _ Er).
      apply list_elem_of_fmap_2, list_elem_of_omap. eauto.
    + unfold free. rewrite Hk; [done|]. intros r Hr E%inflight_key_inj. apply Hno. rewrite <- E. by apply list_elem_of_fmap_2.
Qed.
End round.

(** Rounds at their times; in between, the tables change as they like, and so do the answers. *)
Definition poll_rounds (rounds : list (Z * Answers * Version * Tables J)) a : AnalysisState J :=
  fold_left (fun a e => let '(now, answers, version, t) := e in poll_round out now answers version (with_tables (fun _ => t) a))
    rounds a.

(** What was given to the queue is in flight until [until]. *)
Definition once (until : Z) a : Prop :=
  NoDup (yaml_of <$> submitted a) /\
  forall s, s ∈ submitted a -> exists u, inflight a !! inflight_key (yaml_of s) = Some u /\ (until <= u)%Z.

Lemma poll_row_once now answers version a r start :
  (start <= now < start + INFLIGHT_TTL_SECS)%Z -> once (start + INFLIGHT_TTL_SECS) a ->
  once (start + INFLIGHT_TTL_SECS) (poll_row out now answers version a r).
Proof.
  intros Hnow [Hnd Hin]. destruct (poll_row_spec now answers version a r) as (_ & Hs & Hk & Hg & _). cbn in Hs, Hk, Hg.
  assert (forall s, s ∈ submitted a -> free now a (inflight_key (yaml_of s)) = false) as Hfree.
  { intros s (u & Hu & Hle)%Hin. unfold free. rewrite Hu. apply Z.leb_gt. lia. }
  (* the keys of what was submitted are not free, so the row leaves them as they are *)
  assert (forall s, s ∈ submitted a -> inflight (poll_row out now answers version a r) !! inflight_key (yaml_of s) =
                                       inflight a !! inflight_key (yaml_of s)) as Hkeep.
  { intros s Hs'. destruct (decide (inflight_key (yaml_of s) = inflight_key (ua_yaml r))) as [E|]; [|by apply Hk].
    specialize (Hfree _ Hs'). unfold poll_row, acquire. rewrite <- E. by destruct (set_error _ _); [|rewrite Hfree]. }
  unfold once. rewrite Hs. destruct (given now answers version a r) as [s|] eqn:Er; cbn.
  2:{ rewrite app_nil_r. split; [done|]. intros s Hs'. rewrite Hkeep by done. by apply Hin. }
  destruct (Hg (mk_is_Some _ _ eq_refl)) as [Hf Hset].
  assert (yaml_of s = ua_yaml r) as Hy by by eapply given_yaml.
  split.
  - rewrite fmap_app. apply NoDup_app. split; [done|]. split; [|apply NoDup_singleton].
    intros y (s' & -> & Hs')%list_elem_of_fmap. cbn. intros E%list_elem_of_singleton.
    specialize (Hfree _ Hs'). rewrite E, Hy in Hfree. congruence.
  - intros s' [Hs'| ->%list_elem_of_singleton]%elem_of_app; [rewrite Hkeep by done; by apply Hin|].
    rewrite Hy, Hset. eexists. split; [done|]. lia.
Qed.

Lemma poll_round_once now answers version a start :
  (start <= now < start + INFLIGHT_TTL_SECS)%Z -> once (start + INFLIGHT_TTL_SECS) a ->
  once (start + INFLIGHT_TTL_SECS) (poll_round out now answers version a).
Proof.
  intros Hnow Ho. unfold poll_round. destruct (unanalyzed_rows (an_tables a) version) as (rows & -> & _).
  revert a Ho. induction rows as [|r rows IH]; intros a Ho; cbn; [done|]. apply IH. by apply poll_row_once.
Qed.

End polling.

(** ** An example *)

Section example.
#[local] Existing Instance example_semver.
#[local] Instance tool_yaml : YamlOps doc := doc_ops [].
#[local] Instance tool_regex : RegexOps str str := search_ops.
#[local] Instance tool_lower : Lowercase := ascii_lowercase.

(** A value is a rule or is not one; the lobby says that Ann, 10, made every room. *)
Definition ex_outside : Outside (option Rule) := {|
  parse_uuid := Some;
  rule_from_value := fun v => ok_or v (lit "no rule");
  names_from_value := fun _ => Ok [];
  value_from_str := fun _ => Ok None;
  values_from_str := fun _ => Ok [];
  text_at := fun _ _ => None;
  ask_lobby := fun _ => Ok (200%N, []);
  status_text := N_to_str;
  room_from_str := fun _ => Ok (lit "Async", 10%Z);
  locked_from_str := fun _ => Ok (lit "Async", false);
  yamls_from_str := fun _ => Ok [];
  detail_from_str := fun _ => Ok None;
  edit_to_str := fun content _ _ => content;
  lobby_public_url := None;
  lobby_root_url := lit "https://lobby";
|}.

Definition ex_collate (a b : str) : bool := true.
Definition ex_valid_rule : Rule := {|
  rule_name_ := lit "deaths"; rule_game := None; rule_when := None; rule_then := Check (lit "deaths") (GreaterThan 5);
  rule_severity := SevWarning |}.
Definition ex_member (team user : Z) (role : string) : TeamMember :=
  {| tm_team := team; tm_user := user; tm_username := None; tm_role := lit role |}.

(** Ann, 10, is the administrator of team 1, and Bob, 20, of team 2. *)
Definition ex_tables : Tables (option Rule) := {|
  presets := {[1%Z := {| preset_id := 1; preset_name := lit "Async"; preset_builtin_rules := None; preset_team := Some 1%Z;
                         preset_ap_version := lit "1" |}]};
  preset_rules := {[1%Z := {| pr_id := 1; pr_preset := 1; pr_rule := Some ex_valid_rule; pr_position := 0;
                              pr_last_edited_by := None; pr_last_edited_at := None; pr_last_edited_by_name := None |}]};
  room_config := {[lit "r" := 1%Z]};
  review_status := {[(lit "r", lit "y") := {| rs_room := lit "r"; rs_yaml := lit "y"; rs_status := lit "ok"; rs_changed_by := 10;
                                              rs_changed_at := 0; rs_changed_by_name := None |}]};
  notes := ∅;
  teams := <[1%Z := {| team_id := 1; team_name := lit "one"; team_guild := 5 |}]>
             {[2%Z := {| team_id := 2; team_name := lit "two"; team_guild := 5 |}]};
  members := <[(1%Z, 10%Z) := ex_member 1 10 "admin"]> {[(2%Z, 20%Z) := ex_member 2 20 "admin"]};
  team_rooms := {[(1%Z, lit "r") := {| tr_team := 1; tr_room := lit "r"; tr_name := lit "Async" |}]};
  analysis := ∅; lobby_rooms := ∅; lobby_yamls := ∅;
  next_preset := 2; next_rule := 2; next_note := 1; next_team := 3;
|}.

Definition ex_session (user : Z) : ToolSession :=
  {| ts_user_id := Some user; ts_username := None; ts_logged_in := true; ts_redirect := None; ts_super_admin := false |}.

(** Bob tries a rule and a status of Ann's; Ann takes Cem, 30, in and would make him an administrator. *)
Definition ex_asked : list (Z * ToolSession * tool_request (option Rule)) :=
  [(1%Z, ex_session 20, CreateRule 1 (Some ex_valid_rule) 0); (2%Z, ex_session 20, SetStatus (lit "r") (lit "y") (lit "nok"));
   (3%Z, ex_session 10, AddMember 1 30 None (lit "reviewer")); (4%Z, ex_session 10, ChangeRole 1 30 (lit "admin"));
   (5%Z, ex_session 30, SetStatus (lit "r") (lit "y") (lit "nok")); (6%Z, ex_session 10, CreateRule 1 None 0)].

Local Abbreviation ex_after := (serve_tools ex_outside ex_collate [] ex_asked ex_tables).

Ltac ex_rows :=
  repeat match goal with
  | H : <[_ := _]> _ !! _ = Some _ |- _ => apply lookup_insert_Some in H as [[<- <-]|[_ H]]
  | H : {[_ := _]} !! _ = Some _ |- _ => apply lookup_singleton_Some in H as [<- <-]
  | H : ∅ !! _ = Some _ |- _ => by rewrite lookup_empty in H
  end.

Lemma ex_tables_valid : valid_tables ex_outside ex_tables.
Proof.
  constructor; unfold ex_tables; cbn [members team_rooms teams presets preset_rules room_config review_status notes].
  - intros k m Hm. ex_rows; (split; [done|]); split; vm_compute; eauto.
  - intros k r Hr. ex_rows; (split; [done|]); vm_compute; eauto.
  - intros k x Hx. by ex_rows.
  - intros k k' x x' Hx Hx' E. by ex_rows.
  - intros k p Hp. ex_rows. (split; [done|]); split; vm_compute; eauto.
  - intros k k' p p' Hp Hp' _. by ex_rows.
  - intros k r Hr. ex_rows. (split; [done|]); split; [by vm_compute; eauto|]. exists ex_valid_rule. split; reflexivity.
  - intros room p Hp. ex_rows. vm_compute. eauto.
  - intros k st Hst. ex_rows. split; [done|]. vm_compute. set_solver.
  - intros k n Hn. ex_rows.
Qed.

Lemma requests_stay_in_roles_witness :
  valid_tables ex_outside ex_after /\
  (tm_role <$> members ex_after !! (1%Z, 30%Z)) = Some (lit "reviewer") /\
  (rs_status <$> review_status ex_after !! (lit "r", lit "y")) = Some (lit "nok").
Proof.
  split; [|split; vm_compute; reflexivity].
  apply (requests_stay_in_roles ex_outside ex_collate [] ex_asked ex_tables ex_tables_valid).
Defined.

Lemma only_super_admins_make_admins_witness :
  is_Some (members ex_after !! (1%Z, 30%Z)) /\ ~ admin_of ex_after 1 30.
Proof.
  split; [by vm_compute; eauto|]. intros Ha.
  destruct (only_super_admins_make_admins ex_outside ex_collate [] ex_asked ex_tables ex_tables_valid) as (_ & _ & _ & H).
  { by repeat constructor. }
  destruct (H _ _ Ha) as (m & Hm & _). vm_compute in Hm. discriminate.
Defined.

Lemma outsiders_change_nothing_witness :
  let after := serve_tools ex_outside ex_collate [] (take 2 ex_asked) ex_tables in
  foreign_preset {[20%Z]} ex_tables 1 /\ foreign_room ex_outside {[20%Z]} ex_tables (lit "r") /\
  preset_rules after !! 1%Z = preset_rules ex_tables !! 1%Z /\
  review_status after !! (lit "r", lit "y") = review_status ex_tables !! (lit "r", lit "y").
Proof.
  assert (foreign_team {[20%Z]} ex_tables 1) as Hf by (intros user ->%elem_of_singleton; reflexivity).
  assert (foreign_preset {[20%Z]} ex_tables 1) as Hp.
  { intros p team Hp Ht. vm_compute in Hp. injection Hp as <-. by injection Ht as <-. }
  assert (foreign_room ex_outside {[20%Z]} ex_tables (lit "r")) as Hr.
  { split.
    - intros team [x Hx]. unfold ex_tables in Hx. cbn [team_rooms] in Hx.
      apply lookup_singleton_Some in Hx as [[= <-] _]. exact Hf.
    - intros author (status & text & name & _ & _ & [= _ <-]). by intros ?%elem_of_singleton. }
  destruct (outsiders_change_nothing ex_outside ex_collate [] {[20%Z]} (take 2 ex_asked) ex_tables ex_tables_valid)
    as [_ _ _ _ Hrules Hstatuses _].
  { repeat constructor; cbn; intros user [= <-]; set_solver. }
  split; [exact Hp|]. split; [exact Hr|]. split; [|auto].
  destruct (preset_rules ex_tables !! 1%Z) as [r|] eqn:E; [|vm_compute in E; discriminate].
  apply Hrules; [|exact E]. vm_compute in E. injection E as <-. exact Hp.
Defined.

(** A YAML waits in two rounds. *)
Definition ex_waiting : Tables (option Rule) := {|
  presets := ∅; preset_rules := ∅; room_config := ∅; review_status := ∅; notes := ∅; teams := ∅; members := ∅;
  team_rooms := team_rooms ex_tables; analysis := ∅; lobby_rooms := {[lit "r" := lit "1"]};
  lobby_yamls := {[lit "y" := (lit "r", lit "[]")]}; next_preset := 1; next_rule := 1; next_note := 1; next_team := 1;
|}.
Definition ex_answers : Answers := {| set_error := fun _ => None; del_lost := fun _ => false; enqueue_error := fun _ => None |}.
Definition ex_rounds : list (Z * Answers * Version * Tables (option Rule)) :=
  [(0%Z, ex_answers, 1%N, ex_waiting); (300%Z, ex_answers, 1%N, ex_waiting)].
Definition ex_idle : AnalysisState (option Rule) := {| an_tables := ex_waiting; inflight := ∅; submitted := [] |}.

End example.
