(* ===== verification/LobbyNames.v ===== *)
(** * Names of players

    The part of [lobby/src/yaml.rs] that computes and checks the names that the players of a room
    get from the name templates of their YAMLs, and the file names of [lobby/src/db/yaml.rs]. *)

From S2P Require Import Prelude Ord RustStd Apwm.

(** [counter::Counter<String>]: how often each key was counted. *)
Abbreviation Counter := (gmap str N).
Definition counted (c : Counter) (k : str) : N := default 0%N (c !! k).
Definition count_one (c : Counter) (k : str) : Counter := <[k := (counted c k + 1)%N]> c.
Definition total (c : Counter) : N := map_fold (fun _ n acc => (n + acc)%N) 0%N c.

Section names.
Context {LC : Lowercase}.

(** The matches of the pattern for curly braces, which the [regex] crate finds. *)
Context (find_curly_braces : str -> list str).

(** [None] is the panic of a slice that ends within a character. *)
(* src: lobby/src/yaml.rs:369-405 get_ap_player_name *)
Definition get_ap_player_name (original_name : str) (player_counter : Counter)
    : option (str * Counter) :=
  let lowercase_name := to_lowercase original_name in
  let player_counter := count_one player_counter lowercase_name in
  let number := counted player_counter lowercase_name in
  let player := total player_counter in
  let if_many n := if (1 <? n)%N then N_to_str n else [] in
  let new_name :=
    replace (lit "{PLAYER}") (if_many player)
      (replace (lit "{player}") (N_to_str player)
        (replace (lit "{NUMBER}") (if_many number)
          (replace (lit "{number}") (N_to_str number) original_name))) in
  let new_name := trim_start new_name in
  '(kept, _) ← byte_split (N.min (str_len new_name) 16) new_name;
  Some (trim_end kept, player_counter).

(** The loop that names one player after the other. *)
Fixpoint slot_names (counter : Counter) (names : list str) : option (list (str * str)) :=
  match names with
  | [] => Some []
  | name :: names =>
      '(truncated, counter) ← get_ap_player_name name counter;
      rest ← slot_names counter names;
      Some ((name, truncated) :: rest)
  end.

(** Sorting the indices by the names in lower case, and looking the names up. *)
(* src: lobby/src/yaml.rs:408-413 compute_ap_slot_names *)
Definition sorted_names (player_names : list str) : list str :=
  sort_by (fun a b => str_leb (to_lowercase a) (to_lowercase b)) player_names.

(* src: lobby/src/yaml.rs:407-425 compute_ap_slot_names *)
Definition compute_ap_slot_names (player_names : list str) : option (gmap str str) :=
  named ← slot_names ∅ (sorted_names player_names);
  Some (fold_left (fun result e => <[e.1 := e.2]> result) named ∅).

(* src: lobby/src/yaml.rs:427-429 is_reserved_name *)
Definition is_reserved_name (player_name : str) : bool :=
  str_eqb (to_lowercase player_name) (lit "meta") ||
  str_eqb (to_lowercase player_name) (lit "archipelago").

(* src: lobby/src/yaml.rs:229-230 validate_player_name *)
Definition allowed_in_curly_braces : list str :=
  [lit "{PLAYER}"; lit "{player}"; lit "{NUMBER}"; lit "{number}"].

Definition has_brace (s : str) : bool := str_contains (lit "{") s || str_contains (lit "}") s.

(* src: lobby/src/yaml.rs:227-251 validate_player_name *)
Definition check_braces (original_player_name : str) : result error unit :=
  if has_brace original_player_name then
    temp_name ← try_fold (fun temp_name m =>
        if bool_decide (m ∈ allowed_in_curly_braces) then Ok (replace m [] temp_name)
        else bail (lit "Your YAML contains an invalid name: " ++ original_player_name ++
                   lit ". Archipelago doesn't allow having anything in curly braces within a name other than player/PLAYER/number/NUMBER. Found " ++ m))
      original_player_name (find_curly_braces original_player_name);
    if has_brace temp_name then
      bail (lit "Your YAML contains an invalid name: " ++ original_player_name ++
            lit ". Names cannot contain unmatched curly braces.")
    else Ok tt
  else Ok tt.

(** The counter keeps counting names that are refused after their braces were checked. *)
(* src: lobby/src/yaml.rs:214-270 validate_player_name *)
Definition validate_player_name (original_player_name : str) (players_in_room : gset str)
    (player_counter : Counter) : option (result error str * Counter) :=
  if negb (is_ascii original_player_name) then
    Some (bail (lit "Your YAML contains an invalid name: " ++ original_player_name ++ lit "."),
          player_counter)
  else
    match check_braces original_player_name with
    | Err e => Some (Err e, player_counter)
    | Ok _ =>
        '(player_name, player_counter) ← get_ap_player_name original_player_name player_counter;
        if is_reserved_name player_name then
          Some (bail (player_name ++ lit " is a reserved name"), player_counter)
        else if bool_decide (to_lowercase player_name ∈ players_in_room) then
          Some (bail (lit "Adding this yaml would duplicate a player name: " ++ player_name),
                player_counter)
        else Some (Ok player_name, player_counter)
    end.

(* src: lobby/src/db/yaml.rs:420-428 sanitize_yaml_name *)
Definition sanitize_yaml_name (name : str) : str :=
  let sanitized :=
    (fun c => if bool_decide (c ∈ [47; 92; 60; 62; 58; 63; 42; 124; 34]%N) then 95%N else c)
      <$> name in
  match sanitized with
  | c :: rest => if (c =? 46)%N then 95%N :: rest else sanitized
  | [] => sanitized
  end.
End names.
