(* ===== verification/LobbyYaml.v ===== *)
(** * YAMLs of a room in the lobby

    [lobby/src/yaml.rs], the rows of [lobby/src/db/yaml.rs] and [db/room.rs], and the callback of
    [lobby/src/jobs.rs]: uploads are split into documents, checked and validated by a worker; YAMLs
    are validated again when the releases of their room change, and the results of these jobs are
    written to the database. *)

From S2P Require Import Prelude Ord RustStd F64 Redis WqCore WqProg Wq.
From S2P Require Import Apwm ApwmIndex LobbyNames.

(** How a request ends when it does not succeed: with an error, or with a panic. *)
Inductive failure : Type := Raised (e : error) | Panicked.

Definition raise {A} (m : str) : result failure A := Err (Raised [m]).
Definition or_panic {A} (o : option A) : result failure A := ok_or o Panicked.
Definition raised {A} (r : result error A) : result failure A := map_err Raised r.

(** [weight >= 1.0] and [weight != 0.]. *)
Definition at_least_one (weight : f64) : bool := SFleb f64_one weight.
Definition not_zero (weight : f64) : bool := negb (SFeqb weight (S754_zero false)).

(* src: lobby/src/db/types.rs:85-93 YamlValidationStatus *)
Inductive YamlValidationStatus : Type :=
| Validated | ManuallyValidated | Unsupported | Failed | Unknown.

#[export] Instance YamlValidationStatus_eq_dec : EqDecision YamlValidationStatus.
Proof. solve_decision. Defined.

(* src: lobby/src/db/types.rs:96-104 YamlValidationStatus::as_str *)
Definition validation_status_as_str (s : YamlValidationStatus) : str :=
  match s with
  | Validated => lit "validated"
  | ManuallyValidated => lit "manually_validated"
  | Unsupported => lit "unsupported"
  | Failed => lit "failed"
  | Unknown => lit "unknown"
  end.

(* src: lobby/src/db/types.rs:106-111 YamlValidationStatus::is_valid *)
Definition is_valid (s : YamlValidationStatus) : bool :=
  match s with Validated | ManuallyValidated => true | _ => false end.

(* src: lobby/src/db/types.rs:117-126 YamlValidationStatus::from_str *)
Definition validation_status_from_str (s : str) : result error YamlValidationStatus :=
  if str_eqb s (lit "validated") then Ok Validated
  else if str_eqb s (lit "manually_validated") then Ok ManuallyValidated
  else if str_eqb s (lit "unsupported") then Ok Unsupported
  else if str_eqb s (lit "failed") then Ok Failed
  else if str_eqb s (lit "unknown") then Ok Unknown
  else bail (lit "Unknown variant for YamlValidationStatus: " ++ s).

Section lobby.
Context {SV : SemVer} {LC : Lowercase}.

(** ** Data *)

(* src: lobby/src/db/yaml.rs:77-82 YamlGame *)
Inductive YamlGame : Type :=
| GameName (name : str)
| GameMap (games : gmap str f64).

(* src: lobby/src/db/yaml.rs:84-88 YamlFile *)
Record YamlFile : Type := { file_game : YamlGame; file_name : str }.

(* src: lobby/src/db/yaml.rs:39-60 Yaml *)
Record Yaml : Type := {
  yaml_id_ : str;
  content : str;
  game : str;
  player_name : str;
  owner_id : Z;
  validation_status : YamlValidationStatus;
  yaml_apworlds : list (str * Version);
  last_validation_time : Z;
  last_error : option str;
  patch : option str;
  bundle_id : str;
  password : option str;
  edited_content : option str;
  last_edited_by : option Z;
  last_edited_by_name : option str;
  last_edited_at : option Z;
}.

(* src: lobby/src/db/yaml.rs:357-359 Yaml::current_content *)
Definition current_content (y : Yaml) : str := default (content y) (edited_content y).

(* src: lobby/src/db/room.rs:70-92 RoomSettings *)
Record RoomSettings : Type := {
  room_name : str;
  close_date : Z;
  description : str;
  room_url : str;
  author_id : Z;
  yaml_validation : bool;
  allow_unsupported : bool;
  yaml_limit_per_user : option Z;
  yaml_limit_bypass_list : list Z;
  manifest : Manifest;
  show_apworlds : bool;
  created_at : Z;
  updated_at : Z;
  allow_invalid_yamls : bool;
  meta_file : str;
  is_bundle_room : bool;
  locked : bool;
}.

(* src: lobby/src/db/room.rs:94-104 Room *)
Record Room : Type := {
  room_id : str;
  settings : RoomSettings;
  from_template_id : option str;
  ap_version : Version;
}.

(* src: lobby/src/session.rs:15-22 Session *)
Record Session : Type := {
  is_admin : bool;
  is_logged_in : bool;
  room_creation_allowed : bool;
  user_id : option Z;
  redirect_on_login : option str;
  session_uuid : str;
}.

(* src: lobby/src/jobs.rs:34-42 YamlValidationParams *)
Record YamlValidationParams : Type := {
  p_apworlds : list (str * Version);
  p_yaml : str;
  p_otlp_context : gmap str str;
  p_yaml_id : option str;
  p_ap_version : option Version;
}.

(* src: lobby/src/jobs.rs:43-46 YamlValidationResponse *)
Record YamlValidationResponse : Type := { response_error : option str }.

(* src: lobby/src/yaml.rs:292-296 YamlValidationJobResult *)
Inductive YamlValidationJobResult : Type :=
| ValidationSuccess (apworlds : list (str * Version))
| ValidationFailure (apworlds : list (str * Version)) (error : str)
| ValidationUnsupported (games : list str).

(** The features of a YAML and how they are found are in [LobbyFeatures]; here they can be
    anything. *)
Context {Features : Type} (extract_features : Index -> YamlFile -> str -> result failure Features).

(* src: lobby/src/yaml.rs:91-101 YamlValidationResult *)
Record YamlValidationResult : Type := {
  v_game_name : str;
  v_document : str;
  v_parsed : YamlFile;
  v_features : Features;
  v_validation_status : YamlValidationStatus;
  v_apworlds : list (str * Version);
  v_error : option str;
  v_unsupported_games : list str;
  v_disabled_games : list str;
}.

(** ** Surroundings

    YAML is read by [serde_saphyr] and cut into documents by [yaml_split]; a failed read has a
    text.  A [HashMap] is iterated in any order.  [otlp] is the tracing context. *)
Context (read_yaml : str -> result str YamlFile).
Context (split_documents : str -> list (result unit str)).
Context (hash_iter : gmap str f64 -> list (str * f64)).
Context (find_curly_braces : str -> list str).
Context (otlp : gmap str str).
Context `{JobIds} `{!Codecs YamlValidationParams YamlValidationResponse}.
Context (queue_error_text : WorkQueueError -> str).

(** ** Reading uploads *)

(* src: lobby/src/yaml.rs:47-55 parse_raw_yamls *)
Definition join_uploads (yamls : list str) : str :=
  join ([10%N] ++ lit "---" ++ [10%N])
    ((fun yaml => trim_end_text (lit "---") (trim_start_text (lit "---")
        (trim_start_matches (fun c => (c =? 65279)%N) (trim yaml)))) <$> yamls).

(* src: lobby/src/yaml.rs:67-82 parse_raw_yamls *)
Definition explain_error (error_str : str) : str :=
  if (str_contains (lit "duplicate entry") error_str ||
      str_contains (lit "duplicate mapping key") error_str) &&
     (str_contains (lit "name") error_str || str_contains (lit "game") error_str) then
    lit "Your YAML contains duplicate keys. This usually means you forgot to add '---' to separate multiple YAML documents."
  else if str_contains (lit "missing field") error_str then
    lit "This does not look like an archipelago YAML. Check that it has both a `name` and a `game` field."
  else lit "Your YAML syntax is invalid: " ++ error_str.

(* src: lobby/src/yaml.rs:45-89 parse_raw_yamls *)
Definition parse_raw_yamls (yamls : list str) : result error (list (str * YamlFile)) :=
  try_fold (fun documents doc =>
    match doc with
    | Err _ => bail (lit "Invalid yaml file. Syntax error.")
    | Ok doc =>
        match read_yaml doc with
        | Err e => bail (explain_error e)
        | Ok parsed => Ok (documents ++ [(trim (trim_start_text (lit "---") (trim doc)), parsed)])
        end
    end) [] (split_documents (join_uploads yamls)).

(** ** Games *)

(* src: lobby/src/yaml.rs:272-288 validate_game *)
Definition validate_game (g : YamlGame) : result error str :=
  match g with
  | GameName name => Ok name
  | GameMap map =>
      let weighted_map := List.filter (fun e => at_least_one e.2) (hash_iter map) in
      match weighted_map with
      | [e] => Ok e.1
      | _ :: _ :: _ =>
          Ok (lit "Random (" ++ N_to_str (N.of_nat (length weighted_map)) ++ lit ")")
      | [] => bail (lit "Your YAML contains games but none of them has any chance of getting rolled")
      end
  end.

(* src: lobby/src/yaml.rs:547-564 games_of_yaml *)
Definition games_of_yaml (y : Yaml) : list str :=
  match read_yaml (current_content y) with
  | Err _ => []
  | Ok parsed =>
      match file_game parsed with
      | GameName name => [name]
      | GameMap games => (List.filter (fun e => not_zero e.2) (hash_iter games)).*1
      end
  end.

(* src: lobby/src/index_manager.rs:383-386 IndexManager::index_for *)
Definition index_for (index_manager : IndexSet) (base : Version) : result error Index :=
  match get index_manager base with
  | Some i => Ok i
  | None => bail (lit "The index doesn't describe Archipelago " ++ version_to_string base)
  end.

(* src: lobby/src/index_manager.rs:445-456 IndexManager::get_apworld_from_game_name *)
Definition get_apworld_from_game_name (index_manager : IndexSet) (base : Version) (m : Manifest)
    (game_name : str) : result failure (option (str * Version)) :=
  match index_for index_manager base with
  | Err _ => Ok None
  | Ok index =>
      match resolve_from_game_name m game_name index with
      | Err _ => Ok None
      | Ok (world, version) =>
          path ← or_panic (file_stem (w_path world)); Ok (Some (path, version))
      end
  end.

(* src: lobby/src/yaml.rs:432-468 get_apworlds_for_games *)
Definition get_apworlds_for_games (index_manager : IndexSet) (base : Version) (m : Manifest)
    (games : YamlGame) : result failure (result (list str) (list (str * Version))) :=
  match games with
  | GameName name =>
      apworld_path ← get_apworld_from_game_name index_manager base m name;
      match apworld_path with
      | None => Ok (Err [name])
      | Some apworld_path => Ok (Ok [apworld_path])
      end
  | GameMap map =>
      '(result, errors) ← try_fold (fun acc e =>
          resolved_game ← get_apworld_from_game_name index_manager base m e.1;
          match resolved_game with
          | Some game => Ok (acc.1 ++ [game], acc.2)
          | None => Ok (acc.1, acc.2 ++ [e.1])
          end) ([], []) (List.filter (fun e => not_zero e.2) (hash_iter map));
      match errors with
      | [] => Ok (Ok result)
      | _ :: _ => Ok (Err errors)
      end
  end.

(** ** Validation by a worker

    A request is a program like the queue's, whose errors include its own. *)

Definition lm (A : Type) : Type := prog (result failure A).

#[export] Instance lm_ret : MRet lm := fun A a => Ret (Ok a).
#[export] Instance lm_bind : MBind lm := fun A B f m =>
  prog_bind (fun r => match r with Ok a => f a | Err e => Ret (Err e) end) m.

Definition lift {A} (r : result failure A) : lm A := Ret r.

(** A queue operation and the question mark after it. *)
Definition queued {A} (m : qm A) : lm A :=
  prog_bind (fun r => Ret (map_err (fun e => Raised [queue_error_text e]) r)) m.

(** [fuel] is that of the loop that waits for messages. *)
(* src: lobby/src/yaml.rs:298-367 validate_yaml *)
Definition validate_yaml (fuel : nat) (yaml : str) (parsed : YamlFile) (ap_version : Version)
    (m : Manifest) (index_manager : IndexSet)
    (q : WorkQueue YamlValidationParams YamlValidationResponse) : lm YamlValidationJobResult :=
  games ← lift (get_apworlds_for_games index_manager ap_version m (file_game parsed));
  match games with
  | Err unsupported => mret (ValidationUnsupported unsupported)
  | Ok apworlds =>
      let params := {| p_apworlds := apworlds; p_yaml := yaml; p_otlp_context := otlp;
                       p_yaml_id := None; p_ap_version := Some ap_version |} in
      job_id ← queued (enqueue_job_in q (Some (version_to_string ap_version)) params Normal
                         (seconds 30));
      waited ← queued (wait_for_job fuel q job_id (Some (seconds 30)));
      match waited with
      | None =>
          _ ← queued (cancel_job q job_id);
          lift (raise (lit "Timed out while validating this YAML. Either generation is very slow or the service is overloaded. Try again a bit later."))
      | Some InternalError =>
          _ ← queued (cancel_job q job_id);
          lift (raise (lit "Internal error while validating this YAML. This should not happen, please report the bug."))
      | Some Failure =>
          result ← queued (get_job_result q job_id);
          _ ← queued (delete_job_result q job_id);
          let error := default (lit "Internal Error") (result ≫= response_error) in
          mret (ValidationFailure apworlds error)
      | Some status =>
          _ ← queued (delete_job_result q job_id);
          match status with
          | Success => mret (ValidationSuccess apworlds)
          | _ => lift (Err Panicked)
          end
      end
  end.

(* src: lobby/src/session.rs:50-53 LoggedInSession::user_id *)
Definition logged_in_user_id (s : Session) : result failure Z := or_panic (user_id s).

(* src: lobby/src/yaml.rs:132-137 parse_and_validate_yamls_for_room *)
Definition allow_bypass (room : Room) (s : Session) : result failure bool :=
  if is_admin s then Ok true
  else
    u ← logged_in_user_id s;
    Ok ((author_id (settings room) =? u)%Z ||
        bool_decide (u ∈ yaml_limit_bypass_list (settings room))).

(* src: lobby/src/yaml.rs:131-145 parse_and_validate_yamls_for_room *)
Definition check_limit (room : Room) (s : Session) (own_games_nb : Z) : result failure unit :=
  match yaml_limit_per_user (settings room) with
  | None => Ok tt
  | Some yaml_limit_per_user =>
      bypass ← allow_bypass room s;
      if (yaml_limit_per_user <=? own_games_nb)%Z && negb bypass then
        raise (lit "The room only allows " ++ Z_to_str yaml_limit_per_user ++
               lit " game(s) per person. Cannot upload.")
      else Ok tt
  end.

(** What the loop over the documents keeps. *)
Record Uploading : Type := {
  own_games_nb : Z;
  players_in_room : gset str;
  player_counter : Counter;
  games : list YamlValidationResult;
}.

(* src: lobby/src/yaml.rs:163-188 parse_and_validate_yamls_for_room *)
Definition validation_outcome (room : Room) (validation_result : YamlValidationJobResult) :
    result failure (list (str * Version) * YamlValidationStatus * option str * list str) :=
  match validation_result with
  | ValidationSuccess apworlds => Ok (apworlds, Validated, None, [])
  | ValidationFailure apworlds error =>
      if allow_invalid_yamls (settings room) then Ok (apworlds, Failed, Some error, [])
      else raise error
  | ValidationUnsupported unsupported_games =>
      Ok ([], Unsupported,
          Some (lit "Unsupported apworlds: " ++ join (lit ", ") unsupported_games),
          unsupported_games)
  end.

(* src: lobby/src/yaml.rs:130-209 parse_and_validate_yamls_for_room *)
Definition upload_document (fuel : nat) (room : Room) (s : Session) (index_manager : IndexSet)
    (q : WorkQueue YamlValidationParams YamlValidationResponse) (st : Uploading)
    (doc : str * YamlFile) : lm Uploading :=
  let '(document, parsed) := doc in
  _ ← lift (check_limit room s (own_games_nb st));
  '(named, player_counter) ←
    lift (or_panic (validate_player_name find_curly_braces (file_name parsed) (players_in_room st)
                      (player_counter st)));
  player_name ← lift (raised named);
  let players_in_room := {[to_lowercase player_name]} ∪ players_in_room st in
  game_name ← lift (raised (validate_game (file_game parsed)));
  '(apworlds, validation_status, error, unsupported_games) ←
    (if yaml_validation (settings room) then
       validation_result ← validate_yaml fuel document parsed (ap_version room)
                             (manifest (settings room)) index_manager q;
       lift (validation_outcome room validation_result)
     else mret ([], Unknown, None, []));
  index ← lift (raised (index_for index_manager (ap_version room)));
  features ← lift (extract_features index parsed document);
  let known game := bool_decide (is_Some (get_world_by_name index game)) in
  mret {| own_games_nb := wrap_i32 (own_games_nb st + 1);
          players_in_room := players_in_room;
          player_counter := player_counter;
          games := games st ++ [{|
            v_game_name := game_name; v_document := document; v_parsed := parsed;
            v_features := features; v_validation_status := validation_status;
            v_apworlds := apworlds; v_error := error;
            v_unsupported_games := List.filter (fun g => negb (known g)) unsupported_games;
            v_disabled_games := List.filter known unsupported_games |}] |}.

Fixpoint upload_documents (fuel : nat) (room : Room) (s : Session) (index_manager : IndexSet)
    (q : WorkQueue YamlValidationParams YamlValidationResponse) (st : Uploading)
    (documents : list (str * YamlFile)) : lm Uploading :=
  match documents with
  | [] => mret st
  | doc :: documents =>
      st ← upload_document fuel room s index_manager q st doc;
      upload_documents fuel room s index_manager q st documents
  end.

(** The names of the players that are in the room already. *)
(* src: lobby/src/yaml.rs:121-126 parse_and_validate_yamls_for_room *)
Definition room_names (yamls_in_room : list Yaml) : option (gset str * Counter) :=
  fold_left (fun acc yaml =>
      '(players, counter) ← acc;
      '(n, counter) ← get_ap_player_name (player_name yaml) counter;
      Some ({[to_lowercase n]} ∪ players, counter)) yamls_in_room (Some (∅, ∅)).

(* src: lobby/src/yaml.rs:116-119 parse_and_validate_yamls_for_room *)
Definition own_games (yamls_in_room : list Yaml) (s : Session) : Z :=
  wrap_i32 (Z.of_nat (length
    (List.filter (fun yaml => bool_decide (Some (owner_id yaml) = user_id s)) yamls_in_room))).

(** [yamls_in_room] is what the database has. *)
(* src: lobby/src/yaml.rs:104-212 parse_and_validate_yamls_for_room *)
Definition parse_and_validate_yamls_for_room (fuel : nat) (yamls_in_room : list Yaml) (room : Room)
    (documents : list (str * YamlFile)) (s : Session)
    (q : WorkQueue YamlValidationParams YamlValidationResponse) (index_manager : IndexSet) :
    lm (list YamlValidationResult) :=
  '(players, counter) ← lift (or_panic (room_names yamls_in_room));
  st ← upload_documents fuel room s index_manager q
         {| own_games_nb := own_games yamls_in_room s; players_in_room := players;
            player_counter := counter; games := [] |} documents;
  mret (games st).

(** ** The database *)

(* src: lobby/src/db/yaml.rs:244-255 reset_yaml_validation_status *)
Definition reset_yaml_validation_status (y : Yaml) : Yaml := {|
  yaml_id_ := yaml_id_ y; content := content y; game := game y; player_name := player_name y;
  owner_id := owner_id y; validation_status := Unknown; yaml_apworlds := yaml_apworlds y;
  last_validation_time := last_validation_time y; last_error := last_error y; patch := patch y;
  bundle_id := bundle_id y; password := password y; edited_content := edited_content y;
  last_edited_by := last_edited_by y; last_edited_by_name := last_edited_by_name y;
  last_edited_at := last_edited_at y |}.

(* src: lobby/src/db/yaml.rs:270-290 update_yaml_status *)
Definition update_yaml_status (status : YamlValidationStatus) (error : option str)
    (apworlds : list (str * Version)) (validation_time : Z) (y : Yaml) : Yaml := {|
  yaml_id_ := yaml_id_ y; content := content y; game := game y; player_name := player_name y;
  owner_id := owner_id y; validation_status := status; yaml_apworlds := apworlds;
  last_validation_time := validation_time; last_error := error; patch := patch y;
  bundle_id := bundle_id y; password := password y; edited_content := edited_content y;
  last_edited_by := last_edited_by y; last_edited_by_name := last_edited_by_name y;
  last_edited_at := last_edited_at y |}.

(** The features of a YAML aren't part of the rows that are read. *)
(* src: lobby/src/db/yaml.rs:362-394 update_yaml_edited_content *)
Definition update_yaml_edited_content (edited : str) (g n : str) (status : YamlValidationStatus)
    (apworlds : list (str * Version)) (error : option str) (by_id : Z) (by_name : str) (at_time : Z)
    (y : Yaml) : Yaml := {|
  yaml_id_ := yaml_id_ y; content := content y; game := g; player_name := n;
  owner_id := owner_id y; validation_status := status; yaml_apworlds := apworlds;
  last_validation_time := last_validation_time y; last_error := error; patch := patch y;
  bundle_id := bundle_id y; password := password y; edited_content := Some edited;
  last_edited_by := Some by_id; last_edited_by_name := Some by_name;
  last_edited_at := Some at_time |}.

(** ** Validating again *)

(* src: lobby/src/yaml.rs:515-547 should_revalidate_yaml *)
Definition should_revalidate_yaml (y : Yaml) (resolved_index : gmap str (World * Version))
    (new_worlds_available : bool) : bool :=
  match yaml_apworlds y with
  | [] =>
      if bool_decide (validation_status y = Unsupported) then new_worlds_available else true
  | _ :: _ =>
      existsb (fun aw : str * Version =>
        match resolved_index !! aw.1 with
        | None => true
        | Some (_, new_version) => negb (bool_decide (new_version = aw.2))
        end) (yaml_apworlds y)
  end.

(** The row as the job leaves it. *)
(* src: lobby/src/yaml.rs:566-647 queue_yaml_validation *)
Definition queue_yaml_validation (y : Yaml) (room : Room) (index_manager : IndexSet)
    (q : WorkQueue YamlValidationParams YamlValidationResponse) : lm Yaml :=
  let current := current_content y in
  match read_yaml current with
  | Err _ =>
      t ← queued (qev UtcNow);
      mret (update_yaml_status Failed
              (Some (lit "Internal error: YAML content could not be reparsed")) [] t y)
  | Ok parsed =>
      games ← lift (get_apworlds_for_games index_manager (ap_version room)
                      (manifest (settings room)) (file_game parsed));
      match games with
      | Err unsupported =>
          if bool_decide (validation_status y = Unsupported) then mret y
          else
            t ← queued (qev UtcNow);
            mret (update_yaml_status Unsupported
                    (Some (lit "Unsupported apworlds: " ++ join (lit ", ") unsupported)) [] t y)
      | Ok apworlds =>
          let y := reset_yaml_validation_status y in
          let params := {| p_apworlds := apworlds; p_yaml := current; p_otlp_context := otlp;
                           p_yaml_id := Some (yaml_id_ y); p_ap_version := Some (ap_version room) |} in
          _ ← queued (enqueue_job_in q (Some (version_to_string (ap_version room))) params Low
                        (seconds 600));
          mret y
      end
  end.

(** The loop in the transaction: the rows change together if every step succeeds. *)
Fixpoint revalidate_all (yamls : list Yaml) (resolved_index : gmap str (World * Version))
    (new_worlds_available : bool) (room : Room) (index_manager : IndexSet)
    (q : WorkQueue YamlValidationParams YamlValidationResponse) : lm (list Yaml) :=
  match yamls with
  | [] => mret []
  | y :: yamls =>
      y' ← (if should_revalidate_yaml y resolved_index new_worlds_available then
              queue_yaml_validation y room index_manager q
            else mret y);
      rest ← revalidate_all yamls resolved_index new_worlds_available room index_manager q;
      mret (y' :: rest)
  end.

(* src: lobby/src/yaml.rs:470-513 revalidate_yamls_if_necessary *)
Definition revalidate_yamls_if_necessary (yamls : list Yaml) (room : Room)
    (old_resolved_index : gmap str (World * Version)) (index_manager : IndexSet)
    (q : WorkQueue YamlValidationParams YamlValidationResponse) : lm (list Yaml) :=
  if negb (yaml_validation (settings room)) then mret yamls
  else
    index ← lift (raised (index_for index_manager (ap_version room)));
    let resolved_index := (resolve_with (manifest (settings room)) index).1 in
    let old_game_names := (fun e => Apwm.name e.2.1) <$> bt_iter old_resolved_index in
    let new_worlds_available :=
      existsb (fun e => negb (bool_decide (Apwm.name e.2.1 ∈ old_game_names)))
        (bt_iter resolved_index) in
    revalidate_all yamls resolved_index new_worlds_available room index_manager q.

(** ** Results of jobs *)

(** [rows] is the table, [room_version] the version of a YAML's room.  The result says whether the
    queue is done with the job; [None] in the second component of an error is no change. *)
(* src: lobby/src/jobs.rs:234-331 get_yaml_validation_callback *)
Definition yaml_validation_callback (rows : gmap str Yaml)
    (room_version : str -> result error Version) (desc : JobDesc YamlValidationParams)
    (res : JobResult YamlValidationResponse) : result failure (bool * gmap str Yaml) :=
  match p_yaml_id (desc_params desc) with
  | None => Ok (false, rows)
  | Some yaml_id =>
      match rows !! yaml_id with
      | None => Ok (true, rows)
      | Some yaml =>
          if (submitted_at desc <? last_validation_time yaml)%Z then Ok (true, rows)
          else
            outdated ← match p_ap_version (desc_params desc) with
                       | None => Ok false
                       | Some job_version =>
                           v ← raised (room_version yaml_id);
                           Ok (negb (bool_decide (v = job_version)))
                       end;
            if (outdated : bool) then Ok (true, rows)
            else
              '(status, error) ←
                match res_status res with
                | Success => Ok (Validated, None)
                | Failure => Ok (Failed, res_result res ≫= response_error)
                | InternalError => Ok (Failed, Some (lit "Internal error"))
                | _ => Err Panicked
                end;
              Ok (true, <[yaml_id := update_yaml_status status error (p_apworlds (desc_params desc))
                                       (submitted_at desc) yaml]> rows)
      end
  end.
End lobby.
