(* ===== verification/LobbyFeatures.v ===== *)
(** * Features of YAMLs

    [lobby/src/extractor]: how likely each feature (a death link, a sanity option) is on in the
    games of a YAML, by the weights of its options.  Probabilities are integers up to
    [MAX_WEIGHT]; [u32] and [i64] wrap around, as they do in a release build. *)

From S2P Require Import Prelude Ord RustStd F64 Yaml Apwm LobbyYaml.

(* src: lobby/src/extractor/mod.rs:23-36 YamlFeature *)
Inductive YamlFeature : Type :=
| DeathLink | TrainerSanity | DexSanity | OrbSanity | GrassSanity | FishSanity | CoinSanity
| DeathWish | DeathWishWithBonus | AfterDark | BlockSanity.

#[export] Instance YamlFeature_eq_dec : EqDecision YamlFeature.
Proof. solve_decision. Defined.

#[export] Instance WorldTag_eq_dec : EqDecision WorldTag.
Proof. solve_decision. Defined.

Definition all_features : list YamlFeature :=
  [DeathLink; TrainerSanity; DexSanity; OrbSanity; GrassSanity; FishSanity; CoinSanity;
   DeathWish; DeathWishWithBonus; AfterDark; BlockSanity].

#[export] Program Instance YamlFeature_finite : finite.Finite YamlFeature :=
  {| finite.enum := all_features |}.
Next Obligation. apply (bool_decide_unpack _). vm_compute. exact I. Qed.
Next Obligation. intros []; apply (bool_decide_unpack _); vm_compute; exact I. Qed.

#[export] Instance YamlFeature_countable : Countable YamlFeature := finite.finite_countable.

(** [HashMap<YamlFeature, u32>] *)
Abbreviation YamlFeatures := (gmap YamlFeature Z).

(* src: lobby/src/extractor/mod.rs:46-46 MAX_WEIGHT *)
Definition MAX_WEIGHT : Z := 10000.

(** [u32] and [i64] arithmetic of a release build. *)
Definition wrap_u32 (z : Z) : Z := (z mod 4294967296)%Z.
Definition wrap_i64 (z : Z) : Z :=
  ((z + 9223372036854775808) mod 18446744073709551616 - 9223372036854775808)%Z.

Definition max_weight_f64 : f64 := f64_of_Z MAX_WEIGHT.

(** A number of [total], out of [MAX_WEIGHT]. *)
Definition ratio (n total : Z) : Z :=
  f64_to_u32 (f64_mul (f64_div (f64_of_Z n) (f64_of_Z total)) max_weight_f64).

Section extractor.
Context {SV : SemVer} {LC : Lowercase} {Y : Type} {YO : YamlOps Y}.

(* src: lobby/src/extractor/mod.rs:48-53 Extractor *)
Record Extractor : Type := {
  game_features : gmap str YamlFeatures;
  current_game : option (str * Y * Z);
  current_weight : Z;
  yaml : Y;
}.

(** Methods with [&mut self]; after an error or a panic the extractor isn't used any more. *)
Definition em (A : Type) : Type := Extractor -> result failure (A * Extractor).

#[export] Instance em_ret : MRet em := fun A a e => Ok (a, e).
#[export] Instance em_bind : MBind em := fun A B f m e =>
  match m e with Ok (a, e) => f a e | Err x => Err x end.

Definition em_get {A} (f : Extractor -> result failure A) : em A := fun e =>
  a ← f e; Ok (a, e).

Definition em_update (f : Extractor -> Extractor) : em unit := fun e => Ok (tt, f e).

(** ** Options *)

(* src: lobby/src/extractor/mod.rs:55-79 is_trueish *)
Definition is_trueish (option : Y) : bool :=
  match as_bool option with
  | Some value => value
  | None =>
      match as_integer option with
      | Some value => negb (value =? 0)%Z
      | None =>
          let option_str := as_str option in
          match option_str ≫= parse_i64 with
          | Some value => negb (value =? 0)%Z
          | None =>
              match option_str with
              | Some value =>
                  let value := to_lowercase value in
                  str_eqb value (lit "true") || str_eqb value (lit "all") ||
                  str_eqb value (lit "full") || starts_with (lit "random") value ||
                  starts_with (lit "enable") value
              | None => false
              end
          end
      end
  end.

(** The weights that are integers. *)
Definition integer_weights (map : list (Y * Y)) : list (Y * Z) :=
  map ≫= fun e => match as_integer e.2 with Some v => [(e.1, v)] | None => [] end.

Definition sum_i64 (l : list Z) : Z := fold_left (fun acc v => wrap_i64 (acc + v)) l 0%Z.

(** [fuel] is more than the depth of the option. *)
Fixpoint option_probability (fuel : nat) (is_true_callback : Y -> bool) (option : Y) : Z :=
  match fuel with
  | O => 0%Z
  | S fuel =>
      if is_true_callback option then MAX_WEIGHT
      else
        match as_mapping option with
        | Some map =>
            let weights := integer_weights map in
            let total := sum_i64 (weights.*2) in
            let on_count := sum_i64 ((List.filter (fun e : Y * Z => negb (e.2 =? 0)%Z &&
                negb (option_probability fuel is_true_callback e.1 =? 0)%Z) weights).*2) in
            ratio on_count total
        | None => 0%Z
        end
  end.

(* src: lobby/src/extractor/mod.rs:259-282 get_option_probability *)
Definition get_option_probability (option : Y) (is_true_callback : Y -> bool) : Z :=
  option_probability (S (yaml_size option)) is_true_callback option.

(** The errors of [transform] are never looked at.  [None] is the error. *)
(* src: lobby/src/extractor/mod.rs:232-257 get_option_map *)
Definition get_option_map {K} `{Countable K} (option : Y) (transform : Y -> Datatypes.option K)
    : Datatypes.option (gmap K Z) :=
  match transform option with
  | Some value => Some {[value := MAX_WEIGHT]}
  | None =>
      map ← as_mapping option;
      Some (fold_left (fun ret e =>
        match transform e.1, as_integer e.2 with
        | Some key, Some v => if negb (v =? 0)%Z then <[key := wrap_u32 v]> ret else ret
        | _, _ => ret
        end) map ∅)
  end.

(** ** The extractor *)

(* src: lobby/src/extractor/mod.rs:82-93 Extractor::new *)
Definition Extractor_new (yaml : Y) : result failure Extractor :=
  match as_mapping yaml with
  | None => raise (lit "The main body of the YAML should be a map")
  | Some _ => Ok {| game_features := ∅; yaml := yaml; current_game := None;
                    current_weight := MAX_WEIGHT |}
  end.

(* src: lobby/src/extractor/mod.rs:181-191 Extractor::set_game *)
Definition set_game (game_name : str) (probability : Z) : em unit := fun e =>
  match as_mapping_get (yaml e) game_name with
  | None => raise (lit "The requested game isn't present in the YAML: " ++ game_name)
  | Some game_yaml =>
      Ok (tt, {| game_features := game_features e;
                 current_game := Some (game_name, game_yaml, probability);
                 current_weight := current_weight e; yaml := yaml e |})
  end.

(** The panic if no game is set. *)
Definition the_game : em (str * Y * Z) := em_get (fun e => or_panic (current_game e)).

(* src: lobby/src/extractor/mod.rs:193-201 Extractor::get_weighted_probality *)
Definition get_weighted_probality (probability game_probability weight : Z) : Z :=
  f64_to_u32 (f64_mul (f64_mul (f64_of_Z probability)
                               (f64_div (f64_of_Z game_probability) max_weight_f64))
                      (f64_div (f64_of_Z weight) max_weight_f64)).

(** What becomes of the value of a feature. *)
(* src: lobby/src/extractor/mod.rs:211-214 Extractor::add_feature_to_current_game *)
Definition combined (current_value feature_probability : Z) : Z :=
  let not_current := wrap_u32 (MAX_WEIGHT - current_value) in
  let not_new := wrap_u32 (MAX_WEIGHT - feature_probability) in
  wrap_u32 (MAX_WEIGHT - wrap_u32 (not_current * not_new) / MAX_WEIGHT).

(* src: lobby/src/extractor/mod.rs:203-216 Extractor::add_feature_to_current_game *)
Definition add_feature_to_current_game (feature : YamlFeature) (feature_probability : Z) : em unit :=
  '(game_name, _, game_probability) ← the_game;
  em_update (fun e =>
    let feature_probability :=
      get_weighted_probality feature_probability game_probability (current_weight e) in
    if (feature_probability =? 0)%Z then e
    else
      let current_game_features := default ∅ (game_features e !! game_name) in
      let current_value := default 0%Z (current_game_features !! feature) in
      {| game_features :=
           <[game_name := <[feature := combined current_value feature_probability]>
                            current_game_features]> (game_features e);
         current_game := current_game e; current_weight := current_weight e;
         yaml := yaml e |}).

(* src: lobby/src/extractor/mod.rs:116-130 Extractor::get_option_probability *)
Definition current_option_probability (path : str) (is_true_callback : Y -> bool) : em Z :=
  '(_, game_yaml, _) ← the_game;
  mret match as_mapping_get game_yaml path with
       | None => 0%Z
       | Some option => get_option_probability option is_true_callback
       end.

(* src: lobby/src/extractor/mod.rs:103-114 Extractor::register_feature_with_custom_truth *)
Definition register_feature_with_custom_truth (feature : YamlFeature) (path : str)
    (is_trueish : Y -> bool) : em unit :=
  option_probability ← current_option_probability path is_trueish;
  add_feature_to_current_game feature option_probability.

(* src: lobby/src/extractor/mod.rs:95-101 Extractor::register_feature *)
Definition register_feature (feature : YamlFeature) (path : str) : em unit :=
  option_probability ← current_option_probability path is_trueish;
  add_feature_to_current_game feature option_probability.

(** The sum of the weights that [keep] keeps, in any order. *)
Definition sum_weights (keep : Z -> bool) (map : gmap Z Z) : Z :=
  map_fold (fun option probability acc =>
    if keep option then wrap_u32 (acc + probability) else acc) 0%Z map.

(* src: lobby/src/extractor/mod.rs:132-166 Extractor::register_ranged_feature *)
Definition register_ranged_feature (feature : YamlFeature) (path : str) (min max : Z)
    (transform : Y -> option Z) : em unit :=
  '(_, game_yaml, _) ← the_game;
  match as_mapping_get game_yaml path with
  | None => mret tt
  | Some option =>
      match get_option_map option transform with
      | None => em_get (fun _ => raise (lit "Option should either be value or a mapping of the same type"))
      | Some map =>
          let total := sum_weights (fun _ => true) map in
          let probability := sum_weights (fun o => (o <? min)%Z || (max <? o)%Z) map in
          add_feature_to_current_game feature (ratio probability total)
      end
  end.

Definition set_weight (weight : Z) : em unit := em_update (fun e =>
  {| game_features := game_features e; current_game := current_game e;
     current_weight := weight; yaml := yaml e |}).

(* src: lobby/src/extractor/mod.rs:168-179 Extractor::with_weight *)
Definition with_weight (weight : Z) (inner : em unit) : em unit :=
  _ ← em_get (fun _ => if (weight <=? MAX_WEIGHT)%Z then Ok tt else Err Panicked);
  _ ← set_weight weight;
  _ ← inner;
  set_weight MAX_WEIGHT.

(* src: lobby/src/extractor/mod.rs:218-229 Extractor::finalize *)
Definition finalize (e : Extractor) : YamlFeatures :=
  map_fold (fun _ features finalized =>
    map_fold (fun feature probability finalized =>
      <[feature := wrap_u32 (default 0%Z (finalized !! feature) + probability)]> finalized)
      finalized features) ∅ (game_features e).

(** ** Games *)

(* src: lobby/src/extractor/ahit.rs:10-20 Ahit::extract_features *)
Definition ahit : em unit :=
  deathwish_probability ← current_option_probability (lit "EnableDeathWish") is_trueish;
  with_weight deathwish_probability
    (_ ← add_feature_to_current_game DeathWish MAX_WEIGHT;
     register_feature DeathWishWithBonus (lit "DWEnableBonus")).

(* src: lobby/src/extractor/dlcq.rs:33-54 coin_value_to_u64 *)
Definition coin_value_to_u64 (value : Y) : option Z :=
  match as_integer value with
  | Some value => Some (value mod 18446744073709551616)%Z
  | None =>
      value ← as_str value;
      match parse_u64 value with
      | Some num => Some num
      | None =>
          Some (if str_eqb value (lit "low") then 5
                else if str_eqb value (lit "normal") then 20
                else if str_eqb value (lit "high") then 50
                else 1)%Z
      end
  end.

(** [value.as_str() == Some(text)] *)
Definition is_text (text : str) (value : Y) : bool := bool_decide (as_str value = Some text).

(* src: lobby/src/extractor/dlcq.rs:11-30 DlcQuest::extract_features *)
Definition dlc_quest : em unit :=
  coinsanity_weight ← current_option_probability (lit "coinsanity") (is_text (lit "coin"));
  with_weight coinsanity_weight
    (register_ranged_feature CoinSanity (lit "coinbundlequantity") 5 50 coin_value_to_u64).

Definition ends_with (suffix s : str) : bool := starts_with (reverse suffix) (reverse s).

(* src: lobby/src/extractor/ffxiv.rs:23-33 fishsanity_trueish *)
Definition fishsanity_trueish (value : Y) : bool :=
  if is_trueish value then true
  else match as_str value with Some v => ends_with (lit "_fish") v | None => false end.

(* src: lobby/src/extractor/ffxiv.rs:12-20 FFXIV::extract_features *)
Definition ffxiv : em unit :=
  register_feature_with_custom_truth FishSanity (lit "fishsanity") fishsanity_trueish.

(* src: lobby/src/extractor/jd.rs:52-62 orb_value_to_u64 *)
Definition orb_value_to_u64 (value : Y) : option Z :=
  value ← as_str value;
  value ← head (split_on 95%N value);
  parse_u64 value.

(* src: lobby/src/extractor/jd.rs:13-49 JakAndDaxter::extract_features *)
Definition jak_and_daxter : em unit :=
  global_orbsanity_weight ←
    current_option_probability (lit "enable_orbsanity") (is_text (lit "global"));
  _ ← with_weight global_orbsanity_weight
        (register_ranged_feature OrbSanity (lit "global_orbsanity_bundle_size") 10 200
           orb_value_to_u64);
  per_level_weight ←
    current_option_probability (lit "enable_orbsanity") (is_text (lit "per_level"));
  with_weight per_level_weight
    (register_ranged_feature OrbSanity (lit "level_orbsanity_bundle_size") 10 200
       orb_value_to_u64).

(* src: lobby/src/extractor/kh.rs:11-15 KingdomHearts::extract_features *)
Definition kingdom_hearts : em unit :=
  _ ← register_feature DeathLink (lit "donald_death_link");
  register_feature DeathLink (lit "goofy_death_link").

(* src: lobby/src/extractor/pokemon.rs:15-20 PokemonEmerald::extract_features *)
Definition pokemon_emerald : em unit :=
  _ ← register_feature TrainerSanity (lit "trainersanity");
  register_feature DexSanity (lit "dexsanity").

(** A text that isn't [off]. *)
Definition is_other_text (text : str) (value : Y) : bool :=
  match as_str value with Some v => negb (str_eqb v text) | None => false end.

(* src: lobby/src/extractor/pokemon.rs:27-44 PokemonCrystal::extract_features *)
Definition pokemon_crystal : em unit :=
  _ ← register_feature TrainerSanity (lit "trainersanity");
  _ ← register_feature TrainerSanity (lit "kanto_trainersanity");
  _ ← register_feature TrainerSanity (lit "johto_trainersanity");
  _ ← register_feature DexSanity (lit "dexsanity");
  _ ← register_feature DexSanity (lit "dexcountsanity");
  register_feature_with_custom_truth GrassSanity (lit "grasssanity") (is_other_text (lit "off")).

(* src: lobby/src/extractor/pokemon.rs:51-55 PokemonFrLg::extract_features *)
Definition pokemon_frlg : em unit :=
  _ ← register_feature TrainerSanity (lit "trainersanity");
  register_feature DexSanity (lit "dexsanity").

(* src: lobby/src/extractor/pokemon.rs:62-65 PokemonBW::extract_features *)
Definition pokemon_bw : em unit := register_feature DexSanity (lit "dexsanity").

(* src: lobby/src/extractor/pokemon.rs:73-77 PokemonRB::extract_features *)
Definition pokemon_rb : em unit :=
  _ ← register_feature TrainerSanity (lit "trainersanity");
  register_feature DexSanity (lit "dexsanity").

(* src: lobby/src/extractor/sml2.rs:11-13 Sml2::extract_features *)
Definition sml2 : em unit := register_feature CoinSanity (lit "coinsanity").

(* src: lobby/src/extractor/smw.rs:10-14 Smw::extract_features *)
Definition smw : em unit := register_feature BlockSanity (lit "blocksanity").

(* src: lobby/src/extractor/sv.rs:11-24 StardewValley::extract_features *)
Definition stardew_valley : em unit :=
  register_feature_with_custom_truth FishSanity (lit "fishsanity") (is_other_text (lit "none")).

(* src: lobby/src/extractor/tunic.rs:11-14 Tunic::extract_features *)
Definition tunic : em unit := register_feature GrassSanity (lit "grass_randomizer").

(* src: lobby/src/extractor/mod.rs:310-337 EXTRACTORS *)
Definition EXTRACTORS : list (str * em unit) :=
  [(lit "A Hat in Time", ahit);
   (lit "DLCQuest", dlc_quest);
   (lit "Pokemon Red and Blue", pokemon_rb);
   (lit "Pokemon Emerald", pokemon_emerald);
   (lit "Pokemon Crystal", pokemon_crystal);
   (lit "Pokemon FireRed and LeafGreen", pokemon_frlg);
   (lit "Pokemon Black and White", pokemon_bw);
   (lit "Jak and Daxter: The Precursor Legacy", jak_and_daxter);
   (lit "TUNIC", tunic);
   (lit "Kingdom Hearts", kingdom_hearts);
   (lit "Stardew Valley", stardew_valley);
   (lit "Super Mario Land 2", sml2);
   (lit "Super Mario World", smw);
   (lit "Manual_FFXIV_Silasary", ffxiv)].

Definition extractor_of (game_name : str) : option (em unit) :=
  snd <$> List.find (fun e => str_eqb e.1 game_name) EXTRACTORS.

(* src: lobby/src/extractor/mod.rs:288-308 DefaultExtractor::extract_features *)
Definition default_extractor (index : Index) : em unit :=
  '(game_name, _, _) ← the_game;
  _ ← match get_world_by_name index game_name with
      | Some world =>
          if bool_decide (Apwm.AfterDark ∈ tags world) then
            add_feature_to_current_game AfterDark MAX_WEIGHT
          else mret tt
      | None => mret tt
      end;
  _ ← register_feature DeathLink (lit "death_link");
  _ ← register_feature DeathLink (lit "deathlink");
  register_feature DeathLink (lit "DeathLink").

(* src: lobby/src/extractor/mod.rs:371-389 extract_features_from_yaml *)
Definition extract_features_from_yaml (index : Index) (game_name : str) (probability : Z) : em unit :=
  _ ← set_game game_name probability;
  _ ← default_extractor index;
  match extractor_of game_name with
  | None => mret tt
  | Some game_extractor => game_extractor
  end.

(** The errors of the YAML crate have a text of their own. *)
Context (load_error : error) (hash_iter : gmap str f64 -> list (str * f64)).

(** The games that can be rolled, with their probabilities. *)
(* src: lobby/src/extractor/mod.rs:351-358 extract_features *)
Definition game_probabilities (map : gmap str f64) : list (str * Z) :=
  let total := fold_left f64_add (hash_iter map).*2 (S754_zero false) in
  (fun e : str * f64 => (e.1, f64_to_u32 (f64_mul (f64_div e.2 total) max_weight_f64)))
    <$> List.filter (fun e : str * f64 => not_zero e.2) (hash_iter map).

Fixpoint extract_games (index : Index) (games : list (str * Z)) : em unit :=
  match games with
  | [] => mret tt
  | (game, probability) :: games =>
      _ ← extract_features_from_yaml index game probability;
      extract_games index games
  end.

Definition yaml_games (games : YamlGame) : list (str * Z) :=
  match games with
  | GameName name => [(name, MAX_WEIGHT)]
  | GameMap map => game_probabilities map
  end.

(* src: lobby/src/extractor/mod.rs:339-369 extract_features *)
Definition extract_features (index : Index) (parsed : YamlFile) (raw_yaml : str)
    : result failure YamlFeatures :=
  docs ← match load_from_str raw_yaml with Ok docs => Ok docs | Err _ => Err (Raised load_error) end;
  yaml ← match docs with y :: _ => Ok y | [] => raise (lit "No YAML document found") end;
  extractor ← Extractor_new yaml;
  '(_, extractor) ← extract_games index (yaml_games (file_game parsed)) extractor;
  Ok (finalize extractor).
End extractor.
