(* ===== verification/LobbyFeaturesFacts.v ===== *)
(** * Facts about the features of YAMLs

    Ratios and weighted probabilities stay between zero and [MAX_WEIGHT] for weights that make
    sense, and the extractors keep the values of the features there. *)

From S2P Require Import Prelude Ord RustStd F64 Yaml Apwm LobbyYaml LobbyFeatures.

#[local] Open Scope Z_scope.

Create HintDb features.

Definition probability (p : Z) : Prop := 0 <= p <= MAX_WEIGHT.

(** ** Numbers *)

Lemma max_weight_f64_le : f64_le max_weight_f64 MAX_WEIGHT.
Proof. apply (f64_is_le _ MAX_WEIGHT); [by apply f64_of_Z_is|]. unfold MAX_WEIGHT. lia. Qed.

Lemma ratio_probability n total : 0 <= n <= total -> total < 2 ^ 53 -> probability (ratio n total).
Proof.
  intros Hn Ht. unfold ratio, probability. destruct (decide (total = 0)) as [->|Hz].
  { assert (n = 0) as -> by lia. split; vm_compute; congruence. }
  apply f64_to_u32_le; [unfold MAX_WEIGHT; lia|].
  change MAX_WEIGHT with (1 * MAX_WEIGHT) at 1.
  apply f64_mul_le; [unfold MAX_WEIGHT; lia| |apply max_weight_f64_le].
  apply (f64_div_le _ _ n total); [apply f64_of_Z_is; lia..|lia|lia|lia|lia].
Qed.

Lemma unit_ratio w : probability w -> f64_le (f64_div (f64_of_Z w) max_weight_f64) 1.
Proof.
  unfold probability, MAX_WEIGHT. intros Hw.
  apply (f64_div_le _ _ w MAX_WEIGHT); unfold MAX_WEIGHT; try lia; apply f64_of_Z_is; lia.
Qed.

Lemma weighted_probability p gp w :
  probability p -> probability gp -> probability w -> probability (get_weighted_probality p gp w).
Proof.
  intros Hp Hgp Hw. unfold get_weighted_probality. apply f64_to_u32_le; [unfold MAX_WEIGHT; lia|].
  change MAX_WEIGHT with (MAX_WEIGHT * 1 * 1).
  repeat (apply f64_mul_le; [unfold MAX_WEIGHT; lia| |by apply unit_ratio]).
  apply (f64_is_le _ p); [|done]. apply f64_of_Z_is. unfold probability, MAX_WEIGHT in Hp. lia.
Qed.

(** A game that is rolled for sure doesn't change the probability of its options. *)
Lemma weighted_certain p : probability p -> get_weighted_probality p MAX_WEIGHT MAX_WEIGHT = p.
Proof.
  intros Hp. unfold get_weighted_probality. unfold probability, MAX_WEIGHT in Hp.
  assert (f64_div (f64_of_Z MAX_WEIGHT) max_weight_f64 = f64_one) as -> by (vm_compute; reflexivity).
  assert (f64_is (f64_of_Z p) p) as His by (apply f64_of_Z_is; lia).
  rewrite (f64_mul_one _ p His), (f64_mul_one _ p His).
  apply f64_to_u32_is; [done|lia].
Qed.

(** The chance of either of two independent events. *)
Definition either (p q : Z) : Z := MAX_WEIGHT - (MAX_WEIGHT - p) * (MAX_WEIGHT - q) / MAX_WEIGHT.

Lemma either_bounds p q : probability p -> probability q -> Z.max p q <= either p q <= MAX_WEIGHT.
Proof. unfold probability, either, MAX_WEIGHT. intros Hp Hq. split; nia. Qed.

Lemma combined_either p q : probability p -> probability q -> combined p q = either p q.
Proof.
  intros Hp Hq. pose proof (either_bounds p q Hp Hq) as Hb.
  unfold combined, wrap_u32, either, probability, MAX_WEIGHT in *.
  rewrite (Z.mod_small (10000 - p)), (Z.mod_small (10000 - q)) by lia.
  rewrite (Z.mod_small (_ * _)) by nia. apply Z.mod_small. lia.
Qed.

(** ** Sums *)

Fixpoint zsum (l : list Z) : Z := match l with [] => 0 | v :: l => v + zsum l end.

Lemma zsum_app a b : zsum (a ++ b) = zsum a + zsum b.
Proof. induction a; simpl; lia. Qed.

Lemma zsum_perm a b : a ≡ₚ b -> zsum a = zsum b.
Proof. induction 1; simpl; lia. Qed.

Lemma zsum_nonneg l : Forall (Z.le 0) l -> 0 <= zsum l.
Proof. induction 1; simpl; lia. Qed.

Lemma sum_i64_zsum l : Forall (Z.le 0) l -> zsum l < 2 ^ 63 -> sum_i64 l = zsum l.
Proof.
  intros Hl Hs. unfold sum_i64.
  cut (forall acc, 0 <= acc -> acc + zsum l < 2 ^ 63 ->
    fold_left (fun acc v => wrap_i64 (acc + v)) l acc = acc + zsum l).
  { intros Hcut. rewrite Hcut; lia. }
  clear Hs. induction Hl as [|v l Hv Hl IH]; intros acc Hacc Hs; simpl in *; [lia|].
  pose proof (zsum_nonneg l Hl).
  assert (wrap_i64 (acc + v) = acc + v) as -> by (unfold wrap_i64; lia). rewrite IH; lia.
Qed.

Lemma zsum_filter_le {A} (p : A * Z -> bool) (l : list (A * Z)) :
  Forall (Z.le 0) l.*2 -> 0 <= zsum (List.filter p l).*2 <= zsum l.*2.
Proof.
  induction l as [|[a v] l IH]; csimpl; [done|]. intros [Hv Hl]%Forall_cons.
  specialize (IH Hl). destruct (p (a, v)); csimpl; lia.
Qed.

Lemma Forall_filter_snd {A} (p : A * Z -> bool) (l : list (A * Z)) :
  Forall (Z.le 0) l.*2 -> Forall (Z.le 0) (List.filter p l).*2.
Proof.
  induction l as [|[a v] l IH]; csimpl; [done|]. intros [Hv Hl]%Forall_cons.
  destruct (p (a, v)); csimpl; auto.
Qed.

(** The sum of the values of a map. *)
Definition msum (m : gmap Z Z) : Z := zsum (map_to_list m).*2.

Lemma msum_insert_le (m : gmap Z Z) k v :
  map_Forall (fun _ => Z.le 0) m -> 0 <= v -> msum (<[k := v]> m) <= msum m + v.
Proof.
  intros Hm Hv. unfold msum. destruct (m !! k) as [x|] eqn:Ek.
  - rewrite <- (insert_delete_id m k x Ek) at 2. rewrite <- insert_delete_eq.
    rewrite !(zsum_perm _ _ (fmap_Permutation snd _ _ (map_to_list_insert _ _ _ (lookup_delete_eq m k)))).
    csimpl. specialize (Hm k x Ek). csimpl in Hm. lia.
  - rewrite (zsum_perm _ _ (fmap_Permutation snd _ _ (map_to_list_insert _ _ _ Ek))). csimpl. lia.
Qed.

Lemma sum_weights_zsum keep (m : gmap Z Z) :
  map_Forall (fun _ => Z.le 0) m -> msum m < 2 ^ 32 ->
  sum_weights keep m = zsum (List.filter (fun e : Z * Z => keep e.1) (map_to_list m)).*2.
Proof.
  intros Hm Hs. unfold sum_weights, msum in *. rewrite map_fold_foldr.
  assert (Hl : Forall (Z.le 0) (map_to_list m).*2).
  { apply Forall_fmap, Forall_forall. intros [k v] Hin%elem_of_map_to_list. by apply (Hm k v). }
  clear Hm. induction (map_to_list m) as [|[k v] l IH]; csimpl in *; [done|].
  apply Forall_cons in Hl as [Hv Hl]. pose proof (zsum_nonneg _ Hl). rewrite IH by (auto; lia).
  pose proof (zsum_filter_le (fun e : Z * Z => keep e.1) l Hl). csimpl in *.
  destruct (keep k); csimpl; unfold wrap_u32; [|lia]. rewrite Z.mod_small; lia.
Qed.

Lemma sum_weights_bounds keep (m : gmap Z Z) :
  map_Forall (fun _ => Z.le 0) m -> msum m < 2 ^ 32 ->
  0 <= sum_weights keep m <= sum_weights (fun _ => true) m /\
  sum_weights (fun _ => true) m < 2 ^ 32.
Proof.
  intros Hm Hs. rewrite !sum_weights_zsum by done.
  assert (Hl : Forall (Z.le 0) (map_to_list m).*2).
  { apply Forall_fmap, Forall_forall. intros [k v] Hin%elem_of_map_to_list. by apply (Hm k v). }
  assert (List.filter (fun _ : Z * Z => true) (map_to_list m) = map_to_list m) as ->.
  { induction (map_to_list m) as [|e l IH]; simpl; [done|]. f_equal. apply IH.
    simpl in Hl. by apply Forall_cons in Hl as [_ ?]. }
  split; [by apply zsum_filter_le|exact Hs].
Qed.

(** ** Options *)

Section options.
Context {SV : SemVer} {LC : Lowercase} {Y : Type} {YO : YamlOps Y} {YL : YamlLaws Y}.

Lemma integer_weights_key (map : list (Y * Y)) k v :
  (k, v) ∈ integer_weights map -> exists w, (k, w) ∈ map /\ as_integer w = Some v.
Proof.
  unfold integer_weights. rewrite list_elem_of_bind. intros ([k' w] & Hin & Hmap). simpl in Hin.
  destruct (as_integer w) as [i|] eqn:Ei; [|by apply not_elem_of_nil in Hin].
  apply list_elem_of_singleton in Hin as [= -> ->]. eauto.
Qed.

(** Enough fuel gives the result. *)
Lemma option_probability_fuel fuel1 fuel2 cb o :
  (yaml_size o < fuel1)%nat -> (yaml_size o < fuel2)%nat ->
  option_probability fuel1 cb o = option_probability fuel2 cb o.
Proof.
  revert fuel2 o. induction fuel1 as [|fuel1 IH]; intros [|fuel2] o H1 H2; try lia. simpl.
  destruct (cb o); [done|]. destruct (as_mapping o) as [map|] eqn:Em; [|done].
  do 3 f_equal. apply filter_ext_in. intros [k v] Hin%list_elem_of_In.
  apply integer_weights_key in Hin as (w & Hin & _).
  pose proof (mapping_key_size o map k w Em Hin). simpl. by rewrite (IH fuel2) by lia.
Qed.

(** What a mapping counts for. *)
Lemma get_option_probability_eq o cb :
  get_option_probability o cb =
  if cb o then MAX_WEIGHT
  else match as_mapping o with
       | Some map =>
           let weights := integer_weights map in
           ratio (sum_i64 ((List.filter (fun e : Y * Z => negb (e.2 =? 0) &&
                    negb (get_option_probability e.1 cb =? 0)) weights).*2))
                 (sum_i64 (weights.*2))
       | None => 0
       end.
Proof.
  unfold get_option_probability at 1. cbn [option_probability].
  destruct (cb o); [done|]. destruct (as_mapping o) as [map|] eqn:Em; [|done].
  cbv zeta. do 3 f_equal. apply filter_ext_in. intros [k v] Hin%list_elem_of_In.
  apply integer_weights_key in Hin as (w & Hin & _).
  pose proof (mapping_key_size o map k w Em Hin). unfold get_option_probability. cbn [fst snd].
  by rewrite (option_probability_fuel (yaml_size o) (S (yaml_size k))) by lia.
Qed.

(** The integers among the weights of an option aren't negative, and their sum is a [u32]. *)
Definition weights_ok (o : Y) : Prop :=
  forall map, as_mapping o = Some map ->
    Forall (Z.le 0) (integer_weights map).*2 /\ zsum (integer_weights map).*2 < 2 ^ 32.

Lemma option_probability_bounds o cb : weights_ok o -> probability (get_option_probability o cb).
Proof.
  intros Ho. rewrite get_option_probability_eq.
  destruct (cb o); [by unfold probability, MAX_WEIGHT|].
  destruct (as_mapping o) as [map|] eqn:Em; [|by unfold probability, MAX_WEIGHT].
  destruct (Ho map Em) as [Hw Hs]. cbv zeta. set (weights := integer_weights map) in *.
  set (p := fun e : Y * Z => _). pose proof (zsum_filter_le p weights Hw) as Hf.
  pose proof (Forall_filter_snd p weights Hw).
  rewrite !sum_i64_zsum by (done || lia). apply ratio_probability; lia.
Qed.

Lemma option_map_ok o transform m :
  weights_ok o -> get_option_map o transform = Some m ->
  map_Forall (fun _ => Z.le 0) m /\ msum m < 2 ^ 32.
Proof.
  intros Ho. unfold get_option_map. destruct (transform o) as [key|].
  { intros [= <-]. split; [by apply map_Forall_singleton; unfold MAX_WEIGHT|].
    unfold msum. rewrite map_to_list_singleton. by vm_compute. }
  destruct (as_mapping o) as [map|] eqn:Em; simpl; [|done]. destruct (Ho map Em) as [Hw Hs].
  intros Hm. injection Hm as <-. clear Em Ho. set (step := fun _ _ => _).
  cut (forall ret : gmap Z Z, map_Forall (fun _ => Z.le 0) ret ->
    msum ret + zsum (integer_weights map).*2 < 2 ^ 32 ->
    map_Forall (fun _ => Z.le 0) (fold_left step map ret) /\ msum (fold_left step map ret) < 2 ^ 32).
  { intros Hcut. apply Hcut; [apply map_Forall_empty|]. unfold msum. rewrite map_to_list_empty. simpl. lia. }
  clear Hs. induction map as [|[k w] map IH]; intros ret Hret Hsum; simpl in *.
  { split; [done|]. simpl in Hsum. lia. }
  unfold integer_weights in Hw, Hsum. cbn [mbind list_bind] in Hw, Hsum.
  fold (integer_weights map) in Hw, Hsum. unfold step at 2 4. cbn [fst snd].
  rewrite fmap_app, zsum_app in Hsum. rewrite fmap_app in Hw. apply Forall_app in Hw as [Hhd Hw].
  destruct (as_integer w) as [v|] eqn:Ev; cbn in Hhd, Hsum;
    [|destruct (transform k); apply IH; done || lia].
  apply Forall_cons in Hhd as [Hv _]. pose proof (zsum_nonneg _ Hw) as Hnn.
  assert (H0 : 0 <= msum ret).
  { unfold msum. apply zsum_nonneg, Forall_fmap, Forall_forall.
    intros [k' v'] Hin%elem_of_map_to_list. by apply (Hret k' v'). }
  destruct (transform k) as [key|]; [|apply IH; done || lia].
  destruct (v =? 0); cbn [negb]; [apply IH; done || lia|].
  assert (wrap_u32 v = v) as -> by (unfold wrap_u32; rewrite Z.mod_small; lia).
  pose proof (msum_insert_le ret key v Hret Hv). apply IH; [done| |lia].
  by apply map_Forall_insert_2.
Qed.
End options.

(** ** Extractors *)

Section extractors.
Context {SV : SemVer} {LC : Lowercase} {Y : Type} {YO : YamlOps Y} {YL : YamlLaws Y}.

(** Values of features, when there are any. *)
Definition feature_ok (v : Z) : Prop := 1 <= v <= MAX_WEIGHT.
Definition features_ok (fs : gmap str YamlFeatures) : Prop :=
  map_Forall (fun _ => map_Forall (fun _ => feature_ok)) fs.

(** The options of a game. *)
Definition options_ok (game_yaml : Y) : Prop :=
  forall path o, as_mapping_get game_yaml path = Some o -> weights_ok o.

(** The state in which the extractor of a game runs. *)
Definition in_game (g : str) (e : Extractor) : Prop :=
  features_ok (game_features e) /\ probability (current_weight e) /\
  exists game_yaml p, current_game e = Some (g, game_yaml, p) /\ options_ok game_yaml /\ probability p.

(** No panic, and only the features of the game change. *)
Definition safe {A} (m : em A) (Q : A -> Prop) : Prop := forall g e,
  in_game g e ->
  match m e with
  | Ok (a, e') => in_game g e' /\ yaml e' = yaml e /\ Q a /\
      forall g', g' <> g -> game_features e' !! g' = game_features e !! g'
  | Err (Raised _) => True
  | Err Panicked => False
  end.

Lemma safe_bind {A B} (m : em A) (f : A -> em B) Q R :
  safe m Q -> (forall a, Q a -> safe (f a) R) -> safe (m ≫= f) R.
Proof.
  intros Hm Hf g e He. specialize (Hm g e He). unfold mbind, em_bind.
  destruct (m e) as [[a e1]|[|]]; [|done|done]. destruct Hm as (He1 & Hy & Ha & Hg).
  specialize (Hf a Ha g e1 He1). destruct (f a e1) as [[b e2]|[|]]; [|done|done].
  destruct Hf as (He2 & Hy2 & Hb & Hg2). split_and!; [done|congruence|done|].
  intros g' Hne. rewrite Hg2 by done. by apply Hg.
Qed.

Lemma safe_ret {A} (a : A) (Q : A -> Prop) : Q a -> safe (mret a) Q.
Proof. intros Ha g e He. by split_and!. Qed.

Lemma run_the_game (e : Extractor (Y := Y)) x : current_game e = Some x -> the_game e = Ok (x, e).
Proof. intros Hc. unfold the_game, em_get. by rewrite Hc. Qed.

Lemma safe_game :
  safe the_game (fun x => options_ok x.1.2 /\ probability x.2).
Proof.
  intros g e He. pose proof He as (_ & _ & gy & p & Hc & Hy & Hp).
  rewrite (run_the_game _ _ Hc). by split_and!.
Qed.

Lemma run_add feature p (e : Extractor (Y := Y)) g gy gp :
  current_game e = Some (g, gy, gp) ->
  let q := get_weighted_probality p gp (current_weight e) in
  let features := default ∅ (game_features e !! g) in
  add_feature_to_current_game feature p e = Ok (tt,
    if q =? 0 then e
    else {| game_features := <[g := <[feature := combined (default 0 (features !! feature)) q]>
                                      features]> (game_features e);
            current_game := current_game e; current_weight := current_weight e; yaml := yaml e |}).
Proof.
  intros Hc. unfold add_feature_to_current_game. unfold mbind at 1, em_bind at 1.
  by rewrite (run_the_game _ _ Hc).
Qed.

Lemma safe_add feature p : probability p -> safe (add_feature_to_current_game feature p) (fun _ => True).
Proof.
  intros Hp g e He. pose proof He as (Hfs & Hw & gy & gp & Hc & Hy & Hgp).
  rewrite (run_add _ _ _ _ _ _ Hc).
  pose proof (weighted_probability p gp (current_weight e) Hp Hgp Hw) as Hq.
  set (q := get_weighted_probality _ _ _) in *.
  destruct (Z.eqb_spec q 0) as [Hz|Hz]; [by split_and!|].
  cbn [game_features current_game current_weight yaml].
  assert (Hok : map_Forall (fun _ => feature_ok) (default ∅ (game_features e !! g))).
  { destruct (game_features e !! g) as [fs|] eqn:Ef; simpl; [by apply (Hfs g)|apply map_Forall_empty]. }
  set (cur := default 0 _).
  assert (Hcur : probability cur).
  { subst cur. destruct (_ !! feature) as [v|] eqn:Ev; simpl; [|by unfold probability, MAX_WEIGHT].
    specialize (Hok feature v Ev). simpl in Hok. unfold feature_ok, probability in *. lia. }
  split_and!; [|done|done|].
  - split_and!; [|done|by exists gy, gp]. apply map_Forall_insert_2; [|done].
    apply map_Forall_insert_2; [|done]. rewrite combined_either by done.
    pose proof (either_bounds cur q Hcur Hq). unfold feature_ok, probability in *. lia.
  - intros g' Hne. cbn [game_features]. by rewrite lookup_insert_ne.
Qed.

Lemma safe_option path cb : safe (current_option_probability path cb) probability.
Proof.
  unfold current_option_probability. eapply safe_bind; [apply safe_game|].
  intros [[g gy] p] [Hy _]. simpl in Hy. apply safe_ret.
  destruct (as_mapping_get gy path) as [o|] eqn:Eo; [|by unfold probability, MAX_WEIGHT].
  apply option_probability_bounds. by eapply Hy.
Qed.

Lemma safe_register_custom feature path cb :
  safe (register_feature_with_custom_truth feature path cb) (fun _ => True).
Proof. eapply safe_bind; [apply safe_option|]. intros p Hp. by apply safe_add. Qed.

Lemma safe_register feature path : safe (register_feature feature path) (fun _ => True).
Proof. eapply safe_bind; [apply safe_option|]. intros p Hp. by apply safe_add. Qed.

Lemma safe_ranged feature path min max transform :
  safe (register_ranged_feature feature path min max transform) (fun _ => True).
Proof.
  eapply safe_bind; [apply safe_game|]. intros [[g gy] p] [Hy _]. simpl in Hy.
  destruct (as_mapping_get gy path) as [o|] eqn:Eo; [|by apply safe_ret].
  destruct (get_option_map o transform) as [m|] eqn:Em.
  - apply safe_add. destruct (option_map_ok o transform m (Hy path o Eo) Em) as [H1 H2].
    destruct (sum_weights_bounds (fun o => (o <? min) || (max <? o)) m H1 H2) as [H3 H4].
    apply ratio_probability; lia.
  - by intros g' e He.
Qed.

Lemma safe_weight w inner :
  probability w -> safe inner (fun _ => True) -> safe (with_weight w inner) (fun _ => True).
Proof.
  intros Hw Hinner. unfold with_weight. eapply (safe_bind _ _ (fun _ => True)).
  { intros g e He. unfold em_get. rewrite (proj2 (Z.leb_le _ _)) by apply Hw. simpl. by split_and!. }
  intros _ _. assert (Hset : forall w, probability w -> safe (set_weight w) (fun _ => True)).
  { intros w' Hw' g e (Hf & _ & Hg). by split_and!. }
  eapply safe_bind; [by apply Hset|]. intros _ _. eapply safe_bind; [exact Hinner|].
  intros _ _. apply Hset. by unfold probability, MAX_WEIGHT.
Qed.

Lemma safe_then {A} (m : em A) (k : em unit) :
  safe m (fun _ => True) -> safe k (fun _ => True) -> safe (_ ← m; k) (fun _ => True).
Proof. intros Hm Hk. eapply safe_bind; [exact Hm|]. by intros. Qed.

Lemma safe_option_then path cb (k : Z -> em unit) :
  (forall p, probability p -> safe (k p) (fun _ => True)) ->
  safe (current_option_probability path cb ≫= k) (fun _ => True).
Proof. intros Hk. eapply safe_bind; [apply safe_option|exact Hk]. Qed.

Lemma max_weight_probability : probability MAX_WEIGHT.
Proof. by unfold probability, MAX_WEIGHT. Qed.

Lemma safe_extractor game_name m : extractor_of game_name = Some m -> safe m (fun _ => True).
Proof.
  intros (e & Hf & ->)%fmap_Some. apply find_some in Hf as [Hin _]. apply list_elem_of_In in Hin.
  unfold EXTRACTORS in Hin.
  repeat (apply elem_of_cons in Hin as [->|Hin]; [|]); [..|by apply not_elem_of_nil in Hin]; simpl;
    unfold ahit, dlc_quest, pokemon_rb, pokemon_emerald, pokemon_crystal, pokemon_frlg, pokemon_bw,
      jak_and_daxter, tunic, kingdom_hearts, stardew_valley, sml2, smw, ffxiv;
    repeat first [apply safe_register | apply safe_register_custom | apply safe_ranged
      | apply safe_add, max_weight_probability | apply safe_weight; [done|]
      | apply safe_option_then; intros ? ? | apply safe_then].
Qed.

Lemma safe_default index : safe (default_extractor index) (fun _ => True).
Proof.
  unfold default_extractor. eapply safe_bind; [apply safe_game|]. intros [[g gy] p] _.
  apply safe_then; [|by repeat first [apply safe_then | apply safe_register]].
  destruct (get_world_by_name index g) as [wd|]; [|by apply safe_ret].
  case_bool_decide; [apply safe_add, max_weight_probability|by apply safe_ret].
Qed.

(** ** Whole YAMLs *)

(** All options of all games of a YAML have weights that make sense. *)
Definition yaml_ok (y : Y) : Prop :=
  forall game_name game_yaml, as_mapping_get y game_name = Some game_yaml -> options_ok game_yaml.

(** The state between two games. *)
Definition between_games (y : Y) (games : gset str) (e : Extractor) : Prop :=
  yaml e = y /\ features_ok (game_features e) /\ probability (current_weight e) /\
  dom (game_features e) ⊆ games.

Lemma between_mono y games games' e :
  games ⊆ games' -> between_games y games e -> between_games y games' e.
Proof. intros Hsub (? & ? & ? & ?). split_and!; [done..|set_solver]. Qed.

Lemma extract_game_ok y index game_name p games e :
  yaml_ok y -> probability p -> between_games y games e ->
  match extract_features_from_yaml index game_name p e with
  | Ok (_, e') => between_games y ({[game_name]} ∪ games) e'
  | Err (Raised _) => True
  | Err Panicked => False
  end.
Proof.
  intros Hy Hp (He & Hfs & Hw & Hdom). unfold extract_features_from_yaml, mbind at 1, em_bind at 1, set_game.
  rewrite He. destruct (as_mapping_get y game_name) as [gy|] eqn:Eg; [|done].
  match goal with |- context [?m ?e1] => lazymatch type of e1 with Extractor => set (e0 := e1); set (k := m) end end.
  assert (Hk : safe k (fun _ => True)).
  { subst k. apply safe_then; [apply safe_default|]. destruct (extractor_of game_name) eqn:Ex.
    - by eapply safe_extractor.
    - by apply safe_ret. }
  assert (H0 : in_game game_name e0).
  { split_and!; [done|done|]. exists gy, p. split_and!; [done|by eapply Hy|done]. }
  specialize (Hk game_name e0 H0). destruct (k e0) as [[[] e']|]; [|done].
  destruct Hk as ((Hfs' & Hw' & _) & Hy' & _ & Hother). split_and!; [by rewrite Hy'|done|done|].
  intros g Hg%elem_of_dom. destruct (decide (g = game_name)) as [->|Hne]; [set_solver|].
  rewrite Hother in Hg by done. apply elem_of_dom in Hg. simpl in Hg. set_solver.
Qed.

Lemma extract_games_ok y index gs games e :
  yaml_ok y -> Forall (fun gp => probability gp.2) gs -> between_games y games e ->
  match extract_games index gs e with
  | Ok (_, e') => between_games y (list_to_set gs.*1 ∪ games) e'
  | Err (Raised _) => True
  | Err Panicked => False
  end.
Proof.
  intros Hy Hgs. revert games e. induction Hgs as [|[g p] gs Hp Hgs IH]; intros games e He; simpl.
  { eapply between_mono; [|exact He]. set_solver. }
  unfold mbind, em_bind. pose proof (extract_game_ok y index g p games e Hy Hp He) as Hg.
  destruct (extract_features_from_yaml index g p e) as [[[] e1]|]; [|done].
  specialize (IH _ _ Hg). destruct (extract_games index gs e1) as [[[] e2]|]; [|done].
  eapply between_mono; [|exact IH]. set_solver.
Qed.

Lemma finalize_inner (fs acc : YamlFeatures) n :
  0 <= n -> (n + 1) * MAX_WEIGHT < 2 ^ 32 -> map_Forall (fun _ => feature_ok) fs ->
  map_Forall (fun _ v => 1 <= v <= n * MAX_WEIGHT) acc ->
  let final := map_fold (fun feature p finalized =>
    <[feature := wrap_u32 (default 0 (finalized !! feature) + p)]> finalized) acc fs in
  forall f, final !! f =
    match fs !! f with
    | Some p => Some (default 0 (acc !! f) + p)
    | None => acc !! f
    end.
Proof.
  intros Hn Hmax Hfs Hacc. cbv zeta. revert Hfs.
  refine (map_fold_weak_ind (fun final fs => map_Forall (fun _ => feature_ok) fs -> forall f,
    final !! f = match fs !! f with
                 | Some p => Some (default 0 (acc !! f) + p) | None => acc !! f end) _ _ _ _ fs).
  { intros _ f. by rewrite lookup_empty. }
  intros i x m r Hi IH Hm f. apply map_Forall_insert in Hm as [Hx Hm]; [|done].
  destruct (decide (f = i)) as [->|Hne].
  - rewrite !lookup_insert_eq, IH, Hi by done. f_equal. unfold wrap_u32. apply Z.mod_small.
    unfold feature_ok, MAX_WEIGHT in *. destruct (acc !! i) as [v|] eqn:Ev; simpl; [|lia].
    specialize (Hacc i v Ev). simpl in Hacc. lia.
  - by rewrite !lookup_insert_ne, IH by done.
Qed.

Lemma finalize_bounds (e : Extractor (Y := Y)) :
  features_ok (game_features e) -> Z.of_nat (size (game_features e)) * MAX_WEIGHT < 2 ^ 32 ->
  map_Forall (fun _ v => 1 <= v <= Z.of_nat (size (game_features e)) * MAX_WEIGHT) (finalize e).
Proof.
  unfold finalize. generalize (game_features e) as gf. intros gf.
  refine (map_fold_weak_ind (fun final (gf : gmap str YamlFeatures) => features_ok gf ->
    Z.of_nat (size gf) * MAX_WEIGHT < 2 ^ 32 ->
    map_Forall (fun _ v => 1 <= v <= Z.of_nat (size gf) * MAX_WEIGHT) final) _ _ _ _ gf).
  { intros _ _. apply map_Forall_empty. }
  intros g fs m r Hg IH Hok Hsize. apply map_Forall_insert in Hok as [Hfs Hok]; [|done].
  rewrite map_size_insert_None in * by done. unfold MAX_WEIGHT in *.
  assert (Hr : map_Forall (fun _ v => 1 <= v <= Z.of_nat (size m) * MAX_WEIGHT) r)
    by (apply IH; [done|lia]).
  intros f v Hv.
  rewrite (finalize_inner fs r (Z.of_nat (size m))) in Hv by (done || unfold MAX_WEIGHT; lia).
  assert (Hr' : forall v, r !! f = Some v -> 1 <= v <= Z.of_nat (size m) * 10000) by (intros v'; apply (Hr f)).
  assert (Hp : forall p, fs !! f = Some p -> 1 <= p <= 10000) by (intros p; apply (Hfs f)).
  destruct (fs !! f) as [p|]; [|specialize (Hr' v Hv); lia]. specialize (Hp p eq_refl).
  injection Hv as <-. destruct (r !! f) as [v|]; simpl; [|lia]. specialize (Hr' v eq_refl). lia.
Qed.

(** ** A game that is rolled for sure *)

(** The value of a feature so far. *)
Definition feature_value (e : Extractor (Y := Y)) (g : str) (f : YamlFeature) : Z :=
  default 0 (default ∅ (game_features e !! g) !! f).

(** The only game is [g]. *)
Definition only_game (g : str) (game_yaml : Y) (e : Extractor) : Prop :=
  in_game g e /\ current_game e = Some (g, game_yaml, MAX_WEIGHT) /\ current_weight e = MAX_WEIGHT /\
  forall g', g' <> g -> game_features e !! g' = None.

Lemma feature_value_probability g gy e f : only_game g gy e -> probability (feature_value e g f).
Proof.
  intros (Hin & _). destruct Hin as (Hfs & _). unfold feature_value.
  destruct (game_features e !! g) as [fs|] eqn:Eg; simpl; [|by unfold probability, MAX_WEIGHT].
  destruct (fs !! f) as [v|] eqn:Ev; simpl; [|by unfold probability, MAX_WEIGHT].
  pose proof (Hfs g fs Eg f v Ev) as Hv. unfold feature_ok, probability in *. simpl in Hv. lia.
Qed.

Lemma either_zero p : either p 0 = p.
Proof. unfold either, MAX_WEIGHT. lia. Qed.

Lemma add_certain g gy e feature p :
  only_game g gy e -> probability p ->
  exists e', add_feature_to_current_game feature p e = Ok (tt, e') /\ only_game g gy e' /\
    forall f, feature_value e' g f =
      if decide (f = feature) then either (feature_value e g f) p else feature_value e g f.
Proof.
  intros He Hp. pose proof He as (Hin & Hc & Hw & Hno).
  pose proof (safe_add feature p Hp g e Hin) as Hsafe.
  pose proof (feature_value_probability g gy e feature He) as Hcur.
  revert Hsafe. rewrite (run_add _ _ _ _ _ _ Hc), Hw, weighted_certain by done.
  destruct (Z.eqb_spec p 0) as [->|Hz].
  - intros _. exists e. split_and!; [done|done|]. intros f. rewrite either_zero. by case_decide.
  - intros (Hin' & _). eexists. split; [done|]. split.
    + split_and!; [exact Hin'|done|done|]. intros g' Hne. cbn [game_features].
      rewrite lookup_insert_ne by done. by apply Hno.
    + intros f. unfold feature_value at 1. cbn [game_features]. rewrite lookup_insert_eq. simpl.
      fold (feature_value e g feature). case_decide as Hf.
      * subst f. rewrite lookup_insert_eq. simpl. by apply combined_either.
      * by rewrite lookup_insert_ne.
Qed.

Definition option_chance (game_yaml : Y) (path : str) : Z :=
  match as_mapping_get game_yaml path with
  | None => 0
  | Some option => get_option_probability option is_trueish
  end.

Lemma register_certain g gy e feature path :
  options_ok gy -> only_game g gy e ->
  exists e', register_feature feature path e = Ok (tt, e') /\ only_game g gy e' /\
    forall f, feature_value e' g f =
      if decide (f = feature) then either (feature_value e g f) (option_chance gy path)
      else feature_value e g f.
Proof.
  intros Hgy He. pose proof He as (_ & Hc & _).
  unfold register_feature, current_option_probability, mbind, em_bind.
  rewrite (run_the_game _ _ Hc). apply (add_certain g gy e feature (option_chance gy path) He).
  unfold option_chance. destruct (as_mapping_get gy path) as [o|] eqn:Eo;
    [|by unfold probability, MAX_WEIGHT].
  apply option_probability_bounds. by eapply Hgy.
Qed.

Lemma finalize_only g gy e f :
  only_game g gy e ->
  finalize e !! f = if decide (feature_value e g f = 0) then None else Some (feature_value e g f).
Proof.
  intros ((Hfs & _) & _ & _ & Hno). unfold finalize, feature_value.
  destruct (game_features e !! g) as [fs|] eqn:Eg; simpl.
  - assert (game_features e = {[g := fs]}) as ->.
    { apply map_eq. intros g'. destruct (decide (g' = g)) as [->|Hne];
        [by rewrite lookup_singleton_eq|rewrite lookup_singleton_ne by done; auto]. }
    rewrite map_fold_singleton.
    rewrite (finalize_inner fs ∅ 0) by (done || (by apply (Hfs g)) || apply map_Forall_empty).
    rewrite lookup_empty. destruct (fs !! f) as [v|] eqn:Ev; simpl; [|done].
    pose proof (Hfs g fs Eg f v Ev) as Hv. unfold feature_ok in Hv. simpl in Hv.
    rewrite decide_False by lia. done.
  - assert (game_features e = ∅) as ->; [|by rewrite map_fold_empty, lookup_empty].
    apply map_eq. intros g'. rewrite lookup_empty.
    destruct (decide (g' = g)) as [->|Hne]; [done|by apply Hno].
Qed.

Lemma either_zero_l p : either 0 p = p.
Proof. unfold either, MAX_WEIGHT. lia. Qed.

Lemma em_bind_Ok {A B} (m : em A) (k : A -> em B) (e e' : Extractor (Y := Y)) a :
  m e = Ok (a, e') -> (m ≫= k) e = k a e'.
Proof. intros Hm. unfold mbind, em_bind. by rewrite Hm. Qed.

(** Whether the index says that a game has after-dark content. *)
Definition after_dark (index : Index) (game : str) : bool :=
  match get_world_by_name index game with
  | Some world => bool_decide (Apwm.AfterDark ∈ tags world)
  | None => false
  end.

(** The chance that one of the three options for death links is on. *)
Definition death_link_chance (game_yaml : Y) : Z :=
  either (either (option_chance game_yaml (lit "death_link"))
                 (option_chance game_yaml (lit "deathlink")))
         (option_chance game_yaml (lit "DeathLink")).

Lemma default_certain index g gy e :
  options_ok gy -> only_game g gy e -> (forall f, feature_value e g f = 0) ->
  exists e', default_extractor index e = Ok (tt, e') /\ only_game g gy e' /\
    forall f, feature_value e' g f =
      match f with
      | DeathLink => death_link_chance gy
      | AfterDark => if after_dark index g then MAX_WEIGHT else 0
      | _ => 0
      end.
Proof.
  intros Hgy He Hzero. pose proof He as (_ & Hc & _). unfold default_extractor.
  rewrite (em_bind_Ok _ _ _ _ _ (run_the_game _ _ Hc)). fold (after_dark index g).
  assert (Hdark : exists e1,
    match get_world_by_name index g with
    | Some world => if bool_decide (Apwm.AfterDark ∈ tags world)
                    then add_feature_to_current_game AfterDark MAX_WEIGHT else mret tt
    | None => mret tt
    end e = Ok (tt, e1) /\ only_game g gy e1 /\
    forall f, feature_value e1 g f =
      if decide (f = AfterDark) then (if after_dark index g then MAX_WEIGHT else 0) else 0).
  { assert (Hno : forall f, feature_value e g f = if decide (f = AfterDark) then 0 else 0)
      by (intros f; rewrite Hzero; by case_decide).
    unfold after_dark. destruct (get_world_by_name index g) as [w|]; [|by exists e].
    case_bool_decide; [|by exists e].
    destruct (add_certain g gy e AfterDark MAX_WEIGHT He max_weight_probability)
      as (e1 & -> & He1 & Hv). exists e1. split_and!; [done|done|]. intros f. rewrite Hv, Hzero.
    case_decide; [by vm_compute|done]. }
  destruct Hdark as (e1 & Hrun1 & He1 & Hv1). rewrite (em_bind_Ok _ _ _ _ _ Hrun1).
  destruct (register_certain g gy e1 DeathLink (lit "death_link") Hgy He1) as (e2 & Hrun2 & He2 & Hv2).
  rewrite (em_bind_Ok _ _ _ _ _ Hrun2).
  destruct (register_certain g gy e2 DeathLink (lit "deathlink") Hgy He2) as (e3 & Hrun3 & He3 & Hv3).
  rewrite (em_bind_Ok _ _ _ _ _ Hrun3).
  destruct (register_certain g gy e3 DeathLink (lit "DeathLink") Hgy He3) as (e4 & Hrun4 & He4 & Hv4).
  exists e4. split_and!; [done|done|]. intros f. rewrite Hv4, Hv3, Hv2, Hv1.
  destruct f; simpl; by rewrite ?either_zero_l.
Qed.

Lemma subseteq_list_size (l : list str) (X : gset str) :
  X ⊆ list_to_set l -> (size X <= length l)%nat.
Proof.
  intros Hsub. change (size X) with (length (elements X)). apply submseteq_length, NoDup_submseteq.
  - apply NoDup_elements.
  - intros x Hx%elem_of_elements. by apply Hsub, elem_of_list_to_set in Hx.
Qed.
End extractors.
