(* ===== verification/LobbyFeaturesProps.v ===== *)
(** * What the lobby tells about the features of a YAML

    The theorems about feature extraction, with their witnesses on documents that are written
    out. *)

From S2P Require Import Prelude Ord RustStd F64 Yaml Apwm Examples ReviewDoc.
From S2P Require Import LobbyYaml LobbyFeatures LobbyFeaturesFacts.

#[local] Open Scope Z_scope.

Section properties.
Context {SV : SemVer} {LC : Lowercase} {Y : Type} {YO : YamlOps Y} {YL : YamlLaws Y}.
Context (load_error : error) (hash_iter : gmap str f64 -> list (str * f64)).


(** For a YAML of one game that has no extractor of its own, the features are exactly these:
    after-dark content if the index says so of the game, and a death link with the chance that
    at least one of its three options is on, taken as independent, where a mapping is on with
    the share of the weights of its keys that are on. *)
Theorem default_features_exact (index : Index) (parsed : YamlFile) (raw_yaml : str) (y : Y)
    (docs : list Y) (game : str) (game_yaml : Y) :
  load_from_str raw_yaml = Ok (y :: docs) -> file_game parsed = GameName game ->
  as_mapping_get y game = Some game_yaml -> options_ok game_yaml -> extractor_of (Y := Y) game = None ->
  exists fs, extract_features load_error hash_iter index parsed raw_yaml = Ok fs /\
    forall feature, fs !! feature =
      let value := match feature with
                   | DeathLink => death_link_chance game_yaml
                   | AfterDark => if after_dark index game then MAX_WEIGHT else 0
                   | _ => 0
                   end in
      if decide (value = 0) then None else Some value.
Proof.
  intros Hload Hgame Hget Hok Hno. unfold extract_features. rewrite Hload, Hgame. cbn [mbind result_bind].
  unfold Extractor_new. destruct (is_mapping y (as_mapping_get_kind y _ _ Hget)) as [m ->].
  cbn [mbind result_bind yaml_games extract_games].
  set (e0 := {| game_features := ∅; current_game := None; current_weight := MAX_WEIGHT; yaml := y |}).
  set (e1 := {| game_features := ∅; current_game := Some (game, game_yaml, MAX_WEIGHT);
                current_weight := MAX_WEIGHT; yaml := y |}).
  assert (Hset : set_game game MAX_WEIGHT e0 = Ok (tt, e1)) by (unfold set_game; simpl; by rewrite Hget).
  assert (He1 : only_game game game_yaml e1).
  { split; [|by split_and!]. split; [apply map_Forall_empty|]. split; [done|].
    exists game_yaml, MAX_WEIGHT. by split_and!. }
  destruct (default_certain index game game_yaml e1 Hok He1) as (e2 & Hrun & He2 & Hv); [done|].
  assert (Hone : extract_features_from_yaml index game MAX_WEIGHT e0 = Ok (tt, e2)).
  { unfold extract_features_from_yaml. rewrite (em_bind_Ok _ _ _ _ _ Hset), (em_bind_Ok _ _ _ _ _ Hrun).
    by rewrite Hno. }
  change (em_bind _ _ _ _) with ((_ ← extract_features_from_yaml index game MAX_WEIGHT; mret tt : em unit) e0).
  rewrite (em_bind_Ok _ _ _ _ _ Hone). exists (finalize e2). split; [done|].
  intros feature. rewrite (finalize_only game game_yaml e2 feature He2). by rewrite Hv.
Qed.
End properties.

(** ** Concrete YAMLs *)

Section examples.
#[local] Existing Instance example_semver.
#[local] Existing Instance ascii_lowercase.

Definition text (s : string) : doc := DStr (lit s).

(** The option of DLC Quest is [coin] with weight 3 and [none] with weight -2. *)
Definition negative_yaml : doc :=
  DMap [(text "DLCQuest", DMap [(text "coinsanity",
    DMap [(text "coin", DInt 3); (text "none", DInt (-2))])])].

(** Both games have death links, Kingdom Hearts even three of them. *)
Definition two_games_yaml : doc :=
  DMap [(text "Kingdom Hearts", DMap [(text "death_link", DBool true);
           (text "donald_death_link", DBool true); (text "goofy_death_link", DBool true)]);
        (text "Other", DMap [(text "death_link", DBool true)])].

(** A death link with probability one half. *)
Definition half_yaml : doc :=
  DMap [(text "Other", DMap [(text "death_link", DMap [(text "true", DInt 50); (text "false", DInt 50)]);
    (text "deathlink", DMap [(text "on", DInt 50); (DBool true, DInt 50)])])].

#[local] Instance ex_docs : YamlOps doc :=
  doc_ops [(lit "negative", [negative_yaml]); (lit "two", [two_games_yaml]); (lit "half", [half_yaml])].
#[local] Instance ex_laws : YamlLaws doc := doc_laws _.

Definition ex_index : Index :=
  {| i_path := Path true [lit "index.toml"]; archipelago_repo := []; archipelago_version := (6%N : Version);
     index_homepage := []; index_dir := Path false [lit "worlds"]; worlds := ∅ |}.

Definition ex_iter (m : gmap str f64) : list (str * f64) := map_to_list m.

Definition of_game (name : string) : YamlFile := {| file_game := GameName (lit name); file_name := [] |}.

(** Each game is rolled with probability one half. *)
Definition half_and_half : YamlFile :=
  {| file_game := GameMap {[lit "Kingdom Hearts" := f64_of_Z 50; lit "Other" := f64_of_Z 50]};
     file_name := [] |}.

(** Two well-formed YAMLs break the extraction.  With a negative weight an option is more than
    certain, which the extractor of DLC Quest takes for a bug: the request panics.  And the chance of a feature can exceed certainty: options of the same game are combined as if
    the roll of the game were independent for each, and the games of a YAML are added up. *)
Theorem features_corner_cases :
  extract_features [] ex_iter ex_index (of_game "DLCQuest") (lit "negative") = Err Panicked /\
  exists fs, extract_features [] ex_iter ex_index half_and_half (lit "two") = Ok fs /\
    fs !! DeathLink = Some 13750.
Proof.
  split; [vm_compute; reflexivity|]. eexists. split; [vm_compute; reflexivity|].
  vm_compute. reflexivity.
Qed.

Lemma half_options_ok : options_ok (YO := ex_docs) (DMap [(text "death_link",
    DMap [(text "true", DInt 50); (text "false", DInt 50)]);
    (text "deathlink", DMap [(text "on", DInt 50); (DBool true, DInt 50)])]).
Proof.
  intros path o Ho m Hm. simpl in Ho. unfold doc_key in Ho. simpl in Ho.
  repeat case_match; simplify_eq; simpl in Hm; simplify_eq; simpl; split; [repeat constructor; lia|lia|repeat constructor; lia|lia].
Qed.


Lemma default_features_exact_witness :
  exists fs, extract_features [] ex_iter ex_index (of_game "Other") (lit "half") = Ok fs /\
    fs !! DeathLink = Some 7500 /\ fs !! AfterDark = None.
Proof.
  destruct (default_features_exact (YO := ex_docs) [] ex_iter ex_index (of_game "Other") (lit "half") half_yaml []
    (lit "Other") (DMap [(text "death_link", DMap [(text "true", DInt 50); (text "false", DInt 50)]);
      (text "deathlink", DMap [(text "on", DInt 50); (DBool true, DInt 50)])])
    eq_refl eq_refl eq_refl half_options_ok eq_refl) as (fs & Hrun & Hfs).
  exists fs. split_and!; [done|rewrite Hfs; vm_compute; reflexivity|rewrite Hfs; vm_compute; reflexivity].
Defined.
End examples.
