(* ===== verification/LobbyFacts.v ===== *)
(** * Facts about the lobby's YAMLs *)

From S2P Require Import Prelude Ord RustStd F64 Redis WqCore WqProg Wq.
From S2P Require Import Apwm ApwmIndex LobbyNames LobbyYaml.

(** ** ASCII texts *)

Lemma is_ascii_Forall s : is_ascii s = true <-> Forall (fun c => (c < 128)%N) s.
Proof.
  unfold is_ascii. rewrite forallb_forall, Forall_forall.
  setoid_rewrite list_elem_of_In. by setoid_rewrite N.ltb_lt.
Qed.

Lemma is_ascii_app a b : is_ascii (a ++ b) = true <-> is_ascii a = true /\ is_ascii b = true.
Proof. rewrite !is_ascii_Forall. apply Forall_app. Qed.

Lemma is_ascii_drop n s : is_ascii s = true -> is_ascii (drop n s) = true.
Proof. rewrite !is_ascii_Forall. apply Forall_drop. Qed.

Lemma is_ascii_take n s : is_ascii s = true -> is_ascii (take n s) = true.
Proof. rewrite !is_ascii_Forall. apply Forall_take. Qed.

Lemma is_ascii_reverse s : is_ascii s = true -> is_ascii (reverse s) = true.
Proof. rewrite !is_ascii_Forall. by rewrite reverse_Permutation. Qed.

Lemma is_ascii_trim_start p s : is_ascii s = true -> is_ascii (trim_start_matches p s) = true.
Proof.
  intros Hs. induction s as [|c s IH]; simpl in *; [done|].
  apply andb_true_iff in Hs as [Hc Hs]. destruct (p c); [by apply IH|]. simpl. by rewrite Hc.
Qed.

Lemma is_ascii_trim_end p s : is_ascii s = true -> is_ascii (trim_end_matches p s) = true.
Proof. intros Hs. by apply is_ascii_reverse, is_ascii_trim_start, is_ascii_reverse. Qed.

Lemma is_ascii_replace p r s :
  is_ascii r = true -> is_ascii s = true -> is_ascii (replace p r s) = true.
Proof.
  intros Hr. unfold replace. generalize (length s) as fuel. intros fuel. revert s.
  induction fuel as [|fuel IH]; intros s Hs; simpl; [done|]. destruct s as [|c s]; [done|].
  destruct (starts_with p (c :: s)).
  - apply is_ascii_app. split; [done|]. by apply IH, is_ascii_drop.
  - simpl in *. apply andb_true_iff in Hs as [-> Hs]. by apply IH.
Qed.

Lemma is_ascii_number n : is_ascii (N_to_str n) = true.
Proof.
  destruct (N_to_str_parse n) as (_ & _ & Hall). apply is_ascii_Forall.
  eapply Forall_impl; [exact Hall|]. unfold is_ascii_digit. intros c Hc. reflect_bools.
  rewrite N.leb_le in *. lia.
Qed.

Lemma str_len_ascii s : is_ascii s = true -> str_len s = N.of_nat (length s).
Proof.
  induction s as [|c s IH]; simpl; [done|]. intros [Hc Hs]%andb_true_iff.
  unfold len_utf8. rewrite Hc, IH by done. lia.
Qed.

Lemma byte_split_ascii s n :
  is_ascii s = true -> (n <= N.of_nat (length s))%N ->
  byte_split n s = Some (take (N.to_nat n) s, drop (N.to_nat n) s).
Proof.
  intros Hs Hn. rewrite <- (take_drop (N.to_nat n) s) at 1.
  replace n with (str_len (take (N.to_nat n) s)) at 1; [apply byte_split_app|].
  rewrite str_len_ascii by (by apply is_ascii_take). rewrite length_take. lia.
Qed.

(** ** Trimmed texts *)

Definition starts_ok (s : str) : Prop := forall c, head s = Some c -> is_whitespace c = false.
Definition ends_ok (s : str) : Prop := forall c, last s = Some c -> is_whitespace c = false.

Lemma trim_start_ok s : starts_ok (trim_start s).
Proof.
  unfold trim_start, starts_ok. induction s as [|c s IH]; simpl; [done|].
  destruct (is_whitespace c) eqn:Ec; [done|]. simpl. congruence.
Qed.

Lemma trim_end_ok s : ends_ok (trim_end s).
Proof.
  unfold trim_end, trim_end_matches, ends_ok. intros c. rewrite <- head_reverse, reverse_involutive.
  apply trim_start_ok.
Qed.

Lemma trim_start_suffix p s : exists s', s = s' ++ trim_start_matches p s.
Proof.
  induction s as [|c s [s' IH]]; simpl; [by exists []|].
  destruct (p c); [|by exists []]. exists (c :: s'). simpl. by rewrite <- IH.
Qed.

Lemma trim_end_prefix p s : exists s', s = trim_end_matches p s ++ s'.
Proof.
  unfold trim_end_matches. destruct (trim_start_suffix p (reverse s)) as [s' Hs].
  exists (reverse s'). rewrite <- reverse_app, <- Hs. by rewrite reverse_involutive.
Qed.

Lemma starts_ok_prefix a b : starts_ok (a ++ b) -> starts_ok a.
Proof. destruct a; [done|]. intros Hs c. simpl. apply Hs. Qed.

(** ** The counter *)

Lemma total_insert (c : Counter) k n :
  (total (<[k := n]> c) + counted c k = total c + n)%N.
Proof.
  unfold total, counted.
  assert (Hins : forall d : Counter, d !! k = None -> forall n,
    map_fold (fun (_ : str) (n acc : N) => (n + acc)%N) 0%N (<[k := n]> d) =
    (n + map_fold (fun (_ : str) (n acc : N) => (n + acc)%N) 0%N d)%N).
  { intros d Hd n'. rewrite map_fold_insert_L; [done|intros; lia|done]. }
  destruct (c !! k) as [m|] eqn:Ek; simpl; [|rewrite Hins by done; lia].
  rewrite <- (insert_delete_id c k m Ek), insert_insert_eq, !Hins by apply lookup_delete_eq. lia.
Qed.

Lemma total_count_one c k : total (count_one c k) = (total c + 1)%N.
Proof. unfold count_one. pose proof (total_insert c k (counted c k + 1)). lia. Qed.

Lemma counted_count_one c k k' :
  counted (count_one c k) k' = if decide (k' = k) then (counted c k + 1)%N else counted c k'.
Proof.
  unfold count_one, counted. case_decide as Hk; subst; [by rewrite lookup_insert_eq|].
  by rewrite lookup_insert_ne.
Qed.

Section names.
Context {LC : Lowercase}.

(** A name that Archipelago takes: at most 16 bytes of ASCII without space around. *)
Definition slot_name_ok (n : str) : Prop :=
  is_ascii n = true /\ (length n <= 16)%nat /\ starts_ok n /\ ends_ok n.

Lemma get_ap_player_name_ascii original c :
  is_ascii original = true ->
  exists n, get_ap_player_name original c = Some (n, count_one c (to_lowercase original)) /\
    slot_name_ok n.
Proof.
  intros Ho. unfold get_ap_player_name.
  set (c' := count_one c (to_lowercase original)). cbv zeta.
  set (new_name := trim_start _).
  assert (Hn : is_ascii new_name = true).
  { subst new_name. apply is_ascii_trim_start.
    repeat (apply is_ascii_replace; [repeat case_match; try done; apply is_ascii_number|]). done. }
  assert (Hs : starts_ok new_name) by apply trim_start_ok. clearbody new_name.
  rewrite byte_split_ascii by (try done; rewrite str_len_ascii by done; lia). cbn [mbind option_bind].
  set (kept := take _ new_name). eexists. split; [done|].
  assert (Hk : is_ascii kept = true) by (by apply is_ascii_take).
  destruct (trim_end_prefix is_whitespace kept) as [s' Hs']. fold (trim_end kept) in Hs'.
  split_and!.
  - by apply is_ascii_trim_end.
  - assert (length (trim_end kept) <= length kept)%nat by (rewrite Hs' at 2; rewrite length_app; lia).
    subst kept. rewrite length_take in *. lia.
  - apply starts_ok_prefix with s'. rewrite <- Hs'. subst kept.
    apply starts_ok_prefix with (drop (N.to_nat (N.min (str_len new_name) 16)) new_name).
    by rewrite take_drop.
  - apply trim_end_ok.
Qed.

Context (find_curly_braces : str -> list str).

(** What a name template has to satisfy, and the name it gives. *)
Definition acceptable_name (original : str) (players : gset str) (c : Counter) (n : str) : Prop :=
  is_ascii original = true /\ check_braces find_curly_braces original = Ok tt /\
  get_ap_player_name original c = Some (n, count_one c (to_lowercase original)) /\
  slot_name_ok n /\ is_reserved_name n = false /\ to_lowercase n ∉ players.

Lemma validate_player_name_spec original players c :
  exists r c', validate_player_name find_curly_braces original players c = Some (r, c') /\
    forall n, r = Ok n <-> acceptable_name original players c n.
Proof.
  unfold validate_player_name, acceptable_name.
  destruct (is_ascii original) eqn:Ho; cbn [negb].
  2: { do 2 eexists. split; [done|]. intros n. split; [done|]. by intros []. }
  destruct (check_braces find_curly_braces original) as [[]|e].
  2: { do 2 eexists. split; [done|]. intros n. split; [done|]. by intros (? & ? & _). }
  destruct (get_ap_player_name_ascii original c Ho) as (n & Hn & Hok). rewrite Hn.
  cbn [mbind option_bind].
  destruct (is_reserved_name n) eqn:Er.
  { do 2 eexists. split; [done|]. intros n'. split; [done|]. intros (_ & _ & ? & _ & ? & _). congruence. }
  case_bool_decide as Hp.
  { do 2 eexists. split; [done|]. intros n'. split; [done|]. intros (_ & _ & ? & _ & _ & ?). congruence. }
  do 2 eexists. split; [done|]. intros n'. split.
  - intros [= <-]. done.
  - intros (_ & _ & ? & _). congruence.
Qed.

Lemma accepted_counter original players c n c' :
  validate_player_name find_curly_braces original players c = Some (Ok n, c') ->
  acceptable_name original players c n /\ c' = count_one c (to_lowercase original).
Proof.
  intros Hv. destruct (validate_player_name_spec original players c) as (r & c1 & Hr & Hiff).
  rewrite Hr in Hv. simplify_eq.
  assert (Ha : acceptable_name original players c n) by (by apply Hiff).
  split; [done|]. destruct Ha as (Ho & Hb & Hn & _ & Hres & Hp).
  unfold validate_player_name in Hr. rewrite Ho, Hb, Hn in Hr. cbn [mbind option_bind negb] in Hr.
  rewrite Hres, bool_decide_eq_false_2 in Hr by done. congruence.
Qed.
End names.

(** ** Requests *)

Section uploads.
Context {SV : SemVer} {LC : Lowercase} {Features : Type}.
Context (extract_features : Index -> YamlFile -> str -> result failure Features).
Context (hash_iter : gmap str f64 -> list (str * f64)).
Context (find_curly_braces : str -> list str) (otlp : gmap str str).
Context `{JobIds} `{!Codecs YamlValidationParams YamlValidationResponse}.
Context (queue_error_text : WorkQueueError -> str).
Context {St : Type} `{!RedisServer St}.

Lemma run_lm_bind {A B} (f : A -> lm B) (m : lm A) (w : world St) :
  run (m ≫= f) w =
  match run m w with
  | Some (Ok a, w) => run (f a) w
  | Some (Err e, w) => Some (Err e, w)
  | None => None
  end.
Proof.
  unfold mbind, lm_bind. rewrite run_prog_bind. by destruct (run m w) as [[[a|e] w']|].
Qed.

(** A request that succeeds: its first part did, and then the rest. *)
Lemma lm_bind_Ok {A B} (f : A -> lm B) (m : lm A) (w w' : world St) b :
  run (m ≫= f) w = Some (Ok b, w') ->
  exists a w1, run m w = Some (Ok a, w1) /\ run (f a) w1 = Some (Ok b, w').
Proof.
  rewrite run_lm_bind. destruct (run m w) as [[[a|e] w1]|]; [eauto|done|done].
Qed.

Lemma run_lift {A} (r : result failure A) (w w' : world St) a :
  run (lift r) w = Some (Ok a, w') -> r = Ok a /\ w' = w.
Proof. simpl. intros [= -> ->]. done. Qed.

(** What the result for a document says. *)
Definition upload_result (room : Room) (doc : str * YamlFile)
    (r : YamlValidationResult (Features := Features)) : Prop :=
  v_document r = doc.1 /\ v_parsed r = doc.2 /\
  validate_game hash_iter (file_game doc.2) = Ok (v_game_name r) /\
  (yaml_validation (settings room) = false -> v_validation_status r = Unknown /\ v_apworlds r = []) /\
  (yaml_validation (settings room) = true -> v_validation_status r <> Unknown) /\
  (allow_invalid_yamls (settings room) = false -> v_validation_status r <> Failed) /\
  (v_validation_status r = Validated -> v_error r = None /\
     v_unsupported_games r = [] /\ v_disabled_games r = []).

Lemma validation_outcome_spec room res a status e unsupported :
  validation_outcome room res = Ok (a, status, e, unsupported) ->
  status <> Unknown /\ (allow_invalid_yamls (settings room) = false -> status <> Failed) /\
  (status = Validated -> e = None /\ unsupported = []).
Proof.
  destruct res as [l|l err|l]; simpl; [intros [= <- <- <- <-]; done| |].
  - destruct (allow_invalid_yamls (settings room)); [|done]. intros [= <- <- <- <-]. done.
  - intros [= <- <- <- <-]. done.
Qed.

Lemma upload_document_inv fuel room s im q st doc (w w' : world St) st' :
  run (upload_document extract_features hash_iter find_curly_braces otlp queue_error_text
         fuel room s im q st doc) w = Some (Ok st', w') ->
  exists n r,
    check_limit room s (own_games_nb st) = Ok tt /\
    acceptable_name find_curly_braces (file_name doc.2) (players_in_room st) (player_counter st) n /\
    own_games_nb st' = wrap_i32 (own_games_nb st + 1) /\
    players_in_room st' = {[to_lowercase n]} ∪ players_in_room st /\
    player_counter st' = count_one (player_counter st) (to_lowercase (file_name doc.2)) /\
    games st' = games st ++ [r] /\ upload_result room doc r.
Proof.
  destruct doc as [document parsed]. unfold upload_document. intros Hrun.
  apply lm_bind_Ok in Hrun as ([] & w1 & [Hlim ->]%run_lift & Hrun).
  apply lm_bind_Ok in Hrun as ([named c'] & w2 & [Hname ->]%run_lift & Hrun).
  apply lm_bind_Ok in Hrun as (n & w3 & [Hn ->]%run_lift & Hrun).
  apply lm_bind_Ok in Hrun as (g & w4 & [Hg ->]%run_lift & Hrun).
  apply lm_bind_Ok in Hrun as ([[[apworlds status] e] unsupported] & w5 & Hval & Hrun).
  apply lm_bind_Ok in Hrun as (index & w6 & [Hi ->]%run_lift & Hrun).
  apply lm_bind_Ok in Hrun as (features & w7 & [Hf ->]%run_lift & Hrun).
  simpl in Hrun. simplify_eq. cbn [own_games_nb players_in_room player_counter games].
  destruct named as [n'|]; [|done]. simpl in Hn. simplify_eq.
  unfold or_panic, ok_or in Hname. destruct (validate_player_name _ _ _ _) eqn:Ev; [|done].
  simplify_eq. apply accepted_counter in Ev as [Ha ->].
  do 2 eexists. split_and!; try done. unfold upload_result. cbn.
  unfold raised, map_err in Hg. destruct (validate_game hash_iter (file_game parsed)); [|done].
  simplify_eq. destruct (yaml_validation (settings room)).
  - apply lm_bind_Ok in Hval as (res & w8 & _ & [Ho ->]%run_lift).
    apply validation_outcome_spec in Ho as (H1 & H2 & H3). split_and!; try done.
    intros Hs. by destruct (H3 Hs) as [-> ->].
  - simpl in Hval. simplify_eq. split_and!; done.
Qed.

(** The names of accepted documents: each is computed from its template with the counter as it is
    then, they differ from each other and from those in the room, ignoring case, and none is
    reserved. *)
Definition fresh_names (players : gset str) (c : Counter) (templates ns : list str) : Prop :=
  slot_names c templates = Some (zip templates ns) /\ length ns = length templates /\
  NoDup (to_lowercase <$> ns) /\
  Forall (fun n => (to_lowercase n ∉ players) /\ slot_name_ok n /\ is_reserved_name n = false) ns.

Lemma upload_documents_inv fuel room s im q docs st (w w' : world St) st' :
  run (upload_documents extract_features hash_iter find_curly_braces otlp queue_error_text
         fuel room s im q st docs) w = Some (Ok st', w') ->
  exists ns rs,
    fresh_names (players_in_room st) (player_counter st) ((fun d => file_name d.2) <$> docs) ns /\
    games st' = games st ++ rs /\ Forall2 (upload_result room) docs rs /\
    forall i, (i < length docs)%nat ->
      check_limit room s (Nat.iter i (fun z => wrap_i32 (z + 1)) (own_games_nb st)) = Ok tt.
Proof.
  revert st w. induction docs as [|doc docs IH]; intros st w Hrun; simpl in Hrun.
  { simplify_eq. exists [], []. rewrite app_nil_r.
    split_and!; try done; [repeat constructor|]. intros i Hi. simpl in Hi. lia. }
  apply lm_bind_Ok in Hrun as (st1 & w1 & Hdoc & Hrun).
  apply upload_document_inv in Hdoc as (n & r & Hlim & Ha & Hown & Hpl & Hct & Hgs & Hr).
  apply IH in Hrun as (ns & rs & (Hns & Hlen & Hnd & Hall) & Hgames & Hres & Hlims).
  destruct Ha as (_ & _ & Hn & Hok & Hreserved & Hnew).
  exists (n :: ns), (r :: rs). split_and!.
  - unfold fresh_names. cbn [fmap list_fmap slot_names]. rewrite Hn. cbn [mbind option_bind].
    rewrite <- Hct, Hns. simpl. split_and!; [done|by rewrite Hlen| |].
    + apply NoDup_cons. split; [|done]. intros (n' & Heq & Hin)%list_elem_of_fmap.
      rewrite Forall_forall in Hall. destruct (Hall n' Hin) as [Hnin _]. rewrite Hpl in Hnin. set_solver.
    + constructor; [done|]. eapply Forall_impl; [exact Hall|]. rewrite Hpl. set_solver.
  - by rewrite Hgames, Hgs, <- app_assoc.
  - by constructor.
  - intros [|i] Hi; [done|]. rewrite Nat.iter_succ_r, <- Hown. apply Hlims. simpl in Hi. lia.
Qed.
End uploads.
