(* ===== verification/LobbyProps.v ===== *)
(** * What the lobby guarantees about the YAMLs of a room

    The theorems about uploads, player names, revalidation and the results of validation jobs. *)

From S2P Require Import Prelude Ord RustStd F64 Redis WqCore WqProg Wq.
From S2P Require Import Apwm Examples ApwmIndex LobbyNames LobbyYaml LobbyFacts.

(** Whether the releases that a YAML was validated with are still those of its room; a YAML whose
    game has no release waits for new worlds. *)
Definition still_current {SV : SemVer} (y : Yaml) (resolved_index : gmap str (World * Version))
    (new_worlds_available : bool) : Prop :=
  (yaml_apworlds y = [] /\ validation_status y = Unsupported /\ new_worlds_available = false) \/
  (yaml_apworlds y <> [] /\
   forall a v, (a, v) ∈ yaml_apworlds y -> exists w, resolved_index !! a = Some (w, v)).

(** The two rows differ in the outcome of the validation at most. *)
Definition same_yaml {SV : SemVer} (y y' : Yaml) : Prop :=
  yaml_id_ y' = yaml_id_ y /\ current_content y' = current_content y /\ game y' = game y /\
  player_name y' = player_name y /\ owner_id y' = owner_id y /\ patch y' = patch y /\
  bundle_id y' = bundle_id y /\ password y' = password y.

(** A job whose result says something about the YAML as the database has it. *)
Definition job_applies {SV : SemVer} (rows : gmap str Yaml) (room_version : str -> result error Version)
    (desc : JobDesc YamlValidationParams) (yaml_id : str) (y : Yaml) : Prop :=
  p_yaml_id (desc_params desc) = Some yaml_id /\ rows !! yaml_id = Some y /\
  (last_validation_time y <= submitted_at desc)%Z /\
  (forall v, p_ap_version (desc_params desc) = Some v -> room_version yaml_id = Ok v).

(** What is written for a resolved job. *)
Definition job_outcome (res : JobResult YamlValidationResponse)
    (written : YamlValidationStatus * option str) : Prop :=
  (res_status res = Success /\ written = (Validated, None)) \/
  (res_status res = Failure /\ written = (Failed, res_result res ≫= response_error)) \/
  (res_status res = InternalError /\ written = (Failed, Some (lit "Internal error"))).

(** ** Lemmas *)

Lemma should_revalidate_spec {SV : SemVer} y resolved_index new_worlds :
  should_revalidate_yaml y resolved_index new_worlds = false <-> still_current y resolved_index new_worlds.
Proof.
  unfold should_revalidate_yaml, still_current. destruct (yaml_apworlds y) as [|aw aws] eqn:Ea.
  - case_bool_decide as Hs; [split; [by left|]|split; [done|]]; intros [(_ & ? & ?)|[? _]]; done.
  - rewrite <- not_true_iff_false, existsb_exists. split.
    + intros Hno. right. split; [done|]. intros a v Hin.
      destruct (resolved_index !! a) as [[w v']|] eqn:El.
      * destruct (decide (v' = v)) as [->|Hne]; [by exists w|]. exfalso. apply Hno.
        exists (a, v). rewrite <- list_elem_of_In. split; [done|]. simpl. rewrite El.
        by rewrite bool_decide_eq_false_2.
      * exfalso. apply Hno. exists (a, v). rewrite <- list_elem_of_In. split; [done|]. simpl. by rewrite El.
    + intros [[? _]|[_ Hall]]; [done|]. intros ([a v] & Hin & Hb). simpl in Hb.
      apply list_elem_of_In in Hin. destruct (Hall a v Hin) as [w Hw]. rewrite Hw in Hb.
      by rewrite bool_decide_eq_true_2 in Hb.
Qed.

(** On ASCII, names do not depend on the Unicode table. *)
Lemma name_ascii {LC : Lowercase} n c :
  is_ascii n = true -> get_ap_player_name n c = get_ap_player_name (LC := ascii_lowercase) n c.
Proof. intros Hn. unfold get_ap_player_name. by rewrite to_lowercase_ascii. Qed.

Lemma slot_names_ascii {LC : Lowercase} names c :
  Forall (fun n => is_ascii n = true) names ->
  slot_names c names = slot_names (LC := ascii_lowercase) c names.
Proof.
  intros Hall. revert c. induction Hall as [|n names Hn _ IH]; intros c; simpl; [done|].
  rewrite name_ascii by done. destruct (get_ap_player_name n c) as [[t c']|]; simpl; [|done].
  by rewrite IH.
Qed.

Lemma validate_ascii {LC : Lowercase} find_curly_braces n players c :
  is_ascii n = true ->
  validate_player_name find_curly_braces n players c =
    validate_player_name (LC := ascii_lowercase) find_curly_braces n players c.
Proof.
  intros Hn. unfold validate_player_name. rewrite Hn.
  destruct (check_braces find_curly_braces n); [|done]. rewrite name_ascii by done.
  destruct (get_ap_player_name_ascii (LC := ascii_lowercase) n c Hn) as (t & -> & Ht & _).
  cbn [mbind option_bind negb]. unfold is_reserved_name. by rewrite (to_lowercase_ascii t Ht).
Qed.

Lemma callback_spec {SV : SemVer} rows rows' room_version desc res processed :
  yaml_validation_callback rows room_version desc res = Ok (processed, rows') ->
  processed = bool_decide (p_yaml_id (desc_params desc) <> None) /\
  ((exists id y status error, job_applies rows room_version desc id y /\
      job_outcome res (status, error) /\
      rows' = <[id := update_yaml_status status error (p_apworlds (desc_params desc))
                        (submitted_at desc) y]> rows) \/
   ((forall id y, ~ job_applies rows room_version desc id y) /\ rows' = rows)).
Proof.
  unfold yaml_validation_callback, job_applies.
  destruct (p_yaml_id (desc_params desc)) as [id|]; [|intros [= <- <-]; split; [done|right; naive_solver]].
  intros Hrun. cut (processed = true /\ ((exists y status error,
      (rows !! id = Some y /\ (last_validation_time y <= submitted_at desc)%Z /\
       (forall v, p_ap_version (desc_params desc) = Some v -> room_version id = Ok v)) /\
      job_outcome res (status, error) /\
      rows' = <[id := update_yaml_status status error (p_apworlds (desc_params desc))
                        (submitted_at desc) y]> rows) \/
     ((forall y, ~ (rows !! id = Some y /\ (last_validation_time y <= submitted_at desc)%Z /\
        (forall v, p_ap_version (desc_params desc) = Some v -> room_version id = Ok v))) /\
      rows' = rows))).
  { intros [-> [(y & status & error & ? & ? & ?)|[Hno ->]]]; (split; [done|]).
    - left. exists id, y, status, error. naive_solver.
    - right. split; [|done]. intros id' y (? & ?). simplify_eq. by apply (Hno y). }
  destruct (rows !! id) as [y|]; [|simplify_eq; split; [done|right; naive_solver]].
  destruct (Z.ltb_spec (submitted_at desc) (last_validation_time y)) as [Hlt|Hle].
  { simplify_eq. split; [done|]. right. split; [|done]. intros y' (? & ? & _). simplify_eq. lia. }
  apply result_bind_Ok_inv in Hrun as (outdated & Ho & Hrun).
  assert (Hout : outdated = false <->
    forall v, p_ap_version (desc_params desc) = Some v -> room_version id = Ok v).
  { destruct (p_ap_version (desc_params desc)) as [v|]; [|by simplify_eq].
    destruct (room_version id) as [rv|]; [|done]. simpl in Ho. simplify_eq.
    case_bool_decide; naive_solver. }
  destruct outdated.
  - simplify_eq. split; [done|]. right. split; [|done]. intros y' (_ & _ & Hver).
    by apply Hout in Hver.
  - apply result_bind_Ok_inv in Hrun as ([status error] & Hw & Hrun). simplify_eq.
    split; [done|]. left. exists y, status, error. split_and!; [done|done|by apply Hout| |done].
    unfold job_outcome. destruct (res_status res); simplify_eq; auto.
Qed.

Section properties.
Context {SV : SemVer} {LC : Lowercase} {Features : Type}.
Context (extract_features : Index -> YamlFile -> str -> result failure Features).
Context (read_yaml : str -> result str YamlFile).
Context (hash_iter : gmap str f64 -> list (str * f64)).
Context (find_curly_braces : str -> list str) (otlp : gmap str str).
Context `{JobIds} `{!Codecs YamlValidationParams YamlValidationResponse}.
Context (queue_error_text : WorkQueueError -> str).
Context {St : Type} `{!RedisServer St}.

Lemma queue_yaml_validation_inv y room im q (w w' : world St) y' :
  run (queue_yaml_validation read_yaml hash_iter otlp queue_error_text y room im q) w =
    Some (Ok y', w') ->
  same_yaml y y' /\ (y' = y \/ validation_status y' = Unknown \/ validation_status y' = Failed \/
                     validation_status y' = Unsupported).
Proof.
  unfold queue_yaml_validation. destruct (read_yaml (current_content y)) as [parsed|e].
  - intros Hrun. apply lm_bind_Ok in Hrun as (games & w1 & _ & Hrun). destruct games as [apworlds|unsupported].
    + apply lm_bind_Ok in Hrun as (j & w2 & _ & Hrun). simpl in Hrun. simplify_eq. by split; [|right; left].
    + case_bool_decide; [simpl in Hrun; simplify_eq; by split; [|left]|].
      apply lm_bind_Ok in Hrun as (t & w2 & _ & Hrun). simpl in Hrun. simplify_eq.
      by split; [|right; right; right].
  - intros Hrun. apply lm_bind_Ok in Hrun as (t & w2 & _ & Hrun). simpl in Hrun. simplify_eq.
    by split; [|right; right; left].
Qed.

Lemma revalidate_all_inv yamls resolved new_worlds room im q (w w' : world St) rows :
  run (revalidate_all read_yaml hash_iter otlp queue_error_text yamls resolved new_worlds room im q) w =
    Some (Ok rows, w') ->
  Forall2 (fun y y' => same_yaml y y' /\ (still_current y resolved new_worlds -> y' = y) /\
    (y' = y \/ validation_status y' = Unknown \/ validation_status y' = Failed \/
     validation_status y' = Unsupported)) yamls rows.
Proof.
  revert w rows. induction yamls as [|y yamls IH]; intros w rows Hrun; simpl in Hrun;
    [simplify_eq; constructor|].
  apply lm_bind_Ok in Hrun as (y' & w1 & Hy & Hrun).
  apply lm_bind_Ok in Hrun as (rest & w2 & Hrest & Hrun). simpl in Hrun. simplify_eq.
  constructor; [|by eapply IH].
  destruct (should_revalidate_yaml y resolved new_worlds) eqn:Es.
  - apply queue_yaml_validation_inv in Hy as [Hsame Hst]. split_and!; [done| |done].
    intros Hcur. apply should_revalidate_spec in Hcur. congruence.
  - simpl in Hy. simplify_eq. split_and!; [done|done|by left].
Qed.

(** ** Theorems *)

(** C17: If an upload is accepted, it has a result for each document, in order, with the game and the
    validation that the room asks for.  Every document gets a name of its own: at most 16 bytes of
    ASCII without space around, not reserved, and different, ignoring case, from all names of
    the room and of the upload.  A user without a bypass stays within the limit of the room. *)
Theorem accepted_uploads (fuel : nat) (yamls_in_room : list Yaml) (room : Room)
    (documents : list (str * YamlFile)) (s : Session)
    (q : WorkQueue YamlValidationParams YamlValidationResponse) (index_manager : IndexSet)
    (w w' : world St) (results : list (YamlValidationResult (Features := Features))) :
  run (parse_and_validate_yamls_for_room extract_features hash_iter find_curly_braces otlp
         queue_error_text fuel yamls_in_room room documents s q index_manager) w =
    Some (Ok results, w') ->
  Forall2 (upload_result hash_iter room) documents results /\
  (exists players counter ns, room_names yamls_in_room = Some (players, counter) /\
     fresh_names players counter ((fun d => file_name d.2) <$> documents) ns) /\
  (forall limit, yaml_limit_per_user (settings room) = Some limit -> allow_bypass room s = Ok false ->
     documents <> [] -> (0 <= own_games yamls_in_room s)%Z ->
     (own_games yamls_in_room s + Z.of_nat (length documents) < 2147483648)%Z ->
     (own_games yamls_in_room s + Z.of_nat (length documents) <= limit)%Z).
Proof.
  unfold parse_and_validate_yamls_for_room. intros Hrun.
  apply lm_bind_Ok in Hrun as ([players counter] & w1 & [Hnames ->]%run_lift & Hrun).
  apply lm_bind_Ok in Hrun as (st & w2 & Hup & Hrun). simpl in Hrun. simplify_eq.
  apply upload_documents_inv in Hup as (ns & rs & Hfresh & Hgames & Hres & Hlim).
  cbn [games players_in_room player_counter own_games_nb] in *. rewrite Hgames.
  split_and!; [done| |].
  - exists players, counter, ns. split; [|done]. unfold or_panic, ok_or in Hnames.
    destruct (room_names yamls_in_room); [|done]. congruence.
  - intros limit Hl Hb Hne Hown Hsmall.
    assert (Hiter : forall i, (i < length documents)%nat ->
      Nat.iter i (fun z => wrap_i32 (z + 1)) (own_games yamls_in_room s) =
        (own_games yamls_in_room s + Z.of_nat i)%Z).
    { intros i Hi. induction i as [|i IHi]; [simpl; lia|]. simpl. rewrite IHi by lia.
      unfold wrap_i32. lia. }
    assert (Hpos : (0 < length documents)%nat) by (destruct documents; simpl; [done|lia]).
    specialize (Hlim (length documents - 1)%nat ltac:(lia)). unfold check_limit in Hlim.
    rewrite Hl, Hb, Hiter in Hlim by lia. cbn [mbind result_bind negb] in Hlim.
    rewrite andb_true_r in Hlim. destruct (Z.leb_spec limit (own_games yamls_in_room s +
      Z.of_nat (length documents - 1))) as [Hle|Hlt]; [done|]. lia.
Qed.

(** Validating the YAMLs of a room again only touches the outcome of their validation, and only
    where it has to: a YAML keeps its row if its room still resolves every world to the release
    that it was validated with, or if its game has no release and no world is new.  The others
    end up unknown (a job is queued), unsupported or failed. *)
Theorem revalidation_exact (yamls : list Yaml) (room : Room)
    (old_resolved_index : gmap str (World * Version)) (index_manager : IndexSet) (index : Index)
    (q : WorkQueue YamlValidationParams YamlValidationResponse) (w w' : world St) (rows : list Yaml) :
  index_for index_manager (ap_version room) = Ok index ->
  run (revalidate_yamls_if_necessary read_yaml hash_iter otlp queue_error_text yamls room
         old_resolved_index index_manager q) w = Some (Ok rows, w') ->
  let resolved := (resolve_with (manifest (settings room)) index).1 in
  exists new_worlds : bool,
    (new_worlds = true <-> exists a w v, resolved !! a = Some (w, v) /\
       forall a' w' v', old_resolved_index !! a' = Some (w', v') -> Apwm.name w' <> Apwm.name w) /\
    Forall2 (fun y y' => same_yaml y y' /\
      (yaml_validation (settings room) = false \/ still_current y resolved new_worlds -> y' = y) /\
      (y' = y \/ validation_status y' = Unknown \/ validation_status y' = Failed \/
       validation_status y' = Unsupported)) yamls rows.
Proof.
  intros Hindex Hrun. cbv zeta. set (resolved := (resolve_with _ index).1).
  set (old_names := (fun e => Apwm.name e.2.1) <$> bt_iter old_resolved_index).
  exists (existsb (fun e => negb (bool_decide (Apwm.name e.2.1 ∈ old_names))) (bt_iter resolved)).
  split.
  - rewrite existsb_exists. subst old_names. split.
    + intros ([a [wd v]] & Hin & Hnew). apply list_elem_of_In, elem_of_bt_iter in Hin.
      exists a, wd, v. split; [done|]. intros a' wd' v' Hold Heq.
      apply negb_true_iff, bool_decide_eq_false in Hnew. apply Hnew. simpl. rewrite <- Heq.
      apply list_elem_of_fmap. exists (a', (wd', v')). by rewrite elem_of_bt_iter.
    + intros (a & wd & v & Hin & Hnew). exists (a, (wd, v)).
      rewrite <- list_elem_of_In, elem_of_bt_iter. split; [done|].
      apply negb_true_iff, bool_decide_eq_false. simpl.
      intros ([a' [wd' v']] & Heq & Hold%elem_of_bt_iter)%list_elem_of_fmap.
      by apply (Hnew a' wd' v').
  - unfold revalidate_yamls_if_necessary in Hrun.
    destruct (yaml_validation (settings room)); cbn [negb] in Hrun.
    + apply lm_bind_Ok in Hrun as (i & w1 & [Hi ->]%run_lift & Hrun). rewrite Hindex in Hi.
      simpl in Hi. simplify_eq. apply revalidate_all_inv in Hrun.
      eapply Forall2_impl; [exact Hrun|]. intros y y' (? & Hc & ?). split_and!; [done| |done].
      intros [?|?]; [done|by apply Hc].
    + simpl in Hrun. simplify_eq. clear. induction rows; constructor; [|done].
      split_and!; [done|done|by left].
Qed.
End properties.


(** The check of the names at upload does not see every clash.  A player who uploads a template
    with the number of the player, and another one whose name is what the template gives to the
    second player, are both accepted in this order.  The names that the players get in the end
    are computed in alphabetical order of the templates, and then both have the same. *)
Theorem upload_check_misses_clash {LC : Lowercase} (find_curly_braces : str -> list str) :
  find_curly_braces (lit "b{player}") = [lit "{player}"] ->
  exists c1 c2 m,
    validate_player_name find_curly_braces (lit "b{player}") ∅ ∅ = Some (Ok (lit "b1"), c1) /\
    validate_player_name find_curly_braces (lit "b2") {[to_lowercase (lit "b1")]} c1 =
      Some (Ok (lit "b2"), c2) /\
    compute_ap_slot_names [lit "b{player}"; lit "b2"] = Some m /\
    m !! lit "b{player}" = Some (lit "b2") /\ m !! lit "b2" = Some (lit "b2").
Proof.
  intros Hfind.
  assert (Hb1 : to_lowercase (lit "b1") = lit "b1") by (by rewrite to_lowercase_ascii).
  assert (Hb2 : to_lowercase (lit "b2") = lit "b2") by (by rewrite to_lowercase_ascii).
  assert (Hb : to_lowercase (lit "b{player}") = lit "b{player}") by (by rewrite to_lowercase_ascii).
  assert (Hsort : sorted_names [lit "b{player}"; lit "b2"] = [lit "b2"; lit "b{player}"]).
  { unfold sorted_names, sort_by. cbn [foldr insert_by]. by rewrite Hb, Hb2. }
  eexists _, _, _. split; [|split; [|split; [|split]]].
  - rewrite validate_ascii by done. unfold validate_player_name, check_braces. rewrite Hfind.
    vm_compute. reflexivity.
  - rewrite validate_ascii, Hb1 by done. vm_compute. reflexivity.
  - unfold compute_ap_slot_names. rewrite Hsort, slot_names_ascii by (by repeat constructor).
    vm_compute. reflexivity.
  - vm_compute. reflexivity.
  - vm_compute. reflexivity.
Qed.

(** ** Witnesses *)

Section witnesses.
#[local] Existing Instance example_semver.
#[local] Existing Instance ascii_lowercase.
#[local] Existing Instance example_ids.

#[local] Instance params_eq_dec : EqDecision YamlValidationParams.
Proof. solve_decision. Defined.

#[local] Program Instance params_countable : Countable YamlValidationParams :=
  inj_countable' (fun p => (p_apworlds p, p_yaml p, p_otlp_context p, p_yaml_id p, p_ap_version p))
    (fun '(a, y, o, i, v) => {| p_apworlds := a; p_yaml := y; p_otlp_context := o; p_yaml_id := i;
                                p_ap_version := v |}) _.
Next Obligation. by intros []. Qed.

#[local] Instance response_eq_dec : EqDecision YamlValidationResponse.
Proof. solve_decision. Defined.

#[local] Program Instance response_countable : Countable YamlValidationResponse :=
  inj_countable' response_error Build_YamlValidationResponse _.
Next Obligation. by intros []. Qed.

#[local] Existing Instance example_codecs.

Definition ver (n : N) : Version := n.

(** The index has one world, whose release is [v]. *)
Definition ex_world (v : Version) : World :=
  {| w_path := Path true [lit "worlds"; lit "custom.toml"]; Apwm.name := lit "Custom";
     display_name := lit "Custom"; default_url := None; default_version := Latest; home := None;
     versions := {[v := ODefault]}; disabled := false; supported := false; tags := [] |}.

Definition ex_index : Index :=
  {| i_path := Path true [lit "index.toml"]; archipelago_repo := []; archipelago_version := ver 6;
     index_homepage := []; index_dir := Path false [lit "worlds"];
     worlds := {[lit "custom" := ex_world (ver 2)]} |}.

Definition ex_set : IndexSet :=
  {| s_path := Path true [lit "index.toml"]; legacy_base := ver 6; s_bases := {[ver 6 := ex_index]};
     index_file := {| f_archipelago_repo := []; f_archipelago_version := ver 6;
                      f_index_homepage := []; f_index_dir := Path false [lit "worlds"];
                      f_bases := ∅ |};
     world_defs := ∅ |}.

(** Two games per person; YAMLs are validated. *)
Definition ex_room : Room :=
  {| room_id := lit "r";
     settings := {| room_name := lit "room"; close_date := 0; description := []; room_url := [];
       author_id := 1; yaml_validation := true; allow_unsupported := true;
       yaml_limit_per_user := Some 2%Z; yaml_limit_bypass_list := []; manifest := Manifest_new;
       show_apworlds := true; created_at := 0; updated_at := 0; allow_invalid_yamls := false;
       meta_file := []; is_bundle_room := false; locked := false |};
     from_template_id := None; ap_version := ver 6 |}.

Definition ex_session : Session :=
  {| is_admin := false; is_logged_in := true; room_creation_allowed := false; user_id := Some 2%Z;
     redirect_on_login := None; session_uuid := [] |}.

(** A text is a YAML of a game that isn't in the index, for the player of that name. *)
Definition ex_read (s : str) : result str YamlFile :=
  Ok {| file_game := GameName (lit "Other"); file_name := s |}.

Definition ex_queue : WorkQueue YamlValidationParams YamlValidationResponse :=
  match build (Ok tt) (with_default_partition (lit "main") (builder_new (lit "jobs"))) with
  | Ok q => q
  | Err _ => {| queue_key := []; claims_key := []; results_key := []; resolved_key := [];
                stats_key := []; reclaim_timeout := 0; claim_timeout := 0; result_callback := None;
                pending := {| default_key := []; partitions_key := []; partition_prefix := [];
                              default_partition := None |} |}
  end.

(** A YAML that was validated with release [v] of the world. *)
Definition ex_yaml (id : str) (v : Version) : Yaml :=
  {| yaml_id_ := id; content := lit "ann"; game := lit "Custom"; player_name := lit "ann";
     owner_id := 2; validation_status := Validated; yaml_apworlds := [(lit "custom", v)];
     last_validation_time := 10; last_error := None; patch := None; bundle_id := [];
     password := None; edited_content := None; last_edited_by := None; last_edited_by_name := None;
     last_edited_at := None |}.

Definition ex_start : world rstate := WqProg.World (RState ∅ []) 20 0 [] [].

(** The release of [a] is outdated, that of [b] isn't. *)
Definition ex_revalidated : list Yaml :=
  [update_yaml_status Unsupported (Some (lit "Unsupported apworlds: Other")) [] 20
     (ex_yaml (lit "a") (ver 1)); ex_yaml (lit "b") (ver 2)].

Definition ex_desc : JobDesc YamlValidationParams :=
  {| desc_params := {| p_apworlds := [(lit "custom", ver 2)]; p_yaml := lit "ann";
                       p_otlp_context := ∅; p_yaml_id := Some (lit "a");
                       p_ap_version := Some (ver 6) |};
     submitted_at := 20; deadline := 600; desc_partition := Some (lit "6") |}.

Definition ex_iter (m : gmap str f64) : list (str * f64) :=
  map_to_list m.
Definition ex_features : Index -> YamlFile -> str -> result failure unit := fun _ _ _ => Ok tt.
Definition ex_braces : str -> list str := fun _ => [].
Definition ex_error_text : WorkQueueError -> str := fun _ => [].

(** A YAML of a game that isn't in the index. *)
Definition ex_documents : list (str * YamlFile) :=
  [(lit "doc", {| file_game := GameName (lit "Other"); file_name := lit " bob " |})].

Lemma accepted_uploads_witness :
  exists results w', run (parse_and_validate_yamls_for_room ex_features ex_iter ex_braces ∅
      ex_error_text 1 [ex_yaml (lit "a") (ver 1)] ex_room ex_documents ex_session ex_queue ex_set)
      ex_start = Some (Ok results, w') /\
    Forall2 (upload_result ex_iter ex_room) ex_documents results.
Proof.
  do 2 eexists. split; [vm_compute; reflexivity|].
  eapply (accepted_uploads ex_features ex_iter ex_braces ∅ ex_error_text 1
    [ex_yaml (lit "a") (ver 1)] ex_room ex_documents ex_session ex_queue ex_set ex_start).
  vm_compute. reflexivity.
Defined.

Definition ex_yamls : list Yaml := [ex_yaml (lit "a") (ver 1); ex_yaml (lit "b") (ver 2)].
Definition ex_old : gmap str (World * Version) := {[lit "custom" := (ex_world (ver 1), ver 1)]}.
Definition ex_new : gmap str (World * Version) := {[lit "custom" := (ex_world (ver 2), ver 2)]}.

Lemma revalidation_exact_witness :
  exists w', run (revalidate_yamls_if_necessary ex_read ex_iter ∅ ex_error_text
      ex_yamls ex_room ex_old ex_set ex_queue) ex_start =
    Some (Ok ex_revalidated, w') /\
  exists new_worlds : bool, new_worlds = false /\
    Forall2 (fun y y' => still_current y ex_new new_worlds -> y' = y)
      ex_yamls ex_revalidated.
Proof.
  eexists. split; [vm_compute; reflexivity|].
  edestruct (revalidation_exact ex_read ex_iter ∅ ex_error_text ex_yamls ex_room
    ex_old ex_set ex_index ex_queue ex_start)
    as (new_worlds & Hnew & Hall); [vm_compute; reflexivity|vm_compute; reflexivity|].
  assert (Hres : (resolve_with (manifest (settings ex_room)) ex_index).1 = ex_new)
    by (vm_compute; reflexivity).
  rewrite Hres in Hnew, Hall. exists new_worlds. split.
  - destruct new_worlds; [|done]. destruct Hnew as [Hnew _].
    destruct Hnew as (a & wd & v & Hl & Hno); [done|]. exfalso.
    unfold ex_new in Hl. apply lookup_singleton_Some in Hl as [<- [= <- <-]].
    unfold ex_old in Hno. by eapply Hno; [apply lookup_singleton_eq|].
  - eapply Forall2_impl; [exact Hall|]. intros y y' (_ & Hc & _) Hcur. apply Hc. by right.
Defined.

Definition ex_rows : gmap str Yaml := {[lit "a" := ex_yaml (lit "a") (ver 1)]}.
Definition ex_rows' : gmap str Yaml :=
  <[lit "a" := update_yaml_status Failed None [(lit "custom", ver 2)] 20
                 (ex_yaml (lit "a") (ver 1))]> ex_rows.


Lemma upload_check_misses_clash_witness :
  exists m, compute_ap_slot_names [lit "b{player}"; lit "b2"] = Some m /\
  m !! lit "b{player}" = m !! lit "b2".
Proof.
  destruct (upload_check_misses_clash (fun _ => [lit "{player}"]) eq_refl)
    as (c1 & c2 & m & _ & _ & Hm & H1 & H2).
  exists m. split; [exact Hm|]. by rewrite H1, H2.
Defined.
End witnesses.
