(* ===== verification/LobbyBases.v ===== *)
(** * The Archipelago versions a lobby offers

    [BaseConfig] and the views of the index in [lobby/src/index_manager.rs], the selectors and
    labels of [lobby/src/views/utils.rs], and the bases that pages of options can be asked for
    ([lobby/src/views/options_gen.rs]).  The index manager's state is the index that is loaded,
    and the configuration: what keeps it on one commit is in [LobbyIndex.v]. *)

From S2P Require Import Prelude Ord RustStd F64 Apwm ApwmFacts ApwmIndex ApwmIndexFacts LobbyYaml.

(** [{:?}] of a text; what isn't printable beyond ASCII is left as it is. *)
Definition debug_char (c : char) : str :=
  if (c =? 34)%N then lit "\" ++ [34%N]
  else if (c =? 92)%N then lit "\\"
  else if (c =? 9)%N then lit "\t"
  else if (c =? 10)%N then lit "\n"
  else if (c =? 13)%N then lit "\r"
  else if (c =? 0)%N then lit "\0"
  else [c].
Definition str_debug (s : str) : str := [34%N] ++ (s ≫= debug_char) ++ [34%N].

Section bases.
Context `{SemVer}.
Implicit Types (base : Version) (index : IndexSet).

(** ** The configuration *)

(* src: lobby/src/index_manager.rs:73-81 BaseConfig *)
Record BaseConfig := {
  enabled : option (list Version);
  b_default : option Version;
}.

(* src: lobby/src/index_manager.rs:101-104 BaseConfig::parse *)
Definition parse_version (what value : str) : result error Version :=
  context (what ++ lit ": " ++ str_debug value ++ lit " isn't an Archipelago version")
    (version_parse value).

(** An empty value is the same as none. *)
(* src: lobby/src/index_manager.rs:106-124 BaseConfig::parse *)
Definition given (value : option str) : option str :=
  v ← trim <$> value; if str_eqb v [] then None else Some v.

(* src: lobby/src/index_manager.rs:109-114 BaseConfig::parse *)
Definition add_base (enabled : list Version) (piece : str) : result error (list Version) :=
  base ← parse_version (lit "AP_BASES") piece;
  Ok (if decide (base ∈ enabled) then enabled else enabled ++ [base]).

(* src: lobby/src/index_manager.rs:107-116 BaseConfig::parse *)
Definition parse_bases (ap_bases : str) : result error (list Version) :=
  try_fold add_base [] (trim <$> split_on 44 ap_bases).

(* src: lobby/src/index_manager.rs:98-132 BaseConfig::parse *)
Definition BaseConfig_parse (ap_bases ap_default_base : option str) : result error BaseConfig :=
  enabled ← match given ap_bases with
            | Some ap_bases => l ← parse_bases ap_bases; Ok (Some l)
            | None => Ok None
            end;
  b_default ← match given ap_default_base with
              | Some value => v ← parse_version (lit "AP_DEFAULT_BASE") value; Ok (Some v)
              | None => Ok None
              end;
  _ ← match enabled, b_default with
      | Some enabled, Some d =>
          if decide (d ∈ enabled) then Ok tt
          else bail (lit "AP_DEFAULT_BASE is " ++ version_to_string d ++
                     lit ", which isn't one of AP_BASES")
      | _, _ => Ok tt
      end;
  Ok {| enabled := enabled; b_default := b_default |}.

(** [env] is what each of the variables is: not there, valid UTF-8, or not. *)
(* src: lobby/src/index_manager.rs:83-94 BaseConfig::from_env *)
Definition BaseConfig_from_env (env : str -> option (option str)) : result error BaseConfig :=
  let read (what : str) :=
    match env what with
    | Some (Some value) => Ok (Some value)
    | None => Ok None
    | Some None => bail (what ++ lit " must be valid UTF-8")
    end in
  ap_bases ← read (lit "AP_BASES");
  ap_default_base ← read (lit "AP_DEFAULT_BASE");
  BaseConfig_parse ap_bases ap_default_base.

(** Newest first. *)
Definition newest_first (v1 v2 : Version) : bool := bool_decide (ord_le v2 v1).

(* src: lobby/src/index_manager.rs:134-147 BaseConfig::offered *)
Definition offered (c : BaseConfig) index : list Version :=
  sort_by newest_first
    match enabled c with
    | Some enabled => List.filter (fun base => bool_decide (is_Some (get index base))) enabled
    | None => [legacy_base index]
    end.

(* src: lobby/src/index_manager.rs:149-160 BaseConfig::default_base *)
Definition default_base (c : BaseConfig) index : Version :=
  let offered := offered c index in
  let newest := default (legacy_base index) (head offered) in
  match b_default c with
  | Some d => if decide (d ∈ offered) then d else newest
  | None => newest
  end.

(** The result, and what is logged. *)
Inductive note := NotDescribed (base : Version) | NothingOffered.

(* src: lobby/src/index_manager.rs:162-185 BaseConfig::check *)
Definition check (c : BaseConfig) index : result error (list note) :=
  _ ← match enabled c, b_default c with
      | None, Some d =>
          if decide (d <> legacy_base index) then
            bail (lit "AP_DEFAULT_BASE is " ++ version_to_string d ++
                  lit ", but without AP_BASES only Archipelago " ++
                  version_to_string (legacy_base index) ++ lit " is offered")
          else Ok tt
      | _, _ => Ok tt
      end;
  Ok ((NotDescribed <$>
        List.filter (fun base => negb (bool_decide (is_Some (get index base))))
          (default [] (enabled c))) ++
      if decide (offered c index = []) then [NothingOffered] else []).

(* src: lobby/src/index_manager.rs:187-207 BaseConfig::describe *)
Definition describe (c : BaseConfig) index : str :=
  let d := default_base c index in
  let one base :=
    if decide (base = d) then version_to_string base ++ lit " (default)"
    else version_to_string base in
  let offered := one <$> offered c index in
  if decide (offered = []) then lit "offering no Archipelago version"
  else lit "offering Archipelago " ++ join (lit ", ") offered.

(** ** What the manager answers *)

Section manager.
Context (c : BaseConfig) (index : IndexSet).

(* src: lobby/src/index_manager.rs:402-404 IndexManager::offers *)
Definition offers base : bool := bool_decide (base ∈ offered c index).

(* src: lobby/src/index_manager.rs:412-420 IndexManager::base_or_default *)
Definition base_or_default (wanted : option Version) : Version :=
  match wanted with
  | Some wanted => if decide (wanted ∈ offered c index) then wanted else default_base c index
  | None => default_base c index
  end.

(** [None] is the panic of [IndexSet::legacy]. *)
(* src: lobby/src/index_manager.rs:422-432 IndexManager::default_index *)
Definition default_index : option Index :=
  match get index (default_base c index) with Some i => Some i | None => legacy index end.

(** Archives: the entries so far, in order, a directory's without content.  The [zip] crate
    refuses what it will, and makes the file's bytes. *)
Record Zip := {
  zip_add : list (str * option bytes) -> str -> result error unit;
  zip_finish : list (str * option bytes) -> result error bytes;
}.

(** [open_file] is [File::open] with [read_to_end]. *)
(* src: lobby/src/index_manager.rs:475-496 IndexManager::download_apworlds *)
Definition add_apworld (zip : Zip) (open_file : path -> result error bytes) (apworlds_path : path)
    (entries : list (str * option bytes)) (e : str * (World * Version)) :
    result failure (list (str * option bytes)) :=
  let '(world_name, (world, version)) := e in
  origin ← or_panic (get_version world version);
  if is_supported origin then Ok entries
  else
    let file_path := get_world_local_path apworlds_path world_name version in
    let file := lit "custom_worlds/" ++ world_name ++ lit ".apworld" in
    _ ← raised (zip_add zip entries file);
    content ← raised (context (lit "Can't open " ++ path_debug file_path) (open_file file_path));
    Ok (entries ++ [(file, Some content)]).

(* src: lobby/src/index_manager.rs:458-506 IndexManager::download_apworlds *)
Definition download_apworlds (zip : Zip) (open_file : path -> result error bytes)
    (apworlds_path : path) base (m : Manifest) : result failure bytes :=
  let entries := [(lit "custom_worlds", None)] in
  _ ← raised (zip_add zip [] (lit "custom_worlds"));
  i ← raised (index_for index base);
  let '(ws, resolve_errors) := resolve_with m i in
  if decide (resolve_errors <> []) then raise (lit "Error while resolving manifest")
  else
    entries ← try_fold (add_apworld zip open_file apworlds_path) entries (bt_iter ws);
    raised (zip_finish zip entries).

(** ** Pages *)

(* src: lobby/src/views/options_gen.rs:306-322 requested_base *)
Definition requested_base (base : option str) : result error Version :=
  match base with
  | None => Ok (default_base c index)
  | Some base =>
      v ← map_err (fun _ => [str_debug base ++ lit " isn't an Archipelago version"])
            (version_parse base);
      if negb (offers v) then
        bail (lit "This lobby doesn't offer Archipelago " ++ version_to_string v)
      else Ok v
  end.

(* src: lobby/src/views/options_gen.rs:338-347 base_query *)
Definition base_query base : str :=
  if decide (base = default_base c index) then []
  else lit "?base=" ++ replace (lit "+") (lit "%2B") (version_to_string base).
End manager.

(* src: lobby/src/views/utils.rs:9-14 BaseOption *)
Record BaseOption := { o_value : str; o_label : str; o_selected : bool }.

(* src: lobby/src/views/utils.rs:16-41 base_options *)
Definition base_options (offered : list Version) (selected : option Version) : list BaseOption :=
  let options := (fun base =>
    {| o_value := version_to_string base;
       o_label := lit "Archipelago " ++ version_to_string base;
       o_selected := bool_decide (Some base = selected) |}) <$> offered in
  match selected with
  | Some s =>
      if decide (s ∈ offered) then options
      else options ++ [{| o_value := version_to_string s;
                          o_label := lit "Archipelago " ++ version_to_string s ++
                                     lit " (no longer offered)";
                          o_selected := true |}]
  | None => options
  end.

(* src: lobby/src/views/options_gen.rs:324-336 selectable_bases *)
Definition selectable_bases (c : BaseConfig) index base : list BaseOption :=
  let offered := offered c index in
  if (length offered <? 2)%nat then [] else base_options offered (Some base).

(* src: lobby/src/views/utils.rs:43-50 BaseChip *)
Record BaseChip := { chip_label : str; standing : str; chip_title : str }.

(* src: lobby/src/views/utils.rs:52-76 base_chip *)
Definition base_chip (room_base default_base : Version) : BaseChip :=
  let here := lit "This room is on Archipelago " ++ version_to_string room_base in
  let '(standing, title) :=
    if decide (room_base = default_base) then (lit "current", here ++ lit " (default).")
    else if decide (ord_le room_base default_base) then
      (lit "behind", here ++ lit ". New rooms are on " ++ version_to_string default_base ++
                     lit ", which is newer.")
    else (lit "ahead", here ++ lit ". New rooms are on " ++ version_to_string default_base ++
                       lit ", which is older.") in
  {| chip_label := lit "AP " ++ version_to_string room_base; standing := standing;
     chip_title := title |}.
End bases.

(** ** Facts about the bases on offer

    Lemmas on [LobbyBases.v]: what parsing the configuration accepts, the order and the members
    of what is offered, and that every base the manager hands out is one the index describes. *)

Section facts.
Context `{SemVer}.
Implicit Types (base : Version) (index : IndexSet) (c : BaseConfig).

(** ** Parsing *)

(** The bases of a list, each where it is first. *)
Definition keep_new (acc : list Version) (v : Version) : list Version :=
  if decide (v ∈ acc) then acc else acc ++ [v].
Definition first_ones (l : list Version) : list Version := fold_left keep_new l [].

Lemma first_ones_inv (l acc : list Version) :
  NoDup acc ->
  NoDup (fold_left keep_new l acc) /\
  forall v, v ∈ fold_left keep_new l acc <-> v ∈ acc \/ v ∈ l.
Proof.
  revert acc. induction l as [|v l IH]; intros acc Hnd; simpl.
  - split; [done|]. set_solver.
  - unfold keep_new at 2 4. case_decide as Hv.
    + destruct (IH acc Hnd) as [Hn Hi]. split; [done|]. intros v'. rewrite Hi. set_solver.
    + destruct (IH (acc ++ [v])) as [Hn Hi].
      { apply NoDup_app. split_and!; [done|set_solver|apply NoDup_singleton]. }
      split; [done|]. intros v'. rewrite Hi. set_solver.
Qed.

Lemma first_ones_NoDup l : NoDup (first_ones l).
Proof. apply (first_ones_inv l []), NoDup_nil_2. Qed.
Lemma elem_of_first_ones l v : v ∈ first_ones l <-> v ∈ l.
Proof. unfold first_ones. rewrite (proj2 (first_ones_inv l [] NoDup_nil_2)). set_solver. Qed.

Lemma add_base_Ok acc p v : version_parse p = Ok v -> add_base acc p = Ok (keep_new acc v).
Proof. intros Hp. unfold add_base, parse_version, context. by rewrite Hp. Qed.
Lemma add_base_Err acc p e : version_parse p = Err e -> exists e', add_base acc p = Err e'.
Proof. intros Hp. unfold add_base, parse_version, context. rewrite Hp. by eexists. Qed.

(** A list of bases is read piece by piece: all of them, or the error of the first that is no
    version. *)
Lemma parse_bases_Ok s l :
  parse_bases s = Ok l <->
  exists vs, Forall2 (fun piece v => version_parse (trim piece) = Ok v) (split_on 44 s) vs /\
    l = first_ones vs.
Proof.
  unfold parse_bases, first_ones. generalize (split_on 44 s) as pieces. generalize (@nil Version).
  intros acc pieces. revert acc. induction pieces as [|p pieces IH]; intros acc;
    [|change (trim <$> p :: pieces) with (trim p :: (trim <$> pieces)); cbn [try_fold]].
  - split; [intros [= ->]; by exists []|]. intros (vs & ->%Forall2_nil_inv_l & ->). done.
  - destruct (version_parse (trim p)) as [v|e] eqn:Hp.
    2: { destruct (add_base_Err acc (trim p) e Hp) as [e' ->]. rewrite result_bind_Err. split; [done|].
         intros (vs & Hvs & _).
         apply Forall2_cons_inv_l in Hvs as (v' & vs' & Hv & _ & _). congruence. }
    rewrite (add_base_Ok acc (trim p) v Hp), result_bind_Ok, IH. split.
    + intros (vs & Hvs & ->). exists (v :: vs). by split; [constructor|].
    + intros (vs & Hvs & ->). apply Forall2_cons_inv_l in Hvs as (v' & vs' & Hv & Hvs & ->).
      exists vs'. split; [done|]. rewrite Hp in Hv. by injection Hv as ->.
Qed.

Definition config_ok c : Prop :=
  match enabled c with
  | Some l => NoDup l /\ forall d, b_default c = Some d -> d ∈ l
  | None => True
  end.

Lemma parse_config_ok ap_bases ap_default_base c :
  BaseConfig_parse ap_bases ap_default_base = Ok c -> config_ok c.
Proof.
  unfold BaseConfig_parse. intros Hp. apply result_bind_Ok_inv in Hp as (en & Hen & Hp).
  apply result_bind_Ok_inv in Hp as (d & _ & ([] & Hd & [= <-])%result_bind_Ok_inv).
  unfold config_ok. simpl. destruct en as [l|]; [|done].
  destruct (given ap_bases) as [s|]; [|done].
  apply result_bind_Ok_inv in Hen as (l' & (vs & _ & ->)%parse_bases_Ok & [= <-]).
  split; [apply first_ones_NoDup|]. intros d' ->. by case_decide.
Qed.

(** ** What is offered *)

Definition wants c index base : Prop :=
  match enabled c with
  | Some l => base ∈ l /\ is_Some (get index base)
  | None => base = legacy_base index
  end.

Lemma elem_of_offered c index base : base ∈ offered c index <-> wants c index base.
Proof.
  unfold offered, wants. rewrite sort_by_perm. destruct (enabled c) as [l|].
  - by rewrite elem_of_filter_bool, bool_decide_eq_true.
  - apply list_elem_of_singleton.
Qed.

Lemma newest_first_total v1 v2 : newest_first v1 v2 = true \/ newest_first v2 v1 = true.
Proof. unfold newest_first. rewrite !bool_decide_eq_true. apply or_comm, ord_total. Qed.

Lemma offered_sorted c index :
  config_ok c -> StronglySorted (fun v1 v2 => ord_lt v2 v1) (offered c index).
Proof.
  intros Hc.
  assert (NoDup (offered c index)) as Hnd.
  { unfold offered, config_ok in *. rewrite sort_by_perm. destruct (enabled c) as [l|].
    - rewrite <- (list_fmap_id (List.filter _ l)). apply NoDup_fmap_filter.
      rewrite list_fmap_id. by destruct Hc.
    - apply NoDup_singleton. }
  assert (StronglySorted (fun v1 v2 => newest_first v1 v2 = true) (offered c index)) as Hs.
  { apply Sorted_StronglySorted; [|apply sort_by_sorted, newest_first_total].
    intros v1 v2 v3. unfold newest_first. rewrite !bool_decide_eq_true.
    intros H12 H23. by etrans. }
  revert Hnd. induction Hs as [|v l Hs IH Hall]; [constructor|].
  intros [Hv Hnd]%NoDup_cons. constructor; [by apply IH|].
  rewrite Forall_forall in Hall |- *. intros v' Hv'. specialize (Hall v' Hv').
  unfold newest_first in Hall. apply bool_decide_eq_true in Hall. split; [done|]. by intros ->.
Qed.

(** The newest of what is offered. *)
Lemma head_newest c index v :
  config_ok c -> head (offered c index) = Some v ->
  v ∈ offered c index /\ forall v', v' ∈ offered c index -> ord_le v' v.
Proof.
  intros Hc. pose proof (offered_sorted c index Hc) as Hs.
  destruct Hs as [|v0 l Hs Hall]; [done|]. intros [= ->]. split; [by left|].
  intros v' [->|Hv']%elem_of_cons; [done|]. rewrite Forall_forall in Hall.
  by apply (Hall v' Hv').
Qed.

Lemma head_none c index : head (offered c index) = None -> offered c index = [].
Proof. by destruct (offered c index). Qed.

Lemma default_base_cases c index :
  (offered c index = [] /\ default_base c index = legacy_base index) \/
  default_base c index ∈ offered c index.
Proof.
  unfold default_base. destruct (offered c index) as [|v l] eqn:E.
  - left. split; [done|]. destruct (b_default c); [|done]. case_decide as Hd; [by apply elem_of_nil in Hd|done].
  - right. destruct (b_default c); [case_decide|]; first [done|by left].
Qed.

(** ** Described bases *)

(** An index that loaded describes its own version ([IndexSet_new_bases]). *)
Definition loaded_ok index : Prop := is_Some (get index (legacy_base index)).

Lemma IndexSet_new_loaded_ok `{!Outside} index_path parsed read_dir index :
  IndexSet_new index_path parsed read_dir = Ok index -> loaded_ok index.
Proof.
  intros (_ & Hdom & Hleg)%IndexSet_new_bases. apply Hdom. rewrite Hleg.
  apply elem_of_base_versions. by left.
Qed.

Lemma offered_described c index base :
  loaded_ok index -> base ∈ offered c index -> is_Some (get index base).
Proof.
  intros Hl. rewrite elem_of_offered. unfold wants. destruct (enabled c); [by intros [_ ?]|].
  by intros ->.
Qed.

Lemma default_described c index : loaded_ok index -> is_Some (get index (default_base c index)).
Proof.
  intros Hl. destruct (default_base_cases c index) as [[_ ->]|Hin]; [done|].
  by eapply offered_described.
Qed.

(** ** Archives *)

(** What [add_apworld] adds for a world, when nothing fails. *)
Definition packed (open_file : path -> result error bytes) apworlds_path (e : str * (World * Version))
    : list (str * option bytes) :=
  match get_version e.2.1 e.2.2 with
  | Some o =>
      if is_supported o then []
      else [(lit "custom_worlds/" ++ e.1 ++ lit ".apworld",
             ok (open_file (get_world_local_path apworlds_path e.1 e.2.2)))]
  | None => []
  end.

Lemma add_apworld_Ok zip open_file apworlds_path entries e entries' :
  add_apworld zip open_file apworlds_path entries e = Ok entries' ->
  entries' = entries ++ packed open_file apworlds_path e.
Proof.
  destruct e as [n [w v]]. unfold add_apworld, packed. simpl. intros Ha.
  apply result_bind_Ok_inv in Ha as (o & Ho & Ha). unfold or_panic, ok_or in Ho.
  destruct (get_version w v) as [o'|]; [|done]. injection Ho as ->.
  destruct (is_supported o); [simplify_eq; by rewrite app_nil_r|].
  apply result_bind_Ok_inv in Ha as ([] & _ & (content & Hf & [= <-])%result_bind_Ok_inv).
  unfold raised, context in Hf. destruct (open_file _); simpl in Hf; [|done]. by simplify_eq.
Qed.

Lemma try_add_apworlds zip open_file apworlds_path l entries entries' :
  try_fold (add_apworld zip open_file apworlds_path) entries l = Ok entries' ->
  entries' = entries ++ (l ≫= packed open_file apworlds_path).
Proof.
  revert entries. induction l as [|e l IH]; intros entries Hf; cbn [try_fold] in Hf.
  - simplify_eq. simpl. by rewrite app_nil_r.
  - apply result_bind_Ok_inv in Hf as (es & ->%add_apworld_Ok & ->%IH). csimpl.
    by rewrite (assoc_L (++)).
Qed.

(** No world of a resolved manifest makes the archive panic. *)
Lemma add_apworld_no_panic zip open_file apworlds_path entries e :
  is_Some (get_version e.2.1 e.2.2) ->
  add_apworld zip open_file apworlds_path entries e <> Err Panicked.
Proof.
  destruct e as [n [w v]]. simpl. intros [o Ho]. unfold add_apworld, or_panic. rewrite Ho. simpl.
  destruct (is_supported o); [done|].
  destruct (zip_add zip entries _); simpl; [|done].
  unfold context. by destruct (open_file _).
Qed.

Lemma try_add_no_panic zip open_file apworlds_path l entries :
  (forall e, e ∈ l -> is_Some (get_version e.2.1 e.2.2)) ->
  try_fold (add_apworld zip open_file apworlds_path) entries l <> Err Panicked.
Proof.
  revert entries. induction l as [|e l IH]; intros entries Hl; cbn [try_fold]; [done|].
  pose proof (add_apworld_no_panic zip open_file apworlds_path entries e (Hl e ltac:(by left))) as Hne.
  destruct (add_apworld _ _ _ entries e) as [es|err]; simpl; [|congruence].
  apply IH. intros e' He'. apply Hl. by right.
Qed.

Lemma resolved_has_version (m : Manifest) (i : Index) n w v :
  (resolve_with m i).1 !! n = Some (w, v) -> is_Some (get_version w v).
Proof.
  rewrite resolve_with_lookup. intros (w0 & _ & Hr)%bind_Some. unfold resolves in Hr. simpl in Hr.
  case_decide; [done|]. rewrite resolve_wanted in Hr.
  apply fmap_Some in Hr as (v0 & Hw & [= <- <-]). by apply wanted_available in Hw.
Qed.

(** ** Selectors *)

Lemma base_options_labels (l : list Version) selected :
  o_value <$> base_options l selected =
  (version_to_string <$> l) ++
  match selected with Some s => if decide (s ∈ l) then [] else [version_to_string s] | None => [] end.
Proof.
  unfold base_options.
  destruct selected as [s|]; [case_decide|]; rewrite ?fmap_app, <- list_fmap_compose, ?app_nil_r; done.
Qed.

(** Exactly one entry is selected. *)
Lemma base_options_selected (l : list Version) s :
  NoDup l -> length (List.filter o_selected (base_options l (Some s))) = 1%nat.
Proof.
  intros Hnd. unfold base_options.
  assert (forall l, s ∉ l -> List.filter o_selected ((fun base =>
    {| o_value := version_to_string base; o_label := lit "Archipelago " ++ version_to_string base;
       o_selected := bool_decide (Some base = Some s) |}) <$> l) = []) as Hno.
  { clear. induction l as [|v l IH]; intros Hs; csimpl; [done|].
    rewrite bool_decide_eq_false_2 by set_solver. apply IH. set_solver. }
  case_decide as Hin.
  - induction Hnd as [|v l Hv Hnd IH]; [set_solver|]. csimpl.
    destruct (decide (v = s)) as [->|Hne].
    + rewrite bool_decide_eq_true_2 by done. simpl. by rewrite Hno.
    + rewrite bool_decide_eq_false_2 by congruence. apply IH. set_solver.
  - rewrite List.filter_app, length_app, Hno by done. done.
Qed.

(** ** Queries *)

(** Replacing one character. *)
Lemma replace_single (c : char) (r s : str) :
  replace [c] r s = s ≫= (fun d => if decide (d = c) then r else [d]).
Proof.
  unfold replace. assert (forall fuel s, (length s <= fuel)%nat ->
    replace_fuel fuel [c] r s = s ≫= (fun d => if decide (d = c) then r else [d])) as Hf;
    [|by apply Hf].
  clear s. induction fuel as [|fuel IH]; intros [|d s] Hl; simpl in *; try done; [lia|].
  rewrite andb_true_r. csimpl. destruct (N.eqb_spec c d) as [->|Hne].
  - rewrite decide_True by done. f_equal. rewrite drop_0. apply IH. lia.
  - rewrite decide_False by congruence. simpl. f_equal. apply IH. lia.
Qed.

(** The characters of versions, which a query carries as they are, but for [+]. *)
Definition version_char (c : char) : bool :=
  is_ascii_alphanumeric c || (c =? 43)%N || (c =? 45)%N || (c =? 46)%N.
End facts.
