(* ===== verification/LobbyIndex.v ===== *)
(** * How the lobby's processes stay on one index

    [IndexManager] of [lobby/src/index_manager.rs]: each lobby process loads the index from a
    commit of its repository; a process that loads a new commit announces it through the server,
    and the others load what was announced.  The repository and its checkouts are [git2]'s
    ([Git]), the files of a commit are read as [ApwmIndex.v] says.  [weather] is what an operation
    meets outside the process.  [cluster] is a number of processes with one server. *)

From S2P Require Import Prelude Ord RustStd F64 Redis Apwm ApwmIndex LobbyYaml LobbyBases.

(** ** Git

    Names of commits, the commits that are in a commit's history (itself among them), and
    [graph_descendant_of]. *)
Class Git := {
  Oid : Type;
  Oid_eq_dec :: EqDecision Oid;
  Oid_countable :: Countable Oid;
  oid_from_str : str -> option Oid;
  oid_to_string : Oid -> str;
  oid_roundtrip : forall o, oid_from_str (oid_to_string o) = Some o;
  history : Oid -> gset Oid;
  history_self : forall o, o ∈ history o;
  graph_descendant_of : Oid -> Oid -> bool;
}.

(** A checkout: the commits it has, what the last fetch brought, and where it is. *)
Record Checkout `{Git} := {
  objects : gset Oid;
  FETCH_HEAD : option Oid;
  at_commit : option Oid;
}.

Section manager.
Context `{SemVer} `{Git}.

(** The files that a commit has: what [index.toml] and its directory deserialize to. *)
Context (index_toml : path) (files : Oid -> Outside) (parsed : Oid -> result error IndexFile)
  (read_dir : Oid -> path -> result error (list (path * result error WorldDef))).

Definition read_index (o : Oid) : result error IndexSet :=
  @IndexSet_new _ (files o) index_toml (parsed o) (read_dir o).

(** What an operation meets outside: the head of the branch, or why it can't be fetched; whether
    the checkout can be reset and the apworlds downloaded; whether the server answers, and what
    becomes of an announcement. *)
Inductive delivery := Delivered | Undelivered | Unconfirmed.
Record weather := {
  remote : result error Oid;
  reset : result error unit;
  downloaded : result error unit;
  answers : bool;
  delivers : delivery;
}.

(* src: lobby/src/index_manager.rs:584-587 fetch_and_reset *)
Definition find_wanted (objects : gset Oid) (wanted : option str) : option Oid :=
  wanted ← wanted; oid ← oid_from_str wanted; if decide (oid ∈ objects) then Some oid else None.

(* src: lobby/src/index_manager.rs:571-596 fetch_and_reset *)
Definition fetch_and_reset (w : weather) (co : Checkout) (wanted : option str) :
    result error (str * bool) * Checkout :=
  match remote w with
  | Err e => (Err e, co)
  | Ok branch =>
      let co := {| objects := objects co ∪ history branch; FETCH_HEAD := Some branch;
                   at_commit := at_commit co |} in
      let wanted_commit := find_wanted (objects co) wanted in
      let found_wanted := bool_decide (is_Some wanted_commit) in
      let commit := match wanted_commit with Some c => Some c | None => FETCH_HEAD co end in
      match commit, reset w with
      | Some commit, Ok _ =>
          (Ok (oid_to_string commit, found_wanted),
           {| objects := objects co; FETCH_HEAD := FETCH_HEAD co; at_commit := Some commit |})
      | None, _ => (bail (lit "FETCH_HEAD"), co)
      | _, Err e => (Err e, co)
      end
  end.

(* src: lobby/src/index_manager.rs:598-609 is_ancestor *)
Definition is_ancestor (co : Checkout) (ancestor commit : str) : bool :=
  match oid_from_str ancestor, oid_from_str commit with
  | Some ancestor, Some commit =>
      if decide (ancestor ∈ objects co /\ commit ∈ objects co) then
        graph_descendant_of commit ancestor
      else false
  | _, _ => false
  end.

(** [IndexSet::new] on the checkout. *)
Definition index_of (co : Checkout) : result error IndexSet :=
  match at_commit co with Some o => read_index o | None => bail (lit "index.toml") end.

(* src: lobby/src/index_manager.rs:210-241 IndexManager *)
Record IndexManager := {
  loaded : IndexSet;
  loaded_commit : str;
  checkout : Checkout;
  base_config : BaseConfig;
  seen_announcement : option str;
}.

Definition with_checkout (m : IndexManager) (co : Checkout) : IndexManager :=
  {| loaded := loaded m; loaded_commit := loaded_commit m; checkout := co;
     base_config := base_config m; seen_announcement := seen_announcement m |}.
Definition with_loaded (m : IndexManager) (i : IndexSet) (commit : str) : IndexManager :=
  {| loaded := i; loaded_commit := commit; checkout := checkout m;
     base_config := base_config m; seen_announcement := seen_announcement m |}.

(* src: lobby/src/index_manager.rs:313-315 IndexManager::mark_seen *)
Definition mark_seen (m : IndexManager) (commit : str) : IndexManager :=
  {| loaded := loaded m; loaded_commit := loaded_commit m; checkout := checkout m;
     base_config := base_config m; seen_announcement := Some commit |}.

(* src: lobby/src/index_manager.rs:244-273 IndexManager::new *)
Definition IndexManager_new (w : weather) (co : Checkout) (bases : BaseConfig) :
    result error IndexManager :=
  let '(r, co) := fetch_and_reset w co None in
  '(commit, _) ← r;
  index ← index_of co;
  _ ← check bases index;
  Ok {| loaded := index; loaded_commit := commit; checkout := co; base_config := bases;
        seen_announcement := None |}.

(* src: lobby/src/index_manager.rs:282-301 IndexManager::load *)
Definition load (w : weather) (m : IndexManager) (wanted : option str) :
    result error str * IndexManager :=
  let '(r, co) := fetch_and_reset w (checkout m) wanted in
  let m := with_checkout m co in
  match r with
  | Err e => (Err e, m)
  | Ok (commit, _) =>
      match index_of co, downloaded w with
      | Ok new_index, Ok _ => (Ok commit, with_loaded m new_index commit)
      | Err e, _ => (Err e, m)
      | _, Err e => (Err e, m)
      end
  end.

(* src: lobby/src/index_manager.rs:275-280 IndexManager::update *)
Definition update (w : weather) (m : IndexManager) : result error str * IndexManager := load w m None.

(* src: lobby/src/index_manager.rs:28-30 ANNOUNCED_INDEX *)
Definition ANNOUNCED_INDEX : str := lit "index:announced".

Definition no_connection : error := [lit "connection"].

(* src: lobby/src/index_manager.rs:307-311 IndexManager::announced *)
Definition announced (w : weather) (s : rstate) : result error (option str) :=
  if negb (answers w) then Err no_connection
  else match (redis_doc (GET ANNOUNCED_INDEX) s).1 with
       | Ok o => Ok o
       | Err _ => bail (lit "type")
       end.

(** The commands of the pipeline, one after the other. *)
Definition publish_commit (commit : str) (s : rstate) : rstate :=
  (redis_doc (PUBLISH ANNOUNCED_INDEX commit) (redis_doc (SET ANNOUNCED_INDEX commit) s).2).2.

(* src: lobby/src/index_manager.rs:317-333 IndexManager::announce *)
Definition announce (w : weather) (m : IndexManager) (s : rstate) :
    result error unit * IndexManager * rstate :=
  let commit := loaded_commit m in
  let m := mark_seen m commit in
  match delivers w with
  | Delivered => (Ok tt, m, publish_commit commit s)
  | Undelivered => (Err no_connection, m, s)
  | Unconfirmed => (Err no_connection, m, publish_commit commit s)
  end.

(* src: lobby/src/index_manager.rs:335-364 IndexManager::follow_once *)
Definition follow_once (w : weather) (m : IndexManager) (s : rstate) :
    result error bool * IndexManager * rstate :=
  match announced w s with
  | Err e => (Err e, m, s)
  | Ok None => (Ok false, m, s)
  | Ok (Some announced) =>
      if decide (seen_announcement m = Some announced) then (Ok false, m, s)
      else if decide (loaded_commit m = announced) then (Ok false, mark_seen m announced, s)
      else
        let '(r, m) := load w m (Some announced) in
        match r with
        | Err e => (Err e, m, s)
        | Ok commit =>
            if decide (commit = announced) then (Ok true, mark_seen m announced, s)
            else
              let '(r, m, s) := announce w m s in
              match r with
              | Err e => (Err e, m, s)
              | Ok _ => (Ok true, m, s)
              end
        end
  end.

(* src: lobby/src/index_manager.rs:366-380 IndexManager::join_other_processes *)
Definition join_other_processes (w : weather) (m : IndexManager) (s : rstate) :
    result error unit * IndexManager * rstate :=
  let commit := loaded_commit m in
  match announced w s with
  | Err e => (Err e, m, s)
  | Ok None => announce w m s
  | Ok (Some announced) =>
      if decide (announced = commit) then (Ok tt, mark_seen m announced, s)
      else if negb (is_ancestor (checkout m) announced commit) then
        let '(r, m, s) := follow_once w m s in
        match r with Err e => (Err e, m, s) | Ok _ => (Ok tt, m, s) end
      else announce w m s
  end.

(** The part of a request for a refresh that concerns the index: what was loaded is announced,
    and an announcement that fails is only reported. *)
(* src: lobby/src/views/apworlds.rs:145-150 refresh_worlds *)
Definition refresh_index (w : weather) (m : IndexManager) (s : rstate) :
    result error unit * IndexManager * rstate :=
  let '(r, m) := update w m in
  match r with
  | Err e => (Err e, m, s)
  | Ok _ => announce w m s
  end.

(** What a process does when it starts.  [skip] is [SKIP_APWORLDS_UPDATE]. *)
(* src: lobby/src/lib.rs:306-317 main *)
Definition start (w : weather) (co : Checkout) (bases : BaseConfig) (skip : bool) (s : rstate) :
    result error unit * option IndexManager * rstate :=
  match IndexManager_new w co bases with
  | Err e => (Err e, None, s)
  | Ok m =>
      let '(r, m) := if skip then (Ok [], m) else update w m in
      match r with
      | Err e => (Err e, None, s)
      | Ok _ => let '(r, m, s) := join_other_processes w m s in (r, Some m, s)
      end
  end.

(** ** Several processes *)

Record cluster := Cluster { server : rstate; processes : gmap nat IndexManager }.

Definition set_process (c : cluster) (p : nat) (m : IndexManager) (s : rstate) : cluster :=
  Cluster s (<[p := m]> (processes c)).

(** A process starts (again, with the checkout that is on its disk), refreshes the index, or
    looks at what was announced.  Another thing happens to the server's other keys. *)
Inductive cluster_step : cluster -> cluster -> Prop :=
| cs_start c p w co bases skip r m s :
    start w co bases skip (server c) = (r, Some m, s) ->
    cluster_step c (set_process c p m s)
| cs_refresh c p m w r m' s :
    processes c !! p = Some m -> refresh_index w m (server c) = (r, m', s) ->
    cluster_step c (set_process c p m' s)
| cs_follow c p m w r m' s :
    processes c !! p = Some m -> follow_once w m (server c) = (r, m', s) ->
    cluster_step c (set_process c p m' s)
| cs_stop c p :
    cluster_step c (Cluster (server c) (delete p (processes c)))
| cs_other c s :
    data s !! ANNOUNCED_INDEX = data (server c) !! ANNOUNCED_INDEX ->
    cluster_step c (Cluster s (processes c)).

(** One look of a process at the announcement, in fair weather: everything answers, and the
    branch is at [branch]. *)
Definition fair (branch : Oid) : weather :=
  {| remote := Ok branch; reset := Ok tt; downloaded := Ok tt; answers := true;
     delivers := Delivered |}.

Definition look (branch : Oid) (c : cluster) (p : nat) : cluster :=
  match processes c !! p with
  | None => c
  | Some m => let '(_, m, s) := follow_once (fair branch) m (server c) in set_process c p m s
  end.

(** The processes look one after the other. *)
Definition looks (branch : Oid) : list nat -> cluster -> cluster := fold_left (look branch).
End manager.
