(* ===== verification/LobbyIndexFacts.v ===== *)
(** * Facts about the processes of the lobby

    Lemmas on [LobbyIndex.v]: what loading a commit does to a process, the invariant of a cluster
    ([cluster_ok]), and what looks at an announcement do to it. *)

From S2P Require Import Prelude Ord RustStd F64 Redis Apwm ApwmIndex ApwmIndexFacts.
From S2P Require Import LobbyYaml LobbyBases LobbyIndex.

Section facts.
Context `{SemVer} `{Git}.
Context (index_toml : path) (files : Oid -> Outside) (parsed : Oid -> result error IndexFile)
  (read_dir : Oid -> path -> result error (list (path * result error WorldDef))).

Local Abbreviation read_index := (read_index index_toml files parsed read_dir).
Local Abbreviation load := (load index_toml files parsed read_dir).
Local Abbreviation follow_once := (follow_once index_toml files parsed read_dir).
Local Abbreviation join_other_processes := (join_other_processes index_toml files parsed read_dir).
Local Abbreviation refresh_index := (refresh_index index_toml files parsed read_dir).
Local Abbreviation cluster_step := (cluster_step index_toml files parsed read_dir).
Local Abbreviation look := (look index_toml files parsed read_dir).
Local Abbreviation looks := (looks index_toml files parsed read_dir).
Implicit Types (m : IndexManager) (c : cluster) (o branch : Oid) (s : rstate).

#[export] Instance oid_to_string_inj : Inj (=) (=) oid_to_string.
Proof. intros o1 o2 Heq%(f_equal oid_from_str). rewrite !oid_roundtrip in Heq. congruence. Qed.

(** ** One process *)

(** It serves the index of the commit it says it is at, which its checkout has; and the last
    announcement it acted on is that commit. *)
Definition serves m o : Prop :=
  loaded_commit m = oid_to_string o /\ read_index o = Ok (loaded m) /\ o ∈ objects (checkout m).
Definition process_ok m : Prop :=
  (exists o, serves m o) /\
  (seen_announcement m = None \/ seen_announcement m = Some (loaded_commit m)).

Lemma serves_loaded_ok m o : serves m o -> loaded_ok (loaded m).
Proof. intros (_ & Hr & _). by eapply (@IndexSet_new_loaded_ok _ (files o)). Qed.

(** The commit that a checkout goes to when [wanted] is asked for. *)
Definition target (co : Checkout) branch (wanted : option str) : Oid :=
  default branch (find_wanted (objects co ∪ history branch) wanted).

Lemma target_elem co branch wanted : target co branch wanted ∈ objects co ∪ history branch.
Proof.
  assert (branch ∈ objects co ∪ history branch) as Hb.
  { apply elem_of_union. right. apply history_self. }
  unfold target, find_wanted. destruct wanted as [x|]; simpl; [|done].
  destruct (oid_from_str x); simpl; [|done]. by case_decide.
Qed.

Lemma fetch_and_reset_cases w co wanted r co' :
  fetch_and_reset w co wanted = (r, co') ->
  objects co ⊆ objects co' /\
  forall commit b, r = Ok (commit, b) -> exists branch, remote w = Ok branch /\
    commit = oid_to_string (target co branch wanted) /\
    at_commit co' = Some (target co branch wanted) /\
    objects co' = objects co ∪ history branch.
Proof.
  unfold fetch_and_reset, target. destruct (remote w) as [branch|e]; simpl; cycle 1.
  { intros [= <- <-]. split; [done|]. intros ? ? [=]. }
  cbn [objects FETCH_HEAD at_commit].
  destruct (find_wanted (objects co ∪ history branch) wanted) as [oid|] eqn:Ef;
    destruct (reset w) as [[]|e]; intros [= <- <-]; cbn [objects];
    (split; [set_solver|]); intros commit b [= <- <-]; exists branch; rewrite Ef; by split_and!.
Qed.

Lemma load_cases w m wanted r m' :
  load w m wanted = (r, m') ->
  seen_announcement m' = seen_announcement m /\
  (forall o, serves m o -> (forall commit, r <> Ok commit) -> serves m' o) /\
  (forall commit, r = Ok commit -> exists branch o, remote w = Ok branch /\
    o = target (checkout m) branch wanted /\ commit = oid_to_string o /\ serves m' o) /\
  base_config m' = base_config m.
Proof.
  unfold LobbyIndex.load. destruct (fetch_and_reset w (checkout m) wanted) as [r0 co] eqn:E.
  apply fetch_and_reset_cases in E as [Hsub Hok].
  assert (forall o, serves m o -> serves (with_checkout m co) o) as Hkeep.
  { intros o (Hc & Hr & Ho). split_and!; [done..|]. simpl. set_solver. }
  destruct r0 as [[commit b]|e]; cycle 1.
  { intros [= <- <-]. split_and!; [done|auto| |done]. by intros ? [=]. }
  destruct (Hok commit b eq_refl) as (branch & Hbr & -> & Hat & Hobj).
  unfold index_of. rewrite Hat.
  destruct (LobbyIndex.read_index _ _ _ _ (target (checkout m) branch wanted)) as [i|e] eqn:Hi;
    [destruct (downloaded w) as [[]|e]|]; intros [= <- <-]; (split_and!; [done|..|done]).
  - intros o _ Hno. by destruct (Hno _ eq_refl).
  - intros commit [= <-]. eexists branch, _. split_and!; [done..|]. split_and!; [done|exact Hi|].
    simpl. rewrite Hobj. apply target_elem.
  - auto.
  - by intros ? [=].
  - auto.
  - by intros ? [=].
Qed.

Lemma load_objects w m wanted r m' :
  load w m wanted = (r, m') -> objects (checkout m) ⊆ objects (checkout m').
Proof.
  unfold LobbyIndex.load. destruct (fetch_and_reset w (checkout m) wanted) as [r0 co] eqn:E.
  apply fetch_and_reset_cases in E as [Hsub _].
  destruct r0 as [[commit b]|e]; [|by intros [= _ <-]].
  destruct (index_of _ _ _ _ co), (downloaded w); by intros [= _ <-].
Qed.

Lemma load_ok w m wanted r m' :
  load w m wanted = (r, m') -> (exists o, serves m o) -> exists o, serves m' o.
Proof.
  intros (_ & Herr & Hok & _)%load_cases [o Ho]. destruct r as [commit|e].
  - destruct (Hok _ eq_refl) as (branch & o' & _ & _ & _ & Ho'). eauto.
  - exists o. by apply Herr.
Qed.

Lemma mark_seen_ok m : (exists o, serves m o) -> process_ok (mark_seen m (loaded_commit m)).
Proof. intros Ho. split; [exact Ho|by right]. Qed.

(** ** Operations *)

(** What an announcement is, if there is one: the text of a commit. *)
Definition announced_is s (a : option Oid) : Prop :=
  data s !! ANNOUNCED_INDEX = (fun o => RString (oid_to_string o) None) <$> a.
Definition server_ok s : Prop := exists a, announced_is s a.

Lemma announced_read w s (a : option Oid) :
  announced_is s a -> answers w = true -> announced w s = Ok (oid_to_string <$> a).
Proof.
  intros Ha Hw. unfold announced. rewrite Hw. simpl. unfold read_string. rewrite Ha.
  by destruct a.
Qed.

Lemma publish_announced o s : announced_is (publish_commit (oid_to_string o) s) (Some o).
Proof. unfold announced_is, publish_commit. simpl. by rewrite lookup_insert_eq. Qed.

Definition op_ok (m : IndexManager) s : Prop := process_ok m /\ server_ok s.

Lemma announce_ok w m s r m' s' :
  announce w m s = (r, m', s') -> (exists o, serves m o) -> server_ok s -> op_ok m' s'.
Proof.
  intros Ha [o Ho] Hs. unfold announce in Ha.
  assert (op_ok (mark_seen m (loaded_commit m)) (publish_commit (loaded_commit m) s)) as Hpub.
  { split; [apply mark_seen_ok; by exists o|]. destruct Ho as (-> & _).
    exists (Some o). apply publish_announced. }
  destruct (delivers w); injection Ha as <- <- <-; [done| |done].
  split; [apply mark_seen_ok; by exists o|done].
Qed.

Lemma follow_ok w m s r m' s' :
  follow_once w m s = (r, m', s') -> op_ok m s -> op_ok m' s'.
Proof.
  intros Hf [[Ho Hseen] Hs]. unfold LobbyIndex.follow_once in Hf.
  destruct (announced w s) as [[a|]|e]; [|by injection Hf as <- <- <-..].
  case_decide; [by injection Hf as <- <- <-|].
  case_decide as Heq; [injection Hf as <- <- <-; split; [|done]; rewrite <- Heq; by apply mark_seen_ok|].
  destruct (LobbyIndex.load _ _ _ _ w m (Some a)) as [[commit|e] m1] eqn:El.
  - pose proof (load_ok _ _ _ _ _ El Ho) as Ho1.
    apply load_cases in El as (_ & _ & Hok & _).
    destruct (Hok _ eq_refl) as (branch & o & _ & _ & Hc & Hsv).
    case_decide as Hca.
    + injection Hf as <- <- <-. split; [|done]. rewrite <- Hca, Hc. destruct Hsv as [<- _].
      by apply mark_seen_ok.
    + destruct (announce w m1 s) as [[r1 m2] s2] eqn:Ea.
      apply (announce_ok _ _ _ _ _ _ Ea Ho1) in Hs.
      by destruct r1; injection Hf as <- <- <-.
  - pose proof (load_ok _ _ _ _ _ El Ho) as Ho1. injection Hf as <- <- <-. split; [|done].
    split; [done|].
    destruct Ho as [o Hsv]. pose proof (load_cases _ _ _ _ _ El) as (Hse & Herr & _ & _).
    pose proof (Herr o Hsv ltac:(done)) as [Hl1 _]. destruct Hsv as [Hl _].
    rewrite Hse, Hl1, <- Hl. done.
Qed.

Lemma join_ok w m s r m' s' :
  join_other_processes w m s = (r, m', s') -> op_ok m s -> op_ok m' s'.
Proof.
  intros Hj [[Ho Hseen] Hs]. unfold LobbyIndex.join_other_processes in Hj.
  destruct (announced w s) as [[a|]|e]; [|by eapply announce_ok|by injection Hj as <- <- <-].
  case_decide as Heq; [injection Hj as <- <- <-; split; [|done]; rewrite Heq; by apply mark_seen_ok|].
  destruct (negb _); [|by eapply announce_ok].
  destruct (LobbyIndex.follow_once _ _ _ _ w m s) as [[r1 m1] s1] eqn:E.
  apply follow_ok in E; [|done]. by destruct r1; injection Hj as <- <- <-.
Qed.

Lemma refresh_ok w m s r m' s' :
  refresh_index w m s = (r, m', s') -> op_ok m s -> op_ok m' s'.
Proof.
  intros Hr [[Ho Hseen] Hs]. unfold LobbyIndex.refresh_index, update in Hr.
  destruct (LobbyIndex.load _ _ _ _ w m None) as [[commit|e] m1] eqn:El.
  - by eapply announce_ok; [exact Hr|eapply load_ok|].
  - injection Hr as <- <- <-. split; [|done]. split; [by eapply load_ok|].
    destruct Ho as [o Hsv]. pose proof (load_cases _ _ _ _ _ El) as (Hse & Herr & _ & _).
    pose proof (Herr o Hsv ltac:(done)) as [Hl1 _]. destruct Hsv as [Hl _].
    rewrite Hse, Hl1, <- Hl. done.
Qed.

Lemma new_ok w co bases m : IndexManager_new index_toml files parsed read_dir w co bases = Ok m ->
  (exists o, serves m o) /\ seen_announcement m = None.
Proof.
  unfold IndexManager_new. destruct (fetch_and_reset w co None) as [r co'] eqn:E.
  apply fetch_and_reset_cases in E as [_ Hok]. intros Hn.
  apply result_bind_Ok_inv in Hn as ([commit b] & -> & Hn).
  destruct (Hok _ _ eq_refl) as (branch & _ & -> & Hat & Hobj).
  apply result_bind_Ok_inv in Hn as (i & Hi & (notes & _ & [= <-])%result_bind_Ok_inv).
  unfold index_of in Hi. rewrite Hat in Hi. split; [|done].
  exists (target co branch None). split_and!; [done|exact Hi|]. simpl. rewrite Hobj.
  apply target_elem.
Qed.

Lemma start_ok w co bases skip s r m s' :
  start index_toml files parsed read_dir w co bases skip s = (r, Some m, s') -> server_ok s ->
  op_ok m s'.
Proof.
  unfold start. intros Hst Hs.
  destruct (IndexManager_new _ _ _ _ w co bases) as [m0|e] eqn:En; [|done].
  apply new_ok in En as [Ho Hse].
  destruct (if skip then _ else _) as [[x|e] m1] eqn:Eu; [|done].
  destruct (LobbyIndex.join_other_processes _ _ _ _ w m1 s) as [[r2 m2] s2] eqn:Ej.
  injection Hst as _ <- <-. eapply join_ok; [exact Ej|]. split; [|done].
  destruct skip; [injection Eu as _ <-; split; [done|by left]|].
  pose proof (load_ok _ _ _ _ _ Eu Ho) as Ho1. apply load_cases in Eu as (Hse1 & _).
  split; [done|]. left. by rewrite Hse1.
Qed.

(** ** Clusters *)

Definition cluster_ok c : Prop :=
  server_ok (server c) /\ forall p m, processes c !! p = Some m -> process_ok m.

Lemma set_process_ok c p m s : cluster_ok c -> op_ok m s -> cluster_ok (set_process c p m s).
Proof.
  intros [_ Hc] [Hm Hs]. split; [done|].
  intros p' m' Hp. simpl in Hp. apply lookup_insert_Some in Hp as [[_ <-]|[_ Hp]]; [done|by eapply Hc].
Qed.

Lemma cluster_step_ok c c' : cluster_step c c' -> cluster_ok c -> cluster_ok c'.
Proof.
  intros Hstep [Hs Hc].
  destruct Hstep as [c p w co bases skip r m s Hst|c p m w r m' s Hp Hr|c p m w r m' s Hp Hf|c p|c s Hd].
  - apply set_process_ok; [done|]. by eapply start_ok.
  - apply set_process_ok; [done|]. eapply refresh_ok; [exact Hr|]. split; [by eapply Hc|done].
  - apply set_process_ok; [done|]. eapply follow_ok; [exact Hf|]. split; [by eapply Hc|done].
  - split; [done|]. intros p' m Hp. simpl in Hp. apply lookup_delete_Some in Hp as [_ Hp]. by eapply Hc.
  - split; [|done]. destruct Hs as [a Ha]. exists a. unfold announced_is in *. simpl. by rewrite Hd.
Qed.

Lemma cluster_reach_ok c c' : rtc cluster_step c c' -> cluster_ok c -> cluster_ok c'.
Proof. induction 1 as [|x y z Hxy _ IH]; [done|]. intros Hx. by eapply IH, cluster_step_ok. Qed.

Lemma no_processes_ok c : server_ok (server c) -> processes c = ∅ -> cluster_ok c.
Proof. intros Hs Hnone. split; [done|]. intros p m Hp. by rewrite Hnone, lookup_empty in Hp. Qed.

(** ** Looks *)

Section looks.
Context (branch : Oid).

(** The process has the announced commit. *)
Definition agrees c p : Prop := forall m o,
  processes c !! p = Some m -> announced_is (server c) (Some o) -> loaded_commit m = oid_to_string o.

(** The announced commit and the branch's can be read. *)
Definition readable o : Prop := exists i, read_index o = Ok i.

Lemma load_fair m wanted :
  readable (target (checkout m) branch wanted) ->
  exists m', load (fair branch) m wanted = (Ok (oid_to_string (target (checkout m) branch wanted)), m') /\
    serves m' (target (checkout m) branch wanted).
Proof.
  intros [i Hi]. destruct (load (fair branch) m wanted) as [r m'] eqn:El.
  pose proof (load_cases _ _ _ _ _ El) as (_ & _ & Hok & _).
  assert (exists commit, r = Ok commit) as [commit ->].
  { revert El. unfold LobbyIndex.load.
    destruct (fetch_and_reset (fair branch) (checkout m) wanted) as [r0 co] eqn:E.
    pose proof (fetch_and_reset_cases _ _ _ _ _ E) as [_ Hf].
    assert (exists x, r0 = Ok x) as [[commit b] ->].
    { revert E. unfold fetch_and_reset. cbn -[oid_from_str].
      destruct (find_wanted _ wanted); simpl; intros [= <- _]; by eexists. }
    destruct (Hf _ _ eq_refl) as (b' & [= <-] & _ & Hat & _).
    unfold index_of. rewrite Hat, Hi. simpl. intros [= <- _]. by eexists. }
  destruct (Hok _ eq_refl) as (b & o & [= <-] & -> & -> & Hsv). by exists m'.
Qed.

(** A look leaves the process on what is announced after it, and announces something else only
    when the process can't find the announced commit: the head of the branch. *)
Lemma follow_fair m s (a : Oid) :
  process_ok m -> announced_is s (Some a) -> readable a -> readable branch ->
  exists r m' s' o, follow_once (fair branch) m s = (r, m', s') /\ announced_is s' (Some o) /\
    loaded_commit m' = oid_to_string o /\
    ((o = a /\ s' = s) \/ (o = branch /\ a <> branch /\ loaded_commit m <> oid_to_string a)).
Proof.
  intros [[o0 Ho] Hseen] Ha Hra Hrb. unfold LobbyIndex.follow_once.
  rewrite (announced_read (fair branch) _ _ Ha eq_refl). cbn [fmap option_fmap option_map].
  case_decide as Hse.
  { exists (Ok false), m, s, a. split_and!; [done..| |by left].
    destruct Hseen as [Hn|Hn]; congruence. }
  case_decide as Hco.
  { exists (Ok false), (mark_seen m (oid_to_string a)), s, a. split_and!; [done..|by left]. }
  set (t := target (checkout m) branch (Some (oid_to_string a))).
  assert (t = a \/ t = branch) as Ht.
  { unfold t, target, find_wanted. simpl. rewrite oid_roundtrip. simpl. case_decide; simpl; auto. }
  assert (readable t) as Hrt by (by destruct Ht as [-> | ->]).
  destruct (load_fair m (Some (oid_to_string a)) Hrt) as (m1 & El & Hsv). fold t in El, Hsv.
  rewrite El. case_decide as Hta.
  - apply (inj oid_to_string) in Hta. destruct Hsv as [Hl _].
    exists (Ok true), (mark_seen m1 (oid_to_string a)), s, a. split_and!; [done..| |by left].
    simpl. by rewrite Hl, Hta.
  - assert (t = branch) as Htb by (destruct Ht as [->|]; [done|done]).
    destruct Hsv as [Hl _]. simpl. rewrite Hl, Htb.
    eexists _, _, _, branch. split_and!; [done|apply publish_announced|simpl; by rewrite Hl, Htb|].
    right. split_and!; [done| |done]. intros ->. by rewrite Htb in Hta.
Qed.


Context (Hbranch : readable branch).

Lemma announced_inj s o1 o2 : announced_is s (Some o1) -> announced_is s (Some o2) -> o1 = o2.
Proof. unfold announced_is. intros -> Heq. by injection Heq as Heq%(inj oid_to_string). Qed.

(** One look: the cluster stays as it should be, the process that looked has what is announced,
    and what is announced stays or becomes the head of the branch. *)
Lemma look_spec c p a :
  cluster_ok c -> announced_is (server c) (Some a) -> readable a ->
  let c' := look branch c p in
  cluster_ok c' /\ (forall p', is_Some (processes c' !! p') <-> is_Some (processes c !! p')) /\
  agrees c' p /\
  ((server c' = server c /\ forall p', agrees c p' -> agrees c' p') \/
   (announced_is (server c') (Some branch) /\ a <> branch /\ ~ agrees c p)).
Proof.
  intros Hc Ha Hra. unfold LobbyIndex.look. destruct (processes c !! p) as [m|] eqn:Hp; cycle 1.
  { split_and!; [done|done|intros m o; congruence|by left]. }
  destruct (follow_fair m (server c) a (proj2 Hc p m Hp) Ha Hra Hbranch)
    as (r & m' & s' & o & Hf & Ho & Hl & Hcase).
  rewrite Hf. split_and!.
  - apply set_process_ok; [done|]. eapply follow_ok; [exact Hf|]. split; [by eapply Hc|by apply Hc].
  - intros p'. simpl. rewrite lookup_insert_is_Some. destruct (decide (p = p')) as [->|]; [|naive_solver].
    rewrite Hp. naive_solver.
  - intros m1 o1 Hm1 Ho1. simpl in Hm1, Ho1. rewrite lookup_insert_eq in Hm1. injection Hm1 as <-.
    by rewrite (announced_inj _ _ _ Ho1 Ho).
  - destruct Hcase as [[-> ->]|(-> & Hne & Hm)].
    + left. split; [done|]. intros p' Hag m1 o1 Hm1 Ho1. simpl in Hm1, Ho1.
      apply lookup_insert_Some in Hm1 as [[-> <-]|[_ Hm1]]; [|by eapply Hag].
      by rewrite (announced_inj _ _ _ Ho1 Ha).
    + right. split_and!; [done|done|]. intros Hag. by apply Hm, (Hag m a).
Qed.

Lemma looks_spec c ps a :
  cluster_ok c -> announced_is (server c) (Some a) -> readable a ->
  let c' := looks branch ps c in
  cluster_ok c' /\ (forall p, is_Some (processes c' !! p) <-> is_Some (processes c !! p)) /\
  ((server c' = server c /\ forall p, p ∈ ps \/ agrees c p -> agrees c' p) \/
   (announced_is (server c') (Some branch) /\ a <> branch /\ exists p, p ∈ ps /\ ~ agrees c p)).
Proof.
  revert c a. induction ps as [|p ps IH]; intros c a Hc Ha Hra; simpl.
  { split_and!; [done|done|]. left. split; [done|]. intros p [Hp|?]; [by apply elem_of_nil in Hp|done]. }
  destruct (look_spec c p a Hc Ha Hra) as (Hc1 & Hd1 & Hp1 & Hcase).
  assert (exists a1, announced_is (server (look branch c p)) (Some a1) /\ readable a1 /\
    (a1 = a \/ a1 = branch)) as (a1 & Ha1 & Hra1 & Haa).
  { destruct Hcase as [[Hs _]|(Hb & _)]; [exists a; rewrite Hs; auto|exists branch; auto]. }
  destruct (IH _ a1 Hc1 Ha1 Hra1) as (Hc2 & Hd2 & Hcase2).
  fold (looks branch ps (look branch c p)) in *.
  split_and!; [done|intros p'; by rewrite Hd2|].
  destruct Hcase as [[Hs Hag]|(Hb & Hne & Hnag)], Hcase2 as [[Hs2 Hag2]|(Hb2 & Hne2 & p2 & Hin2 & Hn2)].
  - left. split; [by rewrite Hs2|]. intros p' [[->|Hin]%elem_of_cons|Hp']; apply Hag2; auto.
  - right. rewrite Hs in Ha1. rewrite (announced_inj _ _ _ Ha1 Ha) in Hne2.
    split_and!; [done|done|]. exists p2. split; [by right|]. intros Hp2. by apply Hn2, Hag.
  - right. rewrite <- Hs2 in Hb. split_and!; [done|done|]. exists p. split; [by left|done].
  - right. split_and!; [done|done|]. exists p. split; [by left|done].
Qed.

Definition covers (ps : list nat) c : Prop := forall p, is_Some (processes c !! p) -> p ∈ ps.

Lemma covered_agree c c' ps :
  covers ps c -> (forall p, is_Some (processes c' !! p) <-> is_Some (processes c !! p)) ->
  (forall p, p ∈ ps \/ agrees c p -> agrees c' p) -> forall p, agrees c' p.
Proof.
  intros Hcov Hd Hag p m o Hm Ho. eapply (Hag p); [left|done|done].
  apply Hcov, Hd. by eexists.
Qed.

(** When every process has looked twice, all have what is announced. *)
Lemma looks_converge c ps1 ps2 a :
  cluster_ok c -> announced_is (server c) (Some a) -> readable a ->
  covers ps1 c -> covers ps2 c ->
  let c' := looks branch (ps1 ++ ps2) c in
  cluster_ok c' /\ (forall p, agrees c' p) /\
  (announced_is (server c') (Some a) \/ announced_is (server c') (Some branch)).
Proof.
  intros Hc Ha Hra Hcov1 Hcov2. unfold LobbyIndex.looks. rewrite fold_left_app.
  fold (looks branch ps1 c). set (c1 := looks branch ps1 c). fold (looks branch ps2 c1).
  destruct (looks_spec c ps1 a Hc Ha Hra) as (Hc1 & Hd1 & Hcase1). fold c1 in Hc1, Hd1, Hcase1.
  assert (covers ps2 c1) as Hcov2' by (intros p Hp; by apply Hcov2, Hd1).
  destruct Hcase1 as [[Hs1 Hag1]|(Hb1 & Hne1 & _)].
  - pose proof (covered_agree c c1 ps1 Hcov1 Hd1 Hag1) as Hall. rewrite <- Hs1 in Ha.
    destruct (looks_spec c1 ps2 a Hc1 Ha Hra) as (Hc2 & Hd2 & [[Hs2 Hag2]|(_ & _ & p & _ & Hn)]).
    + split_and!; [done|intros p; apply Hag2; by right|left; by rewrite Hs2].
    + by destruct Hn.
  - destruct (looks_spec c1 ps2 branch Hc1 Hb1 Hbranch) as (Hc2 & Hd2 & [[Hs2 Hag2]|(_ & ? & _)]); [|done].
    split_and!; [done| |right; by rewrite Hs2].
    by apply (covered_agree c1 _ ps2 Hcov2' Hd2).
Qed.

(** From there on, looks change nothing but what the processes have seen. *)
Lemma looks_stable c ps a :
  cluster_ok c -> announced_is (server c) (Some a) -> readable a -> (forall p, agrees c p) ->
  server (looks branch ps c) = server c /\ forall p, agrees (looks branch ps c) p.
Proof.
  intros Hc Ha Hra Hag.
  destruct (looks_spec c ps a Hc Ha Hra) as (_ & _ & [[Hs H']|(_ & _ & p & _ & Hn)]).
  - split; [done|]. intros p. apply H'. by right.
  - by destruct Hn.
Qed.
End looks.

(** ** Announcements that are not delivered *)

Lemma target_known co branch o :
  o ∈ objects co ∪ history branch -> target co branch (Some (oid_to_string o)) = o.
Proof.
  intros Ho. unfold target, find_wanted. simpl. rewrite oid_roundtrip. simpl. by rewrite decide_True.
Qed.

Definition unheard (branch : Oid) : weather :=
  {| remote := Ok branch; reset := Ok tt; downloaded := Ok tt; answers := true;
     delivers := Undelivered |}.

Lemma load_weather w w' m wanted :
  remote w = remote w' -> reset w = reset w' -> downloaded w = downloaded w' ->
  load w m wanted = load w' m wanted.
Proof. intros H1 H2 H3. unfold LobbyIndex.load, fetch_and_reset. by rewrite H1, H2, H3. Qed.

Lemma undelivered_refresh m s a branch :
  process_ok m -> announced_is s (Some a) -> loaded_commit m = oid_to_string a ->
  readable a -> readable branch -> a <> branch ->
  exists e m1, refresh_index (unheard branch) m s = (Err e, m1, s) /\
    loaded_commit m1 = oid_to_string branch /\
    exists m2, follow_once (fair branch) m1 s = (Ok true, m2, s) /\
      loaded_commit m2 = oid_to_string a.
Proof.
  intros [[o (Hl & Hr & Ho)] _] Ha Hma Hra Hrb Hne.
  unfold LobbyIndex.refresh_index, update.
  rewrite (load_weather _ (fair branch)) by done.
  destruct (load_fair branch m None) as (m1 & El & Hsv); [done|].
  change (target (checkout m) branch None) with branch in El, Hsv.
  rewrite El. simpl. eexists _, _. split; [reflexivity|].
  destruct Hsv as (Hl1 & Hr1 & Ho1). split; [done|].
  unfold LobbyIndex.follow_once. rewrite (announced_read (fair branch) _ _ Ha eq_refl).
  cbn [fmap option_fmap option_map mark_seen seen_announcement loaded_commit]. rewrite Hl1.
  assert (oid_to_string branch <> oid_to_string a) as Htext.
  { intros Heq. apply (inj oid_to_string) in Heq. by apply Hne. }
  rewrite decide_False by congruence. rewrite decide_False by (simpl; congruence).
  assert (a ∈ objects (checkout m1)) as Hin.
  { pose proof (load_objects (fair branch) m None _ _ El) as Hsub.
    rewrite Hma in Hl. apply (inj oid_to_string) in Hl. subst o. set_solver. }
  set (m1' := mark_seen m1 (oid_to_string branch)).
  destruct (load_fair branch m1' (Some (oid_to_string a))) as (m2 & El2 & Hl2 & _).
  { rewrite target_known; [done|]. simpl. set_solver. }
  rewrite (target_known (checkout m1') branch a) in El2, Hl2 by (simpl; set_solver).
  rewrite El2. rewrite decide_True by done. eexists. split; [reflexivity|]. done.
Qed.
End facts.
