(* ===== verification/LobbyIndexProps.v ===== *)
(** * What the lobby's index manager guarantees

    The properties of [LobbyBases.v] and [LobbyIndex.v], and their witnesses. *)

From S2P Require Import Prelude Ord RustStd F64 Redis Apwm ApwmFacts ApwmIndex ApwmIndexFacts.
From S2P Require Import LobbyYaml LobbyBases LobbyIndex LobbyIndexFacts Examples.

(** ** Bases *)

Section bases.
Context `{SemVer} `{Outside}.
Implicit Types (base : Version) (index : IndexSet) (c : BaseConfig).

(** A configuration that was read offers the bases it enables that the index describes (the
    index's own when it enables none), newest first and each once; the default base is the
    configured one when that is on offer, and otherwise the newest, so that it is on offer
    whenever something is. *)
Theorem offers_exactly_the_enabled ap_bases ap_default_base c index :
  BaseConfig_parse ap_bases ap_default_base = Ok c ->
  (forall base, base ∈ offered c index <-> wants c index base) /\
  StronglySorted (fun v1 v2 => ord_lt v2 v1) (offered c index) /\
  (forall d, b_default c = Some d -> d ∈ offered c index -> default_base c index = d) /\
  ((forall d, b_default c = Some d -> d ∉ offered c index) ->
    (offered c index = [] /\ default_base c index = legacy_base index) \/
    (default_base c index ∈ offered c index /\
     forall v, v ∈ offered c index -> ord_le v (default_base c index))).
Proof.
  intros Hc%parse_config_ok. split_and!.
  - intros base. apply elem_of_offered.
  - by apply offered_sorted.
  - intros d Hd Hin. unfold default_base. rewrite Hd. by rewrite decide_True.
  - intros Hno. unfold default_base.
    assert (match b_default c with
            | Some d => if decide (d ∈ offered c index) then d
                        else default (legacy_base index) (head (offered c index))
            | None => default (legacy_base index) (head (offered c index))
            end = default (legacy_base index) (head (offered c index))) as ->.
    { destruct (b_default c) as [d|]; [|done]. rewrite decide_False; [done|by apply Hno]. }
    destruct (head (offered c index)) as [v|] eqn:Eh; simpl.
    + right. by apply head_newest.
    + left. split; [by apply head_none|done].
Qed.

(** Whatever the configuration, every base that the manager hands out (what is offered, the
    default, a preference made good, the base a page was asked for) is one that a loaded index
    describes, and [default_index] is that base's view: it never panics. *)
Theorem bases_handed_out_are_described index_path parsed read_dir index c wanted asked :
  IndexSet_new index_path parsed read_dir = Ok index ->
  (forall base, base ∈ offered c index -> is_Ok (index_for index base)) /\
  is_Ok (index_for index (base_or_default c index wanted)) /\
  (forall base, requested_base c index asked = Ok base -> is_Ok (index_for index base)) /\
  exists i, default_index c index = Some i /\ archipelago_version i = default_base c index.
Proof.
  intros Hn. pose proof (IndexSet_new_loaded_ok _ _ _ _ Hn) as Hl.
  assert (forall base, is_Some (get index base) -> is_Ok (index_for index base)) as Hfor.
  { intros base [i Hi]. unfold index_for. rewrite Hi. by exists i. }
  pose proof (default_described c index Hl) as Hd.
  assert (forall base, base ∈ offered c index -> is_Ok (index_for index base)) as Hoff.
  { intros base Hb. by eapply Hfor, offered_described. }
  split_and!.
  - done.
  - unfold base_or_default. destruct wanted as [w|]; [case_decide|]; auto.
  - intros base. unfold requested_base. destruct asked as [s|]; [|intros [= <-]; auto].
    destruct (version_parse s) as [v|e]; simpl; [|done].
    unfold offers. case_bool_decide; simpl; [intros [= <-]; auto|done].
  - unfold default_index. destruct Hd as [i Hi]. rewrite Hi. exists i. split; [done|].
    destruct (IndexSet_new_bases _ _ _ _ Hn) as (Hview & _).
    by eapply view_base_version, Hview.
Qed.

(** The archive of a manifest's apworlds has exactly the resolved releases that don't come with
    Archipelago, each as the file that was downloaded, in the order of their names, after the
    directory; making it never panics; and a manifest that doesn't resolve gives no archive. *)
Theorem archive_has_the_resolved_releases c index zip open_file apworlds_path base (m : Manifest) i :
  get index base = Some i ->
  let ws := bt_iter (resolve_with m i).1 in
  let r := download_apworlds index zip open_file apworlds_path base m in
  r <> Err Panicked /\
  ((resolve_with m i).2 <> [] -> is_Err r) /\
  (forall b, r = Ok b ->
    zip_finish zip ((lit "custom_worlds", None) :: (ws ≫= packed open_file apworlds_path)) = Ok b /\
    (resolve_with m i).2 = []).
Proof.
  intros Hi. unfold download_apworlds, index_for. rewrite Hi. cbn [raised map_err].
  destruct (zip_add zip [] _) as [[]|e]; cbn [raised map_err]; cycle 1.
  { split_and!; [done|intros _; by eexists|done]. }
  rewrite !result_bind_Ok. destruct (resolve_with m i) as [ws errs] eqn:Er. cbn [fst snd].
  case_decide as Herr.
  { split_and!; [done|intros _; by eexists|done]. }
  pose proof (try_add_no_panic zip open_file apworlds_path (bt_iter ws) [(lit "custom_worlds", None)]) as Hnp.
  assert (errs = []) as -> by (destruct errs; [done|by destruct Herr]).
  destruct (try_fold _ _ (bt_iter ws)) as [entries|err] eqn:Ef; cycle 1.
  { split_and!; [|done|done]. rewrite result_bind_Err. intros [= ->]. apply Hnp; [|done].
    intros [n [w v]] Hin%elem_of_bt_iter. simpl. eapply (resolved_has_version m i n).
    by rewrite Er. }
  apply try_add_apworlds in Ef as ->. rewrite result_bind_Ok. simpl app.
  destruct (zip_finish zip _) as [b|e] eqn:Ez; cbn [raised map_err]; split_and!; try done.
  intros b' [= <-]. done.
Qed.

(** A page's address asks for the base it was made for: where an address ends with a base, the
    page reads it back, and where it doesn't, the page's base is the default.  [query_value] is
    the value of [base] in a query, decoded: other characters of versions stand for themselves. *)
Theorem page_address_roundtrip c index base (query_value : str -> option str) :
  query_value [] = None ->
  (forall s, s <> [] -> forallb version_char s = true ->
    query_value (lit "?base=" ++ replace (lit "+") (lit "%2B") s) = Some s) ->
  (forall v, forallb version_char (version_to_string v) = true) ->
  base ∈ offered c index ->
  requested_base c index (query_value (base_query c index base)) = Ok base.
Proof.
  intros Hnone Hsome Hchars Hin. unfold base_query. case_decide as Hd.
  - rewrite Hnone. simpl. by rewrite Hd.
  - pose proof (version_parse_to_string base) as Hp.
    rewrite Hsome; [|intros He|apply Hchars]; cycle 1.
    { rewrite He in Hp. by destruct (version_starts_with_digit _ _ Hp) as (ch & s' & ? & _). }
    unfold requested_base. rewrite Hp. simpl. unfold offers. by rewrite bool_decide_eq_true_2.
Qed.

(** A selector of bases shows every base on offer and exactly one as selected: the one that is,
    even when it isn't on offer any more. *)
Theorem selector_shows_the_selected ap_bases ap_default_base c index base :
  BaseConfig_parse ap_bases ap_default_base = Ok c ->
  length (List.filter o_selected (base_options (offered c index) (Some base))) = 1%nat /\
  version_to_string base ∈ o_value <$> base_options (offered c index) (Some base) /\
  forall v, v ∈ offered c index ->
    version_to_string v ∈ o_value <$> base_options (offered c index) (Some base).
Proof.
  intros Hc%parse_config_ok. pose proof (offered_sorted c index Hc) as Hs.
  split_and!.
  - apply base_options_selected. clear -Hs. induction Hs as [|v l Hs IH Hall]; [constructor|].
    apply NoDup_cons. split; [|done]. rewrite Forall_forall in Hall. intros Hv.
    by destruct (Hall v Hv).
  - rewrite base_options_labels. case_decide as Hin; [|set_solver].
    rewrite app_nil_r. by apply list_elem_of_fmap_2.
  - intros v Hv. rewrite base_options_labels. apply elem_of_app. left.
    by apply list_elem_of_fmap_2.
Qed.
End bases.

(** ** Processes *)

Section processes.
Context `{SemVer} `{Git}.
Context (index_toml : path) (files : Oid -> Outside) (parsed : Oid -> result error IndexFile)
  (read_dir : Oid -> path -> result error (list (path * result error WorldDef))).

Local Abbreviation step := (cluster_step index_toml files parsed read_dir).

(** C16: However lobby processes start, refresh the index, follow announcements and stop, and whatever
    fails while they do, each process serves the index of the commit it says it has loaded, which
    is in its checkout, and describes the index's own version; and what is announced is the name
    of a commit. *)
Theorem processes_serve_their_commit c c' p m :
  server_ok (server c) -> processes c = ∅ -> rtc step c c' -> processes c' !! p = Some m ->
  server_ok (server c') /\
  exists o, loaded_commit m = oid_to_string o /\ o ∈ objects (checkout m) /\
    read_index index_toml files parsed read_dir o = Ok (loaded m) /\
    is_Some (get (loaded m) (legacy_base (loaded m))).
Proof.
  intros Hs Hnone Hsteps Hp.
  assert (cluster_ok index_toml files parsed read_dir c') as [Hs' Hc].
  { eapply cluster_reach_ok; [exact Hsteps|by apply no_processes_ok]. }
  split; [done|]. destruct (Hc p m Hp) as [[o Ho] _]. exists o.
  pose proof (serves_loaded_ok _ _ _ _ _ _ Ho) as Hl. destruct Ho as (? & ? & ?).
  by split_and!.
Qed.

(** C27: The processes agree.  From any state that operations lead to in which a commit is announced,
    when every process has looked twice at the announcement, in any order and with nothing
    failing, all of them have loaded the announced commit, and no further look changes what is
    announced or what any of them has loaded: it is the commit that was announced, or the head of
    the branch when some process could not find that one. *)
Theorem processes_converge branch c0 c ps1 ps2 a :
  server_ok (server c0) -> processes c0 = ∅ -> rtc step c0 c ->
  announced_is (server c) (Some a) ->
  readable index_toml files parsed read_dir a ->
  readable index_toml files parsed read_dir branch ->
  covers ps1 c -> covers ps2 c ->
  let looks := looks index_toml files parsed read_dir branch in
  let c' := looks (ps1 ++ ps2) c in
  exists o, (o = a \/ o = branch) /\
    forall ps, announced_is (server (looks ps c')) (Some o) /\
      forall p m, processes (looks ps c') !! p = Some m -> loaded_commit m = oid_to_string o.
Proof.
  intros Hs Hnone Hsteps Ha Hra Hrb Hcov1 Hcov2.
  assert (cluster_ok index_toml files parsed read_dir c) as Hc.
  { eapply cluster_reach_ok; [exact Hsteps|by apply no_processes_ok]. }
  destruct (looks_converge _ _ _ _ branch Hrb c ps1 ps2 a Hc Ha Hra Hcov1 Hcov2) as (Hc' & Hag & Hcase).
  assert (forall o, (o = a \/ o = branch) ->
    announced_is (server (looks index_toml files parsed read_dir branch (ps1 ++ ps2) c)) (Some o) ->
    readable index_toml files parsed read_dir o ->
    exists o, (o = a \/ o = branch) /\
    forall ps, announced_is (server (looks index_toml files parsed read_dir branch ps
        (looks index_toml files parsed read_dir branch (ps1 ++ ps2) c))) (Some o) /\
      forall p m, processes (looks index_toml files parsed read_dir branch ps
        (looks index_toml files parsed read_dir branch (ps1 ++ ps2) c)) !! p = Some m ->
        loaded_commit m = oid_to_string o) as Hend.
  { intros o Hoab Ho Hro. exists o. split; [done|]. intros ps.
    destruct (looks_stable _ _ _ _ branch Hrb _ ps o Hc' Ho Hro Hag) as [Hs' Hag'].
    rewrite Hs'. split; [done|]. intros p m Hp. apply (Hag' p m o Hp). by rewrite Hs'. }
  destruct Hcase as [Ho|Ho]; [apply (Hend a)|apply (Hend branch)]; auto.
Qed.

(** A refresh whose announcement doesn't reach the server is undone.  The refresh reports that
    the index was refreshed here but that the others weren't told; but [announce] has marked the
    new commit as seen before it is published, so the next look finds the commit that was
    announced before, takes it for news and loads it again. *)
Theorem undelivered_refresh_is_undone branch c0 c p m a :
  server_ok (server c0) -> processes c0 = ∅ -> rtc step c0 c -> processes c !! p = Some m ->
  announced_is (server c) (Some a) -> loaded_commit m = oid_to_string a -> a <> branch ->
  readable index_toml files parsed read_dir a ->
  readable index_toml files parsed read_dir branch ->
  exists e m1 m2,
    refresh_index index_toml files parsed read_dir (unheard branch) m (server c) =
      (Err e, m1, server c) /\
    loaded_commit m1 = oid_to_string branch /\
    follow_once index_toml files parsed read_dir (fair branch) m1 (server c) =
      (Ok true, m2, server c) /\
    loaded_commit m2 = oid_to_string a.
Proof.
  intros Hs Hnone Hsteps Hp Ha Hl Hne Hra Hrb.
  assert (cluster_ok index_toml files parsed read_dir c) as [_ Hc].
  { eapply cluster_reach_ok; [exact Hsteps|by apply no_processes_ok]. }
  destruct (undelivered_refresh _ _ _ _ m (server c) a branch (Hc p m Hp) Ha Hl Hra Hrb Hne)
    as (e & m1 & Hr & Hl1 & m2 & Hf & Hl2).
  by exists e, m1, m2.
Qed.
End processes.

(** ** Witnesses *)

Section witnesses.
#[local] Existing Instance example_semver.

Definition everywhere : Outside := {|
  is_file := fun _ => false; is_dir := fun _ => true;
  read_file := fun _ => bail (lit "none"); ask := fun _ _ => NotSent false [];
  digest := fun b => b;
|}.
#[local] Existing Instance everywhere.

(** Commits are numbers, on one line of history; the index at a commit is of that version. *)
Program Definition line_of_history : Git := {|
  Oid := N;
  oid_from_str := read_number;
  oid_to_string := N_to_str;
  history := fun o => {[o]} ∪ (if (o =? 0)%N then ∅ else {[(o - 1)%N]});
  graph_descendant_of := fun o a => (a <? o)%N;
|}.
Next Obligation.
  intros n. simpl. pose proof (version_parse_to_string (SemVer := example_semver) n) as Hp.
  simpl in Hp. unfold ok_or in Hp. by destruct (read_number (N_to_str n)); simplify_eq.
Qed.
Next Obligation. intros o. simpl. set_solver. Qed.
#[local] Existing Instance line_of_history.

Definition ex_toml : path := Path true [lit "index"; lit "index.toml"].
Definition ex_index_file (v : N) : IndexFile :=
  {| f_archipelago_repo := []; f_archipelago_version := v : Version; f_index_homepage := [];
     f_index_dir := Path false [lit "index"]; f_bases := {[ 7%N := tt ]} |}.
Definition ex_dir_of : path -> result error (list (path * result error WorldDef)) := fun _ => Ok [].
Definition ex_index (v : N) : result error IndexSet := IndexSet_new ex_toml (Ok (ex_index_file v)) ex_dir_of.
Definition ex_config : result error BaseConfig :=
  BaseConfig_parse (Some (lit "6, 7,6,9")) (Some (lit "6")).

Definition no_index : IndexSet := {| s_path := ex_toml; legacy_base := 0%N; s_bases := ∅;
  index_file := ex_index_file 0; world_defs := ∅ |}.
Definition the_index : IndexSet := match ex_index 6 with Ok i => i | Err _ => no_index end.
Lemma ex_index_loads : match ex_index 6 with Ok _ => true | Err _ => false end = true.
Proof. vm_compute. reflexivity. Qed.
Definition the_config : BaseConfig :=
  match ex_config with Ok c => c | Err _ => {| enabled := None; b_default := None |} end.
Lemma ex_index_ok : ex_index 6 = Ok the_index.
Proof. unfold the_index. pose proof ex_index_loads as Hl. by destruct (ex_index 6). Qed.
Lemma ex_config_ok : ex_config = Ok the_config.
Proof. vm_compute. reflexivity. Qed.

Lemma offers_exactly_the_enabled_witness :
  exists c, ex_config = Ok c /\ (wants c the_index 6%N <-> 6%N ∈ offered c the_index) /\
    offered c the_index = [7%N; 6%N] /\ default_base c the_index = 6%N.
Proof.
  exists the_config. split; [apply ex_config_ok|]. split_and!; [|vm_compute; reflexivity..].
  symmetry. apply (proj1 (offers_exactly_the_enabled (Some (lit "6, 7,6,9")) (Some (lit "6"))
    the_config the_index ex_config_ok)).
Defined.

Lemma bases_handed_out_are_described_witness :
  exists i, default_index the_config the_index = Some i /\
    archipelago_version i = default_base the_config the_index.
Proof.
  exact (proj2 (proj2 (proj2 (bases_handed_out_are_described ex_toml (Ok (ex_index_file 6)) ex_dir_of
    the_index the_config (Some 5%N) (Some (lit "7")) ex_index_ok)))).
Defined.

Definition plain_zip : Zip :=
  {| zip_add := fun _ _ => Ok tt; zip_finish := fun l => Ok (concat (fst <$> l)) |}.

Lemma archive_has_the_resolved_releases_witness :
  exists i, get the_index 6%N = Some i /\
    download_apworlds the_index plain_zip (fun _ => Ok []) ex_toml 6%N Manifest_new <> Err Panicked.
Proof.
  assert (bool_decide (is_Some (get the_index 6%N)) = true) as Hi by (vm_compute; reflexivity).
  apply bool_decide_eq_true in Hi as [i Hi].
  exists i. split; [done|].
  exact (proj1 (archive_has_the_resolved_releases the_config the_index plain_zip (fun _ => Ok [])
    ex_toml 6%N Manifest_new i Hi)).
Defined.

(** A decoder of queries. *)
Fixpoint unescape (s : str) : str :=
  match s with
  | 37%N :: ((50%N :: 66%N :: s') as s1) => 43%N :: unescape s'
  | c :: s => c :: unescape s
  | [] => []
  end.

Lemma unescape_replace s :
  forallb version_char s = true -> unescape (replace (lit "+") (lit "%2B") s) = s.
Proof.
  change (lit "+") with [43%N]. rewrite replace_single.
  induction s as [|c s IH]; [done|]. cbn [forallb]. intros [Hc Hs]%andb_true_iff. csimpl.
  destruct (decide (c = 43%N)) as [->|Hne].
  - change (43%N :: unescape (s ≫= (fun d => if decide (d = 43%N) then lit "%2B" else [d])) = 43%N :: s).
    by rewrite IH.
  - assert (c <> 37%N) as H37 by (intros ->; done).
    change (unescape (c :: (s ≫= (fun d => if decide (d = 43%N) then lit "%2B" else [d]))) = c :: s).
    transitivity (c :: unescape (s ≫= (fun d => if decide (d = 43%N) then lit "%2B" else [d])));
      [|by rewrite IH].
    clear -H37. destruct c as [|p]; [done|]. do 6 (destruct p as [p|p|]; try done).
Qed.

Definition ex_query_value (s : str) : option str :=
  match s with [] => None | _ => Some (unescape (drop 6 s)) end.

Lemma page_address_roundtrip_witness :
  exists query_value : str -> option str,
    base_query the_config the_index 7%N = lit "?base=7" /\
    requested_base the_config the_index (query_value (base_query the_config the_index 7%N)) = Ok 7%N.
Proof.
  exists ex_query_value.
  split; [vm_compute; reflexivity|].
  apply (page_address_roundtrip the_config the_index 7%N ex_query_value).
  - done.
  - intros s _ Hs. unfold ex_query_value. simpl app. cbv iota. f_equal. by apply unescape_replace.
  - intros v. destruct (N_to_str_parse v) as (_ & _ & Hall).
    apply forallb_forall. intros c Hc%list_elem_of_In. rewrite Forall_forall in Hall.
    unfold version_char, is_ascii_alphanumeric. rewrite (Hall c Hc). by rewrite orb_true_r.
  - vm_compute. left.
Defined.

Lemma selector_shows_the_selected_witness :
  length (List.filter o_selected (base_options (offered the_config the_index) (Some (9%N : Version)))) = 1%nat.
Proof.
  exact (proj1 (selector_shows_the_selected (Some (lit "6, 7,6,9")) (Some (lit "6")) the_config
    the_index 9%N ex_config_ok)).
Defined.

(** Two processes: the first starts at commit 1, the second joins, and the first refreshes when
    the branch is at 2. *)
Definition ex_parsed (o : Oid) : result error IndexFile := Ok (ex_index_file o).
Definition ex_files (o : Oid) : Outside := everywhere.
Definition ex_dirs (o : Oid) := ex_dir_of.
Definition empty_checkout : Checkout := {| objects := ∅; FETCH_HEAD := None; at_commit := None |}.
Definition ex_start (branch : Oid) (p : nat) (c : cluster) : cluster :=
  match start ex_toml ex_files ex_parsed ex_dirs (fair branch) empty_checkout
          {| enabled := None; b_default := None |} false (server c) with
  | (_, Some m, s) => set_process c p m s
  | _ => c
  end.
Definition ex_refresh (branch : Oid) (p : nat) (c : cluster) : cluster :=
  match processes c !! p with
  | Some m =>
      match refresh_index ex_toml ex_files ex_parsed ex_dirs (fair branch) m (server c) with
      | (_, m, s) => set_process c p m s
      end
  | None => c
  end.

Definition no_cluster : cluster := Cluster (RState ∅ []) ∅.
Definition two_processes : cluster := ex_start 1%N 1 (ex_start 1%N 0 no_cluster).
Definition refreshed : cluster := ex_refresh 2%N 0 two_processes.

Local Abbreviation ex_step := (cluster_step ex_toml ex_files ex_parsed ex_dirs).

Lemma ex_start_step branch p c : rtc ex_step c (ex_start branch p c).
Proof.
  unfold ex_start. destruct (start _ _ _ _ _ _ _ _ _) as [[r [m|]] s] eqn:E; [|apply rtc_refl].
  eapply rtc_once, cs_start, E.
Qed.
Lemma ex_refresh_step branch p c : rtc ex_step c (ex_refresh branch p c).
Proof.
  unfold ex_refresh. destruct (processes c !! p) as [m|] eqn:Hp; [|apply rtc_refl].
  destruct (refresh_index _ _ _ _ _ _ _) as [[r m'] s] eqn:E.
  eapply rtc_once, cs_refresh; [exact Hp|exact E].
Qed.
Lemma two_processes_step : rtc ex_step no_cluster two_processes.
Proof. etrans; [apply ex_start_step|apply ex_start_step]. Qed.
Lemma refreshed_step : rtc ex_step no_cluster refreshed.
Proof. etrans; [apply two_processes_step|apply ex_refresh_step]. Qed.

Lemma no_server_ok : server_ok (server no_cluster).
Proof. by exists None. Qed.
Definition commit_one : Oid := 1%N.
Definition commit_two : Oid := 2%N.

Definition reads_index (o : Oid) : bool :=
  match read_index ex_toml ex_files ex_parsed ex_dirs o with Ok _ => true | Err _ => false end.
Lemma ex_readable (o : Oid) : reads_index o = true -> readable ex_toml ex_files ex_parsed ex_dirs o.
Proof.
  unfold reads_index, readable.
  destruct (read_index ex_toml ex_files ex_parsed ex_dirs o) as [i|e]; [by exists i|done].
Qed.

(** The commit a process has loaded. *)
Definition commit_of (c : cluster) (p : nat) : option str := loaded_commit <$> processes c !! p.
Lemma commit_of_inv c p x : commit_of c p = Some x ->
  exists m, processes c !! p = Some m /\ loaded_commit m = x.
Proof.
  unfold commit_of. destruct (processes c !! p) as [m|]; [|done]. intros [= <-]. by exists m.
Qed.

Lemma processes_serve_their_commit_witness :
  exists m, processes refreshed !! 1%nat = Some m /\
    exists o, loaded_commit m = oid_to_string o /\
      read_index ex_toml ex_files ex_parsed ex_dirs o = Ok (loaded m).
Proof.
  assert (commit_of refreshed 1 = Some (N_to_str 1)) as Hc by (vm_compute; reflexivity).
  apply commit_of_inv in Hc as (m & Hp & _). exists m. split; [done|].
  destruct (processes_serve_their_commit ex_toml ex_files ex_parsed ex_dirs no_cluster refreshed 1 m
    no_server_ok eq_refl refreshed_step Hp) as (_ & o & Hl & _ & Hr & _). by exists o.
Defined.

Lemma processes_converge_witness :
  commit_of refreshed 1 = Some (N_to_str 1) /\
  let c' := looks ex_toml ex_files ex_parsed ex_dirs commit_two ([0%nat; 1%nat] ++ [1%nat; 0%nat]) refreshed in
  exists o : Oid, (o = commit_two \/ o = commit_two) /\
    forall ps, announced_is (server (looks ex_toml ex_files ex_parsed ex_dirs commit_two ps c')) (Some o) /\
      forall p m, processes (looks ex_toml ex_files ex_parsed ex_dirs commit_two ps c') !! p = Some m ->
        loaded_commit m = oid_to_string o.
Proof.
  split; [vm_compute; reflexivity|].
  assert (forall ps, ps = [0%nat; 1%nat] \/ ps = [1%nat; 0%nat] -> covers ps refreshed) as Hcov.
  { assert (dom (processes refreshed) = {[0%nat; 1%nat]}) as Hdom by (vm_compute; reflexivity).
    intros ps Hps p Hp%elem_of_dom. rewrite Hdom in Hp. destruct Hps; subst; set_solver. }
  apply (processes_converge ex_toml ex_files ex_parsed ex_dirs commit_two no_cluster refreshed
    [0%nat; 1%nat] [1%nat; 0%nat] commit_two);
    [apply no_server_ok|reflexivity|apply refreshed_step|vm_compute; reflexivity|
     apply ex_readable; vm_compute; reflexivity|apply ex_readable; vm_compute; reflexivity|apply Hcov; by left|apply Hcov; by right].
Defined.

Lemma undelivered_refresh_is_undone_witness :
  exists m e m1 m2, processes two_processes !! 0%nat = Some m /\
    refresh_index ex_toml ex_files ex_parsed ex_dirs (unheard commit_two) m (server two_processes) =
      (Err e, m1, server two_processes) /\
    follow_once ex_toml ex_files ex_parsed ex_dirs (fair commit_two) m1 (server two_processes) =
      (Ok true, m2, server two_processes) /\
    loaded_commit m2 = oid_to_string commit_one.
Proof.
  assert (commit_of two_processes 0 = Some (N_to_str 1)) as Hc by (vm_compute; reflexivity).
  apply commit_of_inv in Hc as (m & Hp & Hl).
  destruct (undelivered_refresh_is_undone ex_toml ex_files ex_parsed ex_dirs commit_two no_cluster
    two_processes 0 m commit_one no_server_ok eq_refl two_processes_step Hp
    ltac:(vm_compute; reflexivity) Hl ltac:(done) ltac:(apply ex_readable; vm_compute; reflexivity) ltac:(apply ex_readable; vm_compute; reflexivity))
    as (e & m1 & m2 & Hr & _ & Hf & Hl2).
  exists m, e, m1, m2. by split_and!.
Defined.
End witnesses.
