(* ===== verification/LobbyOptions.v ===== *)
(** * The options of games: definitions, cache and pages

    [lobby/src/views/options_gen.rs] and the options of [lobby/src/jobs.rs].  A worker generates
    the definitions of a release's options; they are cached on the server under their base, and a
    page is a form over them.  An uploaded YAML is sorted into values that fill the form, values
    that are out of date and warnings; a form is written out as a YAML.  JSON texts, YAML texts
    and compression are other crates' ([Formats]). *)

From S2P Require Import Prelude Ord RustStd F64 Redis WqCore WqProg Wq.
From S2P Require Import Apwm ApwmIndex LobbyYaml LobbyBases.

(** ** JSON values

    [serde_json::Value].  An object lists its entries in the order of its map, each key once.
    [as_i64] gives integers that fit. *)
Inductive json :=
| JNull
| JBool (b : bool)
| JInt (z : Z)
| JFloat (f : f64)
| JString (s : str)
| JArray (l : list json)
| JObject (m : list (str * json)).

Definition j_bool (v : json) : option bool := match v with JBool b => Some b | _ => None end.
Definition j_i64 (v : json) : option Z :=
  match v with JInt z => if in_i64 z then Some z else None | _ => None end.
Definition j_str (v : json) : option str := match v with JString s => Some s | _ => None end.
Definition j_array (v : json) : option (list json) := match v with JArray l => Some l | _ => None end.
Definition j_object (v : json) : option (list (str * json)) :=
  match v with JObject m => Some m | _ => None end.
Definition is_object (v : json) : bool := match v with JObject _ => true | _ => false end.
Definition is_array (v : json) : bool := match v with JArray _ => true | _ => false end.
(** [is_i64() || is_u64()]. *)
Definition is_integer (v : json) : bool := match v with JInt _ => true | _ => false end.

(** [Map::get] and [IndexMap::get]. *)
Definition entry_of {A} (m : list (str * A)) (k : str) : option A :=
  snd <$> List.find (fun e => str_eqb e.1 k) m.
(** [Value::get] with a text. *)
Definition j_get (v : json) (k : str) : option json := m ← j_object v; entry_of m k.

(** [IndexMap::insert]: a key that is there keeps its place. *)
Fixpoint index_insert {A} (k : str) (a : A) (m : list (str * A)) : list (str * A) :=
  match m with
  | [] => [(k, a)]
  | e :: m => if str_eqb e.1 k then (k, a) :: m else e :: index_insert k a m
  end.

(** ** Definitions *)

(* src: lobby/src/jobs.rs:71-85 OptionDef *)
Record OptionDef := {
  o_default : json;
  o_description : str;
  o_ty : str;
  o_display_name : str;
  o_range : option (Z * Z);
  o_choices : option (list str);
  o_suggestions : option (list str);
  o_valid_keys : option (list str);
}.

(** Option group, then option name, in the order they were generated in. *)
Definition OptionsDef : Type := list (str * list (str * OptionDef)).

(* src: lobby/src/jobs.rs:88-90 OptionDef::range_bounds *)
Definition range_bounds (d : OptionDef) : option (Z * Z) := o_range d.
(* src: lobby/src/jobs.rs:92-96 OptionDef::choices *)
Definition choices (d : OptionDef) : option (list str) := o_choices d.
(* src: lobby/src/jobs.rs:98-102 OptionDef::suggestions *)
Definition suggestions (d : OptionDef) : option (list str) := o_suggestions d.
(** [None] is the panic of [expect], here and above. *)
(* src: lobby/src/jobs.rs:104-108 OptionDef::valid_keys *)
Definition valid_keys (d : OptionDef) : option (list str) := o_valid_keys d.

(* src: lobby/src/jobs.rs:110-115 OptionDef::has_valid_keys *)
Definition has_valid_keys (d : OptionDef) : bool :=
  match o_valid_keys d with Some (_ :: _) => true | _ => false end.
(* src: lobby/src/jobs.rs:117-119 OptionDef::has_complex_default *)
Definition has_complex_default (d : OptionDef) : bool :=
  is_array (o_default d) || is_object (o_default d).
(* src: lobby/src/jobs.rs:121-126 OptionDef::has_int_dict_values *)
Definition has_int_dict_values (d : OptionDef) : bool :=
  match j_object (o_default d) with
  | Some obj => forallb (fun e => is_integer e.2) obj
  | None => false
  end.
Definition ty_is (d : OptionDef) (ty : string) : bool := str_eqb (o_ty d) (lit ty).
(* src: lobby/src/jobs.rs:128-142 OptionDef::is_editable *)
Definition is_editable (d : OptionDef) : bool :=
  if ty_is d "unknown" then false
  else if ty_is d "dict" then has_valid_keys d && has_int_dict_values d
  else if (ty_is d "set" || ty_is d "list" || ty_is d "counter") && negb (has_valid_keys d)
  then false
  else if ty_is d "text" && has_complex_default d then false
  else true.
(* src: lobby/src/jobs.rs:144-146 OptionDef::default_str *)
Definition default_str (d : OptionDef) : str := default [] (j_str (o_default d)).
Definition has_str (l : list json) (s : str) : bool :=
  existsb (fun v => bool_decide (j_str v = Some s)) l.
(* src: lobby/src/jobs.rs:148-153 OptionDef::default_contains *)
Definition default_contains (d : OptionDef) (value : str) : bool :=
  match j_array (o_default d) with Some arr => has_str arr value | None => false end.
(* src: lobby/src/jobs.rs:155-160 OptionDef::default_dict_has *)
Definition default_dict_has (d : OptionDef) (k : str) : bool :=
  match j_object (o_default d) with
  | Some obj => bool_decide (is_Some (entry_of obj k))
  | None => false
  end.
(* src: lobby/src/jobs.rs:162-168 OptionDef::default_dict_get *)
Definition default_dict_get (d : OptionDef) (k : str) : Z :=
  default 0%Z (obj ← j_object (o_default d); v ← entry_of obj k; j_i64 v).

(* src: lobby/src/views/options_gen.rs:36-43 WEIGHTED_TYPES *)
Definition WEIGHTED_TYPES : list str :=
  [lit "bool"; lit "choice"; lit "named_range"; lit "text_choice"; lit "range"; lit "text"].
Definition is_weighted_type (d : OptionDef) : bool := bool_decide (o_ty d ∈ WEIGHTED_TYPES).

(** ** Values *)

(* src: lobby/src/views/options_gen.rs:755-766 validate_numeric_value *)
Definition validate_numeric_value (value : Z) (d : OptionDef) : bool :=
  if ty_is d "range" || ty_is d "named_range" then
    match o_range d with
    | Some (mn, mx) => (mn <=? value)%Z && (value <=? mx)%Z
    | None => true
    end
  else true.

Definition among (value : str) (l : list str) : bool := existsb (fun s => str_eqb s value) l.

(* src: lobby/src/views/options_gen.rs:723-753 validate_single_value *)
Definition validate_single_value (value : str) (d : OptionDef) : bool :=
  if starts_with (lit "random") value then true
  else if ty_is d "choice" then
    match o_choices d with Some c => among value c | None => true end
  else if ty_is d "text_choice" then
    match o_suggestions d with Some s => among value s | None => true end
  else if ty_is d "named_range" then
    if match o_suggestions d with Some s => among value s | None => false end then true
    else match parse_i64 value with Some n => validate_numeric_value n d | None => false end
  else true.

Definition not_zero_weight (v : json) : bool :=
  match j_i64 v with Some n => negb (n =? 0)%Z | None => true end.

(** [None] is a panic. *)
(* src: lobby/src/views/options_gen.rs:693-721 validate_option_value *)
Definition validate_option_value (value : json) (d : OptionDef) : option bool :=
  match j_object value with
  | Some obj =>
      Some (forallb (fun e => validate_single_value e.1 d)
              (List.filter (fun e => not_zero_weight e.2) obj))
  | None =>
  match j_str value with
  | Some s => Some (validate_single_value s d)
  | None =>
  match j_i64 value with
  | Some n => Some (validate_numeric_value n d)
  | None =>
  match j_array value with
  | Some arr =>
      if negb (has_valid_keys d) then Some true
      else ks ← valid_keys d;
           Some (forallb (fun v => match j_str v with Some s => among s ks | None => true end) arr)
  | None => Some true
  end end end end.

(** ** An uploaded YAML *)

(** What becomes of one option of the YAML. *)
Inductive verdict :=
| Unknown               (* a warning: no such option *)
| NoWeights             (* a warning: weights where there can be none *)
| Outdated
| Prefilled (v : json).

(** A weighted value with one weight that counts is that value. *)
(* src: lobby/src/views/options_gen.rs:856-872 edit_yaml *)
Definition coalesce (value : json) (d : OptionDef) : json :=
  match j_object value with
  | Some mapping =>
      if negb (is_weighted_type d) then value
      else match List.filter (fun e => not_zero_weight e.2) mapping with
           | [(k, _)] => JString k
           | _ => value
           end
  | None => value
  end.

(* src: lobby/src/views/options_gen.rs:838-881 edit_yaml *)
Definition judge (defs : gmap str OptionDef) (k : str) (value : json) : option verdict :=
  match defs !! k with
  | None => Some Unknown
  | Some d =>
      if is_object value && negb (ty_is d "counter") && negb (ty_is d "dict") &&
         negb (is_weighted_type d)
      then Some NoWeights
      else
        let json_value := coalesce value d in
        valid ← (if is_editable d then validate_option_value json_value d else Some true);
        Some (if valid : bool then Prefilled json_value else Outdated)
  end.

(* src: lobby/src/views/options_gen.rs:830-833 edit_yaml *)
Record Edit := {
  prefilled_values : gmap str json;
  warnings : list str;
  yaml_option_names : gset str;
  outdated_values : gset str;
}.
Definition no_edit : Edit :=
  {| prefilled_values := ∅; warnings := []; yaml_option_names := ∅; outdated_values := ∅ |}.

(* src: lobby/src/views/options_gen.rs:835-882 edit_yaml *)
Definition edit_step (defs : gmap str OptionDef) (e : Edit) (entry : str * json) : option Edit :=
  let '(k, value) := entry in
  v ← judge defs k value;
  let names := {[k]} ∪ yaml_option_names e in
  Some match v with
       | Unknown =>
           {| prefilled_values := prefilled_values e; warnings := warnings e ++ [k];
              yaml_option_names := names; outdated_values := outdated_values e |}
       | NoWeights =>
           {| prefilled_values := prefilled_values e;
              warnings := warnings e ++ [k ++ lit " (weighted options not supported for this type)"];
              yaml_option_names := names; outdated_values := outdated_values e |}
       | Outdated =>
           {| prefilled_values := prefilled_values e; warnings := warnings e;
              yaml_option_names := names; outdated_values := {[k]} ∪ outdated_values e |}
       | Prefilled v =>
           {| prefilled_values := <[k := v]> (prefilled_values e); warnings := warnings e;
              yaml_option_names := names; outdated_values := outdated_values e |}
       end.

(** Options of all groups by name: of two with one name, the later. *)
(* src: lobby/src/views/options_gen.rs:823-826 edit_yaml *)
Definition option_defs (options : OptionsDef) : gmap str OptionDef :=
  fold_left (fun (acc : gmap str OptionDef) e => <[e.1 := e.2]> acc) (options ≫= snd) ∅.

(* src: lobby/src/views/options_gen.rs:823-883 edit_yaml *)
Definition edit_values (options : OptionsDef) (game_options : option (list (str * json))) : option Edit :=
  match game_options with
  | None => Some no_edit
  | Some game_opts =>
      fold_left (fun e entry => e ← e; edit_step (option_defs options) e entry) game_opts (Some no_edit)
  end.

(** What the page needs of the document besides its options. *)
(* src: lobby/src/views/options_gen.rs:783-810 edit_yaml *)
Definition edit_header (yaml : json) : result error (option str * option str * str) :=
  let player_name := v ← j_get yaml (lit "name"); j_str v in
  let description := v ← j_get yaml (lit "description"); j_str v in
  game_field ← some_or (lit "YAML is missing 'game' field") (j_get yaml (lit "game"));
  match j_str game_field with
  | Some s => Ok (player_name, description, s)
  | None =>
      if is_object game_field then
        bail (lit "Weighted game randomizers are not supported. Please use a YAML with a single game.")
      else bail (lit "Invalid 'game' field in YAML")
  end.

(** ** A downloaded YAML *)

(** The root of the document, before it is written as text. *)
(* src: lobby/src/views/options_gen.rs:929-954 write_yaml *)
Definition yaml_root (game_name player_name description : str) (game_options : list (str * json)) :
    list (str * json) :=
  let root := index_insert (lit "game") (JString game_name) [] in
  let root := index_insert (lit "name") (JString player_name) root in
  let root := index_insert (lit "description") (JString description) root in
  index_insert game_name (JObject game_options) root.

(* src: lobby/src/views/options_gen.rs:1003-1008 download_yaml *)
Definition download_player (form : gmap str str) : str :=
  let player_name := default (lit "Player") (form !! lit "player") in
  if str_eqb player_name [] then lit "Player" else player_name.

(* src: lobby/src/views/options_gen.rs:1010-1017 download_yaml *)
Definition download_description (form : gmap str str) (host apworld_name options_query : str) : str :=
  match form !! lit "description" with
  | Some s =>
      if str_eqb s [] then
        lit "Generated on https://" ++ host ++ lit "/options/" ++ apworld_name ++ options_query
      else s
  | None => lit "Generated on https://" ++ host ++ lit "/options/" ++ apworld_name ++ options_query
  end.

(** [json_from_str] is [serde_json::from_str::<Value>]. *)
Section download.
Context (json_from_str : str -> option json).

(* src: lobby/src/views/options_gen.rs:1023-1027 download_yaml *)
Definition form_value (value : str) : json := default (JString value) (json_from_str value).

(* src: lobby/src/views/options_gen.rs:1019-1030 download_yaml *)
Definition download_options (options : OptionsDef) (form : gmap str str) : list (str * json) :=
  fold_left (fun game_options e =>
      match form !! e.1 with
      | Some value => index_insert e.1 (form_value value) game_options
      | None => game_options
      end) (options ≫= snd) [].
End download.
