(* ===== verification/LobbyOptionPages.v ===== *)
(** * The pages of options, their cache and their queue

    The handlers of [lobby/src/views/options_gen.rs], [OptionsCache], and the callback of the
    queue of definitions ([lobby/src/jobs.rs]).  Rendering is the template's: a page is the value
    given to it.  Sessions and tracing are left out. *)

From S2P Require Import Prelude Ord RustStd F64 Redis WqCore WqProg Wq.
From S2P Require Import Apwm ApwmIndex LobbyYaml LobbyBases LobbyOptions.

(** ** Values on a page *)

(* src: lobby/src/views/options_gen.rs:209-219 OptionsTpl::prefilled_bool *)
Definition prefilled_bool (prefilled : option json) (default_value : bool) : bool :=
  default default_value
    (v ← prefilled;
     match j_bool v with
     | Some b => Some b
     | None =>
         s ← j_str v;
         if str_eqb s (lit "true") then Some true
         else if str_eqb s (lit "false") then Some false else None
     end).

(* src: lobby/src/views/options_gen.rs:221-226 OptionsTpl::prefilled_num *)
Definition prefilled_num (prefilled : option json) : option Z :=
  v ← prefilled;
  match j_i64 v with Some n => Some n | None => s ← j_str v; parse_i64 s end.

(* src: lobby/src/views/options_gen.rs:228-230 OptionsTpl::prefilled_str *)
Definition prefilled_str (prefilled : option json) : option str := prefilled ≫= j_str.
(* src: lobby/src/views/options_gen.rs:232-237 OptionsTpl::prefilled_array *)
Definition prefilled_array (prefilled : option json) : option (list json) := prefilled ≫= j_array.
(* src: lobby/src/views/options_gen.rs:239-244 OptionsTpl::prefilled_object *)
Definition prefilled_object (prefilled : option json) : option (list (str * json)) :=
  prefilled ≫= j_object.
(* src: lobby/src/views/options_gen.rs:246-248 OptionsTpl::array_contains_str *)
Definition array_contains_str (arr : list json) (s : str) : bool := has_str arr s.
(* src: lobby/src/views/options_gen.rs:250-252 OptionsTpl::suggestions_contain *)
Definition suggestions_contain (l : list str) (s : str) : bool := among s l.

Definition is_suggestion (d : OptionDef) (o : option str) : bool :=
  match o, o_suggestions d with Some s, Some l => among s l | _, _ => false end.
(* src: lobby/src/views/options_gen.rs:254-266 OptionsTpl::prefilled_is_suggestion *)
Definition prefilled_is_suggestion (prefilled : option json) (d : OptionDef) : bool :=
  is_suggestion d (prefilled_str prefilled).
(* src: lobby/src/views/options_gen.rs:268-276 OptionsTpl::default_is_suggestion *)
Definition default_is_suggestion (d : OptionDef) : bool := is_suggestion d (j_str (o_default d)).

(* src: lobby/src/views/options_gen.rs:282-289 OptionsTpl::is_weighted *)
Definition is_weighted (d : OptionDef) (prefilled : option json) : bool :=
  is_weighted_type d && match prefilled with Some v => is_object v | None => false end.

(** ** Definitions on the server *)

Section pages.
Context `{SemVer} {LC : Lowercase}.
Implicit Types (base version : Version) (apworld_name : str).

(* src: lobby/src/jobs.rs:63-69 OptionsGenParams *)
Record OptionsGenParams := {
  g_apworld : str * Version;
  g_otlp_context : gmap str str;
  g_ap_version : option Version;
}.
(* src: lobby/src/jobs.rs:175-181 OptionsGenResponse *)
Record OptionsGenResponse := { g_options : OptionsDef; g_error : option str }.

(** Definitions compressed and read back; YAML and JSON texts. *)
Record Formats := {
  encode_options_def : OptionsDef -> option str;
  decode_options_def : str -> option OptionsDef;
  read_yaml : str -> result str json;
  yaml_to_string : json -> result str str;
  json_from_str : str -> option json;
}.
Context (fmt : Formats) (otlp : gmap str str).
Context `{JobIds} `{!Codecs OptionsGenParams OptionsGenResponse}.
Context (queue_error_text : WorkQueueError -> str).

Local Abbreviation queued := (queued queue_error_text).

(* src: lobby/src/views/options_gen.rs:56-58 OPTIONS_CACHE_TTL_SECS *)
Definition OPTIONS_CACHE_TTL_SECS : N := 24 * 3600.

(* src: lobby/src/views/options_gen.rs:68-72 OptionsCache *)
Record OptionsCache := { cache_legacy_base : Version }.

(* src: lobby/src/views/options_gen.rs:88-94 OptionsCache::key *)
Definition cache_key (c : OptionsCache) base apworld_name version : str :=
  if decide (base = cache_legacy_base c) then
    lit "options_def:" ++ apworld_name ++ lit ":" ++ version_to_string version
  else
    lit "options_def:base:" ++ version_to_string base ++ lit ":" ++ apworld_name ++ lit ":" ++
    version_to_string version.

(* src: lobby/src/views/options_gen.rs:96-116 OptionsCache::get *)
Definition cache_get (c : OptionsCache) base apworld_name version : qm (option OptionsDef) :=
  stored ← call (GET (cache_key c base apworld_name version));
  match stored with
  | None => mret None
  | Some stored => mret (decode_options_def fmt stored)
  end.

(* src: lobby/src/views/options_gen.rs:118-127 OptionsCache::contains *)
Definition cache_contains (c : OptionsCache) base apworld_name version : qm bool :=
  call (EXISTS (cache_key c base apworld_name version)).

(* src: lobby/src/views/options_gen.rs:129-146 OptionsCache::insert *)
Definition cache_insert (c : OptionsCache) base apworld_name version (options : OptionsDef) : qm unit :=
  encoded ← qlift (ok_or (encode_options_def fmt options) Serialization);
  call (SETEX (cache_key c base apworld_name version) encoded OPTIONS_CACHE_TTL_SECS).

(** The callback of the queue of definitions: it keeps what a successful job made. *)
(* src: lobby/src/jobs.rs:186-232 get_options_gen_callback *)
Definition options_gen_callback (c : OptionsCache) (desc : JobDesc OptionsGenParams)
    (res : JobResult OptionsGenResponse) : qm bool :=
  if negb (bool_decide (res_status res = Success)) then mret true
  else match res_result res with
       | None => mret true
       | Some response =>
           let base := default (cache_legacy_base c) (g_ap_version (desc_params desc)) in
           let '(apworld_name, version) := g_apworld (desc_params desc) in
           _ ← cache_insert c base apworld_name version (g_options response);
           mret true
       end.

Definition gen_params base apworld_name version : OptionsGenParams :=
  {| g_apworld := (apworld_name, version); g_otlp_context := otlp; g_ap_version := Some base |}.

(** [fuel] is that of the wait for the job. *)
(* src: lobby/src/views/options_gen.rs:349-411 get_options_def *)
Definition get_options_def (fuel : nat) (c : OptionsCache)
    (q : WorkQueue OptionsGenParams OptionsGenResponse) apworld_name version base : lm OptionsDef :=
  cached ← queued (cache_get c base apworld_name version);
  match cached with
  | Some cached_options => mret cached_options
  | None =>
      j ← queued (enqueue_job_in q (Some (version_to_string base)) (gen_params base apworld_name version)
                    High (seconds 30));
      status ← queued (wait_for_job fuel q j (Some (seconds 30)));
      match status with
      | None => lift (raise (lit "The option definitions could not get fetched, try again in a bit"))
      | Some InternalError =>
          lift (raise (lit "There was an unexpected error while generating option definitions, try again."))
      | Some Failure => lift (raise (lit "Generating option definitions failed, try again."))
      | Some _ =>
          options ← queued (cache_get c base apworld_name version);
          lift (match options with
                | Some options => Ok options
                | None => raise (lit "Options not found in cache after successful job")
                end)
      end
  end.

(** ** Preloading *)

Definition latest_version (w : World) : option Version := last (bt_keys (versions w)).

(* src: lobby/src/views/options_gen.rs:433-443 OptionsPreloadFairing::on_liftoff *)
Definition preload_list (cfg : BaseConfig) (index : IndexSet) : list (Version * str * Version) :=
  base ← offered cfg index;
  match get index base with
  | None => []
  | Some i =>
      omap (fun e => latest ← latest_version e.2; Some (base, e.1, latest)) (bt_iter (worlds i))
  end.

(** A job that can't be enqueued is only logged. *)
(* src: lobby/src/views/options_gen.rs:447-479 OptionsPreloadFairing::on_liftoff *)
Fixpoint preload_all (c : OptionsCache) (q : WorkQueue OptionsGenParams OptionsGenResponse)
    (ws : list (Version * str * Version)) : prog unit :=
  match ws with
  | [] => Ret tt
  | (base, apworld_name, version) :: ws =>
      prog_bind (fun known =>
        match known with
        | Ok true => preload_all c q ws
        | _ => prog_bind (fun _ => preload_all c q ws)
                 (enqueue_job_in q (Some (version_to_string base))
                    (gen_params base apworld_name version) Low (seconds 120))
        end) (cache_contains c base apworld_name version)
  end.

(** [wanted] is whether [PRELOAD_OPTIONS_DEFS] is set. *)
(* src: lobby/src/views/options_gen.rs:424-480 OptionsPreloadFairing::on_liftoff *)
Definition on_liftoff (wanted : bool) (c : OptionsCache)
    (q : WorkQueue OptionsGenParams OptionsGenResponse) (cfg : BaseConfig) (index : IndexSet) :
    prog unit :=
  if negb wanted then Ret tt else preload_all c q (preload_list cfg index).

(** ** Pages *)

(** [username] is the name that the database has for who is logged in. *)
(* src: lobby/src/views/options_gen.rs:45-54 get_default_player_name *)
Definition get_default_player_name (username : option str) : str :=
  match username with
  | None => lit "Player{NUMBER}"
  | Some username => take 14 username ++ lit "{NUMBER}"
  end.

(* src: lobby/src/views/options_gen.rs:171-193 OptionsTpl *)
Record OptionsTpl := {
  tpl_apworlds : list (str * str);
  tpl_versions : list str;
  selected_apworld : option str;
  selected_version : option str;
  tpl_options : option OptionsDef;
  tpl_edit : option Edit;
  prefilled_player_name : option str;
  prefilled_description : option str;
  default_player_name : str;
  tpl_base_query : str;
  tpl_base_options : list BaseOption;
}.

(* src: lobby/src/views/options_gen.rs:196-200 OptionsTpl::get_prefilled *)
Definition get_prefilled (p : OptionsTpl) (option_name : str) : option json :=
  e ← tpl_edit p; prefilled_values e !! option_name.
(* src: lobby/src/views/options_gen.rs:304-306 OptionsTpl::is_outdated *)
Definition is_outdated (p : OptionsTpl) (option_name : str) : bool :=
  match tpl_edit p with Some e => bool_decide (option_name ∈ outdated_values e) | None => false end.
(* src: lobby/src/views/options_gen.rs:300-302 OptionsTpl::is_new_option *)
Definition is_new_option (p : OptionsTpl) (option_name : str) : bool :=
  match tpl_edit p with
  | Some e => bool_decide (option_name ∉ yaml_option_names e)
  | None => false
  end.

(* src: lobby/src/views/options_gen.rs:519-524 options_gen_api *)
Definition apworlds_by_name (i : Index) : list (str * str) :=
  sort_by (fun a b => str_leb (to_lowercase a.2) (to_lowercase b.2))
    ((fun e => (e.1, display_name e.2)) <$> bt_iter (worlds i)).

(** Newest first. *)
(* src: lobby/src/views/options_gen.rs:525-530 options_gen_api *)
Definition version_texts (w : World) : list str := reverse (version_to_string <$> bt_keys (versions w)).

Section requests.
Context (fuel : nat) (c : OptionsCache) (q : WorkQueue OptionsGenParams OptionsGenResponse).
Context (cfg : BaseConfig) (index : IndexSet) (username : option str).

Definition page base apworlds versions (chosen : option (str * str)) options edit player description
    player_default : OptionsTpl :=
  {| tpl_apworlds := apworlds; tpl_versions := versions; selected_apworld := fst <$> chosen;
     selected_version := snd <$> chosen; tpl_options := options; tpl_edit := edit;
     prefilled_player_name := player; prefilled_description := description;
     default_player_name := player_default; tpl_base_query := base_query cfg index base;
     tpl_base_options := selectable_bases cfg index base |}.

(* src: lobby/src/views/options_gen.rs:486-570 options_gen_api *)
Definition options_gen_api apworld_name (version : str) (base : option str) : lm OptionsTpl :=
  base ← lift (raised (requested_base cfg index base));
  i ← lift (raised (index_for index base));
  apworld ← lift (raised (some_or (lit "Unknown apworld") (worlds i !! apworld_name)));
  let versions := version_texts apworld in
  if negb (bool_decide (version ∈ versions)) then lift (raise (lit "Unknown version for this apworld"))
  else
    parsed_version ← lift (raised (version_parse version));
    options ← get_options_def fuel c q apworld_name parsed_version base;
    mret (page base (apworlds_by_name i) versions (Some (apworld_name, version)) (Some options) None
            None None (get_default_player_name username)).

(* src: lobby/src/views/options_gen.rs:572-622 options_apworld_versions *)
Definition options_apworld_versions apworld_name (base : option str) : lm OptionsTpl :=
  wanted_base ← lift (raised (requested_base cfg index base));
  i ← lift (raised (index_for index wanted_base));
  apworld ← lift (raised (some_or (lit "Unknown apworld") (worlds i !! apworld_name)));
  last_version ← lift (raised (some_or (lit "This apworld has no version") (latest_version apworld)));
  options_gen_api apworld_name (version_to_string last_version) base.

(* src: lobby/src/views/options_gen.rs:624-670 options_gen *)
Definition options_gen (base : option str) : lm OptionsTpl :=
  base ← lift (raised (requested_base cfg index base));
  i ← lift (raised (index_for index base));
  mret (page base (apworlds_by_name i) [] None None None None None (get_default_player_name username)).

(* src: lobby/src/views/options_gen.rs:677-927 edit_yaml *)
Definition edit_yaml (base : option str) (form_yaml : str) : lm OptionsTpl :=
  yaml ← lift (raised (map_err (fun e => [lit "Failed to parse YAML: " ++ e]) (read_yaml fmt form_yaml)));
  '(player_name, description, game_name) ← lift (raised (edit_header yaml));
  base ← lift (raised (requested_base cfg index base));
  i ← lift (raised (index_for index base));
  '(apworld_name, world) ← lift (raised (some_or (lit "Game '" ++ game_name ++ lit "' not found")
    (find_world i game_name)));
  latest ← lift (or_panic (latest_version world));
  options ← get_options_def fuel c q apworld_name latest base;
  edit ← lift (or_panic (edit_values options (v ← j_get yaml game_name; j_object v)));
  mret (page base (apworlds_by_name i) (version_texts world)
          (Some (apworld_name, version_to_string latest)) (Some options) (Some edit) player_name
          description
          (match player_name with
           | Some _ => lit "Player{NUMBER}"
           | None => get_default_player_name username
           end)).

(** A download's errors carry a status. *)
Inductive download_error := WithStatus (status : N) (f : failure).

Definition with_status {A} (status : N) (m : lm A) : prog (result download_error A) :=
  prog_bind (fun r => Ret (map_err (WithStatus status) r)) m.
Definition and_then {A B} (m : prog (result download_error A)) (f : A -> prog (result download_error B)) :
    prog (result download_error B) :=
  prog_bind (fun r => match r with Ok a => f a | Err e => Ret (Err e) end) m.

(* src: lobby/src/views/options_gen.rs:159-164 YamlDownload *)
Record YamlDownload := { content : str; disposition : str }.

(* src: lobby/src/views/options_gen.rs:956-1039 download_yaml *)
Definition download_yaml (host apworld_name version : str) (base : option str)
    (form : gmap str str) : prog (result download_error YamlDownload) :=
  let not_found {A} (o : option A) (m : string) : lm A := lift (raised (some_or (lit m) o)) in
  and_then (with_status 404 (not_found (ok (version_parse version)) "Invalid version")) (fun parsed_version =>
  and_then (with_status 404 (not_found (ok (requested_base cfg index base)) "Unknown Archipelago version"))
    (fun base =>
  and_then (with_status 500 (lift (raised (index_for index base)))) (fun i =>
  and_then (with_status 404 (not_found (worlds i !! apworld_name) "Unknown apworld")) (fun apworld =>
  and_then (with_status 404 (not_found (get_version apworld parsed_version)
    "Unknown version for this apworld")) (fun _ =>
  and_then (with_status 503 (get_options_def fuel c q apworld_name parsed_version base)) (fun options =>
  let player_name := download_player form in
  let description := download_description form host apworld_name (base_query cfg index base) in
  let root := yaml_root (name apworld) player_name description
                (download_options (json_from_str fmt) options form) in
  and_then (with_status 500 (lift (map_err (fun e => Raised [e]) (yaml_to_string fmt (JObject root)))))
    (fun yaml => Ret (Ok {| content := yaml;
       disposition := lit "attachment; filename=" ++ [34%N] ++ player_name ++ lit ".yaml" ++ [34%N] |})))))))).
End requests.
End pages.
