(* ===== verification/LobbyOptionsFacts.v ===== *)
(** * Facts about options

    Lemmas on [LobbyOptions.v] and [LobbyOptionPages.v]: ordered maps, what an edit does with each
    option, what a download has, the keys of the cache, and runs of the cache's operations. *)

From S2P Require Import Prelude Ord RustStd F64 Redis WqCore WqProg Wq.
From S2P Require Import Apwm ApwmIndex LobbyYaml LobbyFacts LobbyBases LobbyOptions LobbyOptionPages.

(** ** Ordered maps *)

Section index_map.
Context {A : Type}.
Implicit Types (m : list (str * A)) (k : str).

Lemma entry_of_cons (e : str * A) m k :
  entry_of (e :: m) k = if decide (e.1 = k) then Some e.2 else entry_of m k.
Proof.
  unfold entry_of, str_eqb. simpl. case_decide as Hk.
  - by rewrite bool_decide_eq_true_2.
  - by rewrite bool_decide_eq_false_2.
Qed.

Lemma entry_of_elem m k a : NoDup m.*1 -> entry_of m k = Some a <-> (k, a) ∈ m.
Proof.
  induction m as [|[k' a'] m IH]; csimpl.
  - split; [done|]. by intros ?%elem_of_nil.
  - intros [Hk Hnd]%NoDup_cons. rewrite entry_of_cons, elem_of_cons. simpl. case_decide as Heq.
    + subst. split; [intros [= ->]; by left|]. intros [[= ->]|Hin]; [done|].
      exfalso. apply Hk. by apply (list_elem_of_fmap_2 fst) in Hin.
    + rewrite IH by done. split; [by right|]. intros [[= -> ->]|]; done.
Qed.

Lemma index_insert_keys k a m : (index_insert k a m).*1 = if decide (k ∈ m.*1) then m.*1 else m.*1 ++ [k].
Proof.
  induction m as [|[k' a'] m IH]; csimpl.
  - done.
  - unfold str_eqb. case_bool_decide as Heq.
    + subst. rewrite decide_True by by left. done.
    + csimpl. rewrite IH. destruct (decide (k ∈ m.*1)).
      * rewrite decide_True by by right. done.
      * rewrite decide_False; [done|]. rewrite elem_of_cons. by intros [->|].
Qed.

Lemma index_insert_NoDup k a m : NoDup m.*1 -> NoDup (index_insert k a m).*1.
Proof.
  intros Hnd. rewrite index_insert_keys. case_decide; [done|].
  apply NoDup_app. split_and!; [done| |apply NoDup_singleton]. set_solver.
Qed.

Lemma index_insert_get k a m k' :
  entry_of (index_insert k a m) k' = if decide (k = k') then Some a else entry_of m k'.
Proof.
  induction m as [|e m IH]; simpl.
  - by rewrite entry_of_cons.
  - unfold str_eqb. case_bool_decide as Heq; rewrite !entry_of_cons; simpl.
    + subst. by case_decide.
    + rewrite IH. repeat case_decide; congruence.
Qed.
End index_map.

(** ** Edits *)

Lemma has_valid_keys_valid d : has_valid_keys d = true -> is_Some (valid_keys d).
Proof. unfold has_valid_keys, valid_keys. destruct (o_valid_keys d); [eauto|done]. Qed.

Lemma validate_total value d : is_Some (validate_option_value value d).
Proof.
  unfold validate_option_value.
  destruct (j_object value); [eauto|]. destruct (j_str value); [eauto|].
  destruct (j_i64 value); [eauto|]. destruct (j_array value); [|eauto].
  destruct (has_valid_keys d) eqn:E; simpl; [|eauto].
  destruct (has_valid_keys_valid d E) as [ks ->]. simpl. eauto.
Qed.

Lemma judge_total defs k value : is_Some (judge defs k value).
Proof.
  unfold judge. destruct (defs !! k) as [d|]; [|eauto]. destruct (_ && _); [eauto|].
  destruct (is_editable d); [|simpl; eauto].
  destruct (validate_total (coalesce value d) d) as [b ->]. simpl. eauto.
Qed.

(** The verdict itself: [judge] never panics. *)
Definition verdict_of defs (e : str * json) : verdict := default Unknown (judge defs e.1 e.2).
Lemma judge_verdict defs k value : judge defs k value = Some (verdict_of defs (k, value)).
Proof. unfold verdict_of. simpl. by destruct (judge_total defs k value) as [v ->]. Qed.

Definition warning_of defs (e : str * json) : option str :=
  match verdict_of defs e with
  | Unknown => Some e.1
  | NoWeights => Some (e.1 ++ lit " (weighted options not supported for this type)")
  | _ => None
  end.

Section edits.
Context (defs : gmap str OptionDef).

Definition edit_all (opts : list (str * json)) (e : option Edit) : option Edit :=
  fold_left (fun e entry => e ← e; edit_step defs e entry) opts e.

Definition is_outdated_verdict (v : verdict) : bool := match v with Outdated => true | _ => false end.
Definition prefill_of (v : verdict) : option json := match v with Prefilled x => Some x | _ => None end.

(** The edit after some options. *)
Definition after (e : Edit) (opts : list (str * json)) : Edit :=
  {| prefilled_values := fold_left (fun (acc : gmap str json) en =>
       match prefill_of (verdict_of defs en) with Some x => <[en.1 := x]> acc | None => acc end)
       opts (prefilled_values e);
     warnings := warnings e ++ omap (warning_of defs) opts;
     yaml_option_names := fold_left (fun (acc : gset str) en => {[en.1]} ∪ acc) opts (yaml_option_names e);
     outdated_values := fold_left (fun (acc : gset str) en =>
       if is_outdated_verdict (verdict_of defs en) then {[en.1]} ∪ acc else acc) opts (outdated_values e) |}.

Lemma edit_all_after opts e : edit_all opts (Some e) = Some (after e opts).
Proof.
  revert e. induction opts as [|[k v] opts IH]; intros e.
  - unfold edit_all, after. simpl. rewrite app_nil_r. by destruct e.
  - unfold edit_all. cbn [fold_left].
    change (mbind (fun e0 => edit_step defs e0 (k, v)) (Some e)) with (edit_step defs e (k, v)).
    unfold edit_step. rewrite judge_verdict.
    assert (forall e', fold_left (fun e entry => e ← e; edit_step defs e entry) opts (Some e') =
      Some (after e' opts)) as Hrest by (intros e'; apply IH).
    unfold after at 1. csimpl. unfold warning_of at 1. simpl.
    destruct (verdict_of defs (k, v)) as [| | |x]; simpl; rewrite Hrest; unfold after; simpl;
      rewrite <- ?(assoc_L (++)); done.
Qed.

Lemma fold_names (opts : list (str * json)) (acc : gset str) k :
  k ∈ fold_left (fun (acc : gset str) (en : str * json) => {[en.1]} ∪ acc) opts acc <->
  k ∈ acc \/ k ∈ opts.*1.
Proof.
  revert acc. induction opts as [|e opts IH]; intros acc; csimpl; [|rewrite IH]; set_solver.
Qed.

Lemma fold_outdated (opts : list (str * json)) (acc : gset str) k :
  k ∈ fold_left (fun (acc : gset str) en =>
    if is_outdated_verdict (verdict_of defs en) then {[en.1]} ∪ acc else acc) opts acc <->
  k ∈ acc \/ exists v, (k, v) ∈ opts /\ verdict_of defs (k, v) = Outdated.
Proof.
  revert acc. induction opts as [|[k' v'] opts IH]; intros acc; simpl.
  - split; [by left|]. intros [?|(v & Hv & _)]; [done|]. by apply elem_of_nil in Hv.
  - rewrite IH. setoid_rewrite elem_of_cons. unfold is_outdated_verdict.
    destruct (verdict_of defs (k', v')) eqn:E; simpl;
      try (split; [intros [?|(w & ? & ?)]; [by left|right; by eauto]|];
           intros [?|(w & [[= -> ->]|?] & ?)]; [by left|congruence|right; by eauto]).
    rewrite elem_of_union, elem_of_singleton. split.
    + intros [[->|?]|(w & ? & ?)]; [right; by eauto|by left|right; by eauto].
    + intros [?|(w & [[= -> ->]|?] & ?)]; [by left; right|by left; left|right; by eauto].
Qed.

Lemma fold_prefilled (opts : list (str * json)) (acc : gmap str json) k :
  NoDup opts.*1 ->
  fold_left (fun (acc : gmap str json) en =>
    match prefill_of (verdict_of defs en) with Some x => <[en.1 := x]> acc | None => acc end) opts acc !! k =
  match entry_of opts k ≫= fun v => prefill_of (verdict_of defs (k, v)) with
  | Some x => Some x
  | None => acc !! k
  end.
Proof.
  revert acc. induction opts as [|[k' v'] opts IH]; intros acc Hnd; [done|]. csimpl in Hnd.
  apply NoDup_cons in Hnd as [Hk' Hnd]. simpl. rewrite IH by done. rewrite entry_of_cons. simpl.
  case_decide as Hk.
  - subst k'. assert (entry_of opts k = None) as ->.
    { destruct (entry_of opts k) as [v|] eqn:E; [|done]. apply entry_of_elem in E; [|done].
      by apply (list_elem_of_fmap_2 fst) in E. }
    simpl. destruct (prefill_of _); simpl; [by rewrite lookup_insert_eq|done].
  - destruct (entry_of opts k ≫= _); [done|].
    destruct (prefill_of (verdict_of defs (k', v'))); [by rewrite lookup_insert_ne|done].
Qed.

(** How many options an edit has done something with. *)
Definition edit_count (e : Edit) : nat :=
  size (prefilled_values e) + length (warnings e) + size (outdated_values e).

Lemma after_cons x opts e e' : edit_step defs e x = Some e' -> after e (x :: opts) = after e' opts.
Proof.
  intros Hstep. apply (inj Some). rewrite <- !edit_all_after. unfold edit_all. cbn [fold_left].
  change (mbind (fun e0 => edit_step defs e0 x) (Some e)) with (edit_step defs e x). by rewrite Hstep.
Qed.

Lemma after_count opts e :
  NoDup opts.*1 ->
  (forall k, k ∈ opts.*1 -> prefilled_values e !! k = None /\ k ∉ outdated_values e) ->
  edit_count (after e opts) = edit_count e + length opts.
Proof.
  revert e. induction opts as [|[k v] opts IH]; intros e Hnd Hfresh; csimpl in *.
  - unfold after, edit_count. simpl. rewrite app_nil_r. lia.
  - apply NoDup_cons in Hnd as [Hk Hnd]. destruct (Hfresh k) as [Hp Ho]; [by left|].
    erewrite after_cons by (unfold edit_step; by rewrite judge_verdict).
    destruct (verdict_of defs (k, v)) as [| | |x]; (rewrite IH; [|done|]);
      try (unfold edit_count; simpl; rewrite ?length_app, ?map_size_insert_None, ?size_union, ?size_singleton
             by (done || set_solver); simpl; lia);
      intros k' Hk'; destruct (Hfresh k') as [Hp' Ho']; try (by right); simpl; split; try done.
    + rewrite elem_of_union, elem_of_singleton. intros [->|]; done.
    + rewrite lookup_insert_ne; [done|]. by intros ->.
Qed.
End edits.

(** ** Downloads *)

Section download.
Context (json_from_str : str -> option json) (form : gmap str str).

Definition chosen (e : str * OptionDef) : option (str * json) :=
  s ← form !! e.1; Some (e.1, form_value json_from_str s).

Lemma download_fold l acc k :
  entry_of (fold_left (fun game_options (e : str * OptionDef) =>
      match form !! e.1 with
      | Some value => index_insert e.1 (form_value json_from_str value) game_options
      | None => game_options
      end) l acc) k =
  if decide (k ∈ l.*1) then match form !! k with
                            | Some s => Some (form_value json_from_str s)
                            | None => entry_of acc k
                            end
  else entry_of acc k.
Proof.
  revert acc. induction l as [|[k' d] l IH]; intros acc; csimpl; [done|].
  rewrite IH. destruct (decide (k = k')) as [->|Hne].
  - rewrite (decide_True (P := k' ∈ k' :: l.*1)) by by left.
    destruct (form !! k') as [s|] eqn:E; [|by destruct (decide _)].
    rewrite index_insert_get, (decide_True (P := k' = k')) by done. by destruct (decide (k' ∈ l.*1)).
  - assert (entry_of (match form !! k' with
        | Some value => index_insert k' (form_value json_from_str value) acc
        | None => acc end) k = entry_of acc k) as ->.
    { destruct (form !! k'); [|done]. rewrite index_insert_get. by rewrite decide_False. }
    destruct (decide (k ∈ l.*1)) as [Hin|Hin].
    + rewrite decide_True by by right. done.
    + rewrite decide_False; [done|]. rewrite elem_of_cons. by intros [|].
Qed.

Lemma download_NoDup l acc :
  NoDup acc.*1 ->
  NoDup (fold_left (fun game_options (e : str * OptionDef) =>
      match form !! e.1 with
      | Some value => index_insert e.1 (form_value json_from_str value) game_options
      | None => game_options
      end) l acc).*1.
Proof.
  revert acc. induction l as [|e l IH]; intros acc Hnd; simpl; [done|]. apply IH.
  destruct (form !! e.1); [by apply index_insert_NoDup|done].
Qed.

Lemma option_defs_dom (options : OptionsDef) k :
  is_Some (option_defs options !! k) <-> k ∈ (options ≫= snd).*1.
Proof.
  unfold option_defs. generalize (options ≫= snd) as l. intros l.
  assert (forall acc : gmap str OptionDef,
    is_Some (fold_left (fun (acc : gmap str OptionDef) e => <[e.1 := e.2]> acc) l acc !! k) <->
    is_Some (acc !! k) \/ k ∈ l.*1) as Hacc.
  { induction l as [|[k' d] l IH]; intros acc; csimpl; [set_solver|].
    rewrite IH, lookup_insert_is_Some, elem_of_cons. destruct (decide (k' = k)); naive_solver. }
  rewrite Hacc, lookup_empty, is_Some_alt. naive_solver.
Qed.

(** What a download has for an option: the form's value, if there is such an option. *)
Lemma download_get options k :
  entry_of (download_options json_from_str options form) k =
  if decide (is_Some (option_defs options !! k)) then form_value json_from_str <$> form !! k else None.
Proof.
  unfold download_options. rewrite download_fold.
  destruct (decide (is_Some (option_defs options !! k))) as [Hd|Hd]; rewrite option_defs_dom in Hd.
  - rewrite decide_True by done. by destruct (form !! k).
  - by rewrite decide_False.
Qed.

Lemma download_keys_NoDup options : NoDup (download_options json_from_str options form).*1.
Proof. apply download_NoDup. constructor. Qed.
End download.

(** The root of a downloaded document. *)
Definition reserved (game_name : str) : Prop :=
  game_name = lit "game" \/ game_name = lit "name" \/ game_name = lit "description".

Lemma yaml_root_get game_name player_name description game_options k :
  entry_of (yaml_root game_name player_name description game_options) k =
  if decide (game_name = k) then Some (JObject game_options)
  else if decide (lit "description" = k) then Some (JString description)
  else if decide (lit "name" = k) then Some (JString player_name)
  else if decide (lit "game" = k) then Some (JString game_name)
  else None.
Proof. unfold yaml_root. by rewrite !index_insert_get. Qed.

(** ** Values up to the order of entries

    Text written for a value may list the entries of its objects in another order. *)
Inductive same : json -> json -> Prop :=
| same_refl v : same v v
| same_array l1 l2 : Forall2 same l1 l2 -> same (JArray l1) (JArray l2)
| same_object m1 m m2 :
    m1 ≡ₚ m -> Forall2 (fun a b => a.1 = b.1 /\ same a.2 b.2) m m2 -> same (JObject m1) (JObject m2).

Definition same_entries (m1 m2 : list (str * json)) : Prop :=
  exists m, m1 ≡ₚ m /\ Forall2 (fun a b => a.1 = b.1 /\ same a.2 b.2) m m2.

#[export] Hint Constructors same : options.

Lemma same_entries_refl m : same_entries m m.
Proof. exists m. split; [done|]. apply Forall_Forall2_diag, Forall_true. intros; split; eauto with options. Qed.

Lemma same_object_inv v m2 :
  same v (JObject m2) -> exists m1, v = JObject m1 /\ same_entries m1 m2.
Proof.
  inversion 1; subst; [eauto using same_entries_refl|]. eexists; split; [done|]. by eexists.
Qed.
Lemma same_array_inv v l2 : same v (JArray l2) -> exists l1, v = JArray l1 /\ Forall2 same l1 l2.
Proof.
  inversion 1; subst; [|by eauto]. exists l2. split; [done|].
  apply Forall_Forall2_diag, Forall_true. eauto with options.
Qed.

Lemma same_str v v' : same v v' -> j_str v = j_str v'.
Proof. by destruct 1. Qed.
Lemma same_i64 v v' : same v v' -> j_i64 v = j_i64 v'.
Proof. by destruct 1. Qed.
Lemma same_is_object v v' : same v v' -> is_object v = is_object v'.
Proof. by destruct 1. Qed.
Lemma same_not_zero v v' : same v v' -> not_zero_weight v = not_zero_weight v'.
Proof. intros Hs. unfold not_zero_weight. by rewrite (same_i64 v v'). Qed.

Lemma same_entries_get m1 m2 k :
  NoDup m2.*1 -> same_entries m1 m2 ->
  NoDup m1.*1 /\ option_Forall2 same (entry_of m1 k) (entry_of m2 k).
Proof.
  intros Hnd (m & Hp & Hall).
  assert (m.*1 = m2.*1) as Hk.
  { clear Hp Hnd. induction Hall as [|a b m m2 [Hab _] _ IH]; csimpl; congruence. }
  assert (NoDup m1.*1) as Hnd1.
  { rewrite (fmap_Permutation fst _ _ Hp). by rewrite Hk. }
  split; [done|].
  assert (entry_of m1 k = entry_of m k) as ->.
  { apply option_eq. intros a. rewrite !entry_of_elem by (done || by rewrite Hk). by rewrite Hp. }
  clear - Hall. induction Hall as [|a b m m2 [Hab Hs] _ IH]; [constructor|].
  rewrite !entry_of_cons, Hab. case_decide; [by constructor|done].
Qed.

Lemma same_weights m1 m2 :
  same_entries m1 m2 ->
  same_entries (List.filter (fun e => not_zero_weight e.2) m1) (List.filter (fun e => not_zero_weight e.2) m2).
Proof.
  intros (m & Hp & Hall). exists (List.filter (fun e => not_zero_weight e.2) m). split.
  - clear Hall. induction Hp; simpl; repeat case_match; eauto using perm_trans, perm_skip, perm_swap.
  - clear Hp. induction Hall as [|a b m m2 [Hab Hs] _ IH]; simpl; [constructor|].
    rewrite (same_not_zero a.2 b.2) by done. destruct (not_zero_weight b.2); [|done]. by constructor.
Qed.

Lemma same_entries_keys m1 m2 : same_entries m1 m2 -> m1.*1 ≡ₚ m2.*1.
Proof.
  intros (m & Hp & Hall). rewrite (fmap_Permutation fst _ _ Hp). clear Hp.
  induction Hall as [|a b m m2 [Hab _] _ IH]; csimpl; [done|]. by rewrite Hab, IH.
Qed.

Lemma forallb_keys (f : str -> bool) (m : list (str * json)) :
  forallb (fun e => f e.1) m = forallb f m.*1.
Proof. induction m as [|e m IH]; csimpl; congruence. Qed.
Lemma forallb_Permutation {A} (f : A -> bool) l l' : l ≡ₚ l' -> forallb f l = forallb f l'.
Proof. induction 1; simpl; try congruence. by rewrite !andb_assoc, (andb_comm (f y)). Qed.

Lemma same_validate v v' d : same v v' -> validate_option_value v d = validate_option_value v' d.
Proof.
  intros Hs. unfold validate_option_value. destruct v'; try (by inversion Hs).
  - apply same_array_inv in Hs as (l1 & -> & Hall). simpl. destruct (negb _); [done|].
    destruct (valid_keys d) as [ks|]; [|done]. simpl. f_equal.
    induction Hall as [|a b l1 l2 Hab _ IH]; simpl; [done|]. by rewrite (same_str a b), IH.
  - apply same_object_inv in Hs as (m1 & -> & Hm). simpl. f_equal. rewrite !(forallb_keys (fun s => validate_single_value s d)).
    by apply forallb_Permutation, same_entries_keys, same_weights.
Qed.

Lemma same_coalesce v v' d : same v v' -> same (coalesce v d) (coalesce v' d).
Proof.
  intros Hs. unfold coalesce. destruct v'; try (inversion Hs; subst; by eauto with options).
  apply same_object_inv in Hs as (m1 & -> & Hm). simpl.
  assert (same (JObject m1) (JObject m)) as Hs by (destruct Hm as (? & ? & ?); eauto with options).
  destruct (is_weighted_type d); simpl; [|done].
  pose proof (same_entries_keys _ _ (same_weights _ _ Hm)) as Hk.
  pose proof (Permutation_length Hk) as Hl. rewrite !length_fmap in Hl.
  destruct (List.filter _ m1) as [|[k1 w1] [|]], (List.filter _ m) as [|[k2 w2] [|]]; try done.
  csimpl in Hk. apply Permutation_singleton_r in Hk. injection Hk as ->. constructor.
Qed.

(** Whether the page takes the value for the option. *)
Definition weights_supported (d : OptionDef) : bool :=
  ty_is d "counter" || ty_is d "dict" || is_weighted_type d.
Definition accepted (d : OptionDef) (v : json) : bool :=
  negb (is_editable d) || bool_decide (validate_option_value (coalesce v d) d = Some true).

Lemma same_accepted d v v' : same v v' -> accepted d v = accepted d v'.
Proof. intros Hs. unfold accepted. by rewrite (same_validate _ (coalesce v' d)) by by apply same_coalesce. Qed.

Lemma verdict_of_spec defs k v :
  verdict_of defs (k, v) =
  match defs !! k with
  | None => Unknown
  | Some d =>
      if is_object v && negb (weights_supported d) then NoWeights
      else if accepted d v then Prefilled (coalesce v d) else Outdated
  end.
Proof.
  unfold verdict_of, judge. simpl. destruct (defs !! k) as [d|]; [|done].
  unfold weights_supported, accepted. rewrite !negb_orb, !andb_assoc. destruct (_ && _); [done|].
  destruct (is_editable d); simpl; [|done].
  destruct (validate_total (coalesce v d) d) as [b ->]. simpl. by destruct b.
Qed.
