(* ===== verification/LobbyOptionsProps.v ===== *)
(** * What the pages of options guarantee

    The theorems about the cache of definitions, about uploaded YAMLs and about downloaded ones. *)

From S2P Require Import Prelude Ord RustStd F64 Redis WqCore WqProg Wq Apwm Examples ApwmIndex.
From S2P Require Import LobbyYaml LobbyFacts LobbyBases LobbyOptions LobbyOptionPages LobbyOptionsFacts.

Section cache.
Context `{SemVer} {LC : Lowercase} (fmt : Formats) (otlp : gmap str str).
Context `{JobIds} `{!Codecs OptionsGenParams OptionsGenResponse}.
Context (queue_error_text : WorkQueueError -> str).
Context (version_chars : forall v, forallb version_char (version_to_string v) = true).
Implicit Types (base version : Version) (apworld_name : str) (w : world rstate).

(** What a look into the cache gives. *)
Definition cached c w base apworld_name version : option (result WorkQueueError (option OptionsDef)) :=
  fst <$> run (cache_get fmt c base apworld_name version) w.

Lemma version_to_string_inj v v' : version_to_string v = version_to_string v' -> v = v'.
Proof.
  intros Heq. pose proof (version_parse_to_string v) as Hv.
  rewrite Heq, version_parse_to_string in Hv. congruence.
Qed.

Lemma version_no_colon v : 58%N ∉ version_to_string v.
Proof.
  intros Hin. pose proof (version_chars v) as Hc. rewrite forallb_forall in Hc.
  apply list_elem_of_In in Hin. by apply Hc in Hin.
Qed.

Lemma colon_app_inj (x1 x2 y1 y2 : str) :
  58%N ∉ x1 -> 58%N ∉ x2 -> x1 ++ lit ":" ++ y1 = x2 ++ lit ":" ++ y2 -> x1 = x2 /\ y1 = y2.
Proof.
  intros H1 H2 Heq. assert (x1 = x2) as -> by (eapply app_sep_inj; [exact H1|exact H2|exact Heq]). by simplify_list_eq.
Qed.

(** Distinct releases on distinct bases have distinct keys. *)
Lemma cache_key_inj c b a v b' a' v' :
  58%N ∉ a -> 58%N ∉ a' ->
  cache_key c b a v = cache_key c b' a' v' -> (b, a, v) = (b', a', v').
Proof.
  assert (forall a v (b a' v' : str), 58%N ∉ a ->
    lit "options_def:" ++ a ++ lit ":" ++ version_to_string v <>
    lit "options_def:base:" ++ b ++ lit ":" ++ a' ++ lit ":" ++ v') as Hmixed.
  { intros a0 v0 b0 a0' v0' Ha Heq.
    change (lit "options_def:base:") with (lit "options_def:" ++ lit "base" ++ lit ":") in Heq.
    rewrite <- !(assoc_L (++)) in Heq. apply app_inv_head in Heq.
    apply colon_app_inj in Heq as [_ Heq]; [|done|by vm_compute; set_solver].
    apply (version_no_colon v0). rewrite Heq. set_solver. }
  intros Ha Ha'. unfold cache_key. repeat case_decide; subst; intros Heq.
  - apply app_inv_head, colon_app_inj in Heq as [-> ->%version_to_string_inj]; done.
  - by apply Hmixed in Heq.
  - symmetry in Heq. by apply Hmixed in Heq.
  - apply app_inv_head, colon_app_inj in Heq as [->%version_to_string_inj Heq];
      try apply version_no_colon.
    by apply colon_app_inj in Heq as [-> ->%version_to_string_inj].
Qed.

(** Reading has no effect. *)
Lemma cache_get_world c b a v w r w' : run (cache_get fmt c b a v) w = Some (r, w') -> w' = w.
Proof.
  unfold cache_get. rewrite run_bind. cbn. destruct (read_string _ _) as [[t|]|e]; simpl;
    intros [= <- <-]; by destruct w as [[]].
Qed.

Lemma cached_run c w b a v r : cached c w b a v = Some r <-> run (cache_get fmt c b a v) w = Some (r, w).
Proof.
  unfold cached. split; [|by intros ->].
  destruct (run (cache_get fmt c b a v) w) as [[r' w']|] eqn:E; simpl; [|done].
  intros [= ->]. by rewrite (cache_get_world _ _ _ _ _ _ _ E) in E |- *.
Qed.

Lemma cached_spec c w b a v :
  cached c w b a v =
  Some match read_string (data (srv w)) (cache_key c b a v) with
       | Ok (Some t) => Ok (decode_options_def fmt t)
       | Ok None => Ok None
       | Err e => Err (RedisError e)
       end.
Proof. unfold cached, cache_get. rewrite run_bind. cbn. by destruct (read_string _ _) as [[t|]|e]. Qed.

(** The server after definitions were put into the cache. *)
Lemma cache_insert_run c b a v o w :
  run (cache_insert fmt c b a v o) w =
  match encode_options_def fmt o with
  | None => Some (Err Serialization, w)
  | Some t => Some (Ok tt, set_srv w (RState (<[cache_key c b a v := RString t (Some OPTIONS_CACHE_TTL_SECS)]>
                                                (data (srv w))) (published (srv w))))
  end.
Proof. unfold cache_insert. rewrite run_bind. simpl. by destruct (encode_options_def fmt o). Qed.

(** The cache: definitions that were put in are got out as they were, and those of another base,
    game or release stay what they were.  Names of games' files and texts of versions have no
    colons; a failure to encode leaves all as it was. *)
Theorem cache_keeps_definitions c base apworld_name version (options : OptionsDef) w :
  (forall o t, encode_options_def fmt o = Some t -> decode_options_def fmt t = Some o) ->
  58%N ∉ apworld_name ->
  match encode_options_def fmt options with
  | None => run (cache_insert fmt c base apworld_name version options) w = Some (Err Serialization, w)
  | Some _ =>
      exists w', run (cache_insert fmt c base apworld_name version options) w = Some (Ok tt, w') /\
        cached c w' base apworld_name version = Some (Ok (Some options)) /\
        forall base' apworld_name' version', 58%N ∉ apworld_name' ->
          (base', apworld_name', version') <> (base, apworld_name, version) ->
          cached c w' base' apworld_name' version' = cached c w base' apworld_name' version'
  end.
Proof.
  intros Hcodec Ha. rewrite cache_insert_run. destruct (encode_options_def fmt options) as [t|] eqn:E; [|done].
  eexists; split; [done|]. split.
  - rewrite cached_spec. unfold read_string. simpl. rewrite lookup_insert_eq. simpl.
    by rewrite (Hcodec _ _ E).
  - intros base' a' v' Ha' Hne. rewrite !cached_spec. unfold read_string. simpl.
    rewrite lookup_insert_ne; [done|]. intros Hk. apply Hne. symmetry. by eapply cache_key_inj.
Qed.

Local Abbreviation get_def := (get_options_def fmt otlp queue_error_text).

Lemma run_queued {A} (m : qm A) w :
  run (queued queue_error_text m) w =
  match run m w with
  | Some (r, w) => Some (map_err (fun e => Raised [queue_error_text e]) r, w)
  | None => None
  end.
Proof. unfold queued. rewrite run_prog_bind. by destruct (run m w) as [[r w']|]. Qed.

(** Definitions in the cache are served from there. *)
Lemma get_options_def_cached fuel c q a v b w o :
  cached c w b a v = Some (Ok (Some o)) -> run (get_def fuel c q a v b) w = Some (Ok o, w).
Proof.
  intros Hc%cached_run. unfold get_options_def. rewrite run_lm_bind, run_queued, Hc. done.
Qed.

Lemma queued_get_Ok c w b a v r w' :
  run (queued queue_error_text (cache_get fmt c b a v)) w = Some (Ok r, w') ->
  w' = w /\ cached c w b a v = Some (Ok r).
Proof.
  rewrite run_queued. destruct (run (cache_get fmt c b a v) w) as [[[r'|e] w1]|] eqn:E; [|done|done].
  simpl. intros [= -> ->]. pose proof (cache_get_world _ _ _ _ _ _ _ E) as ->.
  split; [done|]. by apply cached_run.
Qed.

(** A page's definitions are those that the cache holds when it is done. *)
Lemma get_options_def_Ok fuel c q a v b w o w' :
  run (get_def fuel c q a v b) w = Some (Ok o, w') -> cached c w' b a v = Some (Ok (Some o)).
Proof.
  unfold get_options_def. intros (r & w1 & [-> Hr]%queued_get_Ok & Hrun)%lm_bind_Ok.
  destruct r as [o'|]; [by injection Hrun as -> <-|].
  apply lm_bind_Ok in Hrun as (j & w2 & _ & Hrun).
  apply lm_bind_Ok in Hrun as (status & w3 & _ & Hrun).
  destruct status as [[]|]; try (by apply run_lift in Hrun as [? _]);
    apply lm_bind_Ok in Hrun as (r & w4 & [-> Hr']%queued_get_Ok & Hrun);
    apply run_lift in Hrun as [Hrun ->]; by destruct r; simplify_eq.
Qed.

(** What a worker generated is what pages get: after the callback of a job that succeeded, a
    request for its release on its base (the one from before bases when the job names none) is
    answered from the cache, by any server process, without a job.  A job that didn't succeed
    leaves the cache as it was. *)
Theorem generated_definitions_are_served c desc res w :
  (forall o t, encode_options_def fmt o = Some t -> decode_options_def fmt t = Some o) ->
  let base := default (cache_legacy_base c) (g_ap_version (desc_params desc)) in
  let '(apworld_name, version) := g_apworld (desc_params desc) in
  match res_status res, res_result res with
  | Success, Some response =>
      is_Some (encode_options_def fmt (g_options response)) ->
      exists w', run (options_gen_callback fmt c desc res) w = Some (Ok true, w') /\
        forall fuel q, run (get_def fuel c q apworld_name version base) w' = Some (Ok (g_options response), w')
  | _, _ => run (options_gen_callback fmt c desc res) w = Some (Ok true, w)
  end.
Proof.
  intros Hcodec. unfold options_gen_callback. destruct (g_apworld (desc_params desc)) as [a v].
  destruct (res_status res); try done. destruct (res_result res) as [response|]; [|done].
  intros [t Ht]. rewrite bool_decide_eq_true_2 by done. simpl negb. cbv iota.
  rewrite run_bind, cache_insert_run, Ht. eexists; split; [done|]. intros fuel q.
  apply get_options_def_cached. rewrite cached_spec. unfold read_string. simpl.
  rewrite lookup_insert_eq. simpl. by rewrite (Hcodec _ _ Ht).
Qed.
End cache.

(** ** Uploads *)


(** ** Downloads *)

Section downloads.
Context `{SemVer} {LC : Lowercase} (fmt : Formats) (otlp : gmap str str).
Context `{JobIds} `{!Codecs OptionsGenParams OptionsGenResponse}.
Context (queue_error_text : WorkQueueError -> str).
Context (fuel : nat) (c : OptionsCache) (q : WorkQueue OptionsGenParams OptionsGenResponse).
Context (cfg : BaseConfig) (index : IndexSet) (username : option str).
Implicit Types (w : world rstate).

Lemma and_then_Ok {A B} (m : prog (result download_error A)) (f : A -> prog (result download_error B)) w b w' :
  run (and_then m f) w = Some (Ok b, w') ->
  exists a w1, run m w = Some (Ok a, w1) /\ run (f a) w1 = Some (Ok b, w').
Proof.
  unfold and_then. rewrite run_prog_bind. destruct (run m w) as [[[a|e] w1]|]; simpl; [eauto|done|done].
Qed.

Lemma with_status_Ok {A} n (m : lm A) w a w' :
  run (with_status n m) w = Some (Ok a, w') -> run m w = Some (Ok a, w').
Proof.
  unfold with_status. rewrite run_prog_bind. destruct (run m w) as [[[a'|e] w1]|]; simpl; congruence.
Qed.

(** A step of a download that needs nothing of the server. *)
Lemma pure_step_Ok {A B} n (r : result failure A) (f : A -> prog (result download_error B)) w b w' :
  run (and_then (with_status n (lift r)) f) w = Some (Ok b, w') ->
  exists a, r = Ok a /\ run (f a) w = Some (Ok b, w').
Proof.
  intros (a & w1 & Hr%with_status_Ok & Hf)%and_then_Ok. apply run_lift in Hr as [-> ->]. eauto.
Qed.

(** A lookup on an uploaded root that is the one that was written. *)
Lemma root_get game_name player description game_options j k :
  same j (JObject (yaml_root game_name player description game_options)) ->
  option_Forall2 same (j_get j k) (entry_of (yaml_root game_name player description game_options) k).
Proof.
  intros Hs. apply same_object_inv in Hs as (m & -> & Hm). unfold j_get. simpl.
  apply same_entries_get; [|done]. unfold yaml_root. do 4 apply index_insert_NoDup. constructor.
Qed.

Lemma same_str_get o s : option_Forall2 same o (Some (JString s)) -> (v ← o; j_str v) = Some s.
Proof. inversion 1 as [? ? Hs|]; subst. simpl. by rewrite (same_str _ _ Hs). Qed.

Ltac pure_step H :=
  rewrite run_lm_bind; cbn [lift run]; rewrite H; cbn [raised map_err some_or or_panic ok_or];
  cbv beta iota.

(** What an upload has of the document that was written. *)
Lemma uploaded_header game_name player description game_options j :
  ~ reserved game_name ->
  (forall k, option_Forall2 same (j_get j k) (entry_of (yaml_root game_name player description game_options) k)) ->
  edit_header j = Ok (Some player, Some description, game_name).
Proof.
  intros Hres Hroot. unfold edit_header. cbv zeta.
  pose proof (Hroot (lit "name")) as Hn. pose proof (Hroot (lit "description")) as Hd.
  pose proof (Hroot (lit "game")) as Hg. rewrite yaml_root_get in Hn. rewrite yaml_root_get in Hd.
  rewrite yaml_root_get in Hg.
  assert (game_name <> lit "name" /\ game_name <> lit "description" /\ game_name <> lit "game") as (?&?&?)
    by (unfold reserved in Hres; tauto).
  rewrite decide_False in Hn by done. rewrite decide_False, decide_True in Hn by done.
  rewrite decide_False, decide_True in Hd by done.
  do 3 rewrite decide_False in Hg by done. rewrite decide_True in Hg by done.
  rewrite (same_str_get _ _ Hn), (same_str_get _ _ Hd). pose proof (same_str_get _ _ Hg) as Hs.
  destruct (j_get j (lit "game")) as [g|]; [|done]. simpl in Hs |- *. by rewrite Hs.
Qed.

Lemma uploaded_options game_name player description game_options j :
  (forall k, option_Forall2 same (j_get j k) (entry_of (yaml_root game_name player description game_options) k)) ->
  exists m, (v ← j_get j game_name; j_object v) = Some m /\ same_entries m game_options.
Proof.
  intros Hroot. pose proof (Hroot game_name) as Hg. rewrite yaml_root_get, decide_True in Hg by done.
  inversion Hg as [v ? Hs Hv|]; subst. apply same_object_inv in Hs as (m & -> & Hm). by exists m.
Qed.

(** What a page says of an option. *)
Lemma page_option_spec (p : OptionsTpl) defs m k :
  tpl_edit p = Some (after defs no_edit m) -> NoDup m.*1 ->
  is_new_option p k = bool_decide (entry_of m k = None) /\
  get_prefilled p k = (v ← entry_of m k; prefill_of (verdict_of defs (k, v))) /\
  is_outdated p k =
    match entry_of m k with Some v => is_outdated_verdict (verdict_of defs (k, v)) | None => false end.
Proof.
  intros He Hnd. unfold is_new_option, get_prefilled, is_outdated. rewrite He. simpl.
  assert (entry_of m k = None <-> k ∉ m.*1) as Hnone.
  { split.
    - intros Hn ([k' v] & -> & Hin)%list_elem_of_fmap. apply entry_of_elem in Hin; [|done].
      simpl in Hn. congruence.
    - intros Hk. destruct (entry_of m k) as [v|] eqn:E; [|done]. apply entry_of_elem in E; [|done].
      by apply (list_elem_of_fmap_2 fst) in E. }
  split_and!.
  - apply bool_decide_ext. rewrite fold_names, Hnone. set_solver.
  - rewrite fold_prefilled by done. by destruct (_ ≫= _).
  - destruct (entry_of m k) as [v|] eqn:E.
    + apply entry_of_elem in E as Hin; [|done]. destruct (is_outdated_verdict _) eqn:Ev.
      * apply bool_decide_eq_true_2, fold_outdated. right. exists v. split; [done|].
        by destruct (verdict_of _ _).
      * apply bool_decide_eq_false_2. rewrite fold_outdated. intros [?|(v' & Hin' & Hv')]; [set_solver|].
        apply entry_of_elem in Hin'; [|done]. simplify_eq. by rewrite Hv' in Ev.
    + apply bool_decide_eq_false_2. rewrite fold_outdated. intros [?|(v' & Hin' & Hv')]; [set_solver|].
      apply entry_of_elem in Hin'; [|done]. congruence.
Qed.

Lemma edit_yaml_run base text w j player description game_name b i a world latest options e :
  read_yaml fmt text = Ok j -> edit_header j = Ok (player, description, game_name) ->
  requested_base cfg index base = Ok b -> index_for index b = Ok i ->
  find_world i game_name = Some (a, world) -> latest_version world = Some latest ->
  cached fmt c w b a latest = Some (Ok (Some options)) ->
  edit_values options (v ← j_get j game_name; j_object v) = Some e ->
  exists p, run (edit_yaml fmt otlp queue_error_text fuel c q cfg index username base text) w = Some (Ok p, w) /\
    selected_apworld p = Some a /\ selected_version p = Some (version_to_string latest) /\
    tpl_options p = Some options /\ tpl_edit p = Some e /\
    prefilled_player_name p = player /\ prefilled_description p = description.
Proof.
  intros Hr Hh Hb Hi Hw Hl Hc He. unfold edit_yaml.
  pure_step Hr.
  pure_step Hh.
  pure_step Hb.
  pure_step Hi.
  pure_step Hw.
  pure_step Hl.
  rewrite run_lm_bind, (get_options_def_cached _ _ _ _ _ _ _ _ _ _ _ Hc).
  pure_step He.
  eexists; split; [reflexivity|]. done.
Qed.

Lemma download_yaml_inv host a version base form w dl w1 :
  run (download_yaml fmt otlp queue_error_text fuel c q cfg index host a version base form) w = Some (Ok dl, w1) ->
  exists v b i world options,
    version_parse version = Ok v /\ requested_base cfg index base = Ok b /\ index_for index b = Ok i /\
    worlds i !! a = Some world /\ cached fmt c w1 b a v = Some (Ok (Some options)) /\
    yaml_to_string fmt (JObject (yaml_root (name world) (download_player form)
      (download_description form host a (base_query cfg index b))
      (download_options (json_from_str fmt) options form))) = Ok (content dl).
Proof.
  unfold download_yaml. intros (v & Hv & Hrun)%pure_step_Ok.
  apply pure_step_Ok in Hrun as (b & Hb & Hrun). apply pure_step_Ok in Hrun as (i & Hi & Hrun).
  apply pure_step_Ok in Hrun as (world & Hw & Hrun). apply pure_step_Ok in Hrun as (o & _ & Hrun).
  apply and_then_Ok in Hrun as (options & w2 & Ho%with_status_Ok%get_options_def_Ok & Hrun).
  apply pure_step_Ok in Hrun as (t & Ht & Hrun). injection Hrun as <- <-.
  exists v, b, i, world, options. simpl.
  destruct (version_parse version); simplify_eq/=. destruct (requested_base _ _ _); simplify_eq/=.
  destruct (index_for index b); simplify_eq/=. destruct (worlds i !! a); simplify_eq/=.
  split_and!; try done. by destruct (yaml_to_string _ _); simplify_eq/=.
Qed.

(** C13: A downloaded YAML is read back: uploading what the page offered, for the newest release of a
    game whose name is its own and isn't one of the document's other keys, gives the form with
    the values it was downloaded with.  The player and the description are there; every option
    that the form had is no new one, and its value fills the form again (a sure weight as the
    value it is for) unless it is one that the page doesn't take, which is then marked as out of
    date or warned about; options that the form didn't have are new.  Texts of YAML are
    read as what was written, up to the order of entries. *)
Theorem downloads_are_read_back host a version base form dl w w1 :
  (forall m t, yaml_to_string fmt (JObject m) = Ok t -> exists j, read_yaml fmt t = Ok j /\ same j (JObject m)) ->
  run (download_yaml fmt otlp queue_error_text fuel c q cfg index host a version base form) w =
    Some (Ok dl, w1) ->
  (forall b i world, requested_base cfg index base = Ok b -> index_for index b = Ok i ->
     worlds i !! a = Some world ->
     find_world i (name world) = Some (a, world) /\ ok (version_parse version) = latest_version world /\
     ~ reserved (name world)) ->
  exists p e options,
    run (edit_yaml fmt otlp queue_error_text fuel c q cfg index username base (content dl)) w1 = Some (Ok p, w1) /\
    selected_apworld p = Some a /\ prefilled_player_name p = Some (download_player form) /\
    is_Some (prefilled_description p) /\ tpl_options p = Some options /\ tpl_edit p = Some e /\
    forall k d, option_defs options !! k = Some d ->
      match form !! k with
      | None => is_new_option p k = true /\ get_prefilled p k = None /\ is_outdated p k = false
      | Some s =>
          let value := form_value (json_from_str fmt) s in
          is_new_option p k = false /\
          if is_object value && negb (weights_supported d) then
            k ++ lit " (weighted options not supported for this type)" ∈ warnings e
          else if accepted d value then exists v, get_prefilled p k = Some v /\ same v (coalesce value d)
          else is_outdated p k = true
      end.
Proof.
  intros Hyaml (v & b & i & world & options & Hv & Hb & Hi & Hw & Hc & Ht)%download_yaml_inv Hgame.
  destruct (Hgame b i world Hb Hi Hw) as (Hfind & Hlatest & Hres). rewrite Hv in Hlatest. simpl in Hlatest.
  destruct (Hyaml _ _ Ht) as (j & Hj & Hs).
  set (opts := download_options (json_from_str fmt) options form) in *.
  set (root := yaml_root _ _ _ _) in *.
  assert (forall k, option_Forall2 same (j_get j k) (entry_of root k)) as Hroot by (intros; by apply root_get).
  assert (edit_header j = Ok (Some (download_player form),
    Some (download_description form host a (base_query cfg index b)), name world)) as Hh
    by (by apply uploaded_header with (game_options := opts)).
  destruct (uploaded_options _ _ _ _ _ Hroot) as (m & Hm & Hs').
  destruct (edit_yaml_run base _ w1 j _ _ _ b i a world v options (after (option_defs options) no_edit m)
    Hj Hh Hb Hi Hfind (eq_sym Hlatest) Hc) as (p & Hp & Hsa & _ & Hto & Hte & Hpl & Hde).
  { rewrite Hm. apply edit_all_after. }
  exists p, (after (option_defs options) no_edit m), options.
  split_and!; try done; try by rewrite Hde. intros k d Hd.
  pose proof (same_entries_get _ _ k (download_keys_NoDup _ _ _) Hs') as [Hnd Hk].
  rewrite download_get, decide_True in Hk by done.
  destruct (page_option_spec p _ m k Hte Hnd) as (-> & -> & ->).
  destruct (form !! k) as [s|]; [|by inversion Hk].
  inversion Hk as [v' ? Hsame Hv' Heq|]; subst. simpl. symmetry in Hv'.
  split; [done|]. pose proof (verdict_of_spec (option_defs options) k v') as Hverdict.
  rewrite Hd, (same_is_object _ _ Hsame), (same_accepted _ _ _ Hsame) in Hverdict.
  destruct (is_object _ && _); [|destruct (accepted d _)]; rewrite ?Hverdict; [|by eauto using same_coalesce|done].
  apply list_elem_of_omap. exists (k, v'). split; [by apply entry_of_elem|].
  unfold warning_of. by rewrite Hverdict.
Qed.
End downloads.

(** ** Witnesses *)

Section witnesses.
#[local] Existing Instance example_semver.
#[local] Existing Instance ascii_lowercase.
#[local] Existing Instance example_ids.

#[local] Instance f64_eq_dec : EqDecision f64.
Proof. solve_decision. Defined.

#[local] Instance json_eq_dec : EqDecision json.
Proof.
  refine (fix go v1 v2 : Decision (v1 = v2) :=
    let _ : EqDecision json := @go in
    match v1, v2 with
    | JNull, JNull => left _
    | JBool b1, JBool b2 => cast_if (decide (b1 = b2))
    | JInt z1, JInt z2 => cast_if (decide (z1 = z2))
    | JFloat f1, JFloat f2 => cast_if (decide (f1 = f2))
    | JString s1, JString s2 => cast_if (decide (s1 = s2))
    | JArray l1, JArray l2 => cast_if (decide (l1 = l2))
    | JObject m1, JObject m2 => cast_if (decide (m1 = m2))
    | _, _ => right _
    end); abstract congruence.
Defined.

#[local] Instance option_def_eq_dec : EqDecision OptionDef.
Proof. solve_decision. Defined.
#[local] Instance gen_params_eq_dec : EqDecision OptionsGenParams.
Proof. solve_decision. Defined.
#[local] Instance gen_response_eq_dec : EqDecision OptionsGenResponse.
Proof. solve_decision. Defined.

(** Values as trees, so that a text can carry them. *)
Definition leaf : Type := option (bool + Z + (bool + bool + bool * positive * Z) + str).

Definition f64_tree (f : f64) : leaf :=
  match f with
  | SpecFloat.S754_zero s => Some (inl (inr (inl (inl s))))
  | SpecFloat.S754_infinity s => Some (inl (inr (inl (inr s))))
  | SpecFloat.S754_finite s m e => Some (inl (inr (inr (s, m, e))))
  | SpecFloat.S754_nan => None
  end.

Fixpoint to_tree (v : json) : gen_tree leaf :=
  match v with
  | JNull => GenNode 0 []
  | JBool b => GenLeaf (Some (inl (inl (inl b))))
  | JInt z => GenLeaf (Some (inl (inl (inr z))))
  | JFloat f => GenLeaf (f64_tree f)
  | JString s => GenLeaf (Some (inr s))
  | JArray l => GenNode 1 (to_tree <$> l)
  | JObject m => GenNode 2 ((fun e => GenNode 3 [GenLeaf (Some (inr e.1)); to_tree e.2]) <$> m)
  end.

Fixpoint of_tree (t : gen_tree leaf) : json :=
  match t with
  | GenLeaf (Some (inl (inl (inl b)))) => JBool b
  | GenLeaf (Some (inl (inl (inr z)))) => JInt z
  | GenLeaf (Some (inl (inr (inl (inl s))))) => JFloat (SpecFloat.S754_zero s)
  | GenLeaf (Some (inl (inr (inl (inr s))))) => JFloat (SpecFloat.S754_infinity s)
  | GenLeaf (Some (inl (inr (inr (s, m, e))))) => JFloat (SpecFloat.S754_finite s m e)
  | GenLeaf None => JFloat SpecFloat.S754_nan
  | GenLeaf (Some (inr s)) => JString s
  | GenNode 1 ts => JArray (of_tree <$> ts)
  | GenNode 2 ts =>
      JObject ((fun t => match t with
                         | GenNode 3 [GenLeaf (Some (inr k)); v] => (k, of_tree v)
                         | _ => ([], JNull)
                         end) <$> ts)
  | GenNode _ _ => JNull
  end.

Lemma of_to_tree v : of_tree (to_tree v) = v.
Proof.
  revert v. fix IH 1. intros [| | |[]| |l|m]; simpl; try done; f_equal.
  - induction l as [|v l IHl]; csimpl; [done|]. by rewrite IH, IHl.
  - induction m as [|[k v] m IHm]; csimpl; [done|]. by rewrite IH, IHm.
Qed.

#[local] Instance json_countable : Countable json := inj_countable' to_tree of_tree of_to_tree.
#[local] Program Instance option_def_countable : Countable OptionDef :=
  inj_countable' (fun d => (o_default d, o_description d, o_ty d, o_display_name d, o_range d, o_choices d,
                            o_suggestions d, o_valid_keys d))
    (fun '(a, b, c, d, e, f, g, h) => Build_OptionDef a b c d e f g h) _.
Next Obligation. by intros []. Qed.
#[local] Program Instance gen_params_countable : Countable OptionsGenParams :=
  inj_countable' (fun p => (g_apworld p, g_otlp_context p, g_ap_version p))
    (fun '(a, o, v) => {| g_apworld := a; g_otlp_context := o; g_ap_version := v |}) _.
Next Obligation. by intros []. Qed.
#[local] Program Instance gen_response_countable : Countable OptionsGenResponse :=
  inj_countable' (fun r => (g_options r, g_error r)) (fun '(o, e) => {| g_options := o; g_error := e |}) _.
Next Obligation. by intros []. Qed.
#[local] Existing Instance example_codecs.

Definition ver (n : N) : Version := n.

Definition ex_def (ty : string) (d : json) : OptionDef :=
  {| o_default := d; o_description := []; o_ty := lit ty; o_display_name := []; o_range := Some (1, 10)%Z;
     o_choices := Some [lit "easy"; lit "hard"]; o_suggestions := None; o_valid_keys := None |}.
Definition ex_options : OptionsDef :=
  [(lit "Game Options", [(lit "speed", ex_def "range" (JInt 3)); (lit "mode", ex_def "choice" (JString (lit "easy")));
                         (lit "goal", ex_def "choice" (JString (lit "easy")))])].
Definition ex_form : gmap str str :=
  {[lit "player" := lit "ann"; lit "speed" := lit "5"; lit "mode" := lit "odd"]}.
Definition ex_read_json (s : str) : option json := JInt <$> parse_i64 s.

(** The one document that is written. *)
Definition ex_root : json :=
  JObject (yaml_root (lit "Custom") (lit "ann") (lit "Generated on https://h/options/custom")
             (download_options ex_read_json ex_options ex_form)).
Definition ex_formats : Formats := {|
  encode_options_def := fun o => if decide (o = ex_options) then Some (lit "defs") else None;
  decode_options_def := fun s => if decide (s = lit "defs") then Some ex_options else None;
  read_yaml := fun s => if decide (s = lit "doc") then Ok ex_root else Err (lit "no");
  yaml_to_string := fun j => if decide (j = ex_root) then Ok (lit "doc") else Err (lit "no");
  json_from_str := ex_read_json;
|}.

(** One base, whose index has one world with one release. *)
Definition ex_world : World :=
  {| w_path := Path true [lit "worlds"; lit "custom.toml"]; Apwm.name := lit "Custom";
     display_name := lit "Custom"; default_url := None; default_version := Latest; home := None;
     versions := {[ver 2 := ODefault]}; disabled := false; supported := false; tags := [] |}.
Definition ex_index : Index :=
  {| i_path := Path true [lit "index.toml"]; archipelago_repo := []; archipelago_version := ver 6;
     index_homepage := []; index_dir := Path false [lit "worlds"]; worlds := {[lit "custom" := ex_world]} |}.
Definition ex_set : IndexSet :=
  {| s_path := Path true [lit "index.toml"]; legacy_base := ver 6; s_bases := {[ver 6 := ex_index]};
     index_file := {| f_archipelago_repo := []; f_archipelago_version := ver 6;
                      f_index_homepage := []; f_index_dir := Path false [lit "worlds"];
                      f_bases := ∅ |};
     world_defs := ∅ |}.
Definition ex_config : BaseConfig := {| enabled := None; b_default := None |}.
Definition ex_cache : OptionsCache := {| cache_legacy_base := ver 6 |}.
Definition ex_queue : WorkQueue OptionsGenParams OptionsGenResponse :=
  {| queue_key := []; claims_key := []; results_key := []; resolved_key := []; stats_key := [];
     reclaim_timeout := 0; claim_timeout := 0; result_callback := None;
     pending := {| default_key := []; partitions_key := []; partition_prefix := []; default_partition := None |} |}.
Definition ex_error_text : WorkQueueError -> str := fun _ => [].

Definition ex_empty : world rstate := WqProg.World (RState ∅ []) 20 0 [] [].
Definition ex_filled : world rstate :=
  WqProg.World (RState {[lit "options_def:custom:2" := RString (lit "defs") None]} []) 20 0 [] [].

Lemma ex_version_chars (v : Version) : forallb version_char (version_to_string v) = true.
Proof.
  simpl. destruct (N_to_str_parse v) as (_ & _ & Hall). apply forallb_forall. intros x Hx.
  rewrite Forall_forall in Hall. apply list_elem_of_In in Hx. unfold version_char, is_ascii_alphanumeric.
  by rewrite (Hall x Hx), orb_true_r.
Qed.

Lemma ex_roundtrip o t :
  encode_options_def ex_formats o = Some t -> decode_options_def ex_formats t = Some o.
Proof. simpl. case_decide as Ho; [|done]. intros [= <-]. by rewrite decide_True, Ho. Qed.

Lemma ex_yaml_roundtrip m t :
  yaml_to_string ex_formats (JObject m) = Ok t -> exists j, read_yaml ex_formats t = Ok j /\ same j (JObject m).
Proof.
  simpl. case_decide as Ho; [|done]. intros [= <-]. exists ex_root. rewrite decide_True by done.
  split; [done|]. rewrite Ho. constructor.
Qed.

Lemma cache_keeps_definitions_witness :
  exists w', run (cache_insert ex_formats ex_cache (ver 6) (lit "custom") (ver 2) ex_options) ex_empty =
      Some (Ok tt, w') /\
    cached ex_formats ex_cache w' (ver 6) (lit "custom") (ver 2) = Some (Ok (Some ex_options)) /\
    cached ex_formats ex_cache w' (ver 7) (lit "custom") (ver 2) = Some (Ok None).
Proof.
  destruct (cache_keeps_definitions ex_formats ex_version_chars ex_cache (ver 6) (lit "custom") (ver 2)
    ex_options ex_empty ex_roundtrip) as (w' & Hrun & Hc & Hother); [by vm_compute; set_solver|].
  exists w'. split; [exact Hrun|]. split; [exact Hc|].
  rewrite Hother; [vm_compute; reflexivity|by vm_compute; set_solver|intros [=]].
Defined.

Definition ex_job : JobDesc OptionsGenParams :=
  {| desc_params := {| g_apworld := (lit "custom", ver 2); g_otlp_context := ∅; g_ap_version := Some (ver 7) |};
     submitted_at := 0; deadline := 30; desc_partition := Some (lit "7") |}.

Lemma generated_definitions_are_served_witness :
  exists w', run (options_gen_callback ex_formats ex_cache ex_job
      {| res_status := Success; res_result := Some {| g_options := ex_options; g_error := None |} |}) ex_empty =
      Some (Ok true, w') /\
    run (get_options_def ex_formats ∅ ex_error_text 1 ex_cache ex_queue (lit "custom") (ver 2) (ver 7)) w' =
      Some (Ok ex_options, w').
Proof.
  destruct (generated_definitions_are_served ex_formats ∅ ex_error_text ex_cache ex_job
    {| res_status := Success; res_result := Some {| g_options := ex_options; g_error := None |} |} ex_empty
    ex_roundtrip) as (w' & Hrun & Hget); [by exists (lit "defs")|].
  exists w'. split; [exact Hrun|]. apply Hget.
Defined.

Definition ex_uploaded : list (str * json) :=
  [(lit "speed", JObject [(lit "4", JInt 50); (lit "random", JInt 0)]); (lit "mode", JString (lit "odd"));
   (lit "lost", JInt 1)].


Definition ex_download : YamlDownload :=
  {| content := lit "doc"; disposition := lit "attachment; filename=" ++ [34%N] ++ lit "ann.yaml" ++ [34%N] |}.

Lemma ex_index_for : index_for ex_set (ver 6) = Ok ex_index.
Proof. unfold index_for, get, ex_set. cbn [s_bases]. by rewrite lookup_singleton_eq. Qed.
Lemma ex_found : find_world ex_index (lit "Custom") = Some (lit "custom", ex_world).
Proof. vm_compute. reflexivity. Qed.

Lemma downloads_are_read_back_witness :
  run (download_yaml ex_formats ∅ ex_error_text 1 ex_cache ex_queue ex_config ex_set (lit "h") (lit "custom")
         (lit "2") None ex_form) ex_filled = Some (Ok ex_download, ex_filled) /\
  exists p,
    run (edit_yaml ex_formats ∅ ex_error_text 1 ex_cache ex_queue ex_config ex_set None None
           (content ex_download)) ex_filled = Some (Ok p, ex_filled) /\
    (exists v, get_prefilled p (lit "speed") = Some v /\ same v (JInt 5)) /\
    is_outdated p (lit "mode") = true /\ is_new_option p (lit "goal") = true.
Proof.
  assert (Hd : run (download_yaml ex_formats ∅ ex_error_text 1 ex_cache ex_queue ex_config ex_set (lit "h")
    (lit "custom") (lit "2") None ex_form) ex_filled = Some (Ok ex_download, ex_filled))
    by (vm_compute; reflexivity).
  split; [exact Hd|].
  edestruct (downloads_are_read_back ex_formats ∅ ex_error_text 1 ex_cache ex_queue ex_config ex_set None
    (lit "h") (lit "custom") (lit "2") None ex_form ex_download ex_filled ex_filled ex_yaml_roundtrip Hd)
    as (p & e & o & Hp & _ & _ & _ & Ho & He & Hall).
  { intros b i w Hb Hi Hw. assert (b = ver 6) as -> by (vm_compute in Hb; by injection Hb). rewrite ex_index_for in Hi. injection Hi as <-.
    unfold ex_index in Hw. simpl in Hw. rewrite lookup_singleton_eq in Hw. injection Hw as <-.
    split_and!; [exact ex_found|vm_compute; reflexivity|].
    unfold reserved. by vm_compute; intros [|[|]]. }
  assert (Hr : match run (edit_yaml ex_formats ∅ ex_error_text 1 ex_cache ex_queue ex_config ex_set None None
      (content ex_download)) ex_filled with Some (Ok p, _) => tpl_options p | _ => None end = Some ex_options)
    by (vm_compute; reflexivity).
  rewrite Hp, Ho in Hr. injection Hr as ->.
  exists p. split; [exact Hp|]. clear Hp Hd Ho He.
  pose proof (Hall (lit "speed") (ex_def "range" (JInt 3)) ltac:(vm_compute; reflexivity)) as Hs.
  pose proof (Hall (lit "mode") (ex_def "choice" (JString (lit "easy"))) ltac:(vm_compute; reflexivity)) as Hm.
  pose proof (Hall (lit "goal") (ex_def "choice" (JString (lit "easy"))) ltac:(vm_compute; reflexivity)) as Hg.
  assert (ex_form !! lit "speed" = Some (lit "5")) as Hf by (vm_compute; reflexivity). rewrite Hf in Hs. clear Hf.
  assert (ex_form !! lit "mode" = Some (lit "odd")) as Hf by (vm_compute; reflexivity). rewrite Hf in Hm. clear Hf.
  assert (ex_form !! lit "goal" = None) as Hf by (vm_compute; reflexivity). rewrite Hf in Hg. clear Hf.
  split_and!; [apply Hs|apply Hm|apply Hg].
Defined.
End witnesses.
