(* ===== verification/LobbyDb.v ===== *)
(** * The lobby's database, and requests that use it

    The tables of [lobby/src/db/] and the queries on them.  A request is a program of [LobbyYaml]
    that also reads and writes the tables ([hm]): its error leaves the tables as they were then.
    A query is one step; that the connection fails is left out. *)

From S2P Require Import Prelude Ord RustStd F64 Redis WqCore WqProg Wq.
From S2P Require Import Apwm ApwmIndex LobbyNames LobbyYaml.

(** ** Rows *)

(* src: lobby/src/db/gen.rs:16-22 GenerationStatus *)
Inductive GenerationStatus := GenPending | GenRunning | GenFailed | GenDone.

#[export] Instance GenerationStatus_eq_dec : EqDecision GenerationStatus.
Proof. solve_decision. Defined.

(* src: lobby/src/db/gen.rs:42-49 GenerationStatus::as_str *)
Definition generation_status_as_str (s : GenerationStatus) : str :=
  match s with
  | GenPending => lit "Pending" | GenRunning => lit "Running"
  | GenFailed => lit "Failed" | GenDone => lit "Done"
  end.

(* src: lobby/src/db/gen.rs:27-38 GenerationStatus::from_str *)
Definition generation_status_from_str (s : str) : result error GenerationStatus :=
  if str_eqb s (lit "Pending") then Ok GenPending
  else if str_eqb s (lit "Running") then Ok GenRunning
  else if str_eqb s (lit "Failed") then Ok GenFailed
  else if str_eqb s (lit "Done") then Ok GenDone
  else bail (lit "Unknown variant for GenerationStatus: " ++ s).

(* src: lobby/src/db/room_info.rs:8-14 RoomInfo *)
Record RoomInfo := { ri_host : str; ri_port : Z }.
(* src: lobby/src/db/user.rs:9-15 DiscordUser *)
Record DiscordUser := { username : str; u_room_creation_allowed : bool }.

(** [anyhow]'s [context] puts its text before the error's. *)
Definition in_context {A} (c : string) (r : result failure A) : result failure A :=
  match r with Err (Raised e) => Err (Raised (lit c :: e)) | r => r end.

(** An answer of the API that is no success. *)
(* src: lobby/src/error.rs:18-22 ApiError *)
Record ApiError := { api_error : failure; api_status : N }.

(** Errors of pages and of the API: the latter have a status, which is 500 where none is named. *)
Class RequestError (E : Type) := { from_failure : failure -> E }.
#[export] Instance page_error : RequestError failure := { from_failure := fun f => f }.
#[export] Instance api_request_error : RequestError ApiError :=
  { from_failure := fun f => {| api_error := f; api_status := 500 |} }.

Section db.
Context {SV : SemVer} {Features : Type} `{JobIds}.

(* src: lobby/src/db/gen.rs:52-56 Generation *)
Record Generation := { gen_job : JobId; gen_status : GenerationStatus }.

(* src: lobby/src/db/room.rs:106-117 RoomTemplate *)
Record RoomTemplate := {
  tpl_id : str;
  tpl_settings : RoomSettings;
  tpl_global : bool;
  tpl_name : str;
  tpl_ap_version : option Version;
}.

(** A row of [yamls]: [Yaml] and the columns that it leaves out. *)
(* src: lobby/src/schema.rs:105-132 yamls *)
Record YamlRow := {
  row_yaml : Yaml;
  row_room : str;
  row_features : Features;
  row_created : Z;
}.

(** The tables, by their primary keys; a room's generation and server are keyed by the room.  [out_dir] has
    what workers and uploads put under the directory of generations, per job in the order it is
    listed in.  [drawn] counts the identifiers and passwords that were drawn. *)
Record Db := {
  rooms : gmap str Room;
  yamls : gmap str YamlRow;
  generations : gmap str Generation;
  room_infos : gmap str RoomInfo;
  users : gmap Z DiscordUser;
  templates : gmap str RoomTemplate;
  out_dir : gmap str (list (str * str));
  drawn : nat;
}.

Definition with_rooms (f : gmap str Room -> gmap str Room) (db : Db) : Db :=
  {| rooms := f (rooms db); yamls := yamls db; generations := generations db;
     room_infos := room_infos db; users := users db; templates := templates db;
     out_dir := out_dir db; drawn := drawn db |}.
Definition with_yamls (f : gmap str YamlRow -> gmap str YamlRow) (db : Db) : Db :=
  {| rooms := rooms db; yamls := f (yamls db); generations := generations db;
     room_infos := room_infos db; users := users db; templates := templates db;
     out_dir := out_dir db; drawn := drawn db |}.
Definition with_generations (f : gmap str Generation -> gmap str Generation) (db : Db) : Db :=
  {| rooms := rooms db; yamls := yamls db; generations := f (generations db);
     room_infos := room_infos db; users := users db; templates := templates db;
     out_dir := out_dir db; drawn := drawn db |}.
Definition with_room_infos (f : gmap str RoomInfo -> gmap str RoomInfo) (db : Db) : Db :=
  {| rooms := rooms db; yamls := yamls db; generations := generations db;
     room_infos := f (room_infos db); users := users db; templates := templates db;
     out_dir := out_dir db; drawn := drawn db |}.
Definition with_users (f : gmap Z DiscordUser -> gmap Z DiscordUser) (db : Db) : Db :=
  {| rooms := rooms db; yamls := yamls db; generations := generations db;
     room_infos := room_infos db; users := f (users db); templates := templates db;
     out_dir := out_dir db; drawn := drawn db |}.
Definition with_templates (f : gmap str RoomTemplate -> gmap str RoomTemplate) (db : Db) : Db :=
  {| rooms := rooms db; yamls := yamls db; generations := generations db;
     room_infos := room_infos db; users := users db; templates := f (templates db);
     out_dir := out_dir db; drawn := drawn db |}.
Definition with_out_dir (f : gmap str (list (str * str)) -> gmap str (list (str * str))) (db : Db) : Db :=
  {| rooms := rooms db; yamls := yamls db; generations := generations db;
     room_infos := room_infos db; users := users db; templates := templates db;
     out_dir := f (out_dir db); drawn := drawn db |}.
Definition draw (db : Db) : Db :=
  {| rooms := rooms db; yamls := yamls db; generations := generations db;
     room_infos := room_infos db; users := users db; templates := templates db;
     out_dir := out_dir db; drawn := S (drawn db) |}.

(** ** Requests *)

Section requests.
Context {E : Type} `{!RequestError E}.

Definition hm (A : Type) : Type := Db -> prog (result E A * Db).

#[export] Instance hm_ret : MRet hm := fun A a db => Ret (Ok a, db).
#[export] Instance hm_bind : MBind hm := fun A B f m db =>
  prog_bind (fun rd => match rd.1 with Ok a => f a rd.2 | Err e => Ret (Err e, rd.2) end) (m db).

Definition answer {A} (r : result E A) : hm A := fun db => Ret (r, db).
Definition query {A} (f : Db -> A) : hm A := fun db => Ret (Ok (f db), db).
Definition change (f : Db -> Db) : hm unit := fun db => Ret (Ok tt, f db).

(** A step that doesn't use the tables. *)
Definition task {A} (m : lm A) : hm A :=
  fun db => prog_bind (fun r => Ret (map_err from_failure r, db)) m.
Definition step {A} (r : result failure A) : hm A := task (lift r).
Definition refuse {A} (m : string) : hm A := step (raise (lit m)).
Definition utc_now : hm Z := fun db => Vis UtcNow (fun t => Ret (Ok t, db)).

(** [conn.transaction]. *)
Definition transaction {A} (m : hm A) : hm A := fun db =>
  prog_bind (fun rd => Ret (rd.1, match rd.1 with Ok _ => rd.2 | Err _ => db end)) (m db).

(** Identifiers and passwords are random: the [n]-th one that is drawn. *)
Definition fresh {A} (f : nat -> A) : hm A := fun db => Ret (Ok (f (drawn db)), draw db).

(** A query that finds its row or fails. *)
Definition found {A} (f : Db -> option A) : hm A := fun db =>
  Ret (map_err from_failure (match f db with
                             | Some a => Ok a
                             | None => raise (lit "Record not found")
                             end), db).

(** ** Rooms *)

(* src: lobby/src/db/room.rs:232-239 get_room *)
Definition get_room (id : str) : hm Room := found (fun db => rooms db !! id).

(* src: lobby/src/db/room.rs:273-285 get_room_with_info *)
Definition get_room_with_info (id : str) : hm (Room * option RoomInfo) :=
  found (fun db => room ← rooms db !! id; Some (room, room_infos db !! id)).

(** What goes with a room, by the [ON DELETE CASCADE]s of the schema. *)
(* src: lobby/src/db/room.rs:222-230 delete_room *)
Definition delete_room (id : str) : hm unit :=
  change (fun db =>
    with_rooms (delete id) (with_yamls (filter (fun e => row_room e.2 <> id))
      (with_generations (delete id) (with_room_infos (delete id) db)))).

Definition update_settings (f : RoomSettings -> RoomSettings) (v : Version -> Version) (r : Room) : Room :=
  {| room_id := room_id r; settings := f (settings r); from_template_id := from_template_id r;
     ap_version := v (ap_version r) |}.
Definition set_manifest (m : Manifest) (s : RoomSettings) : RoomSettings :=
  {| room_name := room_name s; close_date := close_date s; description := description s; room_url := room_url s;
     author_id := author_id s; yaml_validation := yaml_validation s; allow_unsupported := allow_unsupported s;
     yaml_limit_per_user := yaml_limit_per_user s; yaml_limit_bypass_list := yaml_limit_bypass_list s;
     manifest := m; show_apworlds := show_apworlds s; created_at := created_at s; updated_at := updated_at s;
     allow_invalid_yamls := allow_invalid_yamls s; meta_file := meta_file s;
     is_bundle_room := is_bundle_room s; locked := locked s |}.
(** The trigger on updates. *)
Definition set_updated_at (t : Z) (s : RoomSettings) : RoomSettings :=
  {| room_name := room_name s; close_date := close_date s; description := description s; room_url := room_url s;
     author_id := author_id s; yaml_validation := yaml_validation s; allow_unsupported := allow_unsupported s;
     yaml_limit_per_user := yaml_limit_per_user s; yaml_limit_bypass_list := yaml_limit_bypass_list s;
     manifest := manifest s; show_apworlds := show_apworlds s; created_at := created_at s; updated_at := t;
     allow_invalid_yamls := allow_invalid_yamls s; meta_file := meta_file s;
     is_bundle_room := is_bundle_room s; locked := locked s |}.

(* src: lobby/src/db/room.rs:194-205 update_room_manifest *)
Definition update_room_manifest (id : str) (m : Manifest) : hm unit :=
  t ← utc_now;
  change (with_rooms (alter (update_settings (fun s => set_updated_at t (set_manifest m s)) (fun v => v)) id)).

(* src: lobby/src/db/room.rs:209-220 update_room_ap_version *)
Definition update_room_ap_version (id : str) (v : Version) : hm unit :=
  t ← utc_now;
  change (with_rooms (alter (update_settings (set_updated_at t) (fun _ => v)) id)).

(** Absent columns stay as they are in an update; a new room has an author. *)
(* src: lobby/src/db/room.rs:16-38 NewRoom *)
Record NewRoom := {
  nr_id : str;
  nr_name : str;
  nr_close_date : Z;
  nr_description : str;
  nr_room_url : str;
  nr_author_id : option Z;
  nr_yaml_limit_per_user : option Z;
  nr_yaml_validation : bool;
  nr_allow_unsupported : bool;
  nr_yaml_limit_bypass_list : list Z;
  nr_manifest : Manifest;
  nr_show_apworlds : bool;
  nr_from_template_id : option (option str);
  nr_allow_invalid_yamls : bool;
  nr_meta_file : str;
  nr_is_bundle_room : bool;
  nr_locked : bool;
  nr_ap_version : Version;
}.

Definition room_of (n : NewRoom) (author created updated : Z) (template : option str) : Room :=
  {| room_id := nr_id n;
     settings := {| room_name := nr_name n; close_date := nr_close_date n; description := nr_description n;
       room_url := nr_room_url n; author_id := author; yaml_validation := nr_yaml_validation n;
       allow_unsupported := nr_allow_unsupported n; yaml_limit_per_user := nr_yaml_limit_per_user n;
       yaml_limit_bypass_list := nr_yaml_limit_bypass_list n; manifest := nr_manifest n;
       show_apworlds := nr_show_apworlds n; created_at := created; updated_at := updated;
       allow_invalid_yamls := nr_allow_invalid_yamls n; meta_file := nr_meta_file n;
       is_bundle_room := nr_is_bundle_room n; locked := nr_locked n |};
     from_template_id := template; ap_version := nr_ap_version n |}.

(** The author has to be a known user; without one the column's default is that of no user. *)
(* src: lobby/src/db/room.rs:156-166 create_room *)
Definition create_room (n : NewRoom) : hm Room :=
  t ← utc_now;
  let author := default (-1)%Z (nr_author_id n) in
  let room := room_of n author t t (default None (nr_from_template_id n)) in
  _ ← found (fun db => users db !! author);
  _ ← change (with_rooms <[nr_id n := room]>);
  mret room.

(** A YAML that isn't validated any more. *)
(* src: lobby/src/db/room.rs:173-184 update_room *)
Definition no_validation (t : Z) (row : YamlRow) : YamlRow :=
  {| row_yaml := update_yaml_status Unknown None [] t (row_yaml row); row_room := row_room row;
     row_features := row_features row; row_created := row_created row |}.

(* src: lobby/src/db/room.rs:168-192 update_room *)
Definition update_room (n : NewRoom) : hm Room :=
  t ← utc_now;
  _ ← (if nr_yaml_validation n then mret tt
       else change (with_yamls (fmap (fun row =>
              if bool_decide (row_room row = nr_id n) then no_validation t row else row))));
  old ← found (fun db => rooms db !! nr_id n);
  let room := room_of n (default (author_id (settings old)) (nr_author_id n)) (created_at (settings old)) t
                (default (from_template_id old) (nr_from_template_id n)) in
  _ ← change (with_rooms <[nr_id n := room]>);
  mret room.

(** The name of a room's author, and where the room is hosted. *)
(* src: lobby/src/db/room.rs:254-271 get_room_and_author *)
Definition get_room_and_author (id : str) : hm (Room * str * option RoomInfo) :=
  found (fun db => room ← rooms db !! id; author ← users db !! author_id (settings room);
                   Some (room, username author, room_infos db !! id)).

(** ** YAMLs *)

(* src: lobby/src/db/yaml.rs:61-75 YamlWithoutContent *)
Record YamlWithoutContent := {
  yw_id : str;
  yw_player_name : str;
  yw_game : str;
  yw_owner_id : Z;
  yw_features : Features;
  yw_validation_status : YamlValidationStatus;
  yw_patch : option str;
  yw_bundle_id : str;
  yw_password : option str;
  yw_created_at : Z;
  yw_last_edited_by_name : option str;
}.
Definition without_content (row : YamlRow) : YamlWithoutContent :=
  let y := row_yaml row in
  {| yw_id := yaml_id_ y; yw_player_name := player_name y; yw_game := game y; yw_owner_id := owner_id y;
     yw_features := row_features row; yw_validation_status := validation_status y; yw_patch := patch y;
     yw_bundle_id := bundle_id y; yw_password := password y; yw_created_at := row_created row;
     yw_last_edited_by_name := last_edited_by_name y |}.

(** The rows of a room, by their identifiers. *)
Definition rows_of (db : Db) (id : str) : list YamlRow :=
  snd <$> bt_iter (filter (fun e => row_room e.2 = id) (yamls db)).

Definition room_exists (id : str) : hm unit := fun db =>
  Ret (map_err from_failure (match rooms db !! id with
                             | Some _ => Ok tt
                             | None => raise (lit "Couldn't get room")
                             end), db).

(** An owner is always a known user. *)
(* src: lobby/src/db/yaml.rs:95-116 get_yamls_for_room_with_author_names *)
Definition get_yamls_for_room_with_author_names (id : str) : hm (list (YamlWithoutContent * str)) :=
  _ ← room_exists id;
  query (fun db => omap (fun row => u ← users db !! owner_id (row_yaml row);
                                    Some (without_content row, username u)) (rows_of db id)).

(* src: lobby/src/db/yaml.rs:118-138 get_yamls_for_room *)
Definition get_yamls_for_room (id : str) : hm (list Yaml) :=
  _ ← room_exists id;
  query (fun db => row_yaml <$> rows_of db id).

(* src: lobby/src/db/yaml.rs:90-93 YamlBundle *)
Definition YamlBundle : Type := list Yaml.

(** Neighbours with the same bundle, once sorted by it. *)
Fixpoint chunk_by (ys : list Yaml) : list YamlBundle :=
  match ys with
  | [] => []
  | y :: ys =>
      match chunk_by ys with
      | (y' :: b) :: bs =>
          if str_eqb (bundle_id y) (bundle_id y') then (y :: y' :: b) :: bs else [y] :: (y' :: b) :: bs
      | bs => [y] :: bs
      end
  end.

(* src: lobby/src/db/yaml.rs:140-156 get_bundles_for_room *)
Definition get_bundles_for_room (id : str) : hm (list YamlBundle) :=
  ys ← get_yamls_for_room id;
  mret (chunk_by (sort_by (fun a b => str_leb (bundle_id a) (bundle_id b)) ys)).

(* src: lobby/src/db/yaml.rs:20-35 NewYaml *)
Record NewYaml := {
  ny_id : str;
  ny_bundle_id : str;
  ny_room_id : str;
  ny_owner_id : Z;
  ny_content : str;
  ny_player_name : str;
  ny_game : str;
  ny_features : Features;
  ny_validation_status : YamlValidationStatus;
  ny_apworlds : list (str * Version);
  ny_last_error : option str;
  ny_password : option str;
}.
Definition row_of (n : NewYaml) (t : Z) : YamlRow :=
  {| row_yaml := {| yaml_id_ := ny_id n; content := ny_content n; game := ny_game n;
       player_name := ny_player_name n; owner_id := ny_owner_id n;
       validation_status := ny_validation_status n; yaml_apworlds := ny_apworlds n;
       last_validation_time := t; last_error := ny_last_error n; patch := None; bundle_id := ny_bundle_id n;
       password := ny_password n; edited_content := None; last_edited_by := None;
       last_edited_by_name := None; last_edited_at := None |};
     row_room := ny_room_id n; row_features := ny_features n; row_created := t |}.

(** The foreign keys: the room and the owner exist. *)
(* src: lobby/src/db/yaml.rs:158-166 add_yaml_to_room *)
Definition add_yaml_to_room (n : NewYaml) : hm unit :=
  t ← utc_now;
  _ ← found (fun db => rooms db !! ny_room_id n);
  _ ← found (fun db => users db !! ny_owner_id n);
  change (with_yamls <[ny_id n := row_of n t]>).

(* src: lobby/src/db/yaml.rs:168-175 remove_yaml *)
Definition remove_yaml (id : str) : hm unit := change (with_yamls (delete id)).
(* src: lobby/src/db/yaml.rs:177-184 remove_bundle *)
Definition remove_bundle (id : str) : hm unit :=
  change (with_yamls (filter (fun e => bundle_id (row_yaml e.2) <> id))).

Definition row_in_room (db : Db) (room id : str) : option YamlRow :=
  row ← yamls db !! id; if decide (row_room row = room) then Some row else None.

(* src: lobby/src/db/yaml.rs:195-207 get_yaml_in_room *)
Definition get_yaml_in_room (room id : str) : hm Yaml :=
  found (fun db => row_yaml <$> row_in_room db room id).
(* src: lobby/src/db/yaml.rs:209-222 get_yaml_in_room_with_owner_name *)
Definition get_yaml_in_room_with_owner_name (room id : str) : hm (Yaml * str) :=
  found (fun db => row ← row_in_room db room id; u ← users db !! owner_id (row_yaml row);
                   Some (row_yaml row, username u)).

(** In any order: the order of identifiers here. *)
(* src: lobby/src/db/yaml.rs:224-242 get_bundle_by_id *)
Definition get_bundle_by_id (id : str) : hm YamlBundle :=
  b ← query (fun db => (fun e => row_yaml e.2) <$>
               bt_iter (filter (fun e => bundle_id (row_yaml e.2) = id) (yamls db)));
  match b with
  | [] => refuse "This YAML bundle does not exist"
  | b => mret b
  end.

(** A YAML whose row changes with [f]; a row that isn't there is nothing to change. *)
Definition update_yaml (id : str) (f : Yaml -> Yaml) : hm unit :=
  change (with_yamls (alter (fun row =>
    {| row_yaml := f (row_yaml row); row_room := row_room row; row_features := row_features row;
       row_created := row_created row |}) id)).

(* src: lobby/src/db/yaml.rs:257-268 reset_yaml_validation_status_for_room *)
Definition reset_yaml_validation_status_for_room (id : str) : hm unit :=
  change (with_yamls (fmap (fun row =>
    if bool_decide (row_room row = id) then
      {| row_yaml := reset_yaml_validation_status (row_yaml row); row_room := row_room row;
         row_features := row_features row; row_created := row_created row |}
    else row))).

Definition set_patch (p : option str) (y : Yaml) : Yaml := {|
  yaml_id_ := yaml_id_ y; content := content y; game := game y; player_name := player_name y;
  owner_id := owner_id y; validation_status := validation_status y; yaml_apworlds := yaml_apworlds y;
  last_validation_time := last_validation_time y; last_error := last_error y; patch := p;
  bundle_id := bundle_id y; password := password y; edited_content := edited_content y;
  last_edited_by := last_edited_by y; last_edited_by_name := last_edited_by_name y;
  last_edited_at := last_edited_at y |}.
Definition set_owner (owner : Z) (pw : option str) (y : Yaml) : Yaml := {|
  yaml_id_ := yaml_id_ y; content := content y; game := game y; player_name := player_name y;
  owner_id := owner; validation_status := validation_status y; yaml_apworlds := yaml_apworlds y;
  last_validation_time := last_validation_time y; last_error := last_error y; patch := patch y;
  bundle_id := bundle_id y; password := pw; edited_content := edited_content y;
  last_edited_by := last_edited_by y; last_edited_by_name := last_edited_by_name y;
  last_edited_at := last_edited_at y |}.

Definition set_row_patch (p : option str) (row : YamlRow) : YamlRow :=
  {| row_yaml := set_patch p (row_yaml row); row_room := row_room row; row_features := row_features row;
     row_created := row_created row |}.
Definition clear_patches (id : str) : gmap str YamlRow -> gmap str YamlRow :=
  fmap (fun row => if bool_decide (row_room row = id) then set_row_patch None row else row).

(** One association after the other, in some order. *)
(* src: lobby/src/db/yaml.rs:292-319 associate_patch_files *)
Definition associate_patch_files (associations : list (str * str)) (id : str) : hm unit :=
  transaction
    (_ ← change (with_yamls (clear_patches id));
     change (with_yamls (fun rows =>
       fold_left (fun rows a => alter (set_row_patch (Some a.2)) a.1 rows) associations rows))).

(* src: lobby/src/db/yaml.rs:321-333 update_yaml_password *)
Definition update_yaml_password (id : str) (pw : option str) : hm unit :=
  update_yaml id (fun y => set_owner (owner_id y) pw y).
(* src: lobby/src/db/yaml.rs:396-412 update_yaml_owner *)
Definition update_yaml_owner (id : str) (owner : Z) (pw : option str) : hm unit :=
  update_yaml id (set_owner owner pw).

(* src: lobby/src/db/yaml.rs:335-350 YamlBundle *)
Definition bundle_as_yaml (b : YamlBundle) : str :=
  join ([10%N] ++ lit "---" ++ [10%N]) (current_content <$> b).
Definition bundle_file_name (b : YamlBundle) : option str :=
  y ← head b; Some (sanitize_yaml_name (player_name y)).
Definition bundle_owner_id (b : YamlBundle) : option Z := owner_id <$> head b.

(** ** Generations *)

(* src: lobby/src/db/gen.rs:66-87 get_generation_for_room *)
Definition get_generation_for_room (id : str) : hm (option Generation) := query (fun db => generations db !! id).

(** The room is the primary key: a second generation of a room is an error. *)
Definition insert_generation (status : GenerationStatus) (id : str) (j : JobId) : hm unit :=
  _ ← found (fun db => rooms db !! id);
  taken ← query (fun db => bool_decide (is_Some (generations db !! id)));
  if taken : bool then refuse "duplicate key value violates unique constraint"
  else change (with_generations <[id := {| gen_job := j; gen_status := status |}]>).
(* src: lobby/src/db/gen.rs:89-104 insert_generation_for_room *)
Definition insert_generation_for_room := insert_generation GenPending.
(* src: lobby/src/db/gen.rs:106-120 insert_generation_for_room_as_done *)
Definition insert_generation_for_room_as_done := insert_generation GenDone.

(* src: lobby/src/db/gen.rs:122-145 delete_generation_for_room *)
Definition delete_generation_for_room (id : str) : hm unit :=
  transaction
    (_ ← change (with_generations (delete id));
     change (with_yamls (clear_patches id))).

(* src: lobby/src/db/gen.rs:147-159 update_generation_status_for_room *)
Definition update_generation_status_for_room (id : str) (status : GenerationStatus) : hm unit :=
  change (with_generations (alter (fun g => {| gen_job := gen_job g; gen_status := status |}) id)).

(** ** Users *)

(* src: lobby/src/db/user.rs:17-27 get_username *)
Definition get_username (id : Z) : hm (option str) := query (fun db => username <$> users db !! id).
(* src: lobby/src/db/user.rs:29-45 ensure_user_exists *)
Definition ensure_user_exists (id : Z) : hm unit :=
  change (with_users (partial_alter (fun u =>
    Some (default {| username := lit "unknown"; u_room_creation_allowed := false |} u)) id)).
(* src: lobby/src/db/user.rs:47-68 upsert_discord_user *)
Definition upsert_discord_user (id : Z) (name : str) : hm unit :=
  change (with_users (partial_alter (fun u =>
    Some {| username := name;
            u_room_creation_allowed := default false (u_room_creation_allowed <$> u) |}) id)).
(* src: lobby/src/db/user.rs:82-93 get_room_creation_allowed *)
Definition get_room_creation_allowed (id : Z) : hm bool :=
  query (fun db => default false (u_room_creation_allowed <$> users db !! id)).
(* src: lobby/src/db/user.rs:95-111 set_room_creation_allowed *)
Definition set_room_creation_allowed (id : Z) (allowed : bool) : hm unit :=
  known ← query (fun db => bool_decide (is_Some (users db !! id)));
  if negb known then step (raise (lit "User " ++ Z_to_str id ++ lit " not found"))
  else change (with_users (alter (fun u =>
         {| username := username u; u_room_creation_allowed := allowed |}) id)).

(** ** Templates *)

(* src: lobby/src/db/room_template.rs:56-66 get_room_template_by_id *)
Definition get_room_template_by_id (id : str) : hm RoomTemplate := found (fun db => templates db !! id).
(* src: lobby/src/db/room_template.rs:94-105 delete_room_template *)
Definition delete_room_template (id : str) : hm unit :=
  in_use ← query (fun db => existsb (fun e => bool_decide (from_template_id e.2 = Some id)) (map_to_list (rooms db)));
  if in_use : bool then refuse "violates foreign key constraint"
  else change (with_templates (delete id)).
End requests.
End db.
Arguments Db {SV} Features {H}.
Arguments YamlRow {SV} Features.
