(* ===== verification/LobbySession.v ===== *)
(** * Sessions of the lobby

    [lobby/src/session.rs]: who a request comes from, by its headers and its cookie, and the
    guards on it.  Rocket encrypts the cookie, [serde_json] reads it and [base64] decodes the
    header ([Requests]). *)

From S2P Require Import Prelude Ord RustStd F64 Redis WqCore Apwm WqProg Wq LobbyYaml.

(* src: lobby/src/session.rs:24-30 SessionRecovery *)
Record SessionRecovery := {
  rec_is_admin : bool;
  rec_is_logged_in : bool;
  rec_room_creation_allowed : bool;
  rec_user_id : option Z;
}.

Section session.

(** [new_v4] is the identifier that a session made by this request gets. *)
Context (new_v4 : str).

(* src: lobby/src/session.rs:32-43 From<SessionRecovery> for Session *)
Definition recovered (r : SessionRecovery) : Session :=
  {| is_admin := rec_is_admin r; is_logged_in := rec_is_logged_in r;
     room_creation_allowed := rec_room_creation_allowed r; user_id := rec_user_id r;
     redirect_on_login := None; session_uuid := new_v4 |}.

(** The cookie reads as a session, as what is left of one, or as neither. *)
Record Requests := {
  base64_decode : str -> option str;   (* to text *)
  session_from_json : str -> option Session;
  recovery_from_json : str -> option SessionRecovery;
}.
Context (rq : Requests).

(** What a request has that sessions look at; the cookie is the one that this server set. *)
Record Request := {
  authorization : option str;
  x_api_key : option str;
  session_cookie : option str;
}.

Definition is_ascii_whitespace (c : char) : bool :=
  bool_decide (c ∈ [9; 10; 12; 13; 32]%N).

Definition split_once_colon (s : str) : option (str * str) :=
  let user := List.fold_right (fun c acc => if (c =? 58)%N then [] else c :: acc) [] s in
  if bool_decide (58%N ∈ s) then Some (user, drop (S (length user)) s) else None.

(* src: lobby/src/session.rs:60-72 decode_basic_auth *)
Definition decode_basic_auth (value : str) : option (str * str) :=
  if negb (starts_with (lit "Basic ") value) then None
  else
    let bytes := trim_start_matches is_ascii_whitespace (drop 6 value) in
    decoded ← base64_decode rq bytes;
    split_once_colon decoded.

Definition admin_session : Session :=
  {| is_admin := true; is_logged_in := true; room_creation_allowed := true; user_id := None;
     redirect_on_login := None; session_uuid := new_v4 |}.
Definition anonymous (redirect : option str) : Session :=
  {| is_admin := false; is_logged_in := false; room_creation_allowed := false; user_id := None;
     redirect_on_login := redirect; session_uuid := new_v4 |}.

(** Whether the header names the administrator. *)
(* src: lobby/src/session.rs:113-129 Session::_from_request_sync *)
Definition basic_admin (admin_token : option str) (r : Request) : bool :=
  match authorization r ≫= decode_basic_auth with
  | Some (username, password) =>
      str_eqb username (lit "admin") && bool_decide (Some password = admin_token)
  | None => false
  end.

(** The session, and the cookie that is set when there is a new one. *)
(* src: lobby/src/session.rs:109-179 Session::_from_request_sync *)
Definition session_of_request (admin_token : option str) (r : Request) : Session * option Session :=
  if basic_admin admin_token r then (admin_session, None)
  else if bool_decide (x_api_key r = admin_token) then (admin_session, None)
  else
    match session_cookie r ≫= session_from_json rq with
    | Some session => (session, None)
    | None =>
        match session_cookie r ≫= recovery_from_json rq with
        | Some recovery => (recovered recovery, Some (recovered recovery))
        | None => (anonymous None, Some (anonymous None))
        end
    end.

(* src: lobby/src/session.rs:250-252 is_banned *)
Definition is_banned (banned_users : list Z) (u : Z) : bool := bool_decide (u ∈ banned_users).

(** The cookies are those that are set, the last of which counts. *)
(* src: lobby/src/session.rs:75-107 Session::from_request_sync *)
Definition from_request_sync (admin_token : option str) (banned_users : list Z) (r : Request) :
    Session * option Session :=
  let '(session, cookie) := session_of_request admin_token r in
  match user_id session with
  | Some u =>
      if is_banned banned_users u then
        (anonymous (Some (lit "/")), Some (anonymous (Some (lit "/"))))
      else (session, cookie)
  | None => (session, cookie)
  end.

(** ** Guards

    An error is a status and a text. *)

(* src: lobby/src/session.rs:254-270 LoggedInSession::from_request *)
Definition logged_in_guard (s : Session) : result (N * str) Session :=
  if is_admin s then Ok s
  else match user_id s with
       | Some _ => Ok s
       | None => Err (401%N, lit "Not logged in")
       end.

(* src: lobby/src/session.rs:272-294 AdminSession::from_request *)
Definition admin_guard (s : Session) : result (N * str) unit :=
  if is_admin s then Ok tt else Err (401%N, lit "You need to be admin").
End session.

(** ** Who a request is from

    Administrators, banned users and new sessions. *)

Section sessions.
Context (new_v4 : str) (rq : Requests).
Implicit Types (r : Request) (tok : str) (banned : list Z).

(** What a request shows that makes it an administrator's. *)
Definition shows_token tok r : Prop :=
  authorization r ≫= decode_basic_auth rq = Some (lit "admin", tok) \/ x_api_key r = Some tok.

(** The session in the cookie, in full or what is left of one. *)
Definition cookie_session r : option Session :=
  match session_cookie r ≫= session_from_json rq with
  | Some s => Some s
  | None => recovered new_v4 <$> (session_cookie r ≫= recovery_from_json rq)
  end.

Lemma basic_admin_spec tok r :
  basic_admin rq (Some tok) r = true <-> authorization r ≫= decode_basic_auth rq = Some (lit "admin", tok).
Proof.
  unfold basic_admin. destruct (authorization r ≫= decode_basic_auth rq) as [[u p]|]; [|done].
  rewrite andb_true_iff, bool_decide_eq_true. unfold str_eqb. rewrite bool_decide_eq_true. split.
  - by intros [-> [= ->]].
  - by intros [= -> ->].
Qed.

Lemma session_of_request_cases tok r :
  (shows_token tok r /\ session_of_request new_v4 rq (Some tok) r = (admin_session new_v4, None)) \/
  (~ shows_token tok r /\
   (session_of_request new_v4 rq (Some tok) r).1 = default (anonymous new_v4 None) (cookie_session r)).
Proof.
  unfold session_of_request, shows_token, cookie_session. destruct (basic_admin rq (Some tok) r) eqn:E.
  { left. split; [left; by apply basic_admin_spec|done]. }
  case_bool_decide as Hkey; [by left; auto|]. right. split.
  - intros [Hb|Hk]; [|done]. apply basic_admin_spec in Hb. congruence.
  - destruct (session_cookie r ≫= session_from_json rq); [done|]. by destruct (session_cookie r ≫= recovery_from_json rq).
Qed.

(** C31: A session is an administrator's exactly when the request shows the token, or its cookie has an
    administrator's session whose user isn't banned; no session has a banned user; a session without
    a token that isn't that of the cookie has no rights. *)
Theorem sessions_are_what_requests_show tok banned r :
  let s := (from_request_sync new_v4 rq (Some tok) banned r).1 in
  (is_admin s = true <-> shows_token tok r \/
     exists c, cookie_session r = Some c /\ is_admin c = true /\ forall u, user_id c = Some u -> u ∉ banned) /\
  (forall u, user_id s = Some u -> u ∉ banned) /\
  (~ shows_token tok r -> cookie_session r = Some s \/
     (is_admin s = false /\ is_logged_in s = false /\ room_creation_allowed s = false /\ user_id s = None)).
Proof.
  unfold from_request_sync. destruct (session_of_request_cases tok r) as [[Hs ->]|[Hs Hr]]; simpl.
  { split_and!; [by split; auto|done|done]. }
  destruct (session_of_request new_v4 rq (Some tok) r) as [s c]. simpl in *. subst s.
  unfold is_banned. destruct (cookie_session r) as [s|]; simpl.
  - destruct (user_id s) as [u|] eqn:Hu; [case_bool_decide as Hb|]; simpl; split_and!; try done; auto.
    all: try (rewrite Hu; intros u' [= <-]; done).
    all: try (by intros [=]).
    all: try (split; [intros Ha; right; exists s; split_and!; auto; intros u' Hu'; congruence
                     |intros [?|(s' & [= <-] & ? & ?)]; [done|done]]).
    split; [done|]. intros [?|(s' & [= <-] & _ & Hn)]; [done|]. exfalso. by apply (Hn u).
  - split_and!; [|done|by right]. split; [done|]. intros [?|(s' & [=] & _)]; done.
Qed.
End sessions.
