(* ===== verification/LobbySettings.v ===== *)
(** * The settings of rooms

    [lobby/src/views/room_settings.rs] and [manifest_editor.rs]: the form of a room's settings,
    what is checked of it, and the room that it makes.  Reading dates, addresses and YAML is
    other crates' ([FormFormats]). *)

From S2P Require Import Prelude Ord RustStd F64 Redis WqCore WqProg Wq.
From S2P Require Import Apwm ApwmIndex LobbyYaml LobbyDb.

(** A local date and time as nanoseconds, as if it were UTC; an absolute address; for each document
    of a YAML whether it is a mapping with a [meta_description]. *)
Record FormFormats := {
  parse_local : str -> option Z;
  parse_absolute : str -> result str unit;
  load_meta : str -> result str (list bool);
}.

(* src: lobby/src/views/manifest_editor.rs:7-12 ManifestForm *)
Record ManifestForm := {
  mf_new_apworld_policy : str;
  mf_enabled : gset str;
  mf_version : gmap str str;
}.

(* src: lobby/src/views/room_settings.rs:28-46 RoomSettingsForm *)
Record RoomSettingsForm := {
  f_room_name : str;
  f_room_description : str;
  f_close_date : str;
  f_tz_offset : Z;
  f_room_url : str;
  f_yaml_validation : bool;
  f_allow_unsupported : bool;
  f_allow_invalid_yamls : bool;
  f_yaml_limit_per_user : bool;
  f_yaml_limit_per_user_nb : Z;
  f_yaml_limit_bypass_list : str;
  f_show_apworlds : bool;
  f_me : ManifestForm;
  f_meta_file : str;
  f_is_bundle_room : bool;
  f_locked : bool;
}.

(* src: lobby/src/views/room_settings.rs:99-99 MAX_DAYS_UNTIL_CLOSE *)
Definition MAX_DAYS_UNTIL_CLOSE : Z := 183.
Definition days (n : Z) : Z := seconds (n * 86400).

(** Without its seconds. *)
Definition to_the_minute (t : Z) : Z := t / seconds 60 * seconds 60.

(* src: lobby/src/views/room_settings.rs:107-127 validate_close_date *)
Definition validate_close_date (close_date : Z) (current : option Z) (now : Z) : result failure unit :=
  if match current with Some c => (to_the_minute c =? to_the_minute close_date)%Z | None => false end
  then Ok tt
  else if (now + days MAX_DAYS_UNTIL_CLOSE <? close_date)%Z then
    raise (lit "The submission limit can't be more than 183 days from now, which is about six months.")
  else Ok tt.

Section settings.
Context {SV : SemVer} (fmt : FormFormats).

(** The offset is to the west, below a day. *)
(* src: lobby/src/views/room_settings.rs:86-96 parse_date *)
Definition parse_date (date : str) (tz_offset : Z) : result failure Z :=
  let offset := wrap_i32 (tz_offset * 60) in
  if negb ((-86400 <? offset)%Z && (offset <? 86400)%Z) then raise (lit "Wrong timezone offset")
  else match parse_local fmt date with
       | None => raise (lit "input contains invalid characters")
       | Some datetime => Ok (datetime + seconds offset)%Z
       end.

Definition set_room_url (url : str) (f : RoomSettingsForm) : RoomSettingsForm :=
  {| f_room_name := f_room_name f; f_room_description := f_room_description f; f_close_date := f_close_date f;
     f_tz_offset := f_tz_offset f; f_room_url := url; f_yaml_validation := f_yaml_validation f;
     f_allow_unsupported := f_allow_unsupported f; f_allow_invalid_yamls := f_allow_invalid_yamls f;
     f_yaml_limit_per_user := f_yaml_limit_per_user f; f_yaml_limit_per_user_nb := f_yaml_limit_per_user_nb f;
     f_yaml_limit_bypass_list := f_yaml_limit_bypass_list f; f_show_apworlds := f_show_apworlds f;
     f_me := f_me f; f_meta_file := f_meta_file f; f_is_bundle_room := f_is_bundle_room f;
     f_locked := f_locked f |}.
Definition set_meta_file (meta : str) (f : RoomSettingsForm) : RoomSettingsForm :=
  {| f_room_name := f_room_name f; f_room_description := f_room_description f; f_close_date := f_close_date f;
     f_tz_offset := f_tz_offset f; f_room_url := f_room_url f; f_yaml_validation := f_yaml_validation f;
     f_allow_unsupported := f_allow_unsupported f; f_allow_invalid_yamls := f_allow_invalid_yamls f;
     f_yaml_limit_per_user := f_yaml_limit_per_user f; f_yaml_limit_per_user_nb := f_yaml_limit_per_user_nb f;
     f_yaml_limit_bypass_list := f_yaml_limit_bypass_list f; f_show_apworlds := f_show_apworlds f;
     f_me := f_me f; f_meta_file := meta; f_is_bundle_room := f_is_bundle_room f;
     f_locked := f_locked f |}.

(* src: lobby/src/views/room_settings.rs:164-175 validate_room_form *)
Definition validate_meta_file (meta_file : str) : result failure unit :=
  if str_eqb meta_file [] then Ok tt
  else match load_meta fmt meta_file with
       | Err e => raise (lit "Failed to parse meta file: " ++ e)
       | Ok [] => raise (lit "Meta file is empty")
       | Ok (true :: _) => Ok tt
       | Ok (false :: _) => raise (lit "Meta file must include a `meta_description` field")
       end.

(** The form comes back with its texts trimmed. *)
(* src: lobby/src/views/room_settings.rs:129-178 validate_room_form *)
Definition validate_room_form (f : RoomSettingsForm) : result failure RoomSettingsForm :=
  if str_eqb (trim (f_room_name f)) [] then raise (lit "The room name shouldn't be empty")
  else if (200 <? str_len (f_room_name f))%N then
    raise (lit "The room name shouldn't exceed 200 characters. Seriously it doesn't need to be that long.")
  else
    let room_url := trim (f_room_url f) in
    _ ← (if str_eqb room_url [] then Ok tt
         else match parse_absolute fmt room_url with
              | Err e => raise (lit "Error while parsing room URL: " ++ e)
              | Ok _ => Ok tt
              end);
    let f := set_room_url room_url f in
    if f_yaml_limit_per_user f && (f_yaml_limit_per_user_nb f <=? 0)%Z then
      raise (lit "The per player YAML limit should be greater or equal to 1")
    else if negb (str_eqb (f_yaml_limit_bypass_list f) []) &&
            existsb (fun id => bool_decide (parse_i64 id = None)) (split_on 44 (f_yaml_limit_bypass_list f)) then
      raise (lit "The YAML limit bypass list should be a comma delimited list of discord IDs.")
    else
      let f := set_meta_file (trim (f_meta_file f)) f in
      _ ← validate_meta_file (f_meta_file f);
      Ok f.

(** ** Releases of worlds *)

(* src: lobby/src/views/manifest_editor.rs:84-96 manifest_from_form *)
Definition form_world (form : ManifestForm) (m : Manifest) (world_name : str) : result failure Manifest :=
  if negb (bool_decide (world_name ∈ mf_enabled form)) then Ok (add_version_req m world_name Disabled)
  else match mf_version form !! world_name with
       | None => raise (lit "Invalid form. You have a world that is enabled but doesn't have a version requirement")
       | Some version_req =>
           r ← raised (VersionReq_parse version_req);
           Ok (add_version_req m world_name r)
       end.

(* src: lobby/src/views/manifest_editor.rs:75-107 manifest_from_form *)
Definition manifest_from_form (form : ManifestForm) (index : Index) : result failure Manifest :=
  let policy := if str_eqb (mf_new_apworld_policy form) (lit "disable") then Disable else Enable in
  m ← try_fold (form_world form) {| m_worlds := m_worlds Manifest_new; new_apworld_policy := policy |}
        (bt_keys (worlds index));
  match (resolve_with m index).2 with
  | [] => Ok m
  | _ :: _ => raise (lit "Error while resolving your room requirements with the current index")
  end.

(* src: lobby/src/views/manifest_editor.rs:33-51 ManifestFormBuilder::valid_options_for_apworld *)
Definition valid_options_for_apworld (index : Index) (apworld_name : str) : option (list VersionReq) :=
  world ← worlds index !! apworld_name;
  Some (Latest :: ((fun e : Version * WorldOrigin => if is_supported e.2 then LatestSupported else Specific e.1) <$>
                     bt_iter (versions world))).

(* src: lobby/src/views/manifest_editor.rs:19-26 ManifestFormRow *)
Record ManifestFormRow := {
  mr_apworld_name : str;
  mr_world : World;
  mr_enabled : bool;
  mr_current_version : VersionReq;
  mr_valid_versions : list VersionReq;
}.

(** [None] is the panic on a world that isn't there. *)
(* src: lobby/src/views/manifest_editor.rs:53-72 ManifestFormBuilder::rows *)
Definition manifest_rows (index : Index) (m : Manifest) : option (list ManifestFormRow) :=
  rows ← fold_left (fun acc (e : str * World) =>
           rows ← acc; valid ← valid_options_for_apworld index e.1;
           Some (rows ++ [{| mr_apworld_name := e.1; mr_world := e.2; mr_enabled := is_enabled m e.1;
                             mr_current_version := get_version_req m e.1 index; mr_valid_versions := valid |}]))
         (bt_iter (worlds index)) (Some []);
  Some (sort_by (fun a b => str_leb (display_name (mr_world a)) (display_name (mr_world b))) rows).

(** ** The room of a form *)

Definition bypass_ids (l : str) : list Z := omap parse_i64 (split_on 44 l).

(* src: lobby/src/views/room_settings.rs:49-83 RoomSettingsForm::to_new_room *)
Definition to_new_room (f : RoomSettingsForm) (id : str) (index : Index) (v : Version) (author_id : option Z)
    (from_template_id : option (option str)) : result failure NewRoom :=
  close_date ← parse_date (f_close_date f) (f_tz_offset f);
  m ← manifest_from_form (f_me f) index;
  Ok {| nr_id := id; nr_name := trim (f_room_name f); nr_close_date := close_date;
        nr_description := trim (f_room_description f); nr_room_url := f_room_url f; nr_author_id := author_id;
        nr_yaml_limit_per_user := if f_yaml_limit_per_user f then Some (f_yaml_limit_per_user_nb f) else None;
        nr_yaml_validation := f_yaml_validation f; nr_allow_unsupported := f_allow_unsupported f;
        nr_yaml_limit_bypass_list := bypass_ids (f_yaml_limit_bypass_list f); nr_manifest := m;
        nr_show_apworlds := f_show_apworlds f; nr_from_template_id := from_template_id;
        nr_allow_invalid_yamls := f_allow_invalid_yamls f; nr_meta_file := f_meta_file f;
        nr_is_bundle_room := f_is_bundle_room f; nr_locked := f_locked f; nr_ap_version := v |}.
End settings.
