(* ===== verification/LobbyRooms.v ===== *)
(** * Rooms: their page, uploads, deletions and downloads

    [lobby/src/views/room/main.rs] and [lobby/src/generation.rs].  A handler is a request
    ([LobbyDb]) by a session; what it answers is the value it ends with, where a redirect is left
    out.  Archives are their entries, the review tools and the proxies that host rooms are asked
    over HTTP ([Services]). *)

From S2P Require Import Prelude Ord RustStd F64 Redis WqCore WqProg Wq.
From S2P Require Import Apwm ApwmIndex LobbyNames LobbyYaml LobbyBases LobbyDb.

(** ** File names *)

Section slots.
Context {LC : Lowercase}.

(** The loop over suffixes: [None] is one that ran out of fuel. *)
Fixpoint free_suffix (fuel : nat) (emitted : gset str) (base : str) (suffix : N) : option str :=
  match fuel with
  | O => None
  | S fuel =>
      let new_file_name := base ++ lit "_" ++ N_to_str suffix ++ lit ".yaml" in
      if negb (bool_decide (to_lowercase new_file_name ∈ emitted)) then Some new_file_name
      else free_suffix fuel emitted base (suffix + 1)
  end.

(** A name that is new but for case; [u64] suffixes are enough for any room. *)
(* src: lobby/src/generation.rs:52-65 get_slots *)
Definition emit_name (emitted : gset str) (base : str) : option (gset str * str) :=
  let original_file_name := base ++ lit ".yaml" in
  name ← (if bool_decide (to_lowercase original_file_name ∈ emitted)
          then free_suffix (S (size emitted)) emitted base 0
          else Some original_file_name);
  Some ({[to_lowercase name]} ∪ emitted, name).

(** One file after the other. *)
(* src: lobby/src/views/room/main.rs:537-555 download_yamls *)
Fixpoint emit_names {A} (base : A -> str) (emitted : gset str) (l : list A) : option (list (str * A)) :=
  match l with
  | [] => Some []
  | a :: l =>
      '(emitted, name) ← emit_name emitted (base a);
      rest ← emit_names base emitted l;
      Some ((name, a) :: rest)
  end.
End slots.

Section rooms.
Context {SV : SemVer} {LC : Lowercase} {Features : Type} `{JobIds}.

(* src: lobby/src/generation.rs:45-72 get_slots *)
Definition get_slots (room_yamls : list (YamlWithoutContent (Features := Features))) : option (list (str * str)) :=
  named ← emit_names (fun yaml => sanitize_yaml_name (yw_player_name yaml)) ∅ room_yamls;
  Some (sort_by (fun a b => str_leb (to_lowercase a.1) (to_lowercase b.1))
          ((fun e : str * YamlWithoutContent => (e.1, yw_id e.2)) <$> named)).

(** ** Who may *)

(* src: lobby/src/views/room/main.rs:467-468 delete_bundle *)
Definition is_my_room (session : Session) (room : Room) : bool :=
  is_admin session || bool_decide (user_id session = Some (author_id (settings room))).

(** The same question through [LoggedInSession::user_id], which panics without a user. *)
(* src: lobby/src/views/room/gen.rs:62-62 gen_room *)
Definition owns_room (session : Session) (room : Room) : result failure bool :=
  if is_admin session then Ok true
  else u ← logged_in_user_id session; Ok (bool_decide (u = author_id (settings room))).

(** ** Requests *)

Section handlers.
Context (extract_features : Index -> YamlFile -> str -> result failure Features).
Context (read_yaml : str -> result str YamlFile) (split_documents : str -> list (result unit str)).
Context (hash_iter : gmap str f64 -> list (str * f64)) (find_curly_braces : str -> list str).
Context (otlp : gmap str str) `{!Codecs YamlValidationParams YamlValidationResponse}.
Context (queue_error_text : WorkQueueError -> str).
(** The identifier that is drawn as the [n]-th. *)
Context (new_v4 : nat -> str).
Context (fuel : nat) (q : WorkQueue YamlValidationParams YamlValidationResponse).
Context (cfg : BaseConfig) (index_manager : IndexSet).

Section any_error.
Context {E : Type} `{!RequestError E}.
Local Abbreviation hm := (hm (Features := Features) (E := E)).

(** The room is closed once its time is over. *)
(* src: lobby/src/db/room.rs:151-153 Room::is_closed *)
Definition is_closed (room : Room) : hm bool :=
  t ← utc_now; mret (close_date (settings room) <? t)%Z.
End any_error.

Local Abbreviation hm := (hm (Features := Features) (E := failure)).

Definition hcontext {A} (c : string) (m : hm A) : hm A := fun db =>
  prog_bind (fun rd => Ret (in_context c rd.1, rd.2)) (m db).

(** What the next page tells the user. *)
Inductive flash := FlashError (m : str) | FlashWarning (m : str).

Definition game_list (games : gset str) : str :=
  join (lit ", ") ((fun g => lit "'" ++ g ++ lit "'") <$> sort_by str_leb (elements games)).

(* src: lobby/src/views/room/main.rs:405-444 build_unsupported_games_messages *)
Definition build_unsupported_games_messages (unsupported_games disabled_games : gset str) (error : bool) :
    option str :=
  if bool_decide (disabled_games = ∅) && bool_decide (unsupported_games = ∅) then None
  else
    let base_message := join [10%N]
      ((if bool_decide (disabled_games = ∅) then []
        else [lit "The following games are disabled for this room: " ++ game_list disabled_games]) ++
       (if bool_decide (unsupported_games = ∅) then []
        else [lit "The following games are not supported on this lobby: " ++ game_list unsupported_games])) in
    Some (if error then base_message
          else base_message ++ lit "." ++ [10%N] ++ lit "Uploading anyway since the room owner allowed it.").

(** One insertion of the transaction. *)
(* src: lobby/src/views/room/main.rs:365-393 upload_yaml *)
Definition add_result (rid : str) (session : Session) (bundle : str)
    (v : YamlValidationResult (Features := Features)) : hm unit :=
  id ← fresh new_v4;
  owner ← step (logged_in_user_id session);
  add_yaml_to_room {|
    ny_id := id; ny_bundle_id := bundle; ny_room_id := rid; ny_owner_id := owner;
    ny_content := v_document v; ny_player_name := file_name (v_parsed v); ny_game := v_game_name v;
    ny_features := v_features v; ny_validation_status := v_validation_status v;
    ny_apworlds := v_apworlds v; ny_last_error := v_error v; ny_password := None |}.

Fixpoint add_results (rid : str) (session : Session) (bundle : str)
    (vs : list (YamlValidationResult (Features := Features))) : hm unit :=
  match vs with
  | [] => mret tt
  | v :: vs => _ ← add_result rid session bundle v; add_results rid session bundle vs
  end.

Definition all_games (f : YamlValidationResult (Features := Features) -> list str)
    (vs : list YamlValidationResult) : gset str := list_to_set (vs ≫= f).

(* src: lobby/src/views/room/main.rs:306-403 upload_yaml *)
Definition upload_yaml (rid : str) (uploaded : list str) (session : Session) : hm (option flash) :=
  room_record ← hcontext "Unknown room" (get_room rid);
  closed ← is_closed room_record;
  if closed : bool then refuse "This room is closed, you're late"
  else
    documents ← step (raised (parse_raw_yamls read_yaml split_documents uploaded));
    yamls_in_room ← hcontext "Couldn't get room yamls" (get_yamls_for_room rid);
    games ← task (parse_and_validate_yamls_for_room extract_features hash_iter find_curly_braces otlp
              queue_error_text fuel yamls_in_room room_record documents session q index_manager);
    let msg := build_unsupported_games_messages (all_games v_unsupported_games games)
                 (all_games v_disabled_games games) (negb (allow_unsupported (settings room_record))) in
    match msg, allow_unsupported (settings room_record) with
    | Some msg, false => mret (Some (FlashError msg))
    | _, _ =>
        _ ← transaction (bundle ← fresh new_v4; add_results rid session bundle games);
        mret (FlashWarning <$> msg)
    end.

(** The bundle doesn't have to be one of the room. *)
(* src: lobby/src/views/room/main.rs:446-478 delete_bundle *)
Definition delete_bundle (rid bid : str) (session : Session) : hm unit :=
  room_record ← hcontext "Unknown room" (get_room rid);
  closed ← is_closed room_record;
  if closed : bool then refuse "This room is closed, you're late"
  else
    bundle ← get_bundle_by_id bid;
    owner ← step (or_panic (bundle_owner_id bundle));
    me ← step (logged_in_user_id session);
    if negb (bool_decide (owner = me)) && negb (is_my_room session room_record) then
      refuse "Can't delete a YAML bundle that isn't yours"
    else remove_bundle bid.

(* src: lobby/src/views/room/main.rs:480-516 delete_yaml *)
Definition delete_yaml (rid yid : str) (session : Session) : hm unit :=
  room_record ← hcontext "Unknown room" (get_room rid);
  closed ← is_closed room_record;
  if closed : bool then refuse "This room is closed, you're late"
  else
    yaml ← get_yaml_in_room rid yid;
    me ← step (logged_in_user_id session);
    if negb (bool_decide (owner_id yaml = me)) && negb (is_my_room session room_record) then
      refuse "Can't delete a yaml file that isn't yours"
    else if is_bundle_room (settings room_record) && negb (is_my_room session room_record) then
      refuse "Can't delete an individual yaml in a bundled room, delete the whole YAML bundle"
    else remove_yaml yid.

(** ** Downloads *)

(** The entries of an archive, and the room's time that names it. *)
Record ZipFile := { zip_entries : list (str * str); zip_time : Z }.

(* src: lobby/src/views/room/main.rs:518-567 download_yamls *)
Definition download_yamls (rid : str) : hm ZipFile :=
  room_record ← get_room rid;
  yamls ← get_yamls_for_room rid;
  named ← step (or_panic (emit_names (fun y => sanitize_yaml_name (player_name y)) ∅ yamls));
  mret {| zip_entries := (fun e : str * Yaml => (e.1, current_content e.2)) <$> named;
          zip_time := close_date (settings room_record) |}.

(* src: lobby/src/views/room/main.rs:569-618 download_bundles *)
Definition download_bundles (rid : str) : hm ZipFile :=
  room_record ← get_room rid;
  bundles ← get_bundles_for_room rid;
  named ← step (or_panic (emit_names (fun b => default [] (bundle_file_name b)) ∅ bundles));
  mret {| zip_entries := (fun e : str * YamlBundle => (e.1, bundle_as_yaml e.2)) <$> named;
          zip_time := close_date (settings room_record) |}.

(** ** The page of a room *)

(** What the review tools say of a YAML, and where a room is hosted. *)
(* src: lobby/src/views/room/host.rs:9-20 ApxRoomInfo *)
Record ApxRoomInfo := {
  lobby_room_id : str;
  ap_room_id : str;
  normal_id : N;
  reduced_id : N;
  apx_disabled : bool;
  per_slot_passwords : bool;
  deathlink_disabled : bool;
  reduced_access : bool;
  server_password : option str;
}.
(* src: lobby/src/views/room/host.rs:22-33 ApxRoomInfoDisplay *)
Record ApxRoomInfoDisplay := {
  shown_lobby_room_id : str;
  shown_ap_room_id : str;
  normal_addr : str;
  reduced_addr : str;
  shown_disabled : bool;
  shown_per_slot_passwords : bool;
  shown_deathlink_disabled : bool;
  shown_reduced_access : bool;
  shown_server_password : option str;
}.
Record Services {Eval : Type} := {
  review_configured : bool;
  ask_review : str -> str -> option Eval;
  ask_apx : str -> option ApxRoomInfo;
  apx_ws_root : str;
}.
Arguments Services : clear implicits.
Context {Eval : Type} (services : Services Eval).

(** The password of the server is for the host's page only. *)
(* src: lobby/src/views/room/main.rs:211-222 room_inner *)
Definition display_apx (show_password : bool) (info : ApxRoomInfo) : ApxRoomInfoDisplay :=
  {| shown_lobby_room_id := lobby_room_id info; shown_ap_room_id := ap_room_id info;
     normal_addr := lit "ap" ++ N_to_str (normal_id info) ++ lit "." ++ apx_ws_root services;
     reduced_addr := lit "ap" ++ N_to_str (reduced_id info) ++ lit "." ++ apx_ws_root services;
     shown_disabled := apx_disabled info; shown_per_slot_passwords := per_slot_passwords info;
     shown_deathlink_disabled := deathlink_disabled info; shown_reduced_access := reduced_access info;
     shown_server_password := if show_password then server_password info else None |}.

(* src: lobby/src/views/room/main.rs:50-70 RoomTpl *)
Record RoomTpl := {
  t_room : Room;
  t_author_name : str;
  t_yamls : list (YamlWithoutContent (Features := Features) * str);
  player_count : nat;
  unique_player_count : nat;
  unique_game_count : nat;
  t_is_closed : bool;
  has_room_url : bool;
  t_is_my_room : bool;
  current_user_has_yaml_in_room : bool;
  apx_room_info : option ApxRoomInfoDisplay;
  game_display_names : gmap str str;
  truncated_names : gmap str str;
  yaml_eval_results : list (str * option Eval);
  t_base_chip : BaseChip;
}.

(* src: lobby/src/views/room/main.rs:73-78 RoomTpl::get_game_display_name *)
Definition get_game_display_name (p : RoomTpl) (game : str) : str := default game (game_display_names p !! game).
(* src: lobby/src/views/room/main.rs:80-85 RoomTpl::get_truncated_name *)
Definition get_truncated_name (p : RoomTpl) (player_name : str) : str :=
  default player_name (truncated_names p !! player_name).
(* src: lobby/src/views/room/main.rs:87-98 RoomTpl::get_eval_result *)
Definition get_eval_result (p : RoomTpl) (yaml_id : str) : option Eval :=
  e ← List.find (fun e => str_eqb e.1 yaml_id) (yaml_eval_results p); e.2.

(* src: lobby/src/views/room/main.rs:105-105 YAML_EVAL_MAX_COUNT *)
Definition YAML_EVAL_MAX_COUNT : nat := 3.

(* src: lobby/src/views/room/main.rs:124-157 room_inner *)
Definition eval_results (closed : bool) (rid : str) (user_yamls : list (YamlWithoutContent (Features := Features))) :
    list (str * option Eval) :=
  if negb closed && negb (bool_decide (length user_yamls = 0)) &&
     (length user_yamls <=? YAML_EVAL_MAX_COUNT)%nat && review_configured services then
    (fun yaml => (yw_id yaml, ask_review services rid (yw_id yaml))) <$> user_yamls
  else [].

Definition mine (session : Session) (e : YamlWithoutContent (Features := Features) * str) : bool :=
  bool_decide (Some (yw_owner_id e.1) = user_id session).

(* src: lobby/src/views/room/main.rs:159-171 room_inner *)
Definition display_names (index : Index) (yamls : list (YamlWithoutContent (Features := Features) * str)) :
    gmap str str :=
  list_to_map (omap (fun e => world ← get_world_by_name index (yw_game e.1);
                              Some (yw_game e.1, display_name world)) yamls).
Definition by_display_name (names : gmap str str) (a b : YamlWithoutContent (Features := Features) * str) : bool :=
  let display e := default (yw_game e) (names !! yw_game e) in
  str_leb (to_lowercase (display a.1)) (to_lowercase (display b.1)).

(* src: lobby/src/views/room/main.rs:107-248 room_inner *)
Definition room_inner (rid : str) (session : Session) : hm RoomTpl :=
  '(room, author_name, room_info) ← get_room_and_author rid;
  yamls ← get_yamls_for_room_with_author_names rid;
  closed ← is_closed room;
  index ← step (raised (index_for index_manager (ap_version room)));
  let names := display_names index yamls in
  let evals := eval_results closed rid (fst <$> List.filter (mine session) yamls) in
  let yamls := sort_by (by_display_name names) yamls in
  let user_has_yaml := existsb (mine session) yamls in
  let is_my_room := is_my_room session room in
  truncated ← step (match room_info with
                    | Some _ => or_panic (compute_ap_slot_names ((fun e => yw_player_name e.1) <$> yamls))
                    | None => Ok ∅
                    end);
  mret {| t_room := room; t_author_name := author_name; t_yamls := yamls; player_count := length yamls;
          unique_player_count := length (remove_dups ((fun e => yw_owner_id e.1) <$> yamls));
          unique_game_count := length (remove_dups
            (List.filter (fun g => negb (starts_with (lit "Random (") g)) ((fun e => yw_game e.1) <$> yamls)));
          t_is_closed := closed;
          has_room_url := negb (str_eqb (room_url (settings room)) []) && (user_has_yaml || is_my_room);
          t_is_my_room := is_my_room; current_user_has_yaml_in_room := user_has_yaml;
          apx_room_info := display_apx false <$> ask_apx services (room_id room);
          game_display_names := names; truncated_names := truncated; yaml_eval_results := evals;
          t_base_chip := base_chip (ap_version room) (default_base cfg index_manager) |}.

(* src: lobby/src/views/room/main.rs:262-291 room_as_user *)
Definition room_as_user (rid : str) (user : Z) (session : Session) : hm RoomTpl :=
  if negb (is_admin session) then refuse "Admin only"
  else room_inner rid {| is_admin := false; is_logged_in := is_logged_in session;
                         room_creation_allowed := room_creation_allowed session; user_id := Some user;
                         redirect_on_login := redirect_on_login session; session_uuid := session_uuid session |}.
End handlers.
End rooms.
