(* ===== verification/LobbyRoomEdit.v ===== *)
(** * Making, editing and moving rooms

    [lobby/src/views/room/edit.rs], [room_templates.rs] and the form builders of
    [room_settings.rs].  A page is the value given to its template, without the parts that every
    page has. *)

From S2P Require Import Prelude Ord RustStd F64 Redis WqCore WqProg Wq.
From S2P Require Import Apwm ApwmIndex ApwmLint LobbyNames LobbyYaml LobbyBases LobbyDb LobbySettings LobbyRooms.

(* src: lobby/src/views/room_settings.rs:180-183 RoomSettingsType *)
Inductive RoomSettingsType := RoomForm | TemplateForm.

(* src: lobby/src/views/room_settings.rs:186-191 RoomSettingsType::as_route_base *)
Definition as_route_base (ty : RoomSettingsType) : str :=
  match ty with RoomForm => lit "/edit-room" | TemplateForm => lit "/room-templates" end.
(* src: lobby/src/views/room_settings.rs:193-195 RoomSettingsType::is_room *)
Definition is_room (ty : RoomSettingsType) : bool := match ty with RoomForm => true | TemplateForm => false end.

(* src: lobby/src/views/room_settings.rs:215-221 BaseSelect *)
Record BaseSelect := { bs_options : list BaseOption; switch_url : option str; bs_locked : option str }.

(* src: lobby/src/views/room_settings.rs:238-241 RoomTemplateBuilder *)
Record RoomTemplateBuilder := { tb_name : str; tb_global : bool }.

Section edit.
Context {SV : SemVer} {LC : Lowercase} {Features : Type} `{JobIds}.

(* src: lobby/src/views/room_settings.rs:244-249 RoomTemplateBuilder::from_template *)
Definition builder_of_template (t : RoomTemplate) : RoomTemplateBuilder :=
  {| tb_name := tpl_name t; tb_global := tpl_global t |}.

(** The form of a page; [b_manifest] and [b_index] are what the rows of worlds are made of. *)
(* src: lobby/src/views/room_settings.rs:223-236 RoomSettingsBuilder *)
Record RoomSettingsBuilder := {
  b_room : RoomSettings;
  b_index : Index;
  b_manifest : Manifest;
  b_room_id : option str;
  b_ty : RoomSettingsType;
  b_read_only : bool;
  b_tpl : option RoomTemplateBuilder;
  b_base_select : option BaseSelect;
  b_action_query : str;
}.

(* src: lobby/src/views/room_settings.rs:260-276 RoomSettingsBuilder::new_with_room *)
Definition new_with_room (index : Index) (room : Room) : RoomSettingsBuilder :=
  {| b_room := settings room; b_index := index; b_manifest := manifest (settings room);
     b_room_id := Some (room_id room); b_ty := RoomForm; b_read_only := false; b_tpl := None;
     b_base_select := None; b_action_query := [] |}.

(** The second is cut off, the nanoseconds aren't. *)
(* src: lobby/src/db/room.rs:142-147 RoomSettings::default_close_date *)
Definition default_close_date (now : Z) : Z := (now - (now / seconds 1) mod 60 * seconds 1)%Z.

(* src: lobby/src/db/room.rs:120-140 RoomSettings::default *)
Definition default_settings (now : Z) (index : Index) : result error RoomSettings :=
  m ← from_index_with_default_versions index;
  Ok {| room_name := []; close_date := default_close_date now; description := []; room_url := [];
        author_id := -1; yaml_validation := true; allow_unsupported := false; yaml_limit_per_user := None;
        yaml_limit_bypass_list := []; manifest := m; show_apworlds := true;
        created_at := default_close_date now; updated_at := default_close_date now;
        allow_invalid_yamls := false; meta_file := []; is_bundle_room := false; locked := false |}.

Definition set_close_date (t : Z) (s : RoomSettings) : RoomSettings :=
  {| room_name := room_name s; close_date := t; description := description s; room_url := room_url s;
     author_id := author_id s; yaml_validation := yaml_validation s; allow_unsupported := allow_unsupported s;
     yaml_limit_per_user := yaml_limit_per_user s; yaml_limit_bypass_list := yaml_limit_bypass_list s;
     manifest := manifest s; show_apworlds := show_apworlds s; created_at := created_at s;
     updated_at := updated_at s; allow_invalid_yamls := allow_invalid_yamls s; meta_file := meta_file s;
     is_bundle_room := is_bundle_room s; locked := locked s |}.

(* src: lobby/src/views/room_settings.rs:278-303 RoomSettingsBuilder::room_from_template *)
Definition room_from_template (now : Z) (index : Index) (t : RoomTemplate) : RoomSettingsBuilder :=
  {| b_room := set_close_date (default_close_date now) (tpl_settings t); b_index := index;
     b_manifest := updated_with_index (manifest (tpl_settings t)) index; b_room_id := None; b_ty := RoomForm;
     b_read_only := false; b_tpl := None; b_base_select := None; b_action_query := [] |}.

(* src: lobby/src/views/room_settings.rs:305-321 RoomSettingsBuilder::new_with_template *)
Definition new_with_template (index : Index) (t : RoomTemplate) : RoomSettingsBuilder :=
  {| b_room := tpl_settings t; b_index := index; b_manifest := manifest (tpl_settings t);
     b_room_id := Some (tpl_id t); b_ty := TemplateForm; b_read_only := false;
     b_tpl := Some (builder_of_template t); b_base_select := None; b_action_query := [] |}.

(* src: lobby/src/views/room_settings.rs:323-347 RoomSettingsBuilder::new *)
Definition builder_new (now : Z) (index : Index) (ty : RoomSettingsType) : result error RoomSettingsBuilder :=
  m ← from_index_with_default_versions index;
  room ← default_settings now index;
  Ok {| b_room := room; b_index := index; b_manifest := m; b_room_id := None; b_ty := ty; b_read_only := false;
        b_tpl := if is_room ty then None else Some {| tb_name := []; tb_global := false |};
        b_base_select := None; b_action_query := [] |}.

(* src: lobby/src/views/room_settings.rs:349-362 RoomSettingsBuilder::read_only *)
Definition finish_builder (read_only : bool) (select : option BaseSelect) (query : str) (b : RoomSettingsBuilder) :
    RoomSettingsBuilder :=
  {| b_room := b_room b; b_index := b_index b; b_manifest := b_manifest b; b_room_id := b_room_id b;
     b_ty := b_ty b; b_read_only := read_only; b_tpl := b_tpl b; b_base_select := select;
     b_action_query := query |}.

Section handlers.
Context (read_yaml : str -> result str YamlFile) (hash_iter : gmap str f64 -> list (str * f64)).
Context (otlp : gmap str str) `{!Codecs YamlValidationParams YamlValidationResponse}.
Context (queue_error_text : WorkQueueError -> str).
Context (new_v4 : nat -> str) (fmt : FormFormats).
Context (q : WorkQueue YamlValidationParams YamlValidationResponse).
Context (cfg : BaseConfig) (index_manager : IndexSet).
(** Whether only administrators and those they allow make rooms. *)
Context (admin_rooms_only : bool).

(** ** Validating again *)

Section any_error.
Context {E : Type} `{!RequestError E}.
Local Abbreviation hm := (hm (Features := Features) (E := E)).

Definition put_yaml (y : Yaml) : hm unit := update_yaml (yaml_id_ y) (fun _ => y).

(** The row where queueing fails: it was reset before. *)
(* src: lobby/src/yaml.rs:566-647 queue_yaml_validation *)
Definition row_before_queue (y : Yaml) (room : Room) : Yaml :=
  match read_yaml (current_content y) with
  | Err _ => y
  | Ok parsed =>
      match get_apworlds_for_games hash_iter index_manager (ap_version room) (manifest (settings room)) (file_game parsed) with
      | Ok (Ok _) => reset_yaml_validation_status y
      | _ => y
      end
  end.

(** [LobbyYaml.queue_yaml_validation], with the row in its table. *)
Definition queue_validation (y : Yaml) (room : Room) : hm unit := fun db =>
  prog_bind (fun r =>
    match r with
    | Ok y' => put_yaml y' db
    | Err e => prog_bind (fun rd => Ret (Err (from_failure e), rd.2)) (put_yaml (row_before_queue y room) db)
    end) (queue_yaml_validation read_yaml hash_iter otlp queue_error_text y room index_manager q).

Fixpoint queue_validations (ys : list Yaml) (room : Room) : hm unit :=
  match ys with
  | [] => mret tt
  | y :: ys => _ ← queue_validation y room; queue_validations ys room
  end.

Fixpoint put_yamls (ys : list Yaml) : hm unit :=
  match ys with [] => mret tt | y :: ys => _ ← put_yaml y; put_yamls ys end.
End any_error.

Local Abbreviation hm := (hm (Features := Features) (E := failure)).

(** The rows change together, once all is queued. *)
(* src: lobby/src/yaml.rs:470-513 revalidate_yamls_if_necessary *)
Definition revalidate_room (room : Room) (old_resolved : gmap str (World * Version)) : hm unit :=
  if negb (yaml_validation (settings room)) then mret tt
  else
    yamls ← get_yamls_for_room (room_id room);
    rows ← task (revalidate_yamls_if_necessary read_yaml hash_iter otlp queue_error_text yamls room old_resolved
             index_manager q);
    put_yamls rows.

(** ** Making rooms *)

(* src: lobby/src/views/room/edit.rs:42-51 new_room_base *)
Definition new_room_base (base : option str) (template_version : option Version) : result error Version :=
  match base with
  | Some base => requested_base cfg index_manager (Some base)
  | None => Ok (base_or_default cfg index_manager template_version)
  end.

(* src: lobby/src/views/room/edit.rs:136-143 create_room_submit *)
Definition check_creation_allowed (session : Session) : hm unit :=
  if negb admin_rooms_only then mret tt
  else
    is_allowed ← (if is_admin session then mret true
                  else u ← step (logged_in_user_id session); get_room_creation_allowed u);
    if is_allowed : bool then mret tt else refuse "Room creation is restricted to admins only".

(* src: lobby/src/views/room/edit.rs:29-37 EditRoom *)
Record EditRoom := { e_room : option Room; room_settings_form : RoomSettingsBuilder; version_tab : bool }.

(* src: lobby/src/views/room/edit.rs:53-122 create_room *)
Definition create_room_page (from_template : option str) (base : option str) (session : Session) : hm EditRoom :=
  _ ← check_creation_allowed session;
  current_user_id ← step (logged_in_user_id session);
  template ← match from_template with
             | Some id =>
                 t ← hcontext "Couldn't get the specified template" (get_room_template_by_id id);
                 mret (if tpl_global t || bool_decide (author_id (tpl_settings t) = current_user_id)
                       then Some t else None)
             | None => mret None
             end;
  ap_version ← step (raised (new_room_base base (template ≫= tpl_ap_version)));
  index ← step (raised (index_for index_manager ap_version));
  let offered := offered cfg index_manager in
  let base_select :=
    if (1 <? length offered)%nat then
      Some {| bs_options := base_options offered (Some ap_version); switch_url := None; bs_locked := None |}
    else None in
  now ← utc_now;
  builder ← step (raised (match template with
                          | Some t => Ok (room_from_template now index t)
                          | None => builder_new now index RoomForm
                          end));
  mret {| e_room := None; room_settings_form := finish_builder false base_select [] builder; version_tab := false |}.

(* src: lobby/src/views/room/edit.rs:124-177 create_room_submit *)
Definition create_room_submit (from_template : option str) (base : option str) (form : RoomSettingsForm)
    (session : Session) : hm str :=
  _ ← check_creation_allowed session;
  form ← step (validate_room_form fmt form);
  template_version ←
    match from_template with
    | Some id =>
        t ← hcontext "The given template couldn't be found" (get_room_template_by_id id);
        if tpl_global t then mret (tpl_ap_version t)
        else
          u ← step (logged_in_user_id session);
          if bool_decide (author_id (tpl_settings t) = u) then mret (tpl_ap_version t)
          else refuse "The given template couldn't be found"
    | None => mret None
    end;
  ap_version ← step (raised (new_room_base base template_version));
  index ← step (raised (index_for index_manager ap_version));
  id ← fresh new_v4;
  u ← step (logged_in_user_id session);
  new_room ← step (to_new_room fmt form id index ap_version (Some u) (Some from_template));
  now ← utc_now;
  _ ← step (validate_close_date (nr_close_date new_room) None now);
  room ← create_room new_room;
  mret (room_id room).

(** ** Editing *)

Definition check_my_room (session : Session) (room : Room) (m : string) : hm unit :=
  if is_my_room session room then mret tt else refuse m.

(* src: lobby/src/views/room/edit.rs:179-236 edit_room *)
Definition edit_room (rid : str) (session : Session) : hm EditRoom :=
  room ← get_room rid;
  _ ← check_my_room session room "You're not allowed to edit this room";
  index ← step (raised (index_for index_manager (ap_version room)));
  let offered := offered cfg index_manager in
  base_select ←
    (if existsb (fun base => negb (bool_decide (base = ap_version room))) offered then
       generated ← get_generation_for_room (room_id room);
       mret (Some {| bs_options := base_options offered (Some (ap_version room));
         switch_url := Some (lit "/edit-room/" ++ room_id room ++ lit "/base");
         bs_locked := match generated with
                      | Some _ => Some (lit "A generation exists for this room, and it was made with this version.")
                      | None => None
                      end |})
     else mret None);
  mret {| e_room := Some room; version_tab := bool_decide (is_Some base_select);
          room_settings_form := finish_builder false base_select [] (new_with_room index room) |}.

(* src: lobby/src/views/room/edit.rs:407-456 edit_room_submit *)
Definition edit_room_submit (rid : str) (form : RoomSettingsForm) (session : Session) : hm unit :=
  room ← get_room rid;
  _ ← check_my_room session room "You're not allowed to edit this room";
  form ← step (validate_room_form fmt form);
  index ← step (raised (index_for index_manager (ap_version room)));
  let old_resolved := (resolve_with (manifest (settings room)) index).1 in
  new_room ← step (to_new_room fmt form rid index (ap_version room) None None);
  now ← utc_now;
  _ ← step (validate_close_date (nr_close_date new_room) (Some (close_date (settings room))) now);
  room ← update_room new_room;
  revalidate_room room old_resolved.

(* src: lobby/src/views/room/edit.rs:379-397 delete_room *)
Definition delete_room_handler (rid : str) (session : Session) : hm unit :=
  room ← get_room rid;
  _ ← check_my_room session room "You're not allowed to delete this room";
  delete_room rid.

(** ** Moving a room *)

(* src: lobby/src/views/room/edit.rs:247-255 SwitchBaseTpl *)
Record SwitchBaseTpl := { sb_room : Room; target : Version; yaml_count : nat; report : SwitchReport }.

(** Nothing to do, the room moved, or the page that asks first. *)
Inductive switched := Unmoved | Moved | AskFirst (p : SwitchBaseTpl).

(* src: lobby/src/views/room/edit.rs:271-377 switch_base *)
Definition switch_base (rid : str) (to : str) (confirmed : bool) (session : Session) : hm switched :=
  room ← get_room rid;
  _ ← check_my_room session room "You're not allowed to edit this room";
  target ← step (raised (requested_base cfg index_manager (Some to)));
  if bool_decide (target = ap_version room) then mret Unmoved
  else
    gen ← get_generation_for_room (room_id room);
    match gen with
    | Some _ =>
        step (raise (lit "This room has a generation, made with Archipelago " ++
                     version_to_string (ap_version room) ++ lit ". It can't move to another version."))
    | None =>
        yamls ← get_yamls_for_room (room_id room);
        if negb (bool_decide (yamls = [])) && negb confirmed then
          current ← step (raised (index_for index_manager (ap_version room)));
          target_index ← step (raised (index_for index_manager target));
          mret (AskFirst {| sb_room := room; target := target; yaml_count := length yamls;
            report := switch_report (manifest (settings room)) current target_index
                        (yamls ≫= games_of_yaml read_yaml hash_iter) |})
        else
          let revalidate := yaml_validation (settings room) in
          _ ← transaction (_ ← update_room_ap_version (room_id room) target;
                           if revalidate then reset_yaml_validation_status_for_room (room_id room) else mret tt);
          if negb revalidate then mret Moved
          else
            room ← get_room rid;
            _ ← queue_validations (reset_yaml_validation_status <$> yamls) room;
            mret Moved
    end.
End handlers.
End edit.
