(* ===== verification/LobbyTemplates.v ===== *)
(** * Templates of rooms, and lists of rooms

    [lobby/src/views/room_templates.rs], [room/list.rs], and of [lobby/src/db/] what they ask:
    [room_template.rs], [pagination.rs] and the filter of [mod.rs]. *)

From S2P Require Import Prelude Ord RustStd F64 Redis WqCore WqProg Wq.
From S2P Require Import Apwm ApwmIndex LobbyYaml LobbyBases LobbyDb LobbySettings LobbyRooms LobbyRoomEdit.

(** ** Pages of a list *)

(* src: lobby/src/db/pagination.rs:26-26 DEFAULT_PER_PAGE *)
Definition DEFAULT_PER_PAGE : Z := 20.

(** [as i64], and arithmetic on [i64]s in a release build: both wrap around. *)
Definition wrap_i64 (z : Z) : Z :=
  ((z + 9223372036854775808) mod 18446744073709551616 - 9223372036854775808)%Z.

(* src: lobby/src/db/pagination.rs:14-24 Paginate::paginate *)
Definition page_offset (page : N) : Z :=
  let page := if (page =? 0)%N then 1%Z else wrap_i64 (Z.of_N page) in
  wrap_i64 (wrap_i64 (page - 1) * DEFAULT_PER_PAGE).

(** The page, and how many there are: none if the page is past the end. *)
(* src: lobby/src/db/pagination.rs:36-56 Paginated::load_and_count_pages *)
Definition load_and_count_pages {A} (page : N) (l : list A) : result failure (list A * N) :=
  let offset := page_offset page in
  if (offset <? 0)%Z then raise (lit "OFFSET must not be negative")
  else
    let records := take (Z.to_nat DEFAULT_PER_PAGE) (drop (Z.to_nat offset) l) in
    let total := match records with [] => 0%Z | _ => Z.of_nat (length l) end in
    Ok (records, Z.to_N ((total + DEFAULT_PER_PAGE - 1) / DEFAULT_PER_PAGE)).

(** ** Which rooms *)

(* src: lobby/src/db/mod.rs:36-40 Author *)
Inductive Author := AnyAuthor | AuthorUser (u : Z).
(* src: lobby/src/db/mod.rs:42-46 WithYaml *)
Inductive WithYaml := WithAny | AndFor (u : Z).
(* src: lobby/src/db/mod.rs:48-55 OpenState *)
Inductive OpenState := AnyState | OpenOnly | ClosedOnly | OpenOrClosedWithin (secs : Z).
(* src: lobby/src/db/mod.rs:73-78 RoomFilter *)
Record RoomFilter := { with_yaml_from : WithYaml; author_filter : Author; open_state : OpenState }.
(* src: lobby/src/db/mod.rs:81-87 RoomFilter::default *)
Definition RoomFilter_default : RoomFilter :=
  {| with_yaml_from := WithAny; author_filter := AnyAuthor; open_state := AnyState |}.

Section templates.
Context {SV : SemVer} {LC : Lowercase} {Features : Type} `{JobIds}.
Local Abbreviation Db := (Db Features).

(** A condition on rooms, if there is one: [or_filter] weakens it, or is all of it. *)
(* src: lobby/src/db/mod.rs:91-120 RoomFilter::as_query *)
Definition selects (f : RoomFilter) (now : Z) (db : Db) (room : Room) : bool :=
  let cond := match author_filter f with
              | AuthorUser u => Some (author_id (settings room) =? u)%Z
              | AnyAuthor => None
              end in
  let cond := match with_yaml_from f with
              | AndFor u =>
                  let has := existsb (fun row => (owner_id (row_yaml row) =? u)%Z) (rows_of db (room_id room)) in
                  Some (match cond with Some c => c || has | None => has end)
              | WithAny => cond
              end in
  let close := close_date (settings room) in
  let open := match open_state f with
              | AnyState => true
              | OpenOnly => (now <? close)%Z
              | ClosedOnly => (close <? now)%Z
              | OpenOrClosedWithin secs => (now - seconds secs <? close)%Z
              end in
  default true cond && open.

(** The last to close first. *)
(* src: lobby/src/db/mod.rs:57-71 list_rooms *)
Definition list_rooms {E} `{!RequestError E} (f : RoomFilter) (page : option N) :
    hm (Features := Features) (E := E) (list Room * N) :=
  now ← utc_now;
  rooms ← query (fun db => sort_by (fun a b => (close_date (settings b) <=? close_date (settings a))%Z)
                             (List.filter (selects f now db) (snd <$> bt_iter (rooms db))));
  match page with
  | Some page => step (load_and_count_pages page rooms)
  | None => mret (rooms, 1%N)
  end.

Local Abbreviation hm := (hm (Features := Features) (E := failure)).

(* src: lobby/src/views/room/list.rs:11-18 ListRoomsTpl *)
Record ListRoomsTpl := { lr_rooms : list Room; lr_current_page : N; lr_max_pages : N; lr_title : str }.

(* src: lobby/src/views/room/list.rs:20-61 my_rooms *)
Definition my_rooms (page : option N) (session : Session) : hm ListRoomsTpl :=
  author ← (if is_admin session then mret AnyAuthor
            else u ← step (logged_in_user_id session); mret (AuthorUser u));
  let current_page := default 1%N page in
  '(rooms, max_pages) ←
    list_rooms {| with_yaml_from := WithAny; author_filter := author; open_state := AnyState |} (Some current_page);
  mret {| lr_rooms := rooms; lr_current_page := current_page; lr_max_pages := max_pages;
          lr_title := if is_admin session then lit "All Rooms" else lit "My Rooms" |}.

(** ** Templates *)

(** Global ones first, then the oldest. *)
(* src: lobby/src/db/room_template.rs:39-54 get_room_templates_for_author *)
Definition get_room_templates_for_author (u : Z) : hm (list RoomTemplate) :=
  query (fun db =>
    sort_by (fun a b => if Bool.eqb (tpl_global a) (tpl_global b)
                        then (created_at (tpl_settings a) <=? created_at (tpl_settings b))%Z
                        else tpl_global a)
      (List.filter (fun t => (author_id (tpl_settings t) =? u)%Z || tpl_global t) (snd <$> bt_iter (templates db)))).

(* src: lobby/src/db/room_template.rs:107-124 list_rooms_from_template *)
Definition list_rooms_from_template (tid : str) (u : Z) (page : N) : hm (list Room * N) :=
  rooms ← query (fun db => List.filter (fun room =>
      bool_decide (from_template_id room = Some tid) && (author_id (settings room) =? u)%Z) (snd <$> bt_iter (rooms db)));
  step (load_and_count_pages page rooms).

(* src: lobby/src/views/room_templates.rs:27-33 CreateTplForm *)
Record CreateTplForm := { tf_room : RoomSettingsForm; tf_tpl_name : str; tf_tpl_global : bool }.

Section handlers.
Context (fmt : FormFormats) (new_v4 : nat -> str) (cfg : BaseConfig) (index_manager : IndexSet).

(* src: lobby/src/views/room_templates.rs:60-81 list_templates *)
Definition list_templates (session : Session) : hm (list RoomTemplate) :=
  u ← step (logged_in_user_id session); get_room_templates_for_author u.

(* src: lobby/src/views/room_templates.rs:86-99 template_base *)
Definition template_base (base : option str) (current : option Version) : result error (option Version) :=
  match base with
  | None => Ok current
  | Some [] => Ok None
  | Some base =>
      match current with
      | Some v => if str_eqb base (version_to_string v) then Ok (Some v)
                  else Some <$> requested_base cfg index_manager (Some base)
      | None => Some <$> requested_base cfg index_manager (Some base)
      end
  end.

(* src: lobby/src/views/room_templates.rs:102-123 template_base_select *)
Definition template_base_select (named : option Version) : option BaseSelect :=
  let offered := offered cfg index_manager in
  if (length offered <? 2)%nat && bool_decide (named = None) then None
  else Some {| bs_options := {| o_value := []; o_label := lit "The default one when a room is made";
                                o_selected := bool_decide (named = None) |} :: base_options offered named;
               switch_url := None; bs_locked := None |}.

(* src: lobby/src/views/room_templates.rs:42-48 EditRoomTemplateTpl *)
Record EditRoomTemplateTpl := { et_tpl : option RoomTemplate; tpl_settings_form : RoomSettingsBuilder }.

(* src: lobby/src/views/room_templates.rs:125-161 create_template *)
Definition create_template (base : option str) : hm EditRoomTemplateTpl :=
  named ← step (raised (template_base base None));
  index ← step (raised (index_for index_manager (base_or_default cfg index_manager named)));
  now ← utc_now;
  builder ← step (raised (builder_new now index TemplateForm));
  mret {| et_tpl := None; tpl_settings_form := finish_builder false (template_base_select named) [] builder |}.

(* src: lobby/src/views/room_templates.rs:220-274 edit_template *)
Definition edit_template (tid : str) (base : option str) (session : Session) : hm EditRoomTemplateTpl :=
  template ← get_room_template_by_id tid;
  u ← step (logged_in_user_id session);
  let is_my_template := bool_decide (author_id (tpl_settings template) = u) in
  if negb is_my_template && negb (tpl_global template) then refuse "You are not allowed to edit this template"
  else
    named ← step (raised (template_base base (tpl_ap_version template)));
    index ← step (raised (index_for index_manager (base_or_default cfg index_manager named)));
    let action_query := lit "?base=" ++
      default [] ((fun v => replace (lit "+") (lit "%2B") (version_to_string v)) <$> named) in
    mret {| et_tpl := Some template;
            tpl_settings_form := finish_builder (negb is_my_template) (template_base_select named) action_query
                                   (new_with_template index template) |}.

(* src: lobby/src/views/room_templates.rs:399-407 validate_tpl_form *)
Definition validate_tpl_form (f : CreateTplForm) : result failure CreateTplForm :=
  room ← validate_room_form fmt (tf_room f);
  if str_eqb (trim (tf_tpl_name f)) [] then raise (lit "The template name shouldn't be empty")
  else Ok {| tf_room := room; tf_tpl_name := tf_tpl_name f; tf_tpl_global := tf_tpl_global f |}.

(** The settings that a form gives.  The author and the times of the row are the table's, as is whether
    invalid YAMLs are allowed: [NewRoomTemplate] has no such column. *)
(* src: lobby/src/views/room_templates.rs:304-331 edit_tpl_submit *)
Definition template_settings (f : RoomSettingsForm) (url : str) (close : Z) (m : Manifest)
    (author created updated : Z) (allow_invalid : bool) : RoomSettings :=
  {| room_name := trim (f_room_name f); close_date := close; description := trim (f_room_description f);
     room_url := url; author_id := author; yaml_validation := f_yaml_validation f;
     allow_unsupported := f_allow_unsupported f;
     yaml_limit_per_user := if f_yaml_limit_per_user f then Some (f_yaml_limit_per_user_nb f) else None;
     yaml_limit_bypass_list := bypass_ids (f_yaml_limit_bypass_list f); manifest := m;
     show_apworlds := f_show_apworlds f; created_at := created; updated_at := updated;
     allow_invalid_yamls := allow_invalid; meta_file := f_meta_file f; is_bundle_room := f_is_bundle_room f;
     locked := f_locked f |}.

(* src: lobby/src/views/room_templates.rs:163-218 create_tpl_submit *)
Definition create_tpl_submit (base : option str) (f : CreateTplForm) (session : Session) : hm unit :=
  f ← step (validate_tpl_form f);
  named ← step (raised (template_base base None));
  index ← step (raised (index_for index_manager (base_or_default cfg index_manager named)));
  m ← step (manifest_from_form (f_me (tf_room f)) index);
  author ← step (logged_in_user_id session);
  close ← step (parse_date fmt (f_close_date (tf_room f)) (f_tz_offset (tf_room f)));
  id ← fresh new_v4;
  t ← utc_now;
  _ ← found (fun db => users db !! author);
  change (with_templates <[id := {| tpl_id := id;
    tpl_settings := template_settings (tf_room f) [] close m author t t false;
    tpl_global := tf_tpl_global f && is_admin session; tpl_name := tf_tpl_name f; tpl_ap_version := named |}]>).

Definition is_my_tpl (session : Session) (t : RoomTemplate) : bool :=
  is_admin session || bool_decide (user_id session = Some (author_id (tpl_settings t))).

(* src: lobby/src/views/room_templates.rs:276-337 edit_tpl_submit *)
Definition edit_tpl_submit (tid : str) (base : option str) (f : CreateTplForm) (session : Session) : hm unit :=
  tpl ← get_room_template_by_id tid;
  if negb (is_my_tpl session tpl) then refuse "You're not allowed to edit this room template"
  else
    f ← step (validate_tpl_form f);
    named ← step (raised (template_base base (tpl_ap_version tpl)));
    index ← step (raised (index_for index_manager (base_or_default cfg index_manager named)));
    m ← step (manifest_from_form (f_me (tf_room f)) index);
    close ← step (parse_date fmt (f_close_date (tf_room f)) (f_tz_offset (tf_room f)));
    t ← utc_now;
    change (with_templates (alter (fun old => {| tpl_id := tid;
      tpl_settings := template_settings (tf_room f) (f_room_url (tf_room f)) close m
                        (author_id (tpl_settings old)) (created_at (tpl_settings old)) t (allow_invalid_yamls (tpl_settings old));
      tpl_global := tf_tpl_global f && is_admin session; tpl_name := tf_tpl_name f; tpl_ap_version := named |}) tid)).

(* src: lobby/src/views/room_templates.rs:339-357 delete_template *)
Definition delete_template (tid : str) (session : Session) : hm unit :=
  tpl ← get_room_template_by_id tid;
  if negb (is_my_tpl session tpl) then refuse "You're not allowed to delete this room template"
  else delete_room_template tid.

(* src: lobby/src/views/room_templates.rs:50-58 AssociatedRoomsTpl *)
Record AssociatedRoomsTpl := { ar_tpl : RoomTemplate; ar_rooms : list Room; ar_current_page : N; ar_max_pages : N }.

(* src: lobby/src/views/room_templates.rs:359-397 list_associated_rooms *)
Definition list_associated_rooms (tid : str) (page : option N) (session : Session) : hm AssociatedRoomsTpl :=
  tpl ← get_room_template_by_id tid;
  if negb (tpl_global tpl || is_my_tpl session tpl) then refuse "Couldn't find the given template"
  else
    let current_page := default 1%N page in
    u ← step (logged_in_user_id session);
    '(rooms, max_pages) ← list_rooms_from_template tid u current_page;
    mret {| ar_tpl := tpl; ar_rooms := rooms; ar_current_page := current_page; ar_max_pages := max_pages |}.
End handlers.
End templates.
