(* ===== verification/LobbyGenerations.v ===== *)
(** * Generations of rooms

    [lobby/src/views/room/gen.rs], [lobby/src/generation.rs] and what [lobby/src/jobs.rs] does with
    the results of generations: who starts, cancels and uploads them and when, the job that is
    queued, and the patch that each YAML gets.  A file is its contents; [zip] reads the names in
    an archive. *)

From S2P Require Import Prelude Ord RustStd F64 Redis WqCore WqProg Wq.
From S2P Require Import Apwm ApwmIndex LobbyNames LobbyYaml LobbyFeatures LobbyDb LobbyRooms.

(** ** Patches by their names *)

Definition is_digit (c : char) : bool := (48 <=? c)%N && (c <=? 57)%N.
Definition is_separator (c : char) : bool := (c =? 45)%N || (c =? 95)%N.

Fixpoint span_digits (s : str) : str * str :=
  match s with
  | [] => ([], [])
  | c :: s' => if is_digit c then let '(d, r) := span_digits s' in (c :: d, r) else ([], s)
  end.

(** A separator is no digit, so digits are all matched or none match. *)
Definition digits_then_separator (s : str) : option (str * str) :=
  match span_digits s with
  | (_ :: _ as d, c :: r) => if is_separator c then Some (d, r) else None
  | _ => None
  end.

Definition line_has_dot (s : str) : bool :=
  bool_decide (46%N ∈ List.fold_right (fun c acc => if (c =? 10)%N then [] else c :: acc) [] s).

(** The expression at a position, with what its first group captures. *)
Definition patch_here (s : str) : option str :=
  match s with
  | 65%N :: 80%N :: c :: s =>
      if is_separator c then
        '(_, s) ← digits_then_separator s;
        match s with
        | 80%N :: s => '(slot, s) ← digits_then_separator s; if line_has_dot s then Some slot else None
        | _ => None
        end
      else None
  | _ => None
  end.

(** The leftmost match. *)
(* src: lobby/src/jobs.rs:386-387 AP_PATCH_RE *)
Fixpoint ap_patch_slot (s : str) : option str :=
  match patch_here s, s with
  | Some slot, _ => Some slot
  | None, [] => None
  | None, _ :: s => ap_patch_slot s
  end.

(** ** Jobs *)

Section params.
Context {SV : SemVer}.

(* src: lobby/src/jobs.rs:50-58 GenerationParams *)
Record GenerationParams := {
  g_apworlds : list (str * Version);
  g_room_id : str;
  g_meta_file : str;
  g_otlp_context : gmap str str;
  g_ap_version : option Version;
}.
End params.

(* src: lobby/src/generation.rs:9-13 GenerationInfo *)
Record GenerationInfo := { log_file : option str; output_file : option str }.

(** What a directory has, in the order it is listed; the last of each kind counts. *)
(* src: lobby/src/generation.rs:15-43 get_generation_info *)
Definition get_generation_info (entries : option (list (str * str))) : GenerationInfo :=
  match entries with
  | None => {| log_file := None; output_file := None |}
  | Some entries =>
      let last_with suffix := last (List.filter (ends_with (lit suffix)) entries.*1) in
      {| log_file := last_with ".log"; output_file := last_with ".zip" |}
  end.

Definition file_in (entries : option (list (str * str))) (name : str) : option str :=
  es ← entries; e ← List.find (fun e => str_eqb e.1 name) es; Some e.2.

Section generations.
Context {SV : SemVer} {LC : Lowercase} {Features : Type} `{JobIds}.
Context (read_yaml : str -> result str YamlFile).
Context (otlp : gmap str str) `{!Codecs GenerationParams unit}.
Context (queue_error_text : WorkQueueError -> str).
(** The names in an archive, in its order, if it is one. *)
Context (zip_file_names : str -> option (list str)).
Context (q : WorkQueue GenerationParams unit) (index_manager : IndexSet).
Context {E : Type} `{!RequestError E}.
Local Abbreviation hm := (hm (Features := Features) (E := E)).
Local Abbreviation YamlWithoutContent := (YamlWithoutContent (Features := Features)).

(** ** Patches *)

(** [usize] wraps around: there is no slot before the first. *)
(* src: lobby/src/jobs.rs:432-440 get_yamls_patches_association *)
Definition associate (slots : list (str * str)) (acc : gmap str str) (file : str) :
    result failure (gmap str str) :=
  match ap_patch_slot file with
  | None => Ok acc
  | Some slot =>
      match parse_u64 slot with
      | None => raise (lit "number too large to fit in target type")
      | Some n =>
          if (n =? 0)%Z then Ok acc
          else match slots !! Z.to_nat (n - 1) with
               | None => Ok acc
               | Some e => Ok (<[e.2 := file]> acc)
               end
      end
  end.

(* src: lobby/src/jobs.rs:414-443 get_yamls_patches_association *)
Definition get_yamls_patches_association (entries : option (list (str * str)))
    (room_yamls : list YamlWithoutContent) : result failure (gmap str str) :=
  match output_file (get_generation_info entries) with
  | None => raise (lit "Couldn't find generation output")
  | Some output =>
      match file_in entries output ≫= zip_file_names with
      | None => raise (lit "Couldn't read the archive")
      | Some names =>
          slots ← or_panic (get_slots room_yamls);
          try_fold (associate slots) ∅ names
      end
  end.

Definition job_dir (j : JobId) : hm (option (list (str * str))) := query (fun db => out_dir db !! id_to_string j).

(* src: lobby/src/jobs.rs:389-412 refresh_gen_patches *)
Definition refresh_gen_patches (rid : str) : hm unit :=
  gen ← get_generation_for_room rid;
  match gen with
  | None => refuse "Couldn't find generation for room"
  | Some gen =>
      room_yamls ← get_yamls_for_room_with_author_names rid;
      entries ← job_dir (gen_job gen);
      associations ← step (get_yamls_patches_association entries room_yamls.*1);
      associate_patch_files (map_to_list associations) rid
  end.

(** The result says that the queue is done with the job. *)
(* src: lobby/src/jobs.rs:333-384 get_generation_callback *)
Definition generation_callback (desc : JobDesc GenerationParams) (res : JobResult unit) : hm bool :=
  let rid := g_room_id (desc_params desc) in
  let succeeded := bool_decide (res_status res = Success) in
  _ ← update_generation_status_for_room rid (if succeeded then GenDone else GenFailed);
  _ ← (if succeeded then refresh_gen_patches rid else mret tt);
  mret true.

(** ** The owner's pages *)

Definition check_owner (session : Session) (room : Room) (m : string) : hm unit :=
  mine ← step (owns_room session room);
  if mine : bool then mret tt else refuse m.

(** What has to hold, and whether it does; the code keeps this in a [HashMap], so that the first
    that doesn't hold is any of them. *)
(* src: lobby/src/views/room/gen.rs:522-551 get_info_for_gen *)
Definition get_info_for_gen (room : Room) (session : Session) : hm (list (str * bool) * list Yaml) :=
  closed ← is_closed room;
  yamls ← get_yamls_for_room (room_id room);
  current_generation ← get_generation_for_room (room_id room);
  let yaml_count := length yamls in
  mret ([(lit "The room must be closed", closed);
         (lit "All YAMLs files must have been validated",
          forallb (fun y => bool_decide (validation_status y = Validated)) yamls);
         (lit "The room must contain between 1 and 100 YAMLs",
          ((0 <? yaml_count)%nat && (yaml_count <=? 100)%nat) || is_admin session);
         (lit "There must be no generation in progress", bool_decide (current_generation = None))], yamls).

(* src: lobby/src/views/room/gen.rs:43-50 GenRoomTpl *)
Record GenRoomTpl := { gt_room : Room; generation_checklist : list (str * bool); current_gen : option Generation }.

(* src: lobby/src/views/room/gen.rs:52-86 gen_room *)
Definition gen_room (rid : str) (session : Session) : hm GenRoomTpl :=
  room ← get_room rid;
  _ ← check_owner session room "Cannot access generation for a room that isn't yours";
  '(checklist, _) ← get_info_for_gen room session;
  gen ← get_generation_for_room rid;
  mret {| gt_room := room; generation_checklist := checklist; current_gen := gen |}.

(** The games of a YAML, those that can't be rolled too. *)
(* src: lobby/src/views/room/gen.rs:459-477 enqueue_gen_job *)
Definition required_worlds (yamls : list Yaml) : result failure (gset str) :=
  try_fold (fun acc y =>
    match read_yaml (current_content y) with
    | Err _ => raise (lit "Internal error, unable to reparse a YAML that was already parsed before")
    | Ok parsed => Ok (acc ∪ match file_game parsed with
                             | GameName name => {[name]}
                             | GameMap names => dom names
                             end)
    end) ∅ yamls.

(** The worlds that are played, by the names that Archipelago has for them. *)
(* src: lobby/src/views/room/gen.rs:483-495 enqueue_gen_job *)
Definition gen_apworlds (m : Manifest) (index : Index) (required : gset str) : result failure (list (str * Version)) :=
  try_fold (fun acc (e : str * (World * Version)) =>
    if bool_decide (Apwm.name e.2.1 ∈ required) then
      match get_ap_name e.2.1 with
      | Ok name => Ok (acc ++ [(name, e.2.2)])
      | Err _ => Err Panicked
      end
    else Ok acc) [] (bt_iter (resolve_with m index).1).

(* src: lobby/src/views/room/gen.rs:451-520 enqueue_gen_job *)
Definition enqueue_gen_job (room : Room) (yamls : list Yaml) (index : Index) : hm JobId :=
  required ← step (required_worlds yamls);
  current_manifest ← step (or_panic (freeze (manifest (settings room)) index));
  _ ← update_room_manifest (room_id room) current_manifest;
  apworlds ← step (gen_apworlds current_manifest index required);
  let params := {| g_apworlds := apworlds; g_room_id := room_id room; g_meta_file := meta_file (settings room);
                   g_otlp_context := otlp; g_ap_version := Some (ap_version room) |} in
  job_id ← task (queued queue_error_text
             (enqueue_job_in q (Some (version_to_string (ap_version room))) params Normal (seconds (60 * 60 * 6))));
  _ ← insert_generation_for_room (room_id room) job_id;
  mret job_id.

(* src: lobby/src/views/room/gen.rs:156-193 gen_room_start *)
Definition gen_room_start (rid : str) (session : Session) : hm JobId :=
  room ← get_room rid;
  _ ← check_owner session room "Cannot access generation for a room that isn't yours";
  '(checklist, yamls) ← get_info_for_gen room session;
  match List.find (fun e : str * bool => negb e.2) checklist with
  | Some (label, _) =>
      step (raise (lit "Cannot start generation because the following condition isn't met: " ++ label))
  | None =>
      index ← step (raised (index_for index_manager (ap_version room)));
      enqueue_gen_job room yamls index
  end.

(* src: lobby/src/views/room/gen.rs:195-227 gen_room_cancel *)
Definition gen_room_cancel (rid : str) (session : Session) : hm unit :=
  room ← get_room rid;
  _ ← check_owner session room "Cannot cancel generation for a room that isn't yours";
  gen ← get_generation_for_room rid;
  match gen with
  | None => refuse "Cannot cancel generation, there's none in progress"
  | Some gen =>
      _ ← task (queued queue_error_text (cancel_job q (gen_job gen)));
      delete_generation_for_room rid
  end.

(** The file that a page of the generation shows. *)
Definition generation_file (rid : str) (session : Session) (m : string) (which : GenerationInfo -> option str) :
    hm str :=
  room ← get_room rid;
  _ ← check_owner session room m;
  gen ← get_generation_for_room rid;
  match gen with
  | None => refuse "There's no generation running for this room"
  | Some gen =>
      entries ← job_dir (gen_job gen);
      match which (get_generation_info entries) with
      | None => refuse "There's no output for this room"
      | Some output_path => step (or_panic (file_in entries output_path))
      end
  end.
(* src: lobby/src/views/room/gen.rs:229-268 gen_room_logs *)
Definition gen_room_logs (rid : str) (session : Session) : hm str :=
  generation_file rid session "Cannot view logs for a generation that's not yours" log_file.
(* src: lobby/src/views/room/gen.rs:409-449 gen_room_output *)
Definition gen_room_output (rid : str) (session : Session) : hm str :=
  generation_file rid session "Cannot get output for a generation that's not yours" output_file.

(* src: lobby/src/views/room/gen.rs:113-121 job_status_to_client_str *)
Definition job_status_to_client_str (s : JobStatus) : str :=
  match s with
  | Pending => lit "pending" | Running => lit "running" | Success => lit "success"
  | Failure => lit "failure" | InternalError => lit "error"
  end.

(* src: lobby/src/views/room/gen.rs:142-145 gen_room_status *)
Definition status_of_generation (s : GenerationStatus) : JobStatus :=
  match s with GenDone => Success | GenPending => Pending | GenRunning => Running | GenFailed => Failure end.

(** The messages of the stream, until it ends; it waits between two rounds, of which there are at
    most [fuel] here. *)
(* src: lobby/src/views/room/gen.rs:123-152 gen_room_status *)
Fixpoint status_messages (fuel : nat) (rid : str) (j : JobId) : Db Features -> prog (list str * Db Features) :=
  match fuel with
  | O => fun _ => Spin
  | S fuel => fun db =>
      prog_bind (fun r : result WorkQueueError (option JobStatus) =>
        match r with
        | Err _ => Ret ([job_status_to_client_str InternalError], db)
        | Ok (Some status) =>
            if is_resolved status then Ret ([job_status_to_client_str status], db)
            else prog_bind (fun rest => Ret (job_status_to_client_str status :: rest.1, rest.2))
                   (status_messages fuel rid j db)
        | Ok None =>
            let status := match generations db !! rid with
                          | Some gen => status_of_generation (gen_status gen)
                          | None => InternalError
                          end in
            Ret ([job_status_to_client_str status], db)
        end) (get_job_status q j)
  end.

(* src: lobby/src/views/room/gen.rs:88-154 gen_room_status *)
Definition gen_room_status (fuel : nat) (rid : str) (session : Session) : hm (list str) :=
  room ← get_room rid;
  _ ← check_owner session room "Cannot cancel generation for a room that isn't yours";
  gen ← get_generation_for_room rid;
  match gen with
  | None => refuse "Cannot get generatio info, there's none in progress"
  | Some gen => (fun db => prog_bind (fun r => Ret (Ok r.1, r.2)) (status_messages fuel rid (gen_job gen) db)) : hm (list str)
  end.

Definition new_job_id : hm JobId := fun db => Vis NewUuid (fun j => Ret (Ok j, db)).
Definition put_files (j : JobId) (files : list (str * str)) : hm unit :=
  change (with_out_dir (fun dirs =>
    let kept := List.filter (fun e => negb (existsb (fun f => str_eqb e.1 f.1) files))
                  (default [] (dirs !! id_to_string j)) in
    <[id_to_string j := kept ++ files]> dirs)).

(** [file] is what was uploaded, if it was stored. *)
(* src: lobby/src/views/room/gen.rs:345-406 gen_room_manual_upload *)
Definition gen_room_manual_upload (rid : str) (file : option str) (session : Session) : hm unit :=
  room ← get_room rid;
  _ ← check_owner session room "Cannot upload generation for a room that isn't yours";
  gen ← get_generation_for_room rid;
  match gen, file with
  | Some _, _ => refuse "Cannot upload a generation while one already exists"
  | None, None => refuse "No temporary file path available"
  | None, Some zip =>
      if (length zip <? 4)%nat then refuse "failed to fill whole buffer"
      else if negb (str_eqb (take 4 zip) [80; 75; 3; 4]%N) then refuse "Uploaded file must be a zip"
      else
        job_id ← new_job_id;
        _ ← put_files job_id [(rid ++ lit ".zip", zip);
                              (lit "output.log", lit "Manually uploaded by room owner")];
        _ ← insert_generation_for_room_as_done rid job_id;
        refresh_gen_patches rid
  end.
End generations.
