(* ===== verification/LobbyApi.v ===== *)
(** * The lobby's API

    The routes of [lobby/src/views/api.rs].  An answer is the value that is sent; an error has a
    status.  The routes for administrators ask for their session first ([admin_only]). *)

From S2P Require Import Prelude Ord RustStd F64 Redis WqCore WqProg Wq Apwm ApwmIndex LobbyOptions LobbyOptionPages.
From S2P Require Import LobbyNames LobbyYaml LobbyBases LobbyDb LobbySession LobbyRooms LobbyRoomEdit.
From S2P Require Import LobbyTemplates LobbyGenerations.

(* src: lobby/src/views/api.rs:39-49 YamlInfo *)
Record YamlInfo := {
  yi_id : str;
  yi_player_name : str;
  discord_handle : str;
  discord_id : Z;
  yi_game : str;
  slot_number : nat;
  has_patch : bool;
  yi_created_at : Z;
}.
(* src: lobby/src/views/api.rs:51-56 SlotPasswordInfo *)
Record SlotPasswordInfo := { sp_slot_number : nat; sp_player_name : str; sp_password : option str }.

(** Tags in the order of their first uses. *)
Fixpoint distinct (seen tags : list str) : list str :=
  match tags with
  | [] => []
  | t :: tags => if bool_decide (t ∈ seen) then distinct seen tags else t :: distinct (t :: seen) tags
  end.

(* src: lobby/src/views/api.rs:120-120 MAX_CLOSED_WITHIN *)
Definition MAX_CLOSED_WITHIN : Z := 7 * 24 * 60 * 60.

(** Two YAMLs' games are the same; [f64]'s equality compares the weights. *)
(* src: lobby/src/db/yaml.rs:77-82 YamlGame *)
Definition same_game (a b : YamlGame) : bool :=
  match a, b with
  | GameName a, GameName b => str_eqb a b
  | GameMap a, GameMap b =>
      (size a =? size b)%nat &&
      forallb (fun e => match b !! e.1 with Some w => SFeqb e.2 w | None => false end) (map_to_list a)
  | _, _ => false
  end.

Section api.
Context {SV : SemVer} {LC : Lowercase} {Features : Type} `{JobIds}.

(* src: lobby/src/views/api.rs:69-86 RoomInfo *)
Record ApiRoomInfo := {
  ai_id : str;
  ai_name : str;
  ai_close_date : Z;
  ai_description : str;
  ai_locked : bool;
  ai_author_id : Z;
  ai_ap_version : Version;
  ai_yamls : list YamlInfo;
  server_info : option RoomInfo;
  ai_room_url : option str;
}.
(* src: lobby/src/views/api.rs:88-99 RoomListEntry *)
Record RoomListEntry := {
  le_id : str;
  le_name : str;
  le_description : str;
  le_close_date : Z;   (* in seconds *)
  le_locked : bool;
  le_author_id : Z;
  le_ap_version : Version;
  hashtags : list str;
  le_room_url : str;
}.
(* src: lobby/src/views/api.rs:273-278 YamlInfoResponse *)
Record YamlInfoResponse := { yr_yaml : Yaml; discord_username : option str }.
(* src: lobby/src/views/api.rs:546-557 BulkYamlInfo *)
Record BulkYamlInfo := {
  by_id : str;
  by_player_name : str;
  by_discord_handle : str;
  by_discord_id : str;
  by_game : str;
  by_content : str;
  by_created_at : Z;
  by_last_edited_by_name : option str;
  by_last_edited_at : option Z;
}.
(* src: lobby/src/views/api.rs:638-643 EditYamlRequest *)
Record EditYamlRequest := { rq_content : str; edited_by : Z; edited_by_name : str }.

Context (extract_features : Index -> YamlFile -> str -> result failure Features).
Context (read_yaml : str -> result str YamlFile) (split_documents : str -> list (result unit str)).
Context (hash_iter : gmap str f64 -> list (str * f64)).
Context (otlp : gmap str str) `{!Codecs YamlValidationParams YamlValidationResponse}.
Context (queue_error_text : WorkQueueError -> str) (fuel : nat).
Context (q : WorkQueue YamlValidationParams YamlValidationResponse).
Context (cfg : BaseConfig) (index_manager : IndexSet) (admin_rooms_only : bool).
(** Words after a hash sign, as the expression finds them. *)
Context (find_hashtags : str -> list str).
(** The [n]-th password that is drawn: six letters or digits. *)
Context (sample_password : nat -> str).
Local Abbreviation hm := (hm (Features := Features) (E := ApiError)).

Definition api_fail {A} (status : N) (m : str) : hm A := fun db =>
  Ret (Err {| api_error := Raised [m]; api_status := status |}, db).
Definition api_check (ok : bool) (status : N) (m : string) : hm unit :=
  if ok then mret tt else api_fail status (lit m).
(** [.status(_)]. *)
Definition with_status {A} (status : N) (m : LobbyDb.hm (Features := Features) (E := failure) A) : hm A := fun db =>
  prog_bind (fun rd => Ret (map_err (fun f => {| api_error := f; api_status := status |}) rd.1, rd.2)) (m db).
(** [.context(_).status(Status::NotFound)]. *)
Definition or_not_found {A} (c : string) (m : LobbyDb.hm (Features := Features) (E := failure) A) : hm A :=
  with_status 404 (hcontext c m).
Definition admin_only {A} (session : Session) (m : hm A) : hm A :=
  match admin_guard session with
  | Ok _ => m
  | Err (status, text) => api_fail status text
  end.

(** ** Rooms *)

(* src: lobby/src/views/api.rs:106-116 extract_hashtags *)
Definition extract_hashtags (text : str) : list str := distinct [] (to_lowercase <$> find_hashtags text).

(* src: lobby/src/views/api.rs:124-161 list_open_rooms *)
Definition list_open_rooms (session : Session) (closed_within : option Z) : hm (list RoomListEntry) :=
  admin_only session (
    let secs := Z.min (default 0%Z closed_within) MAX_CLOSED_WITHIN in
    let state := if (secs =? 0)%Z then OpenOnly else OpenOrClosedWithin secs in
    '(rooms, _) ← list_rooms {| with_yaml_from := WithAny; author_filter := AnyAuthor; open_state := state |} None;
    mret ((fun room =>
      {| le_id := room_id room; le_name := room_name (settings room);
         hashtags := extract_hashtags (description (settings room)); le_description := description (settings room);
         le_close_date := close_date (settings room) / seconds 1; le_locked := locked (settings room);
         le_author_id := author_id (settings room); le_ap_version := ap_version room;
         le_room_url := room_url (settings room) |}) <$> rooms)).

(** The slot of each YAML, counted from 0. *)
(* src: lobby/src/views/api.rs:180-184 room_info *)
Definition slot_map (slots : list (str * str)) : gmap str nat :=
  list_to_map (rev (imap (fun i (e : str * str) => (e.2, i)) slots)).

Definition slots_of (yamls : list (YamlWithoutContent (Features := Features) * str)) : hm (gmap str nat) :=
  slots ← step (or_panic (get_slots yamls.*1)); mret (slot_map slots).

(* src: lobby/src/views/api.rs:204-213 room_info *)
Definition yaml_info_of (slots : gmap str nat) (e : YamlWithoutContent (Features := Features) * str) :
    result failure YamlInfo :=
  slot ← or_panic (slots !! yw_id e.1);
  Ok {| yi_id := yw_id e.1; yi_player_name := yw_player_name e.1; discord_id := yw_owner_id e.1;
        discord_handle := e.2; yi_game := yw_game e.1; slot_number := S slot;
        has_patch := bool_decide (is_Some (yw_patch e.1)); yi_created_at := yw_created_at e.1 |}.

Definition map_all {A B} (f : A -> result failure B) (l : list A) : result failure (list B) :=
  try_fold (fun acc a => b ← f a; Ok (acc ++ [b])) [] l.

(* src: lobby/src/views/api.rs:163-222 room_info *)
Definition room_info (rid : str) (session : Session) : hm ApiRoomInfo :=
  '(room, info) ← or_not_found "Couldn't find the room" (get_room_with_info rid);
  yamls ← get_yamls_for_room_with_author_names rid;
  slots ← slots_of yamls;
  let user_has_yaml := existsb (fun e => bool_decide (Some (yw_owner_id e.1) = user_id session)) yamls in
  let can_see_room_url := is_my_room session room || user_has_yaml in
  infos ← step (map_all (yaml_info_of slots) yamls);
  mret {| ai_id := room_id room; ai_name := room_name (settings room); ai_close_date := close_date (settings room);
          ai_description := description (settings room); ai_locked := locked (settings room);
          ai_author_id := author_id (settings room); ai_ap_version := ap_version room; ai_yamls := infos;
          server_info := info;
          ai_room_url := let url := room_url (settings room) in
                         if can_see_room_url && negb (str_eqb url []) then Some url else None |}.

(** ** YAMLs *)

Definition find_yaml (rid yid : str) : hm Yaml :=
  or_not_found "Couldn't find this YAML in this room" (get_yaml_in_room rid yid).
Definition find_room (rid : str) : hm Room := or_not_found "Couldn't find the room" (get_room rid).

(** A file: its name and what is in it. *)
(* src: lobby/src/views/api.rs:224-244 download_yaml *)
Definition download_yaml (rid yid : str) : hm (str * str) :=
  yaml ← find_yaml rid yid;
  mret (sanitize_yaml_name (player_name yaml) ++ lit ".yaml", current_content yaml).

(* src: lobby/src/views/api.rs:246-271 download_bundle *)
Definition download_bundle (rid bid : str) : hm (str * str) :=
  _ ← find_room rid;
  bundle ← or_not_found "Couldn't find the YAML bundle" (get_bundle_by_id bid);
  mret (default [] (bundle_file_name bundle) ++ lit ".yaml", bundle_as_yaml bundle).

Definition hide_editor (y : Yaml) : Yaml := {|
  yaml_id_ := yaml_id_ y; content := content y; game := game y; player_name := player_name y;
  owner_id := owner_id y; validation_status := validation_status y; yaml_apworlds := yaml_apworlds y;
  last_validation_time := last_validation_time y; last_error := last_error y; patch := patch y;
  bundle_id := bundle_id y; password := password y; edited_content := edited_content y;
  last_edited_by := last_edited_by y;
  last_edited_by_name := (fun _ => lit "a helper") <$> last_edited_by_name y;
  last_edited_at := last_edited_at y |}.

(* src: lobby/src/views/api.rs:280-308 yaml_info *)
Definition yaml_info (rid yid : str) (session : Session) : hm YamlInfoResponse :=
  '(yaml, name) ← or_not_found "Couldn't find this YAML in this room" (get_yaml_in_room_with_owner_name rid yid);
  mret {| yr_yaml := if is_logged_in session then yaml else hide_editor yaml;
          discord_username := if is_logged_in session then Some name else None |}.

(* src: lobby/src/views/api.rs:310-351 retry_yaml *)
Definition retry_yaml (rid yid : str) (session : Session) : hm unit :=
  room ← find_room rid;
  yaml ← find_yaml rid yid;
  is_allowed ← (if is_admin session then mret true
                else me ← step (logged_in_user_id session);
                     mret (bool_decide (me = author_id (settings room)) || bool_decide (me = owner_id yaml)));
  if negb is_allowed then refuse "You're not allowed to retry this validation job"
  else queue_validation read_yaml hash_iter otlp queue_error_text q index_manager yaml room.

(* src: lobby/src/views/api.rs:559-636 bulk_yamls *)
Definition bulk_yamls (session : Session) (rid : str) : hm (list BulkYamlInfo) :=
  admin_only session (
    _ ← find_room rid;
    query (fun db => omap (fun row =>
      let y := row_yaml row in
      u ← users db !! owner_id y;
      Some {| by_id := yaml_id_ y; by_player_name := player_name y; by_discord_handle := username u;
              by_discord_id := Z_to_str (owner_id y); by_game := game y; by_content := current_content y;
              by_created_at := row_created row; by_last_edited_by_name := last_edited_by_name y;
              by_last_edited_at := last_edited_at y |}) (rows_of db rid))).

(** ** Passwords *)

(* src: lobby/src/views/api.rs:367-398 slots_passwords *)
Definition slots_passwords (session : Session) (rid : str) : hm (list SlotPasswordInfo) :=
  admin_only session (
    yamls ← get_yamls_for_room_with_author_names rid;
    slots ← slots_of yamls;
    infos ← step (map_all (fun e : YamlWithoutContent * str =>
      slot ← or_panic (slots !! yw_id e.1);
      Ok {| sp_slot_number := S slot; sp_player_name := yw_player_name e.1; sp_password := yw_password e.1 |}) yamls);
    mret (sort_by (fun a b => (sp_slot_number a <=? sp_slot_number b)%nat) infos)).

Fixpoint gen_passwords (ys : list Yaml) : hm unit :=
  match ys with
  | [] => mret tt
  | y :: ys =>
      _ ← match password y with
          | None => pw ← fresh sample_password; update_yaml_password (yaml_id_ y) (Some pw)
          | Some _ => mret tt
          end;
      gen_passwords ys
  end.

(* src: lobby/src/views/api.rs:400-423 gen_all_passwords *)
Definition gen_all_passwords (session : Session) (rid : str) : hm unit :=
  admin_only session (
    yamls ← or_not_found "Couldn't find this room" (get_yamls_for_room rid);
    gen_passwords yamls).

(* src: lobby/src/views/api.rs:425-444 set_password *)
Definition set_password (session : Session) (rid yid : str) (pw : option str) : hm unit :=
  admin_only session (_ ← find_yaml rid yid; update_yaml_password yid pw).

(** ** Games *)

(* src: lobby/src/views/api.rs:454-461 api_base *)
Definition api_base (base : option str) : hm Version :=
  with_status 404 (step (raised (requested_base cfg index_manager base))).

(** The names of the worlds and of their games. *)
(* src: lobby/src/views/api.rs:463-482 list_games *)
Definition list_games (session : Session) (base : option str) : hm (list (str * str)) :=
  admin_only session (
    base ← api_base base;
    index ← step (raised (index_for index_manager base));
    mret (sort_by (fun a b => str_leb (to_lowercase a.2) (to_lowercase b.2))
            ((fun e => (e.1, Apwm.name e.2)) <$> bt_iter (worlds index)))).

(** ** Changing YAMLs *)

Definition bad_request {A} (r : result error A) : hm A := with_status 400 (step (raised r)).

(* src: lobby/src/views/api.rs:738-755 edit_yaml *)
Definition edit_outcome (room : Room) (r : YamlValidationJobResult) :
    result ApiError (list (str * Version) * YamlValidationStatus * option str) :=
  match r with
  | ValidationSuccess apworlds => Ok (apworlds, Validated, None)
  | ValidationFailure apworlds error =>
      if allow_invalid_yamls (settings room) then Ok (apworlds, Failed, Some error)
      else Err {| api_error := Raised [lit "Validation failed: " ++ error]; api_status := 400 |}
  | ValidationUnsupported games =>
      Ok ([], Unsupported, Some (lit "Unsupported apworlds: " ++ join (lit ", ") games))
  end.

Definition put_edit (yid : str) (f : Features) (u : Yaml -> Yaml) : hm unit :=
  change (with_yamls (alter (fun row =>
    {| row_yaml := u (row_yaml row); row_room := row_room row; row_features := f; row_created := row_created row |}) yid)).

(** The game and the name of the YAML after the edit. *)
(* src: lobby/src/views/api.rs:652-802 edit_yaml *)
Definition edit_yaml (session : Session) (rid yid : str) (req : EditYamlRequest) : hm (str * str) :=
  admin_only session (
    room ← find_room rid;
    _ ← api_check (negb (locked (settings room))) 400 "This room is locked";
    yaml ← find_yaml rid yid;
    originals ← step (raised (parse_raw_yamls read_yaml split_documents [current_content yaml]));
    '(_, original) ← step (or_panic (head originals));
    documents ← bad_request (parse_raw_yamls read_yaml split_documents [rq_content req]);
    match documents with
    | [(document, parsed)] =>
        _ ← api_check (same_game (file_game parsed) (file_game original)) 400 "Cannot change the game in an edit";
        _ ← api_check (str_eqb (file_name parsed) (file_name original)) 400 "Cannot change the slot name in an edit";
        game_name ← bad_request (validate_game hash_iter (file_game parsed));
        '(apworlds, status, error) ←
          (if yaml_validation (settings room) then
             validated ← task (validate_yaml hash_iter otlp queue_error_text fuel document parsed (ap_version room)
                                 (manifest (settings room)) index_manager q);
             answer (edit_outcome room validated)
           else mret ([], Unknown, None));
        index ← step (raised (index_for index_manager (ap_version room)));
        features ← step (extract_features index parsed document);
        t ← utc_now;
        _ ← put_edit yid features (update_yaml_edited_content (rq_content req) game_name (file_name parsed) status
              apworlds error (edited_by req) (edited_by_name req) t);
        mret (game_name, file_name parsed)
    | _ => api_fail 400 (lit "Edited content must contain exactly one YAML document")
    end).

(* src: lobby/src/views/api.rs:804-844 delete_yaml_api *)
Definition delete_yaml_api (session : Session) (rid yid : str) : hm unit :=
  admin_only session (
    room ← find_room rid;
    _ ← api_check (negb (locked (settings room))) 400 "This room is locked";
    gen ← get_generation_for_room rid;
    _ ← api_check (bool_decide (gen = None)) 400 "Cannot delete YAMLs while a generation exists for this room";
    _ ← find_yaml rid yid;
    remove_yaml yid).

(* src: lobby/src/views/api.rs:852-879 change_yaml_owner *)
Definition change_yaml_owner (session : Session) (rid yid : str) (new_owner_id : Z) (new_password : option str) :
    hm unit :=
  admin_only session (
    _ ← find_yaml rid yid;
    _ ← ensure_user_exists new_owner_id;
    update_yaml_owner yid new_owner_id new_password).

(** ** Who makes rooms *)

Definition parse_discord_id (id : str) : hm Z :=
  match parse_i64 id with Some u => mret u | None => api_fail 400 (lit "Invalid Discord ID") end.
(* src: lobby/src/views/api.rs:886-900 add_room_creation_allowed_user *)
Definition add_room_creation_allowed_user (session : Session) (id : str) : hm unit :=
  admin_only session (u ← parse_discord_id id; set_room_creation_allowed u true).
(* src: lobby/src/views/api.rs:902-916 remove_room_creation_allowed_user *)
Definition remove_room_creation_allowed_user (session : Session) (id : str) : hm unit :=
  admin_only session (u ← parse_discord_id id; set_room_creation_allowed u false).

(** ** Patches *)

(* src: lobby/src/views/api.rs:353-365 refresh_patches *)
Definition refresh_patches (zip_file_names : str -> option (list str)) (session : Session) (rid : str) : hm unit :=
  admin_only session (refresh_gen_patches zip_file_names rid).

(** ** Options *)

(* src: lobby/src/views/api.rs:484-491 OptionInfo *)
Record OptionInfo := {
  oi_name : str;
  oi_ty : str;
  oi_choices : option (list str);
  oi_suggestions : option (list str);
  oi_valid_keys : option (list str);
}.

(** The options of a world's newest release. *)
(* src: lobby/src/views/api.rs:493-544 game_options *)
Definition game_options (fmt : LobbyOptionPages.Formats) `{!Codecs OptionsGenParams OptionsGenResponse}
    (c : OptionsCache) (oq : WorkQueue OptionsGenParams OptionsGenResponse)
    (session : Session) (apworld : str) (base : option str) : hm (list OptionInfo) :=
  admin_only session (
    base ← api_base base;
    index ← step (raised (index_for index_manager base));
    match worlds index !! apworld with
    | None => api_fail 404 (lit "Unknown apworld")
    | Some world =>
        match latest_version world with
        | None => api_fail 404 (lit "No versions available")
        | Some version =>
            options ← with_status 500 (task (get_options_def fmt otlp queue_error_text fuel c oq apworld version base));
            mret ((fun e : str * OptionDef =>
              {| oi_name := e.1; oi_ty := o_ty e.2; oi_choices := o_choices e.2;
                 oi_suggestions := o_suggestions e.2; oi_valid_keys := o_valid_keys e.2 |}) <$> (options ≫= snd))
        end
    end).
End api.
