(* ===== verification/LobbyPages.v ===== *)
(** * Logging in, pages of worlds, administration

    [lobby/src/views/auth.rs], [apworlds.rs], [room/apworlds.rs], [admin.rs] and the names and
    icons of [filters.rs].  Discord says who logs in. *)

From S2P Require Import Prelude Ord RustStd F64 Redis WqCore WqProg Wq Apwm ApwmIndex LobbyFeatures LobbyYaml.
From S2P Require Import LobbyBases LobbyDb LobbySession LobbyRooms LobbyRoomEdit LobbyTemplates.

(** ** Logging in *)

Definition with_redirect (r : str) (s : Session) : Session :=
  {| is_admin := is_admin s; is_logged_in := is_logged_in s; room_creation_allowed := room_creation_allowed s;
     user_id := user_id s; redirect_on_login := Some r; session_uuid := session_uuid s |}.

(** The session that is saved; Discord asks the user next. *)
(* src: lobby/src/views/auth.rs:15-32 login_discord *)
Definition login_discord (redirect : option str) (s : Session) : Session :=
  match redirect with
  | Some r => if starts_with (lit "/") r then with_redirect r s else s
  | None => s
  end.

(* src: lobby/src/views/auth.rs:39-43 DiscordUser *)
Record OauthUser := { du_id : str; du_username : str }.
(* src: lobby/src/config.rs:5-10 DiscordConfig *)
Record DiscordConfig := { client_id : str; client_secret : str; admins : list Z; banned_users : list Z }.

Section login.
Context {SV : SemVer} {Features : Type} `{JobIds}.
Local Abbreviation hm := (hm (Features := Features) (E := failure)).

(** The session that is saved, and where the user goes; [user] is what Discord answered. *)
(* src: lobby/src/views/auth.rs:45-101 login_discord_callback *)
Definition login_discord_callback (config : DiscordConfig) (admin_rooms_only : bool)
    (user : result error OauthUser) (s : Session) : hm (Session * str) :=
  user ← step (raised user);
  match parse_i64 (du_id user) with
  | None => refuse "invalid digit found in string"
  | Some id =>
      _ ← upsert_discord_user id (du_username user);
      let is_admin := bool_decide (id ∈ admins config) in
      db_room_creation_allowed ← get_room_creation_allowed id;
      let allowed := if admin_rooms_only then is_admin || db_room_creation_allowed else true in
      let saved := {| is_admin := is_admin; is_logged_in := true; room_creation_allowed := allowed;
                      user_id := Some id; redirect_on_login := redirect_on_login s;
                      session_uuid := session_uuid s |} in
      mret (saved, if is_banned (banned_users config) id then lit "/"
                   else default (lit "/") (redirect_on_login s))
  end.
End login.

(** ** Names and icons *)

(* src: lobby/src/views/filters.rs:35-49 feature_to_icon *)
Definition feature_to_icon (f : YamlFeature) : str :=
  match f with
  | DeathLink => lit "death-link.svg" | TrainerSanity => lit "trainersanity.svg"
  | DexSanity => lit "dexsanity.svg" | OrbSanity => lit "jd-orb.svg"
  | GrassSanity => lit "grasssanity.svg" | FishSanity => lit "feesh.svg" | CoinSanity => lit "coin.svg"
  | DeathWish => lit "dw.svg" | DeathWishWithBonus => lit "dw-bonus.svg"
  | AfterDark => lit "tag-ad.svg" | BlockSanity => lit "block.svg"
  end.
(* src: lobby/src/views/filters.rs:51-65 feature_to_name *)
Definition feature_to_name (f : YamlFeature) : str :=
  match f with
  | DeathLink => lit "Deathlink" | TrainerSanity => lit "Trainersanity" | DexSanity => lit "Dexsanity"
  | OrbSanity => lit "Extreme Orbsanity" | GrassSanity => lit "Grasssanity" | FishSanity => lit "Fishsanity"
  | CoinSanity => lit "Extreme Coinsanity" | DeathWish => lit "DeathWish"
  | DeathWishWithBonus => lit "DeathWish with bonus" | AfterDark => lit "After Dark game"
  | BlockSanity => lit "Blocksanity"
  end.

Section pages.
Context {SV : SemVer} {LC : Lowercase} {Features : Type} `{JobIds}.
Local Abbreviation hm := (hm (Features := Features) (E := failure)).
Context (cfg : BaseConfig) (index_manager : IndexSet).

(** ** Worlds *)

Definition by_name (ws : gmap str (World * Version)) : list (str * (World * Version)) :=
  sort_by (fun a b => str_leb (to_lowercase (display_name a.2.1)) (to_lowercase (display_name b.2.1))) (bt_iter ws).

(* src: lobby/src/views/apworlds.rs:30-40 WorldsListTpl *)
Record WorldsListTpl := {
  wl_index : Index;
  wl_apworlds : list (str * (World * Version));
  wl_base_options : list BaseOption;
  wl_base_query : str;
}.

(* src: lobby/src/views/apworlds.rs:42-77 list_worlds *)
Definition list_worlds (base : option str) : result failure WorldsListTpl :=
  base ← raised (requested_base cfg index_manager base);
  index ← raised (index_for index_manager base);
  m ← raised (from_index_with_default_versions index);
  Ok {| wl_index := index; wl_apworlds := by_name (resolve_with m index).1;
        wl_base_options := selectable_bases cfg index_manager base;
        wl_base_query := base_query cfg index_manager base |}.

(* src: lobby/src/views/apworlds.rs:79-94 download_all *)
Definition download_all (zip : Zip) (open_file : path -> result error bytes) (apworlds_path : path)
    (base : option str) : result failure bytes :=
  base ← raised (requested_base cfg index_manager base);
  index ← raised (index_for index_manager base);
  m ← raised (from_index_with_default_versions index);
  download_apworlds index_manager zip open_file apworlds_path base m.

(** A file and the name it gets; [open_file] fails where there is none. *)
(* src: lobby/src/views/apworlds.rs:96-135 download_world *)
Definition download_world (path_exists : path -> bool) (open_file : path -> result error bytes) (apworlds_path : path)
    (world_name version : str) : result failure (str * bytes) :=
  index ← or_panic (all_releases index_manager);
  world ← raised (some_or (lit "This APworld doesn't seem to exist") (worlds index !! world_name));
  version ← raised (context (lit "The passed version isn't valid") (version_parse version));
  _ ← raised (some_or (lit "The specified version doesn't exist for this apworld") (get_version world version));
  let apworld_path := get_world_local_path apworlds_path world_name version in
  if negb (path_exists apworld_path) then
    raise (lit "This apworld seems to be in the host's index but not in their apworld folder.")
  else
    content ← raised (open_file apworld_path);
    Ok (world_name ++ lit ".apworld", content).

(* src: lobby/src/views/room/apworlds.rs:18-27 RoomApworldsTpl *)
Record RoomApworldsTpl := {
  ra_is_my_room : bool;
  ra_apworlds : list (str * (World * Version));
  ra_room : Room;
  options_query : str;
}.

(* src: lobby/src/views/room/apworlds.rs:29-73 room_worlds *)
Definition room_worlds (rid : str) (session : Session) : hm RoomApworldsTpl :=
  room ← get_room rid;
  index ← step (raised (index_for index_manager (ap_version room)));
  let '(apworlds, resolve_errors) := resolve_with (manifest (settings room)) index in
  if bool_decide (resolve_errors <> []) then refuse "Error while resolving apworlds for this room"
  else mret {| ra_is_my_room := is_my_room session room; ra_apworlds := by_name apworlds; ra_room := room;
               options_query := base_query cfg index_manager (ap_version room) |}.

(* src: lobby/src/views/room/apworlds.rs:75-92 room_download_all_worlds *)
Definition room_download_all_worlds (zip : Zip) (open_file : path -> result error bytes) (apworlds_path : path)
    (rid : str) : hm bytes :=
  room ← get_room rid;
  step (download_apworlds index_manager zip open_file apworlds_path (ap_version room) (manifest (settings room))).

(** ** Refreshing the index *)

Section refresh.
Context (read_yaml : str -> result str YamlFile) (hash_iter : gmap str f64 -> list (str * f64)).
Context (otlp : gmap str str) `{!Codecs YamlValidationParams YamlValidationResponse}.
Context (queue_error_text : WorkQueueError -> str).
Context (q : WorkQueue YamlValidationParams YamlValidationResponse).

(** [old_index] is the index before, [index_manager] what it is now. *)
(* src: lobby/src/views/apworlds.rs:161-185 refresh_worlds *)
Definition refresh_room (old_index : IndexSet) (room : Room) : hm unit :=
  match index_for index_manager (ap_version room) with
  | Err _ => mret tt
  | Ok _ =>
      let old_resolved := match get old_index (ap_version room) with
                          | Some old_view => (resolve_with (manifest (settings room)) old_view).1
                          | None => ∅
                          end in
      revalidate_room read_yaml hash_iter otlp queue_error_text q index_manager room old_resolved
  end.

Fixpoint refresh_rooms (old_index : IndexSet) (rooms : list Room) : hm unit :=
  match rooms with
  | [] => mret tt
  | room :: rooms => _ ← refresh_room old_index room; refresh_rooms old_index rooms
  end.

(** What follows the update of the index, that [LobbyIndex] has: the open rooms are looked at;
    whether the other processes were told is reported after that. *)
(* src: lobby/src/views/apworlds.rs:137-191 refresh_worlds *)
Definition refresh_worlds (old_index : IndexSet) (announced : result error unit) : hm unit :=
  '(open_rooms, _) ←
    list_rooms {| with_yaml_from := WithAny; author_filter := AnyAuthor; open_state := OpenOnly |} None;
  _ ← refresh_rooms old_index open_rooms;
  step (raised (context (lit "The index was refreshed here, but the other lobby processes weren't told") announced)).
End refresh.

(** ** Administration *)

(* src: lobby/src/views/admin.rs:26-39 admin *)
Definition admin_page (session : Session) : hm unit :=
  if negb (is_admin session) then refuse "Forbidden" else mret tt.

(* src: lobby/src/db/user.rs:70-80 get_room_creation_allowed_users *)
Definition get_room_creation_allowed_users : hm (list (Z * DiscordUser)) :=
  query (fun db => map_to_list (filter (fun e => u_room_creation_allowed e.2 = true) (users db))).

(* src: lobby/src/views/admin.rs:41-58 room_creation *)
Definition room_creation (session : Session) : hm (list (Z * DiscordUser)) :=
  if negb (is_admin session) then refuse "Forbidden" else get_room_creation_allowed_users.
End pages.
