(* ===== verification/LobbyRequests.v ===== *)
(** * How requests end

    A request can end in many ways: servers, clocks and workers answer anything.  [leaves] holds
    of a program when every end satisfies a condition, [ends] of a request that starts with some
    tables; the rules follow the request's steps and [walk] applies them.  [clk] is what a clock
    can show and [sp] is whether a loop may run out of fuel: with [False] the request always
    ends. *)

From S2P Require Import Prelude Ord RustStd F64 Redis WqCore WqProg Wq Apwm ApwmIndex LobbyYaml LobbyDb LobbyRooms.
From S2P Require Import LobbyRoomEdit LobbyTemplates LobbyGenerations LobbyApi.

Section leaves.
Context `{JobIds}.

Definition fits (clk : Z -> Prop) {X} (e : ev X) : X -> Prop :=
  match e in ev X return X -> Prop with UtcNow => clk | _ => fun _ => True end.

Fixpoint leaves {A} (sp : Prop) (clk : Z -> Prop) (P : A -> Prop) (p : prog A) : Prop :=
  match p with
  | Ret a => P a
  | Spin => sp
  | Vis e k => forall x, fits clk e x -> leaves sp clk P (k x)
  end.

Lemma leaves_weaken {A} (sp : Prop) clk (P P' : A -> Prop) p :
  leaves sp clk P p -> (forall a, P a -> P' a) -> leaves sp clk P' p.
Proof. intros Hp HP. induction p; simpl in *; eauto. Qed.

Lemma leaves_and {A} (sp : Prop) clk (P P' : A -> Prop) p :
  leaves sp clk P p -> leaves sp clk P' p -> leaves sp clk (fun a => P a /\ P' a) p.
Proof. intros H1 H2. induction p; simpl in *; eauto. Qed.

Lemma leaves_bind {A B} (sp : Prop) clk (P : B -> Prop) (f : A -> prog B) p :
  leaves sp clk (fun a => leaves sp clk P (f a)) p -> leaves sp clk P (prog_bind f p).
Proof. intros Hp. induction p; simpl in *; eauto. Qed.

(** Without a condition on loops, any end is possible. *)
Lemma leaves_any {A} (sp : Prop) clk (P : A -> Prop) p : sp -> (forall a, P a) -> leaves sp clk P p.
Proof. intros Hs HP. induction p; simpl; eauto. Qed.

Lemma leaves_spin {A} (sp sp' : Prop) clk (P : A -> Prop) p : (sp -> sp') -> leaves sp clk P p -> leaves sp' clk P p.
Proof. intros Hs. induction p; simpl; eauto. Qed.

Lemma leaves_clk {A} (sp : Prop) (clk clk' : Z -> Prop) (P : A -> Prop) p :
  (forall t, clk' t -> clk t) -> leaves sp clk P p -> leaves sp clk' P p.
Proof.
  intros Hc. induction p as [| |X e k IH]; simpl; [done..|]. intros Hk x Hx. apply IH, Hk. by destruct e; simpl in *; auto.
Qed.
End leaves.

Section ends.
Context {SV : SemVer} {Features : Type} `{JobIds} {E : Type} `{!RequestError E}.
Local Abbreviation hm := (hm (Features := Features) (E := E)).
Context (sp : Prop) (clk : Z -> Prop).

Definition ends {A} (m : hm A) (db : Db Features) (Q : result E A -> Db Features -> Prop) : Prop :=
  leaves sp clk (fun rd => Q rd.1 rd.2) (m db).

Definition and_then {A B} (f : A -> hm B) (Q : result E B -> Db Features -> Prop) : result E A -> Db Features -> Prop :=
  fun r db => match r with Ok a => ends (f a) db Q | Err e => Q (Err e) db end.

Lemma ends_weaken {A} (m : hm A) db (Q Q' : result E A -> Db Features -> Prop) :
  ends m db Q -> (forall r db', Q r db' -> Q' r db') -> ends m db Q'.
Proof. intros Hm HQ. eapply leaves_weaken; [exact Hm|]. intros [r db']. apply HQ. Qed.

Lemma ends_bind {A B} (m : hm A) (f : A -> hm B) db Q : ends m db (and_then f Q) -> ends (m ≫= f) db Q.
Proof.
  intros Hm. apply leaves_bind. eapply leaves_weaken; [exact Hm|]. intros [[a|e] db']; simpl; auto.
Qed.

Lemma ends_ret {A} (a : A) db (Q : result E A -> Db Features -> Prop) : Q (Ok a) db -> ends (mret a) db Q.
Proof. done. Qed.
Lemma ends_answer {A} (r : result E A) db (Q : result E A -> Db Features -> Prop) : Q r db -> ends (answer r) db Q.
Proof. done. Qed.
Lemma ends_query {A} (f : Db Features -> A) db (Q : result E A -> Db Features -> Prop) :
  Q (Ok (f db)) db -> ends (query f) db Q.
Proof. done. Qed.
Lemma ends_change (f : Db Features -> Db Features) db (Q : result E unit -> Db Features -> Prop) :
  Q (Ok tt) (f db) -> ends (change f) db Q.
Proof. done. Qed.
Lemma ends_task {A} (m : lm A) db (Q : result E A -> Db Features -> Prop) :
  leaves sp clk (fun r => Q (map_err from_failure r) db) m -> ends (task m) db Q.
Proof. intros Hm. apply leaves_bind. eapply leaves_weaken; [exact Hm|]. done. Qed.
Lemma ends_step {A} (r : result failure A) db (Q : result E A -> Db Features -> Prop) :
  Q (map_err from_failure r) db -> ends (step r) db Q.
Proof. done. Qed.
Lemma ends_refuse {A} (m : string) db (Q : result E A -> Db Features -> Prop) :
  Q (Err (from_failure (Raised [lit m]))) db -> ends (refuse m) db Q.
Proof. done. Qed.
Lemma ends_utc_now db (Q : result E Z -> Db Features -> Prop) :
  (forall t, clk t -> Q (Ok t) db) -> ends utc_now db Q.
Proof. done. Qed.
Lemma ends_new_job_id db (Q : result E JobId -> Db Features -> Prop) : (forall j, Q (Ok j) db) -> ends new_job_id db Q.
Proof. unfold ends. simpl. auto. Qed.
Lemma ends_transaction {A} (m : hm A) db (Q : result E A -> Db Features -> Prop) :
  ends m db (fun r db' => Q r (match r with Ok _ => db' | Err _ => db end)) -> ends (transaction m) db Q.
Proof. intros Hm. apply leaves_bind. eapply leaves_weaken; [exact Hm|]. done. Qed.
Lemma ends_fresh {A} (f : nat -> A) db (Q : result E A -> Db Features -> Prop) :
  Q (Ok (f (drawn db))) (draw db) -> ends (fresh f) db Q.
Proof. done. Qed.
Lemma ends_found {A} (f : Db Features -> option A) db (Q : result E A -> Db Features -> Prop) :
  (forall a, f db = Some a -> Q (Ok a) db) ->
  (f db = None -> Q (Err (from_failure (Raised [lit "Record not found"]))) db) -> ends (found f) db Q.
Proof. unfold ends, found. intros H1 H2. simpl. destruct (f db); simpl; auto. Qed.
Lemma ends_room_exists id db (Q : result E unit -> Db Features -> Prop) :
  (forall room, rooms db !! id = Some room -> Q (Ok tt) db) ->
  (rooms db !! id = None -> Q (Err (from_failure (Raised [lit "Couldn't get room"]))) db) ->
  ends (room_exists id) db Q.
Proof. unfold ends, room_exists. intros H1 H2. simpl. destruct (rooms db !! id); simpl; eauto. Qed.
Lemma ends_if {A} (b : bool) (m m' : hm A) db Q :
  (b = true -> ends m db Q) -> (b = false -> ends m' db Q) -> ends (if b then m else m') db Q.
Proof. destruct b; auto. Qed.

Lemma ends_context {A} (c : string) (m : LobbyDb.hm (Features := Features) (E := failure) A) db
    (Q : result failure A -> Db Features -> Prop) :
  leaves sp clk (fun rd => Q (in_context c rd.1) rd.2) (m db) -> leaves sp clk (fun rd => Q rd.1 rd.2) (hcontext c m db).
Proof. intros Hm. apply leaves_bind. eapply leaves_weaken; [exact Hm|]. done. Qed.
Lemma ends_with_status {A} st (m : LobbyDb.hm (Features := Features) (E := failure) A) db
    (Q : result ApiError A -> Db Features -> Prop) :
  leaves sp clk (fun rd => Q (map_err (fun f => {| api_error := f; api_status := st |}) rd.1) rd.2) (m db) ->
  leaves sp clk (fun rd => Q rd.1 rd.2) (with_status st m db).
Proof. intros Hm. apply leaves_bind. eapply leaves_weaken; [exact Hm|]. done. Qed.

(** ** A relation that every step keeps *)

Definition keeps (R : Db Features -> Db Features -> Prop) {A} (m : hm A) : Prop :=
  forall db, ends m db (fun _ db' => R db db').

Context (R : Db Features -> Db Features -> Prop) `{!PreOrder R}.

Lemma keeps_from {A} (m : hm A) db db0 : keeps R m -> R db0 db -> ends m db (fun _ db' => R db0 db').
Proof. intros Hm Hr. eapply ends_weaken; [apply Hm|]. simpl. intros _ db' Hdb. by etrans. Qed.
Lemma request_keeps_bind {A B} (m : hm A) (f : A -> hm B) : keeps R m -> (forall a, keeps R (f a)) -> keeps R (m ≫= f).
Proof.
  intros Hm Hf db. apply ends_bind. eapply ends_weaken; [apply Hm|]. intros [a|e] db' Hr; simpl; [|done].
  by apply keeps_from.
Qed.
Lemma keeps_same {A} (m : hm A) : (forall db, ends m db (fun _ db' => db' = db)) -> keeps R m.
Proof. intros Hm db. eapply ends_weaken; [apply Hm|]. by intros r db' ->. Qed.
Lemma request_keeps_ret {A} (a : A) : keeps R (mret a).
Proof. intros db. apply ends_ret. reflexivity. Qed.
Lemma keeps_query {A} (f : Db Features -> A) : keeps R (query f).
Proof. intros db. apply ends_query. reflexivity. Qed.
Lemma keeps_step {A} (r : result failure A) : keeps R (step r).
Proof. intros db. apply ends_step. reflexivity. Qed.
Lemma keeps_refuse {A} (m : string) : keeps R (@refuse _ _ _ E _ A m).
Proof. intros db. apply ends_refuse. reflexivity. Qed.
Lemma keeps_found {A} (f : Db Features -> option A) : keeps R (found f).
Proof. intros db. apply ends_found; intros; reflexivity. Qed.
Lemma keeps_utc_now : keeps R utc_now.
Proof. intros db. apply ends_utc_now. intros; reflexivity. Qed.
Lemma keeps_task {A} (m : lm A) : sp -> keeps R (task m).
Proof. intros Hs db. apply ends_task, leaves_any; [done|]. intros; reflexivity. Qed.
Lemma keeps_transaction {A} (m : hm A) : keeps R m -> keeps R (transaction m).
Proof. intros Hm db. apply ends_transaction. eapply ends_weaken; [apply Hm|]. intros [a|e] db' Hr; [done|reflexivity]. Qed.
End ends.

(** One step of a request, by its head; queries are unfolded. *)
Create HintDb requests.
#[export] Hint Unfold get_room get_room_with_info delete_room update_room_manifest update_room_ap_version
  create_room update_room get_room_and_author get_yamls_for_room_with_author_names get_yamls_for_room
  get_bundles_for_room add_yaml_to_room remove_yaml remove_bundle get_yaml_in_room
  get_yaml_in_room_with_owner_name get_bundle_by_id update_yaml reset_yaml_validation_status_for_room
  update_yaml_password update_yaml_owner get_generation_for_room insert_generation insert_generation_for_room
  insert_generation_for_room_as_done delete_generation_for_room update_generation_status_for_room get_username
  ensure_user_exists upsert_discord_user get_room_creation_allowed set_room_creation_allowed
  get_room_template_by_id delete_room_template is_closed check_my_room check_owner job_dir put_files
  api_check find_yaml find_room or_not_found slots_of api_base bad_request put_edit put_yaml
  associate_patch_files check_creation_allowed parse_discord_id : requests.
Ltac fold_ends :=
  lazymatch goal with
  | |- leaves ?sp ?clk (fun rd => @?Q rd) (?m ?db) =>
      change (ends sp clk m db (fun r db => Q (r, db))); cbn [fst snd]
  end.
Ltac scrutinee r :=
  lazymatch r with map_err _ ?r => scrutinee r | in_context _ ?r => scrutinee r | _ => r end.
Ltac walk1 :=
  cbn [and_then map_err from_failure page_error api_request_error in_context];
  lazymatch goal with
  | |- and_then _ _ _ _ ?r _ => let r := scrutinee r in destruct r eqn:?
  | |- ends _ _ ?m _ _ =>
      lazymatch m with
      | mbind _ _ => apply ends_bind
      | mret _ => apply ends_ret
      | answer _ => apply ends_answer
      | query _ => apply ends_query
      | change _ => apply ends_change
      | step _ => apply ends_step
      | refuse _ => apply ends_refuse
      | task _ => apply ends_task
      | utc_now => apply ends_utc_now; intros ? ?
      | new_job_id => apply ends_new_job_id; intros ?
      | fresh _ => apply ends_fresh
      | transaction _ => apply ends_transaction
      | found _ => apply ends_found; [intros ? ?|intros ?]
      | room_exists _ => apply ends_room_exists; [intros ? ?|intros ?]
      | hcontext _ _ => apply ends_context; fold_ends
      | with_status _ _ => apply ends_with_status; fold_ends
      | api_fail _ _ => apply ends_answer
      | match ?x with _ => _ end =>
          lazymatch type of x with bool => apply ends_if; intros ? | _ => destruct x eqn:? end
      | _ => progress autounfold with requests
      end
  end.
Ltac walk := repeat walk1; cbn [and_then map_err from_failure page_error api_request_error in_context].

(** The same, where workers and servers may answer anything. *)
Ltac walk_any :=
  repeat lazymatch goal with
    | |- leaves _ _ _ _ => apply leaves_any; [exact I|intros ?]
    | _ => walk1
    end;
  cbn [and_then map_err from_failure page_error api_request_error in_context].
