(* ===== verification/LobbyExamples.v ===== *)
(** * Rooms for the witnesses

    Two rooms, of users 1 and 2, that close at 100 and at 0; a YAML of user 3 in each; versions
    and identifiers are numbers. *)

From S2P Require Import Prelude Ord RustStd F64 Redis WqCore WqProg Wq Apwm ApwmIndex LobbyYaml LobbyBases LobbyDb.
From S2P Require Import LobbySettings LobbyGenerations Examples.

Section examples.
#[local] Existing Instance example_semver.
#[local] Existing Instance ascii_lowercase.
#[local] Existing Instance example_ids.

Definition sample_settings (author close : Z) : RoomSettings :=
  {| room_name := lit "room"; close_date := close; description := []; room_url := lit "/go"; author_id := author;
     yaml_validation := false; allow_unsupported := false; yaml_limit_per_user := None;
     yaml_limit_bypass_list := []; manifest := Manifest_new; show_apworlds := true; created_at := 0;
     updated_at := 0; allow_invalid_yamls := false; meta_file := []; is_bundle_room := false; locked := false |}.

Definition sample_room (id : string) (author close : Z) : Room :=
  {| room_id := lit id; settings := sample_settings author close; from_template_id := None; ap_version := 6%N |}.

Definition sample_yaml (id : string) (owner : Z) : Yaml :=
  {| yaml_id_ := lit id; content := lit "ann"; game := lit "Custom"; player_name := lit "ann";
     owner_id := owner; validation_status := Validated; yaml_apworlds := [(lit "custom", 2%N)];
     last_validation_time := 10; last_error := None; patch := None; bundle_id := lit "bundle of " ++ lit id;
     password := None; edited_content := None; last_edited_by := None; last_edited_by_name := None;
     last_edited_at := None |}.

Definition sample_row (id room : string) (owner : Z) : YamlRow unit :=
  {| row_yaml := sample_yaml id owner; row_room := lit room; row_features := tt; row_created := 0 |}.

Definition sample_user (u : Z) : Session :=
  {| is_admin := false; is_logged_in := true; room_creation_allowed := false; user_id := Some u;
     redirect_on_login := None; session_uuid := [] |}.

Definition sample_discord_user : DiscordUser := {| username := lit "ann"; u_room_creation_allowed := false |}.

Definition sample_db : Db unit :=
  {| rooms := {[lit "open" := sample_room "open" 1 100; lit "shut" := sample_room "shut" 2 0]};
     yamls := {[lit "x" := sample_row "x" "open" 3; lit "y" := sample_row "y" "shut" 3]};
     generations := ∅; room_infos := ∅;
     users := {[1%Z := sample_discord_user; 2%Z := sample_discord_user; 3%Z := sample_discord_user]};
     templates := ∅; out_dir := ∅; drawn := 0 |}.

(** Identifiers that no row of [sample_db] has. *)
Definition sample_ids (n : nat) : str := lit "id" ++ N_to_str (N.of_nat n).

(** Lookups in the tables are computed once. *)
Lemma sample_room_open : rooms sample_db !! lit "open" = Some (sample_room "open" 1 100).
Proof. reflexivity. Qed.
Lemma sample_room_shut : rooms sample_db !! lit "shut" = Some (sample_room "shut" 2 0).
Proof. reflexivity. Qed.
Lemma sample_row_x : yamls sample_db !! lit "x" = Some (sample_row "x" "open" 3).
Proof. reflexivity. Qed.
Lemma sample_row_y : yamls sample_db !! lit "y" = Some (sample_row "y" "shut" 3).
Proof. reflexivity. Qed.

#[export] Instance sample_ids_inj : Inj eq eq sample_ids.
Proof.
  intros a b [= Hab]. destruct (N_to_str_parse (N.of_nat a)) as (_ & Ha & _).
  destruct (N_to_str_parse (N.of_nat b)) as (_ & Hb & _). rewrite Hab, Hb in Ha. injection Ha. lia.
Qed.

(** ** Surroundings *)

#[export] Instance validation_params_eq_dec : EqDecision YamlValidationParams.
Proof. solve_decision. Defined.
#[export] Program Instance validation_params_countable : Countable YamlValidationParams :=
  inj_countable' (fun p => (p_apworlds p, p_yaml p, p_otlp_context p, p_yaml_id p, p_ap_version p))
    (fun '(a, y, o, i, v) => {| p_apworlds := a; p_yaml := y; p_otlp_context := o; p_yaml_id := i;
                                p_ap_version := v |}) _.
Next Obligation. by intros []. Qed.
#[export] Instance validation_response_eq_dec : EqDecision YamlValidationResponse.
Proof. solve_decision. Defined.
#[export] Program Instance validation_response_countable : Countable YamlValidationResponse :=
  inj_countable' response_error Build_YamlValidationResponse _.
Next Obligation. by intros []. Qed.
#[export] Instance generation_params_eq_dec : EqDecision GenerationParams.
Proof. solve_decision. Defined.
#[export] Program Instance generation_params_countable : Countable GenerationParams :=
  inj_countable' (fun p => (g_apworlds p, g_room_id p, g_meta_file p, g_otlp_context p, g_ap_version p))
    (fun '(a, r, m, o, v) => {| g_apworlds := a; g_room_id := r; g_meta_file := m; g_otlp_context := o;
                                g_ap_version := v |}) _.
Next Obligation. by intros []. Qed.
Definition sample_queue (P R : Type) : WorkQueue P R :=
  {| queue_key := []; claims_key := []; results_key := []; resolved_key := []; stats_key := []; reclaim_timeout := 0;
     claim_timeout := 0; result_callback := None;
     pending := {| default_key := []; partitions_key := []; partition_prefix := []; default_partition := None |} |}.

Definition sample_index : IndexSet :=
  {| s_path := Path true []; legacy_base := 6%N; s_bases := ∅;
     index_file := {| f_archipelago_repo := []; f_archipelago_version := 6%N; f_index_homepage := [];
                      f_index_dir := Path false []; f_bases := ∅ |};
     world_defs := ∅ |}.

Definition sample_bases : BaseConfig := {| enabled := None; b_default := None |}.
Definition sample_formats : FormFormats :=
  {| parse_local := fun _ => Some 0%Z; parse_absolute := fun _ => Ok tt; load_meta := fun _ => Ok [] |}.
End examples.
