(* ===== verification/LobbyRoomsProps.v ===== *)
(** * Deleting YAMLs and bundles

    Who deletes what, and that a bundle's room isn't looked at. *)

From S2P Require Import Prelude Ord RustStd F64 Redis WqCore WqProg Wq Apwm ApwmIndex LobbyYaml LobbyDb LobbyRooms.
From S2P Require Import LobbyApi LobbyRequests Examples LobbyExamples.

Section rooms.
Context {SV : SemVer} {LC : Lowercase} {Features : Type} `{JobIds}.
Local Abbreviation Db := (Db Features).

Definition closed_at (now : Z) (room : Room) : bool := (close_date (settings room) <? now)%Z.

(** The session, its user [me], the room and the YAML that let a deletion happen. *)
Definition deletable (now : Z) (s : Session) (db : Db) (rid yid : str) : bool :=
  match rooms db !! rid, row_in_room db rid yid, user_id s with
  | Some room, Some row, Some me =>
      negb (closed_at now room) &&
      (is_my_room s room ||
       bool_decide (owner_id (row_yaml row) = me) && negb (is_bundle_room (settings room)))
  | _, _, _ => false
  end.

(** The rows of a bundle, whatever their room. *)
Definition bundle_rows (db : Db) (bid : str) : list Yaml :=
  (fun e => row_yaml e.2) <$> bt_iter (filter (fun e => bundle_id (row_yaml e.2) = bid) (yamls db)).

Definition bundle_deletable (now : Z) (s : Session) (db : Db) (rid bid : str) : bool :=
  match rooms db !! rid, bundle_rows db bid, user_id s with
  | Some room, y :: _, Some me => negb (closed_at now room) && (is_my_room s room || bool_decide (owner_id y = me))
  | _, _, _ => false
  end.

Lemma logged_in_user_id_ok s me : logged_in_user_id s = Ok me <-> user_id s = Some me.
Proof. unfold logged_in_user_id, or_panic. destruct (user_id s); simpl; split; congruence. Qed.
Lemma logged_in_user_id_err s e : logged_in_user_id s = Err e <-> user_id s = None /\ e = Panicked.
Proof.
  unfold logged_in_user_id, or_panic. destruct (user_id s); simpl; split; intuition congruence.
Qed.
End rooms.

(** What the user of a session is, once it is asked for. *)
Ltac user_known :=
  repeat match goal with
    | H : logged_in_user_id _ = Ok _ |- _ => apply logged_in_user_id_ok in H
    | H : logged_in_user_id _ = Err _ |- _ => apply logged_in_user_id_err in H as [H ->]
    end.

Ltac use_found :=
  user_known;
  repeat match goal with
    | H : _ <$> _ = Some _ |- _ => apply fmap_Some in H as (? & ? & ->)
    | H : _ <$> _ = None |- _ => apply fmap_None in H
    | H : ?x = Some _ |- context [?x] => rewrite H
    | H : ?x = None |- context [?x] => rewrite H
    | H : (?x <? ?y)%Z = _ |- context [(?x <? ?y)%Z] => rewrite H
    end.
(** The conditions of a handler against those of its statement. *)
Ltac by_conditions :=
  repeat match goal with
    | H : context [is_my_room ?s ?r] |- _ => destruct (is_my_room s r)
    | H : context [is_bundle_room ?s] |- _ => destruct (is_bundle_room s)
    | H : context [bool_decide (?x = ?y)] |- _ => destruct (bool_decide (x = y))
    end; simpl in *; try discriminate; repeat case_match; try (split; [by eexists|done]); try done.

Section props.
Context {SV : SemVer} {LC : Lowercase} {Features : Type} `{JobIds}.
Local Abbreviation Db := (Db Features).

(** A YAML of an open room is deleted by the room's owner, by an administrator who is a
    user, or by its owner unless the room takes bundles; otherwise nothing changes. *)
Theorem yaml_deletion_is_exact (rid yid : str) (s : Session) (db : Db) (now : Z) :
  ends False (eq now) (delete_yaml rid yid s) db (fun r db' =>
    if deletable now s db rid yid then r = Ok tt /\ db' = with_yamls (delete yid) db
    else is_Err r /\ db' = db).
Proof.
  unfold delete_yaml, deletable, closed_at. walk; simplify_eq; use_found; by_conditions.
Qed.

(** A bundle is deleted, row by row whatever the rows' rooms, by the owner of its first YAML and by
    whoever owns the room that the request names, as long as that room is open. *)
Theorem bundle_deletion_is_exact (rid bid : str) (s : Session) (db : Db) (now : Z) :
  ends False (eq now) (delete_bundle rid bid s) db (fun r db' =>
    if bundle_deletable now s db rid bid then
      r = Ok tt /\ db' = with_yamls (filter (fun e => bundle_id (row_yaml e.2) <> bid)) db
    else is_Err r /\ db' = db).
Proof.
  unfold delete_bundle, bundle_deletable, bundle_rows, closed_at, bundle_owner_id.
  walk; simplify_eq/=; use_found; by_conditions.
Qed.

(** The author of a room that is open deletes any bundle: of another's YAMLs, in another's room, that
    is closed. *)
Theorem bundles_of_any_room_can_be_deleted (rid yid : str) (s : Session) (db : Db) (now me : Z) (room : Room)
    (row : YamlRow Features)
    (Hroom : rooms db !! rid = Some room) (Hopen : (now <= close_date (settings room))%Z)
    (Hme : user_id s = Some me) (Hmine : author_id (settings room) = me) (Hrow : yamls db !! yid = Some row) :
  ends False (eq now) (delete_bundle rid (bundle_id (row_yaml row)) s) db (fun r db' =>
    r = Ok tt /\ yamls db' !! yid = None /\ rooms db' = rooms db).
Proof.
  eapply ends_weaken; [apply bundle_deletion_is_exact|]. simpl. intros r db'.
  replace (bundle_deletable _ _ _ _ _) with true; [intros [-> ->]; split_and!; simpl; [done| |done]|].
  - apply map_lookup_filter_None_2. right. intros row' Hrow' Hne. by simplify_eq.
  - unfold bundle_deletable, closed_at, is_my_room. rewrite Hroom, Hme, Hmine.
    destruct (bundle_rows db (bundle_id (row_yaml row))) as [|y ys] eqn:E.
    + exfalso. assert (Hin : row_yaml row ∈ bundle_rows db (bundle_id (row_yaml row))); [|by rewrite E in Hin; apply not_elem_of_nil in Hin].
      unfold bundle_rows. apply list_elem_of_fmap. exists (yid, row). split; [done|].
      apply elem_of_bt_iter. by apply map_lookup_filter_Some.
    + rewrite bool_decide_true by done. rewrite orb_true_r. simpl. rewrite andb_true_r. symmetry. by apply negb_true_iff, Z.ltb_ge.
Qed.
End props.

Section witnesses.
#[local] Existing Instance example_semver.
#[local] Existing Instance ascii_lowercase.
#[local] Existing Instance example_ids.

(** User 1, whose room is open, and a YAML of user 3 in the room of user 2, that is closed. *)
Lemma bundles_of_any_room_can_be_deleted_witness :
  row_room (sample_row "y" "shut" 3) <> lit "open" /\ closed_at 50 (sample_room "shut" 2 0) = true /\
  ends False (eq 50%Z) (delete_bundle (lit "open") (lit "bundle of y") (sample_user 1)) sample_db (fun r db' =>
    r = Ok tt /\ yamls db' !! lit "y" = None /\ rooms db' = rooms sample_db).
Proof.
  split_and!; [done|reflexivity|].
  apply (bundles_of_any_room_can_be_deleted (lit "open") (lit "y") (sample_user 1) sample_db 50 1
    (sample_room "open" 1 100) (sample_row "y" "shut" 3)); [apply sample_room_open|simpl; lia|done|done|apply sample_row_y].
Defined.
End witnesses.
