(* ===== verification/LobbyStrangers.v ===== *)
(** * What a user's requests leave alone

    [untouched us] relates the tables before and after requests of the users [us]: the rooms of
    others, their generations and templates, and the YAMLs that are neither owned by one of [us]
    nor in a room of one of [us] are as they were.  Here are the steps that keep it. *)

From S2P Require Import Prelude Ord RustStd F64 Redis WqCore Apwm WqProg Wq ApwmIndex LobbyYaml LobbyBases.
From S2P Require Import LobbyDb LobbySession LobbySettings LobbyRooms LobbyRoomEdit LobbyTemplates.
From S2P Require Import LobbyGenerations LobbyApi LobbyRequests LobbyRoomsProps.

Section strangers.
Context {SV : SemVer} {LC : Lowercase} {Features : Type} `{JobIds}.
Local Abbreviation Db := (Db Features).
Context (new_v4 : nat -> str) (us : gset Z).

Definition author (room : Room) : Z := author_id (settings room).
Definition owner (row : YamlRow Features) : Z := owner_id (row_yaml row).

(** Rows are at their identifiers, and identifiers that are still to be drawn are those of no row. *)
Record tables_ok (db : Db) : Prop := {
  rooms_keyed : forall rid room, rooms db !! rid = Some room -> room_id room = rid;
  yamls_keyed : forall yid row, yamls db !! yid = Some row -> yaml_id_ (row_yaml row) = yid;
  rooms_unused : forall n, drawn db <= n -> rooms db !! new_v4 n = None;
  yamls_unused : forall n, drawn db <= n -> yamls db !! new_v4 n = None;
  templates_unused : forall n, drawn db <= n -> templates db !! new_v4 n = None;
}.

Definition rooms_kept (db db' : Db) : Prop := forall rid room,
  rooms db !! rid = Some room -> author room ∉ us -> rooms db' !! rid = Some room.
Definition generations_kept (db db' : Db) : Prop := forall rid room,
  rooms db !! rid = Some room -> author room ∉ us -> generations db' !! rid = generations db !! rid.
Definition yamls_kept (db db' : Db) : Prop := forall yid row room,
  yamls db !! yid = Some row -> rooms db !! row_room row = Some room -> author room ∉ us -> owner row ∉ us ->
  yamls db' !! yid = Some row.
Definition templates_kept (db db' : Db) : Prop := forall tid t,
  templates db !! tid = Some t -> author_id (tpl_settings t) ∉ us -> templates db' !! tid = Some t.

Definition untouched (db db' : Db) : Prop := tables_ok db ->
  tables_ok db' /\ rooms_kept db db' /\ generations_kept db db' /\ yamls_kept db db' /\ templates_kept db db'.

#[export] Instance untouched_preorder : PreOrder untouched.
Proof.
  split.
  - intros db Hok. split_and!; [done|..]; unfold rooms_kept, generations_kept, yamls_kept, templates_kept; eauto.
  - intros db1 db2 db3 H12 H23 Hok. destruct (H12 Hok) as (Hok2 & Hr & Hg & Hy & Ht).
    destruct (H23 Hok2) as (Hok3 & Hr' & Hg' & Hy' & Ht').
    split_and!; [done|unfold rooms_kept, generations_kept, yamls_kept, templates_kept in *; eauto..].
    intros rid room Hroom Hin. rewrite (Hg' _ room) by eauto. eauto.
Qed.

(** ** Steps *)

Ltac same_tables Hok :=
  unfold rooms_kept, generations_kept, yamls_kept, templates_kept; split_and!; simpl; try done; try (destruct Hok; split; done).

Lemma untouched_generations g db :
  (forall rid room, rooms db !! rid = Some room -> author room ∉ us -> g (generations db) !! rid = generations db !! rid) ->
  untouched db (with_generations g db).
Proof. intros Hg Hok. same_tables Hok. Qed.
Lemma untouched_users g db : untouched db (with_users g db).
Proof. intros Hok. same_tables Hok. Qed.
Lemma untouched_out_dir g db : untouched db (with_out_dir g db).
Proof. intros Hok. same_tables Hok. Qed.
Lemma untouched_room_infos g db : untouched db (with_room_infos g db).
Proof. intros Hok. same_tables Hok. Qed.
Lemma untouched_draw db : untouched db (draw db).
Proof. intros Hok. same_tables Hok. destruct Hok. split; simpl; try done; intros n Hn; auto with lia. Qed.

Lemma untouched_rooms g db :
  (forall rid room, rooms db !! rid = Some room -> author room ∉ us -> g (rooms db) !! rid = Some room) ->
  (forall rid room, tables_ok db -> g (rooms db) !! rid = Some room -> room_id room = rid) ->
  (forall n, tables_ok db -> drawn db <= n -> g (rooms db) !! new_v4 n = None) ->
  untouched db (with_rooms g db).
Proof.
  intros Hg Hk Hn Hok. unfold rooms_kept, generations_kept, yamls_kept, templates_kept. split_and!; simpl; try done.
  destruct Hok; split; simpl; auto.
  - intros rid room. apply Hk. by split.
  - intros n. apply Hn. by split.
Qed.

Lemma untouched_yamls g db :
  (forall yid row room, yamls db !! yid = Some row -> rooms db !! row_room row = Some room ->
     author room ∉ us -> owner row ∉ us -> g (yamls db) !! yid = Some row) ->
  (forall yid row, tables_ok db -> g (yamls db) !! yid = Some row -> yaml_id_ (row_yaml row) = yid) ->
  (forall n, tables_ok db -> drawn db <= n -> g (yamls db) !! new_v4 n = None) ->
  untouched db (with_yamls g db).
Proof.
  intros Hg Hk Hn Hok. unfold rooms_kept, generations_kept, yamls_kept, templates_kept. split_and!; simpl; try done.
  destruct Hok; split; simpl; auto.
  - intros yid row. apply Hk. by split.
  - intros n. apply Hn. by split.
Qed.

Lemma untouched_templates g db :
  (forall tid t, templates db !! tid = Some t -> author_id (tpl_settings t) ∉ us -> g (templates db) !! tid = Some t) ->
  (forall n, tables_ok db -> drawn db <= n -> g (templates db) !! new_v4 n = None) ->
  untouched db (with_templates g db).
Proof.
  intros Hg Hn Hok. unfold rooms_kept, generations_kept, yamls_kept, templates_kept. split_and!; simpl; try done.
  destruct Hok; split; simpl; auto. intros n. apply Hn. by split.
Qed.

(** A room of one of [us] changes, and keeps its identifier. *)
Lemma untouched_alter_room f rid db :
  (forall room, rooms db !! rid = Some room -> author room ∈ us) -> (forall room, room_id (f room) = room_id room) ->
  untouched db (with_rooms (alter f rid) db).
Proof.
  intros Hmine Hid. apply untouched_rooms.
  - intros rid' room Hroom Hin. destruct (decide (rid' = rid)) as [->|Hne]; [|by rewrite lookup_alter_ne].
    exfalso. by apply Hin, Hmine.
  - intros rid' room Hok. destruct (decide (rid' = rid)) as [->|Hne]; [|rewrite lookup_alter_ne by done; apply Hok].
    rewrite lookup_alter_eq. destruct (rooms db !! rid) as [r|] eqn:E; simpl; [|done]. intros [= <-].
    rewrite Hid. by apply Hok.
  - intros n Hok Hn. apply lookup_alter_None. by apply Hok.
Qed.

(** A YAML of one of [us], or in a room of one of [us], changes, and keeps its identifier. *)
Definition reachable (db : Db) (yid : str) : Prop := forall row room,
  yamls db !! yid = Some row -> rooms db !! row_room row = Some room -> author room ∈ us \/ owner row ∈ us.

Lemma untouched_alter_yaml f yid db :
  reachable db yid ->
  (forall row, yamls db !! yid = Some row -> tables_ok db -> yaml_id_ (row_yaml (f row)) = yid) ->
  untouched db (with_yamls (alter f yid) db).
Proof.
  intros Hmine Hid. apply untouched_yamls.
  - intros yid' row room Hrow Hroom Ha Ho. destruct (decide (yid' = yid)) as [->|Hne]; [|by rewrite lookup_alter_ne].
    by destruct (Hmine row room Hrow Hroom).
  - intros yid' row Hok. destruct (decide (yid' = yid)) as [->|Hne]; [|rewrite lookup_alter_ne by done; apply Hok].
    rewrite lookup_alter_eq. destruct (yamls db !! yid) as [r|] eqn:E; simpl; [|done]. intros [= <-]. by apply Hid.
  - intros n Hok Hn. apply lookup_alter_None. by apply Hok.
Qed.

(** The rows of a room of one of [us] change. *)
Lemma untouched_fmap_room f rid db :
  (forall room, rooms db !! rid = Some room -> author room ∈ us) ->
  (forall row, yaml_id_ (row_yaml (f row)) = yaml_id_ (row_yaml row)) ->
  untouched db (with_yamls (fmap (fun row => if bool_decide (row_room row = rid) then f row else row)) db).
Proof.
  intros Hmine Hid. apply untouched_yamls.
  - intros yid row room Hrow Hroom Ha _. rewrite lookup_fmap, Hrow. simpl. case_bool_decide; [|done]. subst.
    exfalso. by apply Ha, Hmine.
  - intros yid row Hok. rewrite lookup_fmap. destruct (yamls db !! yid) as [r|] eqn:E; simpl; [|done]. intros [= <-].
    case_bool_decide; rewrite ?Hid; by apply Hok.
  - intros n Hok Hn. rewrite lookup_fmap. by rewrite (yamls_unused _ Hok).
Qed.

Lemma untouched_delete_yaml yid db : reachable db yid -> untouched db (with_yamls (delete yid) db).
Proof.
  intros Hmine. apply untouched_yamls.
  - intros yid' row room Hrow Hroom Ha Ho. destruct (decide (yid' = yid)) as [->|Hne]; [|by rewrite lookup_delete_ne].
    by destruct (Hmine row room Hrow Hroom).
  - intros yid' row Hok [_ Hrow]%lookup_delete_Some. by apply Hok.
  - intros n Hok Hn. apply lookup_delete_None. right. by apply Hok.
Qed.

(** A row at an identifier that was just drawn. *)
Context `{!Inj eq eq new_v4}.

Lemma untouched_new_yaml row db :
  yaml_id_ (row_yaml row) = new_v4 (drawn db) ->
  untouched db (with_yamls <[new_v4 (drawn db) := row]> (draw db)).
Proof.
  intros Hid. intros Hok. pose proof (untouched_draw db Hok) as (Hok' & _).
  apply (transitivity (untouched_draw db)); [|done]. apply untouched_yamls; simpl.
  - intros yid row' room Hrow _ _ _. destruct (decide (yid = new_v4 (drawn db))) as [->|Hne].
    + rewrite (yamls_unused _ Hok) in Hrow by lia. done.
    + by rewrite lookup_insert_ne.
  - intros yid row' _ [[<- <-]|[Hne Hrow]]%lookup_insert_Some; [done|by apply Hok].
  - intros n _ Hn. apply lookup_insert_None. split; [apply Hok; lia|]. intros ?%(inj new_v4). lia.
Qed.

Lemma untouched_new_room room db :
  room_id room = new_v4 (drawn db) -> untouched db (with_rooms <[new_v4 (drawn db) := room]> (draw db)).
Proof.
  intros Hid Hok. apply (transitivity (untouched_draw db)); [|done]. apply untouched_rooms; simpl.
  - intros rid room' Hroom _. destruct (decide (rid = new_v4 (drawn db))) as [->|Hne].
    + rewrite (rooms_unused _ Hok) in Hroom by lia. done.
    + by rewrite lookup_insert_ne.
  - intros rid room' _ [[<- <-]|[Hne Hroom]]%lookup_insert_Some; [done|by apply Hok].
  - intros n _ Hn. apply lookup_insert_None. split; [apply Hok; lia|]. intros ?%(inj new_v4). lia.
Qed.

Lemma untouched_new_template t db :
  untouched db (with_templates <[new_v4 (drawn db) := t]> (draw db)).
Proof.
  intros Hok. apply (transitivity (untouched_draw db)); [|done]. apply untouched_templates; simpl.
  - intros tid t' Ht _. destruct (decide (tid = new_v4 (drawn db))) as [->|Hne].
    + rewrite (templates_unused _ Hok) in Ht by lia. done.
    + by rewrite lookup_insert_ne.
  - intros n _ Hn. apply lookup_insert_None. split; [apply Hok; lia|]. intros ?%(inj new_v4). lia.
Qed.
End strangers.

(** ** Requests leave others' rooms and YAMLs alone, one by one *)

Section users.
Context {SV : SemVer} {LC : Lowercase} {Features : Type} `{JobIds}.
Context (new_v4 : nat -> str) `{!Inj eq eq new_v4} (us : gset Z).
Local Abbreviation Db := (Db Features).
Local Abbreviation R := (untouched (Features := Features) new_v4 us).

(** A session of one of [us]; administrators may do everything. *)
Definition ordinary (s : Session) : Prop := is_admin s = false /\ forall u, user_id s = Some u -> u ∈ us.

Definition kept {E} `{!RequestError E} {A} (m : hm (Features := Features) (E := E) A) : Prop :=
  keeps True (fun _ => True) R m.

Lemma ordinary_owner s room : ordinary s -> is_my_room s room = true -> author room ∈ us.
Proof. intros [Ha Hu]. unfold is_my_room. rewrite Ha. simpl. intros Hb%bool_decide_eq_true. eauto. Qed.

Lemma ordinary_owns s room b : ordinary s -> owns_room s room = Ok b -> b = true -> author room ∈ us.
Proof.
  intros [Ha Hu]. unfold owns_room. rewrite Ha. unfold logged_in_user_id, or_panic.
  destruct (user_id s) as [u|]; simpl; [|done]. intros [= <-] Hb%bool_decide_eq_true. subst. by apply Hu.
Qed.

Lemma kept_ret {E} `{!RequestError E} {A} (a : A) : kept (E := E) (mret a).
Proof. intros. eapply request_keeps_ret; eauto with typeclass_instances. Qed.
Lemma kept_bind {E} `{!RequestError E} {A B} (m : hm (E := E) A) (f : A -> hm B) :
  kept m -> (forall a, kept (f a)) -> kept (m ≫= f).
Proof. intros. eapply request_keeps_bind; eauto with typeclass_instances. Qed.
Lemma kept_query {E} `{!RequestError E} {A} (f : Db -> A) : kept (E := E) (query f).
Proof. intros. eapply keeps_query; eauto with typeclass_instances. Qed.
Lemma kept_step {E} `{!RequestError E} {A} (r : result failure A) : kept (E := E) (step r).
Proof. intros. eapply keeps_step; eauto with typeclass_instances. Qed.
Lemma kept_transaction {E} `{!RequestError E} {A} (m : hm (E := E) A) : kept m -> kept (transaction m).
Proof. intros. eapply keeps_transaction; eauto with typeclass_instances. Qed.

(** What a request ends with, after it ran from [db]. *)
Lemma ends_kept {E} `{!RequestError E} {A} (m : hm (E := E) A) (db0 db : Db) :
  kept m -> R db0 db -> ends True (fun _ => True) m db (fun _ db' => R db0 db').
Proof. intros. eapply keeps_from; eauto with typeclass_instances. Qed.
Lemma ends_then {E} `{!RequestError E} {A} (m : hm (E := E) A) (db0 db : Db) :
  ends True (fun _ => True) m db (fun _ db' => R db db') -> R db0 db ->
  ends True (fun _ => True) m db (fun _ db' => R db0 db').
Proof. intros Hm Hr. eapply ends_weaken; [exact Hm|]. simpl. intros _ db' Hdb. by etrans. Qed.

Lemma ends_tables_ok {E} `{!RequestError E} {A} (m : hm (E := E) A) (db0 db : Db) :
  (tables_ok new_v4 db0 -> ends True (fun _ => True) m db (fun _ db' => R db0 db')) ->
  ends True (fun _ => True) m db (fun _ db' => R db0 db').
Proof.
  unfold ends. induction (m db) as [a| |X e k IH]; simpl; [|done|].
  - intros Hm Hok. by apply Hm.
  - intros Hm x Hx. apply IH. intros Hok. by apply Hm.
Qed.

(** ** Uploads and deletions *)

Lemma kept_add_result rid s bundle v : kept (add_result (Features := Features) new_v4 rid s bundle v).
Proof.
  intros db. unfold add_result. walk; try apply untouched_draw. by apply (untouched_new_yaml new_v4 us (row_of _ _)).
Qed.

Lemma kept_add_results rid s bundle vs : kept (add_results (Features := Features) new_v4 rid s bundle vs).
Proof.
  induction vs as [|v vs IH]; simpl; [apply kept_ret|]. apply kept_bind; [apply kept_add_result|done].
Qed.

Section uploads.
Context (extract_features : Index -> YamlFile -> str -> result failure Features).
Context (read_yaml : str -> result str YamlFile) (split_documents : str -> list (result unit str)).
Context (hash_iter : gmap str f64 -> list (str * f64)) (find_curly_braces : str -> list str).
Context (otlp : gmap str str) `{!Codecs YamlValidationParams YamlValidationResponse}.
Context (queue_error_text : WorkQueueError -> str) (fuel : nat).
Context (q : WorkQueue YamlValidationParams YamlValidationResponse) (cfg : BaseConfig) (index_manager : IndexSet).

Lemma kept_upload rid uploaded s :
  kept (upload_yaml extract_features read_yaml split_documents hash_iter find_curly_braces otlp queue_error_text new_v4
          fuel q index_manager rid uploaded s).
Proof.
  intros db. unfold upload_yaml. walk_any; try reflexivity.
  all: eapply ends_weaken; [apply kept_add_results|]; intros [[]|e] db' Hr; walk; try reflexivity.
  all: etrans; [apply untouched_draw|done].
Qed.
End uploads.

Lemma reachable_in_room (db : Db) (rid yid : str) s room y :
  ordinary s -> rooms db !! rid = Some room -> row_yaml <$> row_in_room db rid yid = Some y ->
  is_my_room s room = true \/ user_id s = Some (owner_id y) -> reachable us db yid.
Proof.
  intros Hs Hroom Hy Hmay row room' Hrow Hroom'. unfold row_in_room in Hy. rewrite Hrow in Hy. simpl in Hy.
  case_decide as Hin; simpl in Hy; [|done]. simplify_eq. destruct Hmay as [Hmy|Ho]; [left; by eapply ordinary_owner|right; by apply Hs].
Qed.

Lemma kept_delete_yaml rid yid s : ordinary s -> kept (delete_yaml rid yid s).
Proof.
  intros Hs db. unfold delete_yaml. walk; try reflexivity.
  apply untouched_delete_yaml. user_known. eapply reachable_in_room; try done.
  destruct (is_my_room s a); [by left|right]. destruct (bool_decide (owner_id a0 = a1)) eqn:E; simpl in *; [|done].
  apply bool_decide_eq_true in E. by subst.
Qed.

(** ** Rooms *)

Section rooms.
Context (read_yaml : str -> result str YamlFile) (hash_iter : gmap str f64 -> list (str * f64)).
Context (otlp : gmap str str) `{!Codecs YamlValidationParams YamlValidationResponse}.
Context (queue_error_text : WorkQueueError -> str).
Context (fmt : FormFormats) (q : WorkQueue YamlValidationParams YamlValidationResponse).
Context (cfg : BaseConfig) (index_manager : IndexSet) (admin_rooms_only : bool).

Lemma to_new_room_names f rid index v author from n :
  to_new_room fmt f rid index v author from = Ok n -> nr_id n = rid /\ nr_author_id n = author.
Proof.
  unfold to_new_room. destruct (parse_date _ _ _); simpl; [|done]. destruct (manifest_from_form _ _); simpl; [|done].
  by intros [= <-].
Qed.

Lemma kept_create_room from_template base form s :
  kept (create_room_submit new_v4 fmt cfg index_manager admin_rooms_only from_template base form s).
Proof.
  intros db. unfold create_room_submit. walk; try reflexivity; try apply untouched_draw.
  all: match goal with H : to_new_room _ _ _ _ _ _ _ = Ok ?n |- _ =>
    apply to_new_room_names in H as [Hid _]; rewrite Hid; by apply untouched_new_room
  end.
Qed.

(** A row of a room of one of [us] that is written keeps its room. *)
Definition ours (rid : str) (db : Db) : Prop := forall room, rooms db !! rid = Some room -> author room ∈ us.

Lemma kept_put_yaml {E} `{!RequestError E} y db :
  reachable us db (yaml_id_ y) ->
  ends True (fun _ => True) (E := E) (put_yaml y) db (fun _ db' => R db db' /\ rooms db' = rooms db).
Proof. intros Hr. walk. split; [|done]. by apply untouched_alter_yaml. Qed.

Lemma reachable_ours rid db yid :
  ours rid db -> (forall row, yamls db !! yid = Some row -> row_room row = rid) -> reachable us db yid.
Proof. intros Ho Hin row room Hrow Hroom. left. apply Ho. by rewrite <- (Hin row). Qed.

Lemma kept_put_yamls rid ys db :
  ours rid db -> (forall y row, y ∈ ys -> yamls db !! yaml_id_ y = Some row -> row_room row = rid) ->
  ends True (fun _ => True) (E := failure) (put_yamls ys) db (fun _ db' => R db db').
Proof.
  revert db. induction ys as [|y ys IH]; intros db Ho Hin; simpl; [walk; reflexivity|].
  walk. eapply ends_then; [apply IH|].
  - done.
  - simpl. intros y' row Hy'. destruct (decide (yaml_id_ y' = yaml_id_ y)) as [->|Hne].
    + rewrite lookup_alter_eq. intros Hrow. destruct (yamls db !! yaml_id_ y) as [row'|] eqn:E; simplify_eq/=.
      apply (Hin y row'); [apply list_elem_of_here|done].
    + rewrite lookup_alter_ne by done. apply Hin. by apply list_elem_of_further.
  - apply untouched_alter_yaml; [|done]. eapply reachable_ours; [exact Ho|]. intros row. apply Hin, list_elem_of_here.
Qed.

(** Validating again keeps a YAML's identifier. *)
Lemma queue_yaml_validation_id y room :
  leaves True (fun _ => True) (fun r => forall y', r = Ok y' -> yaml_id_ y' = yaml_id_ y)
    (queue_yaml_validation read_yaml hash_iter otlp queue_error_text y room index_manager q).
Proof.
  unfold queue_yaml_validation. destruct (read_yaml (current_content y)) as [parsed|]; [|by intros t _ y' [= <-]].
  destruct (get_apworlds_for_games _ _ _ _ _) as [[apworlds|unsupported]|];
    cbv [mbind lm_bind lift]; cbn [prog_bind].
  - apply leaves_bind, leaves_any; [done|]. intros [j|e]; cbn; [by intros y' [= <-]|done].
  - case_bool_decide; simpl; [by intros y' [= <-]|by intros t _ y' [= <-]].
  - done.
Qed.

Lemma row_before_queue_id y room : yaml_id_ (row_before_queue read_yaml hash_iter index_manager y room) = yaml_id_ y.
Proof. unfold row_before_queue. by repeat case_match. Qed.

Lemma revalidate_all_ids yamls index new_worlds room :
  leaves True (fun _ => True) (fun r => forall ys, r = Ok ys -> yaml_id_ <$> ys = yaml_id_ <$> yamls)
    (revalidate_all read_yaml hash_iter otlp queue_error_text yamls index new_worlds room index_manager q).
Proof.
  induction yamls as [|y yamls IH]; simpl; [by intros ys [= <-]|]. apply leaves_bind.
  apply leaves_weaken with (fun r => forall y', r = Ok y' -> yaml_id_ y' = yaml_id_ y).
  { destruct (should_revalidate_yaml _ _ _); [apply queue_yaml_validation_id|by intros y' [= <-]]. }
  intros [y'|e] Hy; simpl; [|done]. apply leaves_bind. eapply leaves_weaken; [exact IH|].
  intros [ys|e] Hys; simpl; [|done]. intros ys' [= <-]. simpl. f_equal; auto.
Qed.

Lemma revalidated_ids yamls room old :
  leaves True (fun _ => True) (fun r => forall ys, r = Ok ys -> yaml_id_ <$> ys = yaml_id_ <$> yamls)
    (revalidate_yamls_if_necessary read_yaml hash_iter otlp queue_error_text yamls room old index_manager q).
Proof.
  unfold revalidate_yamls_if_necessary. destruct (yaml_validation (settings room)); simpl; [|by intros ys [= <-]].
  destruct (index_for index_manager (ap_version room)); simpl; [|done]. apply revalidate_all_ids.
Qed.

Lemma rows_of_elem (db : Db) rid row : row ∈ rows_of db rid <-> exists yid, yamls db !! yid = Some row /\ row_room row = rid.
Proof.
  unfold rows_of. rewrite list_elem_of_fmap. split.
  - intros ([yid row'] & -> & Hin). apply elem_of_bt_iter, map_lookup_filter_Some in Hin. simpl in *. by exists yid.
  - intros (yid & Hrow & Hr). exists (yid, row). split; [done|]. apply elem_of_bt_iter. by apply map_lookup_filter_Some.
Qed.

(** The identifiers of the YAMLs of a room are those of its rows. *)
Lemma listed_in_room (db : Db) rid ys : tables_ok new_v4 db -> yaml_id_ <$> ys = yaml_id_ <$> (row_yaml <$> rows_of db rid) ->
  forall y row, y ∈ ys -> yamls db !! yaml_id_ y = Some row -> row_room row = rid.
Proof.
  intros Hok Hids y row Hy Hrow. assert (Hin : yaml_id_ y ∈ yaml_id_ <$> ys) by (by apply list_elem_of_fmap_2).
  rewrite Hids in Hin. apply list_elem_of_fmap in Hin as (y' & Heq & Hy').
  apply list_elem_of_fmap in Hy' as (row' & -> & Hrow'). apply rows_of_elem in Hrow' as (yid & Hyid & Hroom).
  rewrite (yamls_keyed _ _ Hok _ _ Hyid) in Heq. rewrite Heq in Hrow. by simplify_eq.
Qed.

Lemma kept_revalidate_room room old db :
  ours (room_id room) db -> tables_ok new_v4 db ->
  ends True (fun _ => True) (E := failure)
    (revalidate_room read_yaml hash_iter otlp queue_error_text q index_manager room old) db (fun _ db' => R db db').
Proof.
  intros Ho Hok. unfold revalidate_room. walk; try reflexivity.
  eapply leaves_weaken; [apply revalidated_ids|]. intros [ys|e] Hys; simpl; [|reflexivity].
  apply kept_put_yamls with (room_id room); [done|]. by apply listed_in_room, Hys.
Qed.

Lemma kept_queue_validation {E} `{!RequestError E} y room db :
  reachable us db (yaml_id_ y) ->
  ends True (fun _ => True) (E := E) (queue_validation read_yaml hash_iter otlp queue_error_text q index_manager y room) db
    (fun _ db' => R db db' /\ rooms db' = rooms db /\ forall yid, row_room <$> yamls db' !! yid = row_room <$> yamls db !! yid).
Proof.
  intros Hr. apply leaves_bind. eapply leaves_weaken; [apply queue_yaml_validation_id|].
  assert (Hput : forall y' : Yaml, yaml_id_ y' = yaml_id_ y -> let db' := with_yamls (alter (fun row =>
      {| row_yaml := y'; row_room := row_room row; row_features := row_features row; row_created := row_created row |})
      (yaml_id_ y')) db in
    R db db' /\ rooms db' = rooms db /\ forall yid, row_room <$> yamls db' !! yid = row_room <$> yamls db !! yid).
  { intros y' Hid. simpl. rewrite Hid. split_and!; [by apply untouched_alter_yaml|done|].
    intros yid. rewrite lookup_alter. case_decide; [subst|done]. by destruct (yamls db !! yaml_id_ y). }
  intros [y'|e] Hy; simpl; apply Hput; [auto|apply row_before_queue_id].
Qed.

Lemma kept_queue_validations rid ys room db :
  ours rid db -> (forall y row, y ∈ ys -> yamls db !! yaml_id_ y = Some row -> row_room row = rid) ->
  ends True (fun _ => True) (E := failure)
    (queue_validations read_yaml hash_iter otlp queue_error_text q index_manager ys room) db (fun _ db' => R db db').
Proof.
  revert db. induction ys as [|y ys IH]; intros db Ho Hin; simpl; [walk; reflexivity|].
  apply ends_bind. eapply ends_weaken; [apply kept_queue_validation|].
  { eapply reachable_ours; [exact Ho|]. intros row. apply Hin, list_elem_of_here. }
  intros [[]|e] db' (Hr & Hrooms & Hrows); simpl; [|done]. eapply ends_then; [apply IH|done].
  - intros room'. rewrite Hrooms. apply Ho.
  - intros y' row' Hy' Hrow'. specialize (Hrows (yaml_id_ y')). rewrite Hrow' in Hrows. symmetry in Hrows.
    apply fmap_Some in Hrows as (row & Hrow & ->). eapply Hin; [by apply list_elem_of_further|done].
Qed.

Lemma ours_mine rid s (db : Db) room : ordinary s -> is_my_room s room = true -> rooms db !! rid = Some room -> ours rid db.
Proof. intros Hs Hm Hroom room' Hroom'. simplify_eq. by eapply ordinary_owner. Qed.
Lemma ours_owned rid s (db : Db) room : ordinary s -> owns_room s room = Ok true -> rooms db !! rid = Some room -> ours rid db.
Proof. intros Hs Hm Hroom room' Hroom'. simplify_eq. by eapply ordinary_owns. Qed.

Lemma untouched_write_room rid room (db : Db) :
  ours rid db -> is_Some (rooms db !! rid) -> room_id room = rid -> R db (with_rooms <[rid := room]> db).
Proof.
  intros Ho [old Hold] Hid. apply untouched_rooms.
  - intros rid' room' Hroom Ha. destruct (decide (rid' = rid)) as [->|]; [|by rewrite lookup_insert_ne].
    exfalso. by apply Ha, Ho.
  - intros rid' room' Hok [[<- <-]|[Hne Hroom]]%lookup_insert_Some; [done|by apply Hok].
  - intros n Hok Hn. apply lookup_insert_None. split; [by apply Hok|]. intros ->.
    by rewrite (rooms_unused _ _ Hok) in Hold.
Qed.

Lemma kept_edit_room rid form s :
  ordinary s -> kept (edit_room_submit read_yaml hash_iter otlp queue_error_text fmt q index_manager rid form s).
Proof.
  intros Hs db. unfold edit_room_submit. walk; try reflexivity.
  all: match goal with H : to_new_room _ _ _ _ _ _ _ = Ok ?n |- _ =>
    apply to_new_room_names in H as [Hid Hau]; rewrite ?Hid, ?Hau in * end.
  all: assert (ours rid db) as Ho by (by eapply ours_mine).
  all: try (by apply untouched_fmap_room).
  all: simplify_eq/=; apply ends_tables_ok; intros Hok; match goal with |- ends _ _ _ ?db' _ =>
    assert (R db db') as Hr by first
      [ by apply untouched_write_room; [|eexists|]
      | etrans; [|by apply untouched_write_room; [|eexists|]]; by apply untouched_fmap_room ] end.
  all: eapply ends_then; [apply kept_revalidate_room|exact Hr]; [|by apply Hr].
  all: intros room'; simpl; rewrite lookup_insert_eq; intros [= <-];
    match goal with Ho : ours _ _, Hroom : rooms _ !! _ = Some ?r |- _ => exact (Ho r Hroom) end.
Qed.

Lemma kept_delete_room rid s : ordinary s -> kept (delete_room_handler rid s).
Proof.
  intros Hs db. unfold delete_room_handler. walk; try reflexivity.
  assert (ours rid db) as Ho by (by eapply ours_mine). intros Hok.
  split; [destruct Hok; split; simpl|split_and!; unfold rooms_kept, generations_kept, yamls_kept, templates_kept; simpl]; try done.
  - intros rid' room [_ Hroom]%lookup_delete_Some. eauto.
  - intros yid row [Hrow _]%map_lookup_filter_Some. eauto.
  - intros n Hn. apply lookup_delete_None. right. auto.
  - intros n Hn. apply map_lookup_filter_None_2. left. auto.
  - intros rid' room Hroom Ha. rewrite lookup_delete_ne; [done|]. intros ->. by apply Ha, Ho.
  - intros rid' room Hroom Ha. rewrite lookup_delete_ne; [done|]. intros ->. by apply Ha, Ho.
  - intros yid row room Hrow Hroom Ha _. apply map_lookup_filter_Some. split; [done|]. simpl. intros <-. by apply Ha, Ho.
Qed.

Lemma untouched_update_settings f v rid (db : Db) :
  (forall st, author_id (f st) = author_id st) -> ours rid db ->
  let db' := with_rooms (alter (update_settings f v) rid) db in R db db' /\ ours rid db'.
Proof.
  intros Hf Ho. split; [by apply untouched_alter_room|]. intros room. simpl. rewrite lookup_alter_eq.
  intros (old & Hold & ->)%fmap_Some. unfold author. simpl. rewrite Hf. by apply Ho.
Qed.

Lemma kept_switch_base rid to confirmed s :
  ordinary s -> kept (switch_base read_yaml hash_iter otlp queue_error_text q cfg index_manager rid to confirmed s).
Proof.
  intros Hs db. apply ends_tables_ok. intros Hok. unfold switch_base. walk; try reflexivity.
  all: rewrite (rooms_keyed _ _ Hok _ a) in * by done.
  all: assert (ours rid db) as Ho by (by eapply ours_mine).
  all: destruct (untouched_update_settings (set_updated_at t) (fun _ => a0) rid db ltac:(done) Ho) as [Hr Ho'].
  all: try exact Hr.
  all: assert (R db (with_yamls (fmap (fun row => if bool_decide (row_room row = rid) then
        {| row_yaml := reset_yaml_validation_status (row_yaml row); row_room := row_room row;
           row_features := row_features row; row_created := row_created row |} else row))
      (with_rooms (alter (update_settings (set_updated_at t) (fun _ => a0)) rid) db))) as Hr'
    by (etrans; [exact Hr|]; by apply untouched_fmap_room).
  all: try exact Hr'.
  all: try (destruct (yaml_validation (settings a)); discriminate).
  eapply ends_weaken; [apply (kept_queue_validations rid); [exact Ho'|]|].
  - intros y row Hy Hrow. simpl in Hrow. rewrite lookup_fmap in Hrow. apply fmap_Some in Hrow as (row' & Hrow' & ->).
    enough (row_room row' = rid) by (by destruct (bool_decide (row_room row' = rid))).
    eapply listed_in_room; [exact Hok| |exact Hy|exact Hrow']. by rewrite <- !list_fmap_compose.
  - intros [[]|e] db' Hq; walk; by etrans.
Qed.
End rooms.

(** ** Templates *)

Section templates.
Context (fmt : FormFormats) (cfg : BaseConfig) (index_manager : IndexSet).

Lemma my_template s t : ordinary s -> is_my_tpl s t = true -> author_id (tpl_settings t) ∈ us.
Proof. intros [Ha Hu]. unfold is_my_tpl. rewrite Ha. simpl. intros Hb%bool_decide_eq_true. eauto. Qed.

Lemma kept_create_tpl base f s : kept (create_tpl_submit fmt new_v4 cfg index_manager base f s).
Proof.
  intros db. unfold create_tpl_submit. walk; try reflexivity; try apply untouched_draw.
  all: by apply untouched_new_template.
Qed.

Lemma kept_edit_tpl tid base f s : ordinary s -> kept (edit_tpl_submit fmt cfg index_manager tid base f s).
Proof.
  intros Hs db. unfold edit_tpl_submit. walk; try reflexivity.
  all: assert (author_id (tpl_settings a) ∈ us) as Ha by (eapply my_template; [done|by apply negb_false_iff]).
  all: apply untouched_templates;
    [intros tid' t' Ht' Hn; destruct (decide (tid' = tid)) as [->|]; [by simplify_eq|by rewrite lookup_alter_ne]
    |intros n Hok Hn; apply lookup_alter_None; by apply Hok].
Qed.

Lemma kept_delete_tpl tid s : ordinary s -> kept (delete_template tid s).
Proof.
  intros Hs db. unfold delete_template. walk; try reflexivity.
  assert (author_id (tpl_settings a) ∈ us) as Ha by (eapply my_template; [done|by apply negb_false_iff]).
  apply untouched_templates.
  - intros tid' t' Ht' Hn. destruct (decide (tid' = tid)) as [->|]; [by simplify_eq|by rewrite lookup_delete_ne].
  - intros n Hok Hn. apply lookup_delete_None. right. by apply Hok.
Qed.
End templates.

(** ** Generations *)

Section generations.
Context (read_yaml : str -> result str YamlFile) (otlp : gmap str str) `{!Codecs GenerationParams unit}.
Context (queue_error_text : WorkQueueError -> str) (zip_file_names : str -> option (list str)).
Context (gq : WorkQueue GenerationParams unit) (index_manager : IndexSet).
Context {E : Type} `{!RequestError E}.

Lemma untouched_our_generation g rid (db : Db) :
  ours rid db -> (forall gs rid', rid' <> rid -> g gs !! rid' = gs !! rid') -> R db (with_generations g db).
Proof.
  intros Ho Hg. apply untouched_generations. intros rid' room Hroom Ha. apply Hg. intros ->. by apply Ha, Ho.
Qed.

Lemma untouched_clear_patches rid (db : Db) : ours rid db -> R db (with_yamls (clear_patches rid) db).
Proof. intros Ho. by apply untouched_fmap_room. Qed.

Lemma untouched_set_patches rid assoc (db : Db) :
  ours rid db -> (forall e row, e ∈ assoc -> yamls db !! e.1 = Some row -> row_room row = rid) ->
  R db (with_yamls (fun rows => fold_left (fun rows a => alter (set_row_patch (Some a.2)) a.1 rows) assoc rows) db).
Proof.
  revert db. induction assoc as [|e assoc IH]; intros db Ho Hin; simpl.
  { apply untouched_yamls; simpl; [done|intros yid row Hok; apply Hok|intros n Hok Hn; by apply Hok]. }
  etrans.
  - apply (untouched_alter_yaml new_v4 us (set_row_patch (Some e.2)) e.1);
      [|intros row Hrow Hok; exact (yamls_keyed _ _ Hok _ _ Hrow)].
    eapply reachable_ours; [exact Ho|]. intros row. apply Hin, list_elem_of_here.
  - refine (IH (with_yamls (alter (set_row_patch (Some e.2)) e.1) db) Ho _).
    intros e' row He'. simpl. destruct (decide (e'.1 = e.1)) as [->|Hne].
    + rewrite lookup_alter_eq. intros (row' & Hrow' & ->)%fmap_Some. simpl. eapply Hin; [apply list_elem_of_here|done].
    + rewrite lookup_alter_ne by done. apply Hin. by apply list_elem_of_further.
Qed.

(** Slots are those of the YAMLs of a room. *)
Lemma emit_names_snd {A} (base : A -> str) emitted l named : emit_names base emitted l = Some named -> named.*2 = l.
Proof.
  revert emitted named. induction l as [|a l IH]; intros emitted named; simpl; [by intros [= <-]|].
  destruct (emit_name emitted (base a)) as [[emitted' n]|]; simpl; [|done].
  destruct (emit_names base emitted' l) as [rest|] eqn:E1; simpl; [|done]. intros [= <-]. simpl. f_equal. by eapply IH.
Qed.

Lemma slots_in (yamls : list (YamlWithoutContent (Features := Features))) slots e :
  get_slots yamls = Some slots -> e ∈ slots -> exists y, y ∈ yamls /\ e.2 = yw_id y.
Proof.
  unfold get_slots. destruct (emit_names _ _ _) as [named|] eqn:E'; simpl; [|done]. intros [= <-].
  rewrite sort_by_perm. intros (n & -> & Hn)%list_elem_of_fmap. exists n.2. split; [|done].
  apply emit_names_snd in E'. rewrite <- E'. by apply list_elem_of_fmap_2.
Qed.

Lemma associate_in slots acc file acc' :
  associate slots acc file = Ok acc' -> forall yid f, acc' !! yid = Some f -> acc !! yid = Some f \/ exists e, e ∈ slots /\ e.2 = yid.
Proof.
  unfold associate. destruct (ap_patch_slot file) as [slot|]; [|intros [= <-]; auto].
  destruct (parse_u64 slot) as [n|]; [|done]. destruct (n =? 0)%Z; [intros [= <-]; auto|].
  destruct (slots !! Z.to_nat (n - 1)) as [e|] eqn:E'; [|intros [= <-]; auto].
  intros [= <-] yid f [[<- <-]|[_ Hf]]%lookup_insert_Some; [|auto]. right. exists e. split; [|done].
  by eapply list_elem_of_lookup_2.
Qed.

Lemma associations_in entries (yamls : list (YamlWithoutContent (Features := Features))) assoc :
  get_yamls_patches_association zip_file_names entries yamls = Ok assoc ->
  forall yid f, assoc !! yid = Some f -> exists y, y ∈ yamls /\ yid = yw_id y.
Proof.
  unfold get_yamls_patches_association. destruct (output_file _) as [output|]; [|done].
  destruct (file_in entries output ≫= zip_file_names) as [names|]; [|done].
  destruct (get_slots yamls) as [slots|] eqn:E'; simpl; [|done].
  assert (forall acc, (forall yid f, acc !! yid = Some f -> exists e, e ∈ slots /\ e.2 = yid) ->
    try_fold (associate slots) acc names = Ok assoc -> forall yid f, assoc !! yid = Some f -> exists e, e ∈ slots /\ e.2 = yid) as Hfold.
  { induction names as [|file names IH]; intros acc Hacc; simpl; [intros [= <-]; exact Hacc|].
    destruct (associate slots acc file) as [acc'|] eqn:Ea; simpl; [|done]. apply IH.
    intros yid f Hf. destruct (associate_in _ _ _ _ Ea yid f Hf); eauto. }
  intros Ha yid f Hf. edestruct Hfold as (e & He & <-); [|exact Ha|exact Hf|]; [done|]. by eapply slots_in.
Qed.

Lemma with_names_in (db : Db) rid y :
  tables_ok new_v4 db ->
  y ∈ (omap (fun row => u ← users db !! owner_id (row_yaml row); Some (without_content row, username u)) (rows_of db rid)).*1 ->
  exists row, yamls db !! yw_id y = Some row /\ row_room row = rid.
Proof.
  intros Hok. rewrite list_elem_of_fmap. intros (e & -> & He).
  apply list_elem_of_omap in He as (row & Hrow & He). apply rows_of_elem in Hrow as (yid & Hyid & Hin).
  destruct (users db !! owner_id (row_yaml row)); simplify_eq/=. exists row.
  by rewrite (yamls_keyed _ _ Hok _ _ Hyid).
Qed.

Lemma kept_refresh_patches rid (db : Db) :
  ours rid db -> ends True (fun _ => True) (E := E) (refresh_gen_patches zip_file_names rid) db (fun _ db' => R db db').
Proof.
  intros Ho. apply ends_tables_ok. intros Hok. unfold refresh_gen_patches. walk; try reflexivity.
  etrans; [by apply untouched_clear_patches|].
  apply (untouched_set_patches rid); [exact Ho|]. intros [yid f] row He%elem_of_map_to_list. simpl.
  unfold clear_patches. rewrite lookup_fmap. intros (row' & Hrow' & ->)%fmap_Some.
  match goal with Ha : get_yamls_patches_association _ _ _ = Ok _ |- _ =>
    destruct (associations_in _ _ _ Ha _ _ He) as (y & Hy & ->) end.
  destruct (with_names_in _ _ _ Hok Hy) as (row & Hrow & Hin). simplify_eq. by case_match.
Qed.

Lemma kept_enqueue room yamls index (db : Db) :
  ours (room_id room) db ->
  ends True (fun _ => True) (E := E) (enqueue_gen_job read_yaml otlp queue_error_text gq room yamls index) db
    (fun _ db' => R db db').
Proof.
  intros Ho. unfold enqueue_gen_job. walk_any; try reflexivity.
  all: match goal with |- untouched _ _ _ ?db' =>
    match db' with context [with_rooms (alter (update_settings ?f ?v) ?r) ?db] =>
      destruct (untouched_update_settings f v r db ltac:(done) Ho) as [Hr Ho'] end end; try exact Hr.
  etrans; [exact Hr|]. apply (untouched_our_generation _ (room_id room)); [exact Ho'|].
  intros gs rid' Hne. by apply lookup_insert_ne.
Qed.

Lemma kept_gen_start rid s :
  ordinary s -> kept (gen_room_start read_yaml otlp queue_error_text gq index_manager (E := E) rid s).
Proof.
  intros Hs db. apply ends_tables_ok. intros Hok. unfold gen_room_start, get_info_for_gen. walk; try reflexivity.
  all: apply kept_enqueue; rewrite (rooms_keyed _ _ Hok _ a) by done; simplify_eq; by eapply ours_owned.
Qed.

Lemma kept_gen_cancel rid s : ordinary s -> kept (gen_room_cancel queue_error_text gq (E := E) rid s).
Proof.
  intros Hs db. unfold gen_room_cancel. walk_any; try reflexivity.
  all: assert (ours rid db) as Ho by (simplify_eq; by eapply ours_owned).
  all: etrans; [apply (untouched_our_generation (delete rid) rid); [exact Ho|intros gs rid' Hne; by apply lookup_delete_ne]|].
  all: by apply untouched_clear_patches.
Qed.

Lemma kept_manual_upload rid file s : ordinary s -> kept (gen_room_manual_upload zip_file_names (E := E) rid file s).
Proof.
  intros Hs db. unfold gen_room_manual_upload. walk; try reflexivity; try apply untouched_out_dir.
  assert (ours rid db) as Ho by (simplify_eq; by eapply ours_owned).
  eapply ends_then; [by apply kept_refresh_patches|]. etrans; [apply untouched_out_dir|].
  apply (untouched_our_generation _ rid); [exact Ho|]. intros gs rid' Hne. by apply lookup_insert_ne.
Qed.
End generations.

(** ** The API *)

Lemma kept_admin_only {A} s (m : hm (Features := Features) (E := ApiError) A) : ordinary s -> kept (admin_only s m).
Proof. intros [Ha _] db. unfold admin_only, admin_guard. rewrite Ha. walk. reflexivity. Qed.

Section api.
Context (read_yaml : str -> result str YamlFile) (hash_iter : gmap str f64 -> list (str * f64)).
Context (otlp : gmap str str) `{!Codecs YamlValidationParams YamlValidationResponse}.
Context (queue_error_text : WorkQueueError -> str).
Context (q : WorkQueue YamlValidationParams YamlValidationResponse) (index_manager : IndexSet).

Lemma kept_retry rid yid s :
  ordinary s -> kept (retry_yaml read_yaml hash_iter otlp queue_error_text q index_manager rid yid s).
Proof.
  intros Hs db. apply ends_tables_ok. intros Hok. unfold retry_yaml. walk; try reflexivity.
  { destruct Hs as [Hs _]. congruence. }
  user_known. assert (yaml_id_ a0 = yid) as Hid.
  { match goal with Hy : _ <$> row_in_room _ _ _ = Some _ |- _ => apply fmap_Some in Hy as (row & Hrow & ->) end.
    unfold row_in_room in Hrow. apply bind_Some in Hrow as (row' & Hrow & Hin). case_decide; simplify_eq.
    exact (yamls_keyed _ _ Hok _ _ Hrow). }
  eapply ends_weaken; [apply kept_queue_validation; rewrite Hid; eapply reachable_in_room; [exact Hs|done..|]|by intros r db' [Hr _]].
  match goal with Hm : negb (_ || _) = false |- _ => apply negb_false_iff, orb_true_iff in Hm as [Hm%bool_decide_eq_true|Hm%bool_decide_eq_true] end;
    subst; [left|by right].
  unfold is_my_room. rewrite bool_decide_true by done. by rewrite orb_true_r.
Qed.
End api.
End users.
