(* ===== verification/LobbyStrangersProps.v ===== *)
(** * Users don't change what is others'

    Any sequence of requests by users that aren't administrators, one after the other. *)

From S2P Require Import Prelude Ord RustStd F64 Redis WqCore WqProg Wq Apwm ApwmIndex LobbyYaml LobbyBases LobbyDb.
From S2P Require Import LobbySession LobbySettings LobbyRooms LobbyRoomEdit LobbyTemplates LobbyGenerations LobbyApi.
From S2P Require Import LobbyRequests LobbyRoomsProps LobbyStrangers Examples LobbyExamples.

(** Requests that change tables, with what they carry.  Deleting bundles isn't among them. *)
Section requests.
Context {SV : SemVer} {LC : Lowercase} {Features : Type} `{JobIds}.
Local Abbreviation Db := (Db Features).

Inductive request :=
| Upload (rid : str) (files : list str)
| DeleteYaml (rid yid : str)
| CreateRoom (from_template base : option str) (form : RoomSettingsForm)
| SubmitRoom (rid : str) (form : RoomSettingsForm)
| DeleteRoom (rid : str)
| SwitchBase (rid to : str) (confirmed : bool)
| CreateTemplate (base : option str) (form : CreateTplForm)
| SubmitTemplate (tid : str) (base : option str) (form : CreateTplForm)
| DeleteTemplate (tid : str)
| StartGeneration (rid : str)
| CancelGeneration (rid : str)
| UploadGeneration (rid : str) (file : option str)
| RetryYaml (rid yid : str)
| ApiEditYaml (rid yid : str) (req : EditYamlRequest)
| ApiDeleteYaml (rid yid : str)
| ApiChangeOwner (rid yid : str) (owner : Z) (pw : option str)
| ApiSetPassword (rid yid : str) (pw : option str)
| ApiGenPasswords (rid : str)
| ApiAllow (id : str)
| ApiDisallow (id : str)
| ApiRefreshPatches (rid : str).

Context (extract_features : Index -> YamlFile -> str -> result failure Features).
Context (read_yaml : str -> result str YamlFile) (split_documents : str -> list (result unit str)).
Context (hash_iter : gmap str f64 -> list (str * f64)) (find_curly_braces : str -> list str).
Context (otlp : gmap str str) (queue_error_text : WorkQueueError -> str) (fuel : nat).
Context `{!Codecs YamlValidationParams YamlValidationResponse} `{!Codecs GenerationParams unit}.
Context (new_v4 sample_password : nat -> str) (fmt : FormFormats) (zip_file_names : str -> option (list str)).
Context (q : WorkQueue YamlValidationParams YamlValidationResponse) (gq : WorkQueue GenerationParams unit).
Context (cfg : BaseConfig) (index_manager : IndexSet) (admin_rooms_only : bool).

(** The tables after a request, whatever it answers. *)
Definition effect {E A} (m : hm (Features := Features) (E := E) A) (db : Db) : prog Db :=
  prog_bind (fun rd => Ret rd.2) (m db).

Definition serve (s : Session) (r : request) : Db -> prog Db :=
  match r with
  | Upload rid files =>
      effect (upload_yaml extract_features read_yaml split_documents hash_iter find_curly_braces otlp queue_error_text
                new_v4 fuel q index_manager rid files s)
  | DeleteYaml rid yid => effect (delete_yaml rid yid s)
  | CreateRoom from base form =>
      effect (create_room_submit new_v4 fmt cfg index_manager admin_rooms_only from base form s)
  | SubmitRoom rid form =>
      effect (edit_room_submit read_yaml hash_iter otlp queue_error_text fmt q index_manager rid form s)
  | DeleteRoom rid => effect (delete_room_handler rid s)
  | SwitchBase rid to confirmed =>
      effect (switch_base read_yaml hash_iter otlp queue_error_text q cfg index_manager rid to confirmed s)
  | CreateTemplate base form => effect (create_tpl_submit fmt new_v4 cfg index_manager base form s)
  | SubmitTemplate tid base form => effect (edit_tpl_submit fmt cfg index_manager tid base form s)
  | DeleteTemplate tid => effect (delete_template tid s)
  | StartGeneration rid =>
      effect (gen_room_start read_yaml otlp queue_error_text gq index_manager (E := failure) rid s)
  | CancelGeneration rid => effect (gen_room_cancel queue_error_text gq (E := failure) rid s)
  | UploadGeneration rid file => effect (gen_room_manual_upload zip_file_names (E := failure) rid file s)
  | RetryYaml rid yid => effect (retry_yaml read_yaml hash_iter otlp queue_error_text q index_manager rid yid s)
  | ApiEditYaml rid yid req =>
      effect (edit_yaml extract_features read_yaml split_documents hash_iter otlp queue_error_text fuel q index_manager
                s rid yid req)
  | ApiDeleteYaml rid yid => effect (delete_yaml_api s rid yid)
  | ApiChangeOwner rid yid owner pw => effect (change_yaml_owner s rid yid owner pw)
  | ApiSetPassword rid yid pw => effect (set_password s rid yid pw)
  | ApiGenPasswords rid => effect (gen_all_passwords sample_password s rid)
  | ApiAllow id => effect (add_room_creation_allowed_user s id)
  | ApiDisallow id => effect (remove_room_creation_allowed_user s id)
  | ApiRefreshPatches rid => effect (refresh_patches zip_file_names s rid)
  end.

Fixpoint serve_all (rs : list (Session * request)) (db : Db) : prog Db :=
  match rs with
  | [] => Ret db
  | (s, r) :: rs => prog_bind (serve_all rs) (serve s r db)
  end.

Context `{!Inj eq eq new_v4}.
Implicit Types us : gset Z.

Lemma effect_kept us {E} `{!RequestError E} {A} (m : hm (Features := Features) (E := E) A) db :
  kept new_v4 us m -> leaves True (fun _ => True) (untouched new_v4 us db) (effect m db).
Proof. intros Hm. apply leaves_bind. eapply leaves_weaken; [apply Hm|]. done. Qed.

Lemma serve_kept us s r db :
  ordinary us s -> leaves True (fun _ => True) (untouched new_v4 us db) (serve s r db).
Proof.
  intros Hs. destruct r; simpl; refine (effect_kept us _ db _).
  - by apply kept_upload.
  - by apply kept_delete_yaml.
  - by apply kept_create_room.
  - by apply kept_edit_room.
  - by apply kept_delete_room.
  - by apply kept_switch_base.
  - by apply kept_create_tpl.
  - by apply kept_edit_tpl.
  - by apply kept_delete_tpl.
  - by apply kept_gen_start.
  - by apply kept_gen_cancel.
  - by apply kept_manual_upload.
  - by apply kept_retry.
  - by apply kept_admin_only.
  - by apply kept_admin_only.
  - by apply kept_admin_only.
  - by apply kept_admin_only.
  - by apply kept_admin_only.
  - by apply kept_admin_only.
  - by apply kept_admin_only.
  - by apply kept_admin_only.
Qed.

Lemma serve_all_kept us rs db :
  Forall (fun sr => ordinary us sr.1) rs -> leaves True (fun _ => True) (untouched new_v4 us db) (serve_all rs db).
Proof.
  intros Hrs. revert db. induction Hrs as [|[s r] rs Hs _ IH]; intros db; simpl; [reflexivity|].
  apply leaves_bind. eapply leaves_weaken; [by apply serve_kept|]. intros db' Hdb.
  eapply leaves_weaken; [apply IH|]. intros db'' Hdb'. by etrans.
Qed.

End requests.

Section witnesses.
#[local] Existing Instance example_semver.
#[local] Existing Instance ascii_lowercase.
#[local] Existing Instance example_ids.

#[local] Existing Instance example_codecs.

Lemma sample_tables_ok : tables_ok sample_ids sample_db.
Proof.
  split; simpl.
  - intros rid room Hl. repeat (apply lookup_insert_Some in Hl as [[<- <-]|[? Hl]]; [done|]).
    by apply lookup_singleton_Some in Hl as [<- <-].
  - intros yid row Hl. repeat (apply lookup_insert_Some in Hl as [[<- <-]|[? Hl]]; [done|]).
    by apply lookup_singleton_Some in Hl as [<- <-].
  - intros n _. by rewrite !lookup_insert_ne, lookup_singleton_ne.
  - intros n _. by rewrite !lookup_insert_ne, lookup_singleton_ne.
  - intros n _. apply lookup_empty.
Qed.

(** User 3 deletes the YAML, tries to delete both rooms and to edit a YAML as an administrator. *)
Definition sample_requests : list (Session * request) :=
  [(sample_user 3, DeleteYaml (lit "open") (lit "x")); (sample_user 3, DeleteRoom (lit "open"));
   (sample_user 3, DeleteRoom (lit "shut")); (sample_user 3, ApiDeleteYaml (lit "shut") (lit "y"))].

End witnesses.
