(* ===== verification/LobbyGenerationsProps.v ===== *)
(** * Starting generations

    When a generation starts and what it leaves in the tables, and which releases of worlds it is
    run with. *)

From S2P Require Import Prelude Ord RustStd F64 Redis WqCore WqProg Wq Apwm ApwmFacts ApwmIndex LobbyYaml LobbyBases.
From S2P Require Import LobbyDb LobbySession LobbyRooms LobbyGenerations LobbyApi LobbyRequests LobbyRoomsProps.
From S2P Require Import Examples LobbyExamples.

Section generations.
Context {SV : SemVer} {LC : Lowercase} {Features : Type} `{JobIds}.

(** ** Releases *)

Lemma gen_apworlds_has m i required l e p :
  gen_apworlds m i required = Ok l -> e ∈ bt_iter (resolve_with m i).1 -> Apwm.name e.2.1 ∈ required ->
  get_ap_name e.2.1 = Ok p -> (p, e.2.2) ∈ l.
Proof.
  unfold gen_apworlds. generalize (bt_iter (resolve_with m i).1) as es. intros es.
  match goal with |- try_fold ?f _ _ = _ -> _ => set (step := f) end. intros Hl He Hr Hp.
  assert (forall acc e' acc', step acc e' = Ok acc' ->
    (forall x, x ∈ acc -> x ∈ acc') /\ (e' = e -> (p, e.2.2) ∈ acc')) as Hstep.
  { intros acc e' acc'. unfold step. intros Hs. split.
    - intros x Hx. repeat case_match; simplify_eq; [apply elem_of_app; by left|done].
    - intros ->. rewrite bool_decide_true, Hp in Hs by done. simplify_eq. apply elem_of_app. right.
      by apply list_elem_of_singleton. }
  clearbody step. cut (forall acc, try_fold step acc es = Ok l -> (forall x, x ∈ acc -> x ∈ l) /\ (e ∈ es -> (p, e.2.2) ∈ l)).
  { intros Hfold. by apply (Hfold [] Hl). }
  clear Hl He. induction es as [|e' es IH]; intros acc Hf; simpl in Hf.
  - simplify_eq. split; [done|]. intros He. by apply not_elem_of_nil in He.
  - destruct (step acc e') as [acc'|] eqn:E; simpl in Hf; [|done]. destruct (Hstep _ _ _ E) as [Hsub Hnew].
    destruct (IH _ Hf) as [Hacc Hin]. split; [auto|]. intros [->|He]%elem_of_cons; auto.
Qed.

(** A world that the room wants the latest release of, where the index says that the default is
    another release: YAMLs are validated with the default, and the generation is run with the
    newest. *)
Theorem generations_can_use_other_releases (hash_iter : gmap str f64 -> list (str * f64)) (index_manager : IndexSet)
    (base : Version) (m m' : Manifest) (i : Index) (n : str) (w : World) (v0 v : Version) (o : WorldOrigin)
    (p : str) (required : gset str) (l : list (str * Version))
    (Hindex : index_for index_manager base = Ok i) (Hgame : find_world i (Apwm.name w) = Some (n, w))
    (Hw : worlds i !! n = Some w) (Hpath : file_stem (w_path w) = Some p)
    (Hlatest : m_worlds m !! n = Some Latest) (Hdefault : default_version w = Specific v0)
    (Hhas : is_Some (versions w !! v0)) (Hnew : get_latest_release w = Some (v, o)) (Hne : v <> v0)
    (Hfreeze : freeze m i = Some m') (Hreq : Apwm.name w ∈ required) (Hjob : gen_apworlds m' i required = Ok l) :
  get_apworlds_for_games hash_iter index_manager base m (GameName (Apwm.name w)) = Ok (Ok [(p, v0)]) /\
  (p, v) ∈ l.
Proof.
  split.
  - simpl. unfold get_apworld_from_game_name. rewrite Hindex. unfold resolve_from_game_name. rewrite Hgame.
    unfold get_version_req. rewrite Hlatest.
    assert (resolve_world_version w Latest = Ok (w, v0)) as ->; [|simpl; by rewrite Hpath].
    apply resolve_Ok. split; [done|]. unfold wanted. rewrite Hdefault. by rewrite decide_True.
  - destruct (freeze_lookup m i m' Hfreeze) as [_ Hlk].
    assert ((resolve_with m' i).1 !! n = Some (w, v)) as Hres.
    { rewrite resolve_with_lookup, Hw. unfold resolves, get_version_req. simpl. rewrite Hlk, Hlatest. simpl.
      unfold frozen. rewrite (decide_True _ _ eq_refl), Hw, Hnew, decide_False by done. rewrite resolve_wanted. unfold wanted.
      rewrite decide_True; [done|]. apply latest_release_spec in Hnew as [Hv _]. by eexists. }
    apply (gen_apworlds_has m' i required l (n, (w, v)) p); [done|by apply elem_of_bt_iter|done|].
    unfold get_ap_name. simpl. by rewrite Hpath.
Qed.

(** ** Starting *)

Lemma raised_ok {A} (r : result error A) a : raised r = Ok a <-> r = Ok a.
Proof. unfold raised. destruct r; simpl; split; congruence. Qed.
Lemma or_panic_ok {A} (o : option A) a : or_panic o = Ok a <-> o = Some a.
Proof. unfold or_panic. destruct o; simpl; split; congruence. Qed.

Context (read_yaml : str -> result str YamlFile) (otlp : gmap str str) `{!Codecs GenerationParams unit}.
Context (queue_error_text : WorkQueueError -> str) (gq : WorkQueue GenerationParams unit) (index_manager : IndexSet).

(** What the checklist asks for. *)
Definition ready (now : Z) (s : Session) (db : Db Features) (rid : str) (room : Room) : Prop :=
  closed_at now room = true /\
  (forall row, row ∈ rows_of db rid -> validation_status (row_yaml row) = Validated) /\
  (is_admin s = true \/ 0 < length (rows_of db rid) <= 100) /\
  generations db !! rid = None.

(** The room as a started generation leaves it: its manifest is frozen. *)
Definition started (now : Z) (rid : str) (m : Manifest) (j : JobId) (db : Db Features) : Db Features :=
  with_generations <[rid := {| gen_job := j; gen_status := GenPending |}]>
    (with_rooms (alter (update_settings (fun st => set_updated_at now (set_manifest m st)) (fun v => v)) rid) db).

Lemma checklist_holds (l : list (str * bool)) :
  List.find (fun e : str * bool => negb e.2) l = None -> forall k b, In (k, b) l -> b = true.
Proof. intros Hf k b Hin. apply negb_false_iff. exact (find_none _ _ Hf _ Hin). Qed.

Lemma checklist_ready now s (db : Db Features) rid room (l1 l2 l3 l4 : str) :
  List.find (fun e : str * bool => negb e.2)
    [(l1, (close_date (settings room) <? now)%Z);
     (l2, forallb (fun y => bool_decide (validation_status y = Validated)) (row_yaml <$> rows_of db rid));
     (l3, ((0 <? length (row_yaml <$> rows_of db rid))%nat && (length (row_yaml <$> rows_of db rid) <=? 100)%nat) || is_admin s);
     (l4, bool_decide (generations db !! rid = None))] = None ->
  ready now s db rid room.
Proof.
  intros Hf. pose proof (checklist_holds _ Hf) as Hb. clear Hf. rewrite length_fmap in Hb. unfold ready, closed_at. split_and!.
  - eapply Hb. by left.
  - intros row Hrow. assert (forallb (fun y => bool_decide (validation_status y = Validated)) (row_yaml <$> rows_of db rid) = true)
      as Hv by (eapply Hb; right; by left).
    rewrite forallb_forall in Hv. eapply bool_decide_eq_true, Hv, list_elem_of_In. by apply list_elem_of_fmap_2.
  - assert (((0 <? length (rows_of db rid))%nat && (length (rows_of db rid) <=? 100)%nat) || is_admin s = true) as Hc
      by (eapply Hb; right; right; by left).
    apply orb_true_iff in Hc as [[H1%Nat.ltb_lt H2%Nat.leb_le]%andb_true_iff|]; [right; lia|by left].
  - eapply bool_decide_eq_true, Hb. right. right. right. by left.
Qed.

(** C18: A generation starts for the room's owner or an administrator, once the room is closed, its YAMLs
    are validated, there are one to 100 of them (administrators may have any number) and no
    generation exists; it is pending then and the room's manifest is frozen.  Otherwise there is no
    generation, and no YAML changes. *)
Theorem generations_start_when_ready (rid : str) (s : Session) (db : Db Features) (now : Z) (room : Room)
    (Hroom : rooms db !! rid = Some room) (Hid : room_id room = rid) :
  ends True (eq now) (gen_room_start read_yaml otlp queue_error_text gq index_manager (E := failure) rid s) db
    (fun r db' => match r with
      | Ok j => owns_room s room = Ok true /\ ready now s db rid room /\
          exists index m, index_for index_manager (ap_version room) = Ok index /\
            freeze (manifest (settings room)) index = Some m /\ db' = started now rid m j db
      | Err _ => generations db' = generations db /\ yamls db' = yamls db
      end).
Proof.
  unfold gen_room_start, get_info_for_gen, enqueue_gen_job. walk_any; try done.
  all: simplify_eq.
  split_and!; [done|by eapply checklist_ready|].
  do 2 eexists. split_and!; [by apply raised_ok|by apply or_panic_ok|reflexivity].
Qed.
End generations.

Section witnesses.
#[local] Existing Instance example_semver.
#[local] Existing Instance ascii_lowercase.
#[local] Existing Instance example_ids.
#[local] Existing Instance example_codecs.

(** A world with the releases 1 and 2, of which 1 is the default. *)
Definition pinned_world : World :=
  {| w_path := Path true [lit "worlds"; lit "custom.toml"]; Apwm.name := lit "Custom"; display_name := lit "Custom";
     default_url := None; default_version := Specific 1%N; home := None;
     versions := {[1%N := ODefault; 2%N := ODefault]}; disabled := false; supported := false; tags := [] |}.
Definition pinned_index : Index :=
  {| i_path := Path true [lit "index.toml"]; archipelago_repo := []; archipelago_version := 6%N; index_homepage := [];
     index_dir := Path false [lit "worlds"]; worlds := {[lit "custom" := pinned_world]} |}.
Definition pinned_set : IndexSet :=
  {| s_path := Path true []; legacy_base := 6%N; s_bases := {[6%N := pinned_index]};
     index_file := index_file sample_index; world_defs := ∅ |}.
Definition wants_latest : Manifest := {| m_worlds := {[lit "custom" := Latest]}; new_apworld_policy := Enable |}.
Definition frozen_latest : Manifest := {| m_worlds := {[lit "custom" := Specific 2%N]}; new_apworld_policy := Enable |}.

Lemma pinned_world_is_listed : worlds pinned_index !! lit "custom" = Some pinned_world.
Proof. reflexivity. Qed.
Lemma custom_wants_latest : m_worlds wants_latest !! lit "custom" = Some Latest.
Proof. reflexivity. Qed.

Lemma generations_can_use_other_releases_witness :
  get_apworlds_for_games (fun _ => []) pinned_set 6%N wants_latest (GameName (lit "Custom")) =
    Ok (Ok [(lit "custom", 1%N)]) /\
  (lit "custom", 2%N : Version) ∈ [(lit "custom", 2%N : Version)].
Proof.
  apply (generations_can_use_other_releases (fun _ => []) pinned_set 6%N wants_latest frozen_latest pinned_index
    (lit "custom") pinned_world 1%N 2%N ODefault (lit "custom") {[lit "Custom"]} [(lit "custom", 2%N)]).
  - vm_compute. reflexivity.
  - vm_compute. reflexivity.
  - apply pinned_world_is_listed.
  - vm_compute. reflexivity.
  - apply custom_wants_latest.
  - reflexivity.
  - by eexists.
  - vm_compute. reflexivity.
  - discriminate.
  - vm_compute. reflexivity.
  - apply elem_of_singleton_2. reflexivity.
  - vm_compute. reflexivity.
Defined.

Definition closed_db : Db unit := with_rooms <[lit "open" := sample_room "open" 1 0]> sample_db.

Lemma generations_start_when_ready_witness :
  ready 50 (sample_user 1) closed_db (lit "open") (sample_room "open" 1 0) /\
  ends True (eq 50%Z) (gen_room_start (fun _ => Err []) ∅ (fun _ => []) (sample_queue _ _) pinned_set (E := failure)
      (lit "open") (sample_user 1)) closed_db
    (fun r db' => match r with Ok _ => True | Err _ => generations db' = ∅ end).
Proof.
  split.
  - unfold ready. split_and!; [reflexivity| |right; vm_compute; lia|reflexivity].
    assert (rows_of closed_db (lit "open") = [sample_row "x" "open" 3]) as -> by (vm_compute; reflexivity).
    by intros row ->%list_elem_of_singleton.
  - eapply ends_weaken; [apply (generations_start_when_ready (fun _ => Err []) ∅ (fun _ => []) (sample_queue _ _)
      pinned_set (lit "open") (sample_user 1) closed_db 50 (sample_room "open" 1 0)); reflexivity|].
    intros [j|e] db'; [done|]. by intros [-> _].
Defined.
End witnesses.
