(* ===== verification/LobbyApiProps.v ===== *)
(** * Slots, edits, and rooms as the API shows them

    [get_slots] and [download_yamls] name files in the same way; what an edit of a YAML may change;
    that the result of an older validation replaces an edit's; who sees a room's address. *)

From S2P Require Import Prelude Ord RustStd F64 Redis WqCore Apwm Examples WqProg Wq ApwmIndex LobbyNames.
From S2P Require Import LobbyYaml LobbyFacts LobbyDb LobbySession LobbyRooms LobbyApi LobbyRequests.
From S2P Require Import LobbyExamples LobbyRoomsProps LobbyStrangers LobbyGenerationsProps.

Section names.
Context {LC : Lowercase}.

Definition suffixed (base : str) (i : N) : str := base ++ lit "_" ++ N_to_str i ++ lit ".yaml".

Lemma ascii_lower_digits n : ascii_lower <$> N_to_str n = N_to_str n.
Proof.
  destruct (N_to_str_parse n) as (_ & _ & Hall). induction Hall as [|c s Hc _ IH]; csimpl; [done|]. rewrite IH. f_equal.
  unfold is_ascii_digit in Hc. unfold ascii_lower. apply andb_true_iff in Hc as [H1%N.leb_le H2%N.leb_le].
  destruct ((65 <=? c)%N) eqn:E; simpl; [apply N.leb_le in E; lia|done].
Qed.

Lemma lower_suffixed_inj base i j :
  is_ascii base = true -> to_lowercase (suffixed base i) = to_lowercase (suffixed base j) -> i = j.
Proof.
  intros Hb. unfold suffixed. rewrite !to_lowercase_ascii by (rewrite !is_ascii_app; auto using is_ascii_number).
  rewrite !fmap_app, !ascii_lower_digits. intros Heq%app_inv_head%app_inv_head%app_inv_tail.
  destruct (N_to_str_parse i) as (_ & Hi & _), (N_to_str_parse j) as (_ & Hj & _). rewrite Heq, Hj in Hi. injection Hi. lia.
Qed.

(** The candidates that are taken are distinct texts among those emitted. *)
Lemma free_suffix_taken fuel emitted base k :
  is_ascii base = true -> free_suffix fuel emitted base k = None ->
  exists l, NoDup l /\ length l = fuel /\ (forall s, s ∈ l -> s ∈ emitted) /\
    forall s, s ∈ l -> exists i, (k <= i)%N /\ s = to_lowercase (suffixed base i).
Proof.
  intros Hb. revert k. induction fuel as [|fuel IH]; intros k; simpl.
  - intros _. exists []. split_and!; [constructor|done|..]; intros s Hs; by apply not_elem_of_nil in Hs.
  - destruct (bool_decide _) eqn:E; simpl; [|done]. apply bool_decide_eq_true in E.
    intros (l & Hnd & Hlen & Hin & Hform)%IH. exists (to_lowercase (suffixed base k) :: l). split_and!.
    + constructor; [|done]. intros (i & Hi & Heq)%Hform. apply lower_suffixed_inj in Heq; [lia|done].
    + by rewrite <- Hlen.
    + intros s [->|Hs]%elem_of_cons; [exact E|auto].
    + intros s [->|Hs]%elem_of_cons; [exists k; split; [lia|done]|]. destruct (Hform s Hs) as (i & Hi & ->).
      exists i. split; [lia|done].
Qed.

Lemma free_suffix_some emitted base : is_ascii base = true -> is_Some (free_suffix (S (size emitted)) emitted base 0).
Proof.
  intros Hb. destruct (free_suffix _ _ _ _) eqn:E; [by eexists|]. exfalso.
  apply free_suffix_taken in E as (l & Hnd & Hlen & Hin & _); [|done].
  assert (size (list_to_set l : gset str) <= size emitted) as Hle.
  { apply subseteq_size. intros s Hs%elem_of_list_to_set. auto. }
  rewrite size_list_to_set in Hle by done. lia.
Qed.

Lemma free_suffix_free fuel emitted base k n :
  free_suffix fuel emitted base k = Some n -> to_lowercase n ∉ emitted /\ exists i, n = suffixed base i.
Proof.
  revert k. induction fuel as [|fuel IH]; intros k; simpl; [done|].
  destruct (bool_decide _) eqn:E; simpl; [apply IH|]. intros [= <-]. apply bool_decide_eq_false in E. eauto.
Qed.

(** A name: the text itself, or with a number, in a file of its own. *)
Definition named_after (base n : str) : Prop := n = base ++ lit ".yaml" \/ exists i, n = suffixed base i.

Lemma emit_name_spec emitted base emitted' n :
  emit_name emitted base = Some (emitted', n) ->
  emitted' = {[to_lowercase n]} ∪ emitted /\ to_lowercase n ∉ emitted /\ named_after base n.
Proof.
  unfold emit_name. case_bool_decide as Hin; cbn [mbind option_bind].
  - destruct (free_suffix _ _ _ _) as [m|] eqn:E; cbn [mbind option_bind]; [|done]. intros [= <- <-].
    apply free_suffix_free in E as [Hf Hi]. split_and!; [done|done|by right].
  - intros [= <- <-]. split_and!; [done|exact Hin|by left].
Qed.

Lemma emit_names_spec {A} (base : A -> str) emitted l named :
  emit_names base emitted l = Some named ->
  NoDup (to_lowercase <$> named.*1) /\ (forall n, n ∈ named.*1 -> to_lowercase n ∉ emitted) /\
  Forall (fun e => named_after (base e.2) e.1) named.
Proof.
  revert emitted named. induction l as [|a l IH]; intros emitted named; simpl.
  { intros [= <-]. split_and!; [constructor|intros n Hn; by apply not_elem_of_nil in Hn|constructor]. }
  destruct (emit_name emitted (base a)) as [[emitted' n]|] eqn:E; simpl; [|done].
  destruct (emit_names base emitted' l) as [rest|] eqn:E1; simpl; [|done]. intros [= <-]. simpl.
  apply emit_name_spec in E as (-> & Hn & Ha). apply IH in E1 as (Hnd & Hfree & Hall). split_and!.
  - constructor; [|done]. intros (m & Heq & Hm)%list_elem_of_fmap. apply (Hfree m Hm). set_solver.
  - intros m [->|Hm]%elem_of_cons; [done|]. specialize (Hfree m Hm). set_solver.
  - by constructor.
Qed.

Lemma emit_names_some {A} (base : A -> str) emitted l :
  (forall a, a ∈ l -> is_ascii (base a) = true) -> is_Some (emit_names base emitted l).
Proof.
  revert emitted. induction l as [|a l IH]; intros emitted Hl; simpl; [by eexists|].
  assert (is_Some (emit_name emitted (base a))) as [[emitted' n] ->].
  { unfold emit_name. case_bool_decide; cbn [mbind option_bind]; [|by eexists].
    destruct (free_suffix_some emitted (base a)) as [m ->]; [apply Hl, list_elem_of_here|]. by eexists. }
  simpl. destruct (IH emitted') as [rest ->]; [|by eexists]. intros b Hb. by apply Hl, list_elem_of_further.
Qed.
End names.

Lemma emit_names_map {LC : Lowercase} {A B} (base : B -> str) (f : A -> B) emitted (l : list A) :
  emit_names base emitted (f <$> l) = fmap (M := list) (fun e => (e.1, f e.2)) <$> emit_names (fun a => base (f a)) emitted l.
Proof.
  revert emitted. induction l as [|a l IH]; intros emitted; csimpl; [done|].
  destruct (emit_name emitted (base (f a))) as [[emitted' n]|]; simpl; [|done]. rewrite IH.
  by destruct (emit_names _ emitted' l).
Qed.

Lemma sanitize_ascii s : is_ascii s = true -> is_ascii (sanitize_yaml_name s) = true.
Proof.
  intros Hs. unfold sanitize_yaml_name.
  assert (is_ascii ((fun c => if bool_decide (c ∈ [47; 92; 60; 62; 58; 63; 42; 124; 34]%N) then 95%N else c) <$> s) = true) as Ha.
  { apply is_ascii_Forall. apply is_ascii_Forall in Hs. apply Forall_fmap. eapply Forall_impl; [exact Hs|].
    intros c Hc. simpl. by case_bool_decide. }
  destruct (_ <$> s) as [|c rest]; [done|]. destruct (c =? 46)%N; [|done].
  simpl in Ha. apply andb_true_iff in Ha as [_ Ha]. by simpl.
Qed.

Section rooms.
Context {SV : SemVer} {LC : Lowercase} {Features : Type} `{JobIds}.

Definition file_base (row : YamlRow Features) : str := sanitize_yaml_name (player_name (row_yaml row)).
Definition slot_le (a b : str * str) : bool := str_leb (to_lowercase a.1) (to_lowercase b.1).

(** The rows of a room and the names of their files. *)
Lemma slots_of_rows rows :
  get_slots (without_content <$> rows) =
    (fun named => sort_by slot_le ((fun e : str * YamlRow Features => (e.1, yaml_id_ (row_yaml e.2))) <$> named)) <$>
    emit_names file_base ∅ rows.
Proof.
  unfold get_slots. rewrite emit_names_map.
  change (fun a => sanitize_yaml_name (yw_player_name (without_content a))) with file_base.
  destruct (emit_names file_base ∅ rows) as [named|]; simpl; [|done]. by rewrite <- list_fmap_compose.
Qed.

(** C32: The slots of a room are the files of its archive of YAMLs in the order of their names, and no two
    have names that differ in case only; a file is named after its player. *)
Theorem slots_are_the_files (rid : str) (db : Db Features) (room : Room)
    (Hroom : rooms db !! rid = Some room)
    (Hascii : forall row, row ∈ rows_of db rid -> is_ascii (player_name (row_yaml row)) = true) :
  exists slots, get_slots (without_content <$> rows_of db rid) = Some slots /\
    NoDup (to_lowercase <$> slots.*1) /\ Sorted (fun a b => slot_le a b = true) slots /\
    ends False (fun _ => True) (download_yamls rid) db (fun r db' => db' = db /\ exists file, r = Ok file /\
      slots ≡ₚ zip (zip_entries file).*1 ((fun row => yaml_id_ (row_yaml row)) <$> rows_of db rid) /\
      Forall2 (fun e row => named_after (file_base row) e.1 /\ e.2 = current_content (row_yaml row))
        (zip_entries file) (rows_of db rid)).
Proof.
  destruct (emit_names_some file_base ∅ (rows_of db rid)) as [named Hnamed].
  { intros row Hrow. apply sanitize_ascii. auto. }
  pose proof (emit_names_snd _ _ _ _ Hnamed) as Hsnd. destruct (emit_names_spec _ _ _ _ Hnamed) as (Hnd & _ & Hall).
  rewrite slots_of_rows, Hnamed. eexists. split_and!; [reflexivity|..].
  - rewrite sort_by_perm, <- !list_fmap_compose. rewrite <- list_fmap_compose in Hnd. exact Hnd.
  - apply sort_by_sorted. intros a b. unfold slot_le. apply str_leb_total.
  - unfold download_yamls. walk; simplify_eq.
    all: match goal with Ha : or_panic (emit_names _ _ _) = _ |- _ =>
      rewrite emit_names_map in Ha;
      change (fun a : YamlRow Features => sanitize_yaml_name (player_name (row_yaml a))) with file_base in Ha;
      rewrite Hnamed in Ha; simplify_eq/= end.
    split; [done|]. eexists. split; [reflexivity|]. simpl. rewrite sort_by_perm. rewrite <- Hsnd. clear - Hall. split.
    + rewrite <- !list_fmap_compose. clear Hall. induction named as [|e named IH]; csimpl; [done|]. by rewrite IH.
    + induction Hall as [|e named He _ IH]; csimpl; constructor; auto.
Qed.
End rooms.

Section witness.
#[local] Existing Instance example_semver.
#[local] Existing Instance ascii_lowercase.
#[local] Existing Instance example_ids.

(** Two players of the same name in the open room. *)
Definition twins : Db unit := with_yamls <[lit "z" := sample_row "z" "open" 2]> sample_db.

Lemma slots_are_the_files_witness :
  get_slots (without_content <$> rows_of twins (lit "open")) =
    Some [(lit "ann.yaml", lit "x"); (lit "ann_0.yaml", lit "z")] /\
  exists slots, get_slots (without_content <$> rows_of twins (lit "open")) = Some slots /\
    NoDup (to_lowercase <$> slots.*1).
Proof.
  split; [vm_compute; reflexivity|].
  destruct (slots_are_the_files (lit "open") twins (sample_room "open" 1 100)) as (slots & Hs & Hnd & _).
  - reflexivity.
  - intros row (yid & Hrow & _)%rows_of_elem. unfold twins, sample_db in Hrow. simpl in Hrow.
    repeat (apply lookup_insert_Some in Hrow as [[<- <-]|[_ Hrow]]; [done|]).
    by apply lookup_singleton_Some in Hrow as [<- <-].
  - by exists slots.
Defined.
End witness.

(** ** The API *)

Section api.
Context {SV : SemVer} {LC : Lowercase} {Features : Type} `{JobIds}.
Context (extract_features : Index -> YamlFile -> str -> result failure Features).
Context (read_yaml : str -> result str YamlFile) (split_documents : str -> list (result unit str)).
Context (hash_iter : gmap str f64 -> list (str * f64)).
Context (otlp : gmap str str) `{!Codecs YamlValidationParams YamlValidationResponse}.
Context (queue_error_text : WorkQueueError -> str) (fuel : nat).
Context (q : WorkQueue YamlValidationParams YamlValidationResponse) (index_manager : IndexSet).

(** ** Edits *)

(** How an edited YAML stands with its validation. *)
Definition edit_status (room : Room) (status : YamlValidationStatus) : Prop :=
  if yaml_validation (settings room) then
    status = Validated \/ status = Unsupported \/ (status = Failed /\ allow_invalid_yamls (settings room) = true)
  else status = Unknown.

Definition edited_row (req : EditYamlRequest) (g n : str) (f : Features) (status : YamlValidationStatus)
    (apworlds : list (str * Version)) (error : option str) (now : Z) (row : YamlRow Features) : YamlRow Features :=
  {| row_yaml := update_yaml_edited_content (rq_content req) g n status apworlds error (edited_by req)
                   (edited_by_name req) now (row_yaml row);
     row_room := row_room row; row_features := f; row_created := row_created row |}.

Lemma edit_outcome_status room res apworlds status error :
  yaml_validation (settings room) = true -> edit_outcome room res = Ok (apworlds, status, error) ->
  edit_status room status.
Proof.
  intros Hv. unfold edit_status, edit_outcome. rewrite Hv. destruct res as [aw|aw e|gs]; [intros [= <- <- <-]; auto| |intros [= <- <- <-]; auto].
  destruct (allow_invalid_yamls (settings room)); [|done]. intros [= <- <- <-]. auto.
Qed.

(** C26: An edit is an administrator's, of a YAML in a room that isn't locked, and one document for the
    same game and the same player; it replaces what the YAML is read as, and nothing else changes. *)
Theorem edits_keep_game_and_player (s : Session) (rid yid : str) (req : EditYamlRequest) (db : Db Features) (now : Z) :
  ends True (eq now)
    (edit_yaml extract_features read_yaml split_documents hash_iter otlp queue_error_text fuel q index_manager
       s rid yid req) db
    (fun r db' => match r with
      | Err _ => db' = db
      | Ok (g, n) => is_admin s = true /\
          exists room row original rest document parsed f status apworlds error,
            rooms db !! rid = Some room /\ locked (settings room) = false /\
            row_in_room db rid yid = Some row /\
            parse_raw_yamls read_yaml split_documents [current_content (row_yaml row)] = Ok (original :: rest) /\
            parse_raw_yamls read_yaml split_documents [rq_content req] = Ok [(document, parsed)] /\
            same_game (file_game parsed) (file_game original.2) = true /\ file_name parsed = file_name original.2 /\
            validate_game hash_iter (file_game parsed) = Ok g /\ n = file_name parsed /\ edit_status room status /\
            db' = with_yamls (alter (edited_row req g n f status apworlds error now) yid) db
      end).
Proof.
  unfold edit_yaml, admin_only, admin_guard. destruct (is_admin s) eqn:Ha; [|walk; done]. walk_any; try done.
  all: subst; split; [done|].
  all: match goal with Hy : _ <$> row_in_room _ _ _ = Some _, Ho : or_panic (head ?l) = Ok _ |- _ =>
    apply fmap_Some in Hy as (row & Hrow & ->); apply or_panic_ok in Ho; destruct l as [|original rest]; simplify_eq/= end.
  all: repeat match goal with Hr : raised _ = Ok _ |- _ => apply raised_ok in Hr end.
  all: do 10 eexists; split_and!; [eassumption|by apply negb_true_iff|exact Hrow|eassumption|eassumption|done|
    by eapply bool_decide_eq_true|eassumption|done| |reflexivity].
  - by eapply edit_outcome_status.
  - unfold edit_status. by match goal with Hv : yaml_validation _ = _ |- _ => rewrite Hv end.
Qed.

(** An edit leaves the time of the last validation as it was: the result of a job that was queued
    before the edit, for the text before the edit, replaces the status of the edit. *)
Theorem older_results_replace_edits (rows : gmap str Yaml) (room_version : str -> result error Version)
    (desc : JobDesc YamlValidationParams) (res : JobResult YamlValidationResponse) (yid : str) (y : Yaml)
    (edited g n : str) (status : YamlValidationStatus) (apworlds : list (str * Version)) (error : option str)
    (by_id : Z) (by_name : str) (edit_time : Z) (v : Version)
    (Hjob : p_yaml_id (desc_params desc) = Some yid) (Hver : p_ap_version (desc_params desc) = Some v)
    (Hroom : room_version yid = Ok v) (Hvalid : (last_validation_time y <= submitted_at desc)%Z)
    (Hbefore : (submitted_at desc < edit_time)%Z) (Hres : res_status res = Success) :
  let y' := update_yaml_edited_content edited g n status apworlds error by_id by_name edit_time y in
  exists y'', yaml_validation_callback (<[yid := y']> rows) room_version desc res = Ok (true, <[yid := y'']> rows) /\
    current_content y'' = edited /\ last_edited_at y'' = Some edit_time /\
    validation_status y'' = Validated /\ yaml_apworlds y'' = p_apworlds (desc_params desc).
Proof.
  intros y'. exists (update_yaml_status Validated None (p_apworlds (desc_params desc)) (submitted_at desc) y').
  split_and!; [|reflexivity..].
  unfold yaml_validation_callback. rewrite Hjob, lookup_insert_eq, Hver. simpl.
  replace (submitted_at desc <? last_validation_time y)%Z with false by (symmetry; by apply Z.ltb_ge).
  rewrite Hroom. simpl. rewrite bool_decide_true by done. simpl. rewrite Hres. simpl. by rewrite insert_insert_eq.
Qed.

(** ** Rooms *)

(** The YAMLs of a room whose owners are known. *)
Definition with_names (db : Db Features) (rid : str) : list (YamlWithoutContent * str) :=
  omap (fun row => u ← users db !! owner_id (row_yaml row); Some (without_content row, username u)) (rows_of db rid).
Definition listed (db : Db Features) (rid : str) : list YamlWithoutContent := (with_names db rid).*1.

(** Whoever may see the address of a room: administrators, its author, and the owners of its YAMLs. *)
Definition sees_room_url (s : Session) (db : Db Features) (room : Room) (rid : str) : Prop :=
  is_admin s = true \/ user_id s = Some (author_id (settings room)) \/
  exists y, y ∈ listed db rid /\ user_id s = Some (yw_owner_id y).

Lemma sees_room_url_spec s (db : Db Features) room rid :
  is_my_room s room || existsb (fun e => bool_decide (Some (yw_owner_id e.1) = user_id s)) (with_names db rid) = true <->
  sees_room_url s db room rid.
Proof.
  unfold is_my_room, sees_room_url, listed. rewrite !orb_true_iff, bool_decide_eq_true, existsb_exists.
  setoid_rewrite bool_decide_eq_true. setoid_rewrite <- list_elem_of_In. setoid_rewrite list_elem_of_fmap. naive_solver.
Qed.

Lemma slot_map_lookup slots yid i : slot_map slots !! yid = Some i -> exists n, slots !! i = Some (n, yid).
Proof.
  unfold slot_map. intros Hl%elem_of_list_to_map_2. rewrite list_elem_of_In, <- in_rev, <- list_elem_of_In in Hl.
  apply elem_of_lookup_imap in Hl as (j & [n yid'] & [= -> ->] & Hj). by exists n.
Qed.

Lemma map_all_elem {A B} (f : A -> result failure B) l bs b :
  map_all f l = Ok bs -> b ∈ bs -> exists a, a ∈ l /\ f a = Ok b.
Proof.
  unfold map_all. intros Hf.
  assert (forall acc, try_fold (fun acc a => b ← f a; Ok (acc ++ [b])) acc l = Ok bs -> b ∈ bs -> b ∈ acc \/ exists a, a ∈ l /\ f a = Ok b) as Hall.
  { clear Hf. induction l as [|a l IH]; intros acc Hf Hb; simpl in Hf; [simplify_eq; by left|].
    destruct (f a) as [c|] eqn:Ea; simpl in Hf; [|done]. destruct (IH _ Hf Hb) as [Hin|(a' & Hin & Ha')].
    - apply elem_of_app in Hin as [Hin|Hin]; [by left|]. right. apply list_elem_of_singleton in Hin as ->. exists a.
      split; [apply list_elem_of_here|done].
    - right. exists a'. split; [by apply list_elem_of_further|done]. }
  intros Hb. destruct (Hall [] Hf Hb) as [Hin|Hin]; [by apply not_elem_of_nil in Hin|exact Hin].
Qed.

(** The API numbers the YAMLs of a room by their slots, from 1, and shows the room's address to those
    who may see it, if it has one. *)
Theorem room_info_is_what_the_room_has (rid : str) (s : Session) (db : Db Features) :
  ends False (fun _ => True) (room_info rid s) db (fun r db' => db' = db /\ forall info, r = Ok info ->
    exists room slots, rooms db !! rid = Some room /\ get_slots (listed db rid) = Some slots /\
      (forall yi, yi ∈ ai_yamls info -> 0 < slot_number yi /\
         exists n, slots !! (slot_number yi - 1) = Some (n, yi_id yi)) /\
      (forall url, ai_room_url info = Some url <->
         url = room_url (settings room) /\ url <> [] /\ sees_room_url s db room rid)).
Proof.
  unfold room_info. walk; try done.
  match goal with Hf : _ ≫= _ = Some (?r, ?o) |- _ => apply bind_Some in Hf as (? & ? & ?) end. simplify_eq.
  fold (with_names db rid) in *. fold (listed db rid) in *. split; [done|]. intros info [= <-]. simpl.
  do 2 eexists. split_and!.
  - eassumption.
  - by eapply or_panic_ok.
  - intros yi Hyi. match goal with Hm : map_all _ _ = Ok _ |- _ => destruct (map_all_elem _ _ _ _ Hm Hyi) as (e & He & Hf) end.
    unfold yaml_info_of in Hf. destruct (_ !! yw_id e.1) as [i|] eqn:Ei; simpl in Hf; [|done]. injection Hf as <-. simpl.
    apply slot_map_lookup in Ei as [n Hn]. split; [lia|]. exists n. by rewrite Nat.sub_0_r.
  - intros url. rewrite <- sees_room_url_spec. destruct (_ || existsb _ _); simpl.
    + unfold str_eqb. case_bool_decide as Hu; simpl; [|naive_solver]. split; [done|]. intros (-> & Hne & _). by destruct Hne.
    + naive_solver.
Qed.
End api.

Section witnesses.
#[local] Existing Instance example_semver.
#[local] Existing Instance example_ids.

(** The YAML was checked at 10 and its job is of 20; an edit at 30 failed. *)
Definition older_job : JobDesc YamlValidationParams :=
  {| desc_params := {| p_apworlds := [(lit "custom", 2%N)]; p_yaml := lit "ann"; p_otlp_context := ∅;
                       p_yaml_id := Some (lit "x"); p_ap_version := Some 6%N |};
     submitted_at := 20; deadline := 600; desc_partition := None |}.

Lemma older_results_replace_edits_witness :
  exists y'', yaml_validation_callback
      (<[lit "x" := update_yaml_edited_content (lit "new") (lit "Custom") (lit "ann") Failed [] (Some (lit "bad")) 1 (lit "bob") 30
                      (sample_yaml "x" 3)]> ∅) (fun _ => Ok (6%N : Version)) older_job {| res_status := Success; res_result := None |} =
    Ok (true, <[lit "x" := y'']> ∅) /\
    current_content y'' = lit "new" /\ last_edited_at y'' = Some 30%Z /\ validation_status y'' = Validated /\
    yaml_apworlds y'' = [(lit "custom", 2%N)].
Proof.
  apply (older_results_replace_edits ∅ (fun _ => Ok (6%N : @Version example_semver)) older_job {| res_status := Success; res_result := None |}
    (lit "x") (sample_yaml "x" 3) (lit "new") (lit "Custom") (lit "ann") Failed [] (Some (lit "bad")) 1 (lit "bob") 30 (6%N : @Version example_semver));
    [reflexivity|reflexivity|reflexivity|simpl; lia|simpl; lia|reflexivity].
Defined.
End witnesses.
