(* ===== verification/LobbyUploads.v ===== *)
(** * Uploads, all or nothing

    What an upload leaves in the tables: a row for each document, in one bundle of its user, or
    nothing at all.  The validation by workers is that of [LobbyFacts]. *)

From S2P Require Import Prelude Ord RustStd F64 Redis WqCore WqProg Wq WqReach Apwm ApwmIndex LobbyNames LobbyYaml LobbyFacts.
From S2P Require Import LobbyDb LobbyRooms LobbyStrangers LobbyStrangersProps LobbyGenerationsProps Examples LobbyExamples.

Section runs.
Context {SV : SemVer} {Features : Type} `{JobIds} {E : Type} `{!RequestError E} {St : Type} `{!RedisServer St}.
Local Abbreviation hm := (hm (Features := Features) (E := E)).

(** A request that ended: its first part did, and the rest ran if that was a success. *)
Lemma run_hm_bind {A B} (f : A -> hm B) (m : hm A) db (w w' : world St) r db' :
  run ((m ≫= f) db) w = Some ((r, db'), w') ->
  exists r1 db1 w1, run (m db) w = Some ((r1, db1), w1) /\
    match r1 with Ok a => run (f a db1) w1 = Some ((r, db'), w') | Err e => r = Err e /\ db' = db1 /\ w' = w1 end.
Proof.
  unfold mbind at 1, hm_bind. rewrite run_prog_bind. destruct (run (m db) w) as [[[r1 db1] w1]|]; simpl; [|done].
  intros Hrun. exists r1, db1, w1. split; [done|]. destruct r1; [done|]. simpl in Hrun. by simplify_eq.
Qed.

Lemma run_task {A} (m : lm A) db (w w' : world St) (r : result E A) (db' : Db Features) :
  run (task m db) w = Some ((r, db'), w') ->
  exists r0, run m w = Some (r0, w') /\ r = map_err from_failure r0 /\ db' = db.
Proof.
  unfold task. rewrite run_prog_bind. destruct (run m w) as [[r0 w1]|]; simpl; [|done]. intros [= <- <- <-]. eauto.
Qed.

Lemma run_transaction {A} (m : hm A) db (w w' : world St) r (db' : Db Features) :
  run (transaction m db) w = Some ((r, db'), w') ->
  exists db1, run (m db) w = Some ((r, db1), w') /\ db' = match r with Ok _ => db1 | Err _ => db end.
Proof.
  unfold transaction. rewrite run_prog_bind. destruct (run (m db) w) as [[[r1 db1] w1]|]; simpl; [|done].
  intros [= <- <- <-]. eauto.
Qed.
End runs.

(** One step of a request that ended; a step that computes is computed. *)
Ltac run_step H Hs :=
  apply run_hm_bind in H as ([?|?] & ? & ? & Hs & H); [|destruct H as (? & ? & ?); simplify_eq]; simpl in Hs.

Section uploads.
Context {SV : SemVer} {LC : Lowercase} {Features : Type} `{JobIds}.
Context (extract_features : Index -> YamlFile -> str -> result failure Features).
Context (read_yaml : str -> result str YamlFile) (split_documents : str -> list (result unit str)).
Context (hash_iter : gmap str f64 -> list (str * f64)) (find_curly_braces : str -> list str).
Context (otlp : gmap str str) `{!Codecs YamlValidationParams YamlValidationResponse}.
Context (queue_error_text : WorkQueueError -> str) (new_v4 : nat -> str) `{!Inj eq eq new_v4}.
Context (fuel : nat) (q : WorkQueue YamlValidationParams YamlValidationResponse) (index_manager : IndexSet).
Context {St : Type} `{!RedisServer St}.
Local Abbreviation Db := (Db Features).

(** A row has what the validation of a document found. *)
Definition stored (rid : str) (s : Session) (bundle : str) (v : YamlValidationResult (Features := Features))
    (e : str * YamlRow Features) : Prop :=
  let y := row_yaml e.2 in
  row_room e.2 = rid /\ user_id s = Some (owner_id y) /\ bundle_id y = bundle /\ yaml_id_ y = e.1 /\
  current_content y = v_document v /\ player_name y = file_name (v_parsed v) /\ game y = v_game_name v /\
  validation_status y = v_validation_status v /\ yaml_apworlds y = v_apworlds v /\ last_error y = v_error v /\
  row_features e.2 = v_features v.

(** The tables with new rows for YAMLs, after [n] identifiers were drawn. *)
Definition with_new (new : list (str * YamlRow Features)) (n : nat) (db : Db) : Db :=
  with_yamls (fun rows => list_to_map new ∪ rows) (Nat.iter n draw db).

Lemma with_new_cons rid s bundle v e new n (db : Db) :
  stored rid s bundle v e -> e.1 ∉ new.*1 ->
  with_new new n (with_yamls <[e.1 := e.2]> (draw db)) = with_new (e :: new) (S n) db.
Proof.
  intros _ Hnew. assert (forall m, Nat.iter m draw (with_yamls <[e.1:=e.2]> (draw db)) =
    with_yamls <[e.1:=e.2]> (Nat.iter (S m) draw db)) as Hit.
  { induction m as [|m IH]; [done|]. rewrite (Nat.iter_succ m draw (with_yamls _ _)), IH. done. }
  unfold with_new. rewrite Hit. unfold with_yamls. simpl. f_equal. destruct e as [k row]. simpl in *.
  rewrite <- insert_union_r by by apply not_elem_of_list_to_map_1. by rewrite insert_union_l.
Qed.

Lemma run_add_results rid s bundle vs (db db' : Db) (w w' : world St) :
  run (add_results (Features := Features) new_v4 rid s bundle vs db) w = Some ((Ok tt, db'), w') ->
  exists new, Forall2 (stored rid s bundle) vs new /\ new.*1 = new_v4 <$> seq (drawn db) (length vs) /\
    db' = with_new new (length vs) db.
Proof.
  revert db w. induction vs as [|v vs IH]; intros db w Hrun; cbn [add_results] in Hrun.
  { simpl in Hrun. simplify_eq. exists []. split_and!; [constructor|done|].
    unfold with_new, with_yamls. simpl. rewrite map_empty_union. by destruct db'. }
  run_step Hrun Hadd. unfold add_result, add_yaml_to_room in Hadd.
  run_step Hadd Hs. injection Hs as <- <- <-.
  run_step Hadd Hs. destruct (logged_in_user_id s) as [me|] eqn:Hme; simpl in Hs; [|done]. injection Hs as <- <- <-.
  run_step Hadd Hs. injection Hs as <- <- <-.
  run_step Hadd Hs. destruct (rooms _ !! rid); simpl in Hs; [|done]. injection Hs as <- <- <-.
  run_step Hadd Hs. destruct (users _ !! _); simpl in Hs; [|done]. injection Hs as <- <- <-.
  simpl in Hadd. injection Hadd as <- <- <-.
  apply IH in Hrun as (new & Hst & Hids & ->). simpl in Hids.
  match goal with |- context [with_yamls <[?k := ?row]> _] => pose (e := (k, row)) end.
  assert (Hnin : e.1 ∉ new.*1).
  { rewrite Hids. subst e. simpl. intros (n & Hn%(inj new_v4) & Hin%elem_of_seq)%list_elem_of_fmap. lia. }
  assert (He : stored rid s bundle v e).
  { unfold stored. subst e. simpl. split_and!; try done. unfold logged_in_user_id, or_panic in Hme.
    by destruct (user_id s); simplify_eq/=. }
  exists (e :: new). split_and!; [by constructor|by rewrite fmap_cons, Hids|].
  simpl length. by rewrite <- (with_new_cons rid s bundle v e new).
Qed.

Lemma no_games (f : YamlValidationResult -> list str) (vs : list (YamlValidationResult (Features := Features))) :
  all_games f vs = ∅ -> Forall (fun v => f v = []) vs.
Proof.
  intros He. apply Forall_forall. intros v Hv. destruct (f v) as [|g gs] eqn:Ef; [done|]. exfalso.
  assert (g ∈ all_games f vs) as Hg; [|by rewrite He in Hg; apply not_elem_of_empty in Hg].
  apply elem_of_list_to_set, list_elem_of_bind. exists v. rewrite Ef. split; [apply list_elem_of_here|done].
Qed.

Lemma supported_spec (f g : YamlValidationResult -> list str) (vs : list (YamlValidationResult (Features := Features))) b :
  build_unsupported_games_messages (all_games f vs) (all_games g vs) b = None ->
  Forall (fun v => f v = []) vs /\ Forall (fun v => g v = []) vs.
Proof.
  unfold build_unsupported_games_messages. destruct (bool_decide (all_games g vs = ∅)) eqn:Hg; [|done].
  destruct (bool_decide (all_games f vs = ∅)) eqn:Hf; [|done]. intros _.
  apply bool_decide_eq_true in Hf, Hg. split; by apply no_games.
Qed.

(** What an upload is when it changes anything. *)
Definition uploaded_all (rid : str) (uploaded : list str) (s : Session) (now : Z) (db db' : Db) : Prop :=
  exists room documents results new,
    rooms db !! rid = Some room /\ (now <= close_date (settings room))%Z /\
    parse_raw_yamls read_yaml split_documents uploaded = Ok documents /\
    Forall2 (upload_result hash_iter room) documents results /\
    (allow_unsupported (settings room) = false ->
       Forall (fun v => v_unsupported_games v = []) results /\ Forall (fun v => v_disabled_games v = []) results) /\
    Forall2 (stored rid s (new_v4 (drawn db))) results new /\
    NoDup new.*1 /\ (forall yid, yid ∈ new.*1 -> yamls db !! yid = None) /\
    db' = with_new new (S (length results)) db.

Lemma validated_documents ys room documents s (w w' : world St) (results : list (YamlValidationResult (Features := Features))) :
  run (parse_and_validate_yamls_for_room extract_features hash_iter find_curly_braces otlp queue_error_text fuel ys room
         documents s q index_manager) w = Some (Ok results, w') ->
  Forall2 (upload_result hash_iter room) documents results.
Proof.
  unfold parse_and_validate_yamls_for_room. intros Hrun.
  apply lm_bind_Ok in Hrun as ([players counter] & w1 & _ & Hrun).
  apply lm_bind_Ok in Hrun as (st & w2 & Hup & Hrun). simpl in Hrun. simplify_eq.
  by apply upload_documents_inv in Hup as (ns & rs & _ & -> & Hres & _).
Qed.

Lemma stored_all rid s results msg (db db' : Db) (w w' : world St) (r : result failure (option flash)) :
  run ((transaction (fresh new_v4 ≫= fun bundle => add_results (Features := Features) new_v4 rid s bundle results) ≫= fun _ =>
         mret (FlashWarning <$> msg)) db) w = Some ((r, db'), w') ->
  match r with
  | Err _ => db' = db
  | Ok m => m = FlashWarning <$> msg /\ exists new, Forall2 (stored rid s (new_v4 (drawn db))) results new /\
      new.*1 = new_v4 <$> seq (S (drawn db)) (length results) /\ db' = with_new new (S (length results)) db
  end.
Proof.
  intros Hrun. apply run_hm_bind in Hrun as (r1 & db1 & w1 & (db2 & Hadd & ->)%run_transaction & Hrun).
  destruct r1 as [[]|e]; [|by destruct Hrun as (-> & -> & _)]. simpl in Hrun. injection Hrun as <- <- <-. split; [done|].
  run_step Hadd Hs. injection Hs as <- <- <-. apply run_add_results in Hadd as (new & Hst & Hids & ->).
  exists new. split_and!; [done|done|]. unfold with_new. by rewrite Nat.iter_succ_r.
Qed.

(** C9: An upload to an open room stores a row for each document, under identifiers of their own, in one
    new bundle of the session's user, with the outcomes of the validation; unsupported games are
    stored only in rooms that allow them.  An upload that fails or is answered with an error leaves
    all tables as they were. *)
Theorem uploads_are_all_or_nothing (rid : str) (uploaded : list str) (s : Session) (db db' : Db)
    (w w' : world St) (r : result failure (option flash)) (Hok : tables_ok new_v4 db) :
  run (upload_yaml extract_features read_yaml split_documents hash_iter find_curly_braces otlp queue_error_text
         new_v4 fuel q index_manager rid uploaded s db) w = Some ((r, db'), w') ->
  match r with
  | Err _ | Ok (Some (FlashError _)) => db' = db
  | Ok _ => uploaded_all rid uploaded s (WqProg.now w) db db'
  end.
Proof.
  intros Hrun. unfold upload_yaml in Hrun.
  run_step Hrun Hs; [|by destruct (rooms db !! rid); simplify_eq/=].
  destruct (rooms db !! rid) as [room|] eqn:Hroom; simpl in Hs; [|done]. injection Hs as <- <- <-.
  run_step Hrun Hs. injection Hs as <- <- <-.
  destruct (close_date (settings room) <? WqProg.now w)%Z eqn:Hclosed; [by simplify_eq/=|].
  run_step Hrun Hs; [|by destruct (parse_raw_yamls _ _ _); simplify_eq/=].
  destruct (parse_raw_yamls _ _ _) as [documents|] eqn:Hdocs; simpl in Hs; [|done]. injection Hs as <- <- <-.
  run_step Hrun Hs; unfold get_yamls_for_room, room_exists, hcontext, mbind, hm_bind in Hs; simpl in Hs;
    rewrite Hroom in Hs; simpl in Hs; [|done]. injection Hs as <- <- <-.
  apply run_hm_bind in Hrun as (r1 & db1 & w1 & (r0 & Hval & -> & ->)%run_task & Hrun).
  destruct r0 as [results|]; simpl in Hrun; [|by destruct Hrun as (-> & -> & _)].
  assert (Hstore : run ((transaction (fresh new_v4 ≫= fun bundle => add_results (Features := Features) new_v4 rid s bundle results) ≫= fun _ =>
      mret (FlashWarning <$> build_unsupported_games_messages (all_games v_unsupported_games results)
        (all_games v_disabled_games results) (negb (allow_unsupported (settings room))))) db) w1 = Some ((r, db'), w') ->
    (allow_unsupported (settings room) = false ->
       Forall (fun v => v_unsupported_games v = []) results /\ Forall (fun v => v_disabled_games v = []) results) ->
    match r with Err _ | Ok (Some (FlashError _)) => db' = db | Ok _ => uploaded_all rid uploaded s (WqProg.now w) db db' end).
  { intros Hst Hsup. apply stored_all in Hst. destruct r as [m|e]; [|done]. destruct Hst as (-> & new & Hnew & Hids & ->).
    assert (uploaded_all rid uploaded s (WqProg.now w) db (with_new new (S (length results)) db)); [|by destruct (build_unsupported_games_messages _ _ _)].
    exists room, documents, results, new. split_and!; try done; [by apply Z.ltb_ge|by eapply validated_documents| |].
    - rewrite Hids. apply NoDup_fmap_2; [done|apply NoDup_seq].
    - intros yid. rewrite Hids. intros (n & -> & Hn%elem_of_seq)%list_elem_of_fmap. apply Hok. lia. }
  destruct (build_unsupported_games_messages _ _ _) as [msg|] eqn:Emsg.
  - destruct (allow_unsupported (settings room)) eqn:Ea; [by apply Hstore|]. simpl in Hrun. by injection Hrun as <- <- <-.
  - apply Hstore; [done|]. intros _. by eapply supported_spec.
Qed.
End uploads.

Section witnesses.
#[local] Existing Instance example_semver.
#[local] Existing Instance ascii_lowercase.
#[local] Existing Instance example_ids.
#[local] Existing Instance example_codecs.

(** User 3 uploads a file of one document to the open room, at 50. *)
Definition sample_upload : option (result failure (option flash) * Db unit * world rstate) :=
  run (upload_yaml (fun _ _ _ => Ok tt) (fun n => Ok {| file_game := GameName (lit "Custom"); file_name := n |})
         (fun s => [Ok s]) (fun _ => []) (fun _ => []) ∅ (fun _ => []) sample_ids 1 (sample_queue _ _) pinned_set
         (lit "open") [lit "bob"] (sample_user 3) sample_db) (WqProg.World (RState ∅ []) 50 0 [] []).

Lemma uploads_are_all_or_nothing_witness :
  match sample_upload with
  | Some ((Ok None, db'), _) =>
      uploaded_all (fun n => Ok {| file_game := GameName (lit "Custom"); file_name := n |}) (fun s => [Ok s]) (fun _ => [])
        sample_ids (lit "open") [lit "bob"] (sample_user 3) 50 sample_db db'
  | _ => False
  end.
Proof.
  assert (match sample_upload with Some ((Ok None, _), _) => True | _ => False end) as Hend by (vm_compute; exact I).
  destruct sample_upload as [[[r db'] w']|] eqn:Hrun; [|done].
  pose proof (uploads_are_all_or_nothing (fun _ _ _ => Ok tt)
    (fun n => Ok {| file_game := GameName (lit "Custom"); file_name := n |}) (fun s => [Ok s]) (fun _ => []) (fun _ => []) ∅
    (fun _ => []) sample_ids 1 (sample_queue _ _) pinned_set (lit "open") [lit "bob"] (sample_user 3) sample_db db' _ w' r
    sample_tables_ok Hrun) as Hup.
  destruct r as [[m|]|e]; [done|exact Hup|done].
Defined.
End witnesses.
