(* ===== verification/LobbyRoomEditProps.v ===== *)
(** * Making and editing rooms

    Who makes a room and what its settings satisfy, and what an edit of a room may change. *)

From S2P Require Import Prelude Ord RustStd F64 Redis WqCore WqProg Wq Apwm ApwmIndex LobbyYaml LobbyBases LobbyDb.
From S2P Require Import LobbySettings LobbyRooms LobbyRoomEdit LobbyRequests LobbyRoomsProps LobbyGenerationsProps.
From S2P Require Import Examples LobbyExamples.

Section forms.
Context {SV : SemVer} (fmt : FormFormats).

(** What is checked of a form. *)
Definition checked (f : RoomSettingsForm) : Prop :=
  trim (f_room_name f) <> [] /\ (f_yaml_limit_per_user f = true -> (0 < f_yaml_limit_per_user_nb f)%Z).

Lemma validate_room_form_checked f f' : validate_room_form fmt f = Ok f' -> checked f'.
Proof.
  unfold validate_room_form, checked. destruct (str_eqb (trim (f_room_name f)) []) eqn:En; [done|].
  assert (trim (f_room_name f) <> []) as Hn by (unfold str_eqb in En; by apply bool_decide_eq_false in En).
  destruct (200 <? _)%N; [done|]. destruct (if str_eqb (trim (f_room_url f)) [] then _ else _); simpl; [|done].
  destruct (f_yaml_limit_per_user f) eqn:El; simpl; [destruct (Z.leb_spec (f_yaml_limit_per_user_nb f) 0); [done|]|].
  all: destruct (_ && _); [done|]; destruct (validate_meta_file _ _); simpl; [|done]; intros [= <-]; simpl; by rewrite ?El.
Qed.

Lemma to_new_room_is f id index v author from n :
  to_new_room fmt f id index v author from = Ok n ->
  nr_id n = id /\ nr_name n = trim (f_room_name f) /\ nr_author_id n = author /\ nr_ap_version n = v /\
  nr_from_template_id n = from /\
  nr_yaml_limit_per_user n = (if f_yaml_limit_per_user f then Some (f_yaml_limit_per_user_nb f) else None) /\
  (resolve_with (nr_manifest n) index).2 = [].
Proof.
  unfold to_new_room. destruct (parse_date _ _ _); simpl; [|done].
  destruct (manifest_from_form (f_me f) index) as [m|] eqn:Em; simpl; [|done]. intros [= <-]. simpl. split_and!; try done.
  unfold manifest_from_form in Em. destruct (try_fold _ _ _) as [m'|]; simpl in Em; [|done].
  destruct (resolve_with m' index).2 eqn:Er; [|done]. by injection Em as <-.
Qed.

Lemma validate_close_date_ok date current t u :
  validate_close_date date current t = Ok u ->
  (date <= t + days MAX_DAYS_UNTIL_CLOSE)%Z \/ exists c, current = Some c /\ to_the_minute c = to_the_minute date.
Proof.
  unfold validate_close_date. destruct current as [c|].
  - destruct (to_the_minute c =? to_the_minute date)%Z eqn:E; [intros _; right; exists c; split; [done|by apply Z.eqb_eq]|].
    destruct (_ <? _)%Z eqn:El; [done|]. intros _. left. by apply Z.ltb_ge.
  - destruct (_ <? _)%Z eqn:El; [done|]. intros _. left. by apply Z.ltb_ge.
Qed.

(** A room has a name, limits of at least one YAML, and releases that its base has. *)
Definition proper (index_manager : IndexSet) (room : Room) : Prop :=
  room_name (settings room) <> [] /\
  (forall limit, yaml_limit_per_user (settings room) = Some limit -> (0 < limit)%Z) /\
  exists index, index_for index_manager (ap_version room) = Ok index /\ (resolve_with (manifest (settings room)) index).2 = [].

Lemma room_of_proper index_manager f id index v author from n author' created updated template :
  checked f -> index_for index_manager v = Ok index -> to_new_room fmt f id index v author from = Ok n ->
  proper index_manager (room_of n author' created updated template).
Proof.
  intros [Hname Hlimit] Hindex (_ & Hn & _ & Hv & _ & Hl & Hm)%to_new_room_is. unfold proper. simpl. rewrite Hn, Hv, Hl.
  split_and!; [done| |by exists index]. intros limit. destruct (f_yaml_limit_per_user f); [|done]. intros [= <-]. auto.
Qed.
End forms.

Section rooms.
Context {SV : SemVer} {LC : Lowercase} {Features : Type} `{JobIds}.
Context (read_yaml : str -> result str YamlFile) (hash_iter : gmap str f64 -> list (str * f64)) (otlp : gmap str str).
Context `{!Codecs YamlValidationParams YamlValidationResponse} (queue_error_text : WorkQueueError -> str).
Context (new_v4 : nat -> str) (fmt : FormFormats) (q : WorkQueue YamlValidationParams YamlValidationResponse).
Context (cfg : BaseConfig) (index_manager : IndexSet) (admin_rooms_only : bool).
Local Abbreviation Db := (Db Features).

(** Those who may make rooms. *)
Definition may_create (s : Session) (db : Db) (me : Z) : Prop :=
  admin_rooms_only = true ->
  is_admin s = true \/ exists u, users db !! me = Some u /\ u_room_creation_allowed u = true.

Lemma check_creation_allowed_ends s (db : Db) now :
  ends False (eq now) (check_creation_allowed admin_rooms_only s) db (fun r db' =>
    db' = db /\ (r = Ok tt -> forall me, user_id s = Some me -> may_create s db me)).
Proof.
  unfold may_create. walk; (split; [done|]); try done; intros _ me Hme; user_known; simplify_eq/=; try done.
  - destruct admin_rooms_only; done.
  - by left.
  - right. destruct (users db !! _) as [u|]; simpl in *; [by exists u|done].
Qed.

(** What a session's user made, at some time. *)
Definition made_by (s : Session) (now : Z) (rid : str) (db : Db) (room : Room) : Prop :=
  user_id s = Some (author_id (settings room)) /\ is_Some (users db !! author_id (settings room)) /\
  may_create s db (author_id (settings room)) /\ room_id room = rid /\ created_at (settings room) = now /\
  (close_date (settings room) <= now + days MAX_DAYS_UNTIL_CLOSE)%Z /\ proper index_manager room.

Lemma created_room f form id index v me from n t u (s : Session) (db : Db) t' :
  validate_room_form fmt form = Ok f -> index_for index_manager v = Ok index ->
  (forall me, user_id s = Some me -> may_create s db me) -> user_id s = Some me ->
  to_new_room fmt f id index v (Some me) from = Ok n -> validate_close_date (nr_close_date n) None t = Ok u ->
  is_Some (users db !! default (-1)%Z (nr_author_id n)) ->
  nr_id n = id /\ made_by s t id db (room_of n (default (-1)%Z (nr_author_id n)) t t t').
Proof.
  intros Hf Hindex Hmay Hme Hn Hdate Huser. apply validate_room_form_checked in Hf.
  pose proof (to_new_room_is _ _ _ _ _ _ _ _ Hn) as (Hid & _ & Hau & _). split; [done|].
  apply validate_close_date_ok in Hdate as [Hdate|(? & ? & _)]; [|done]. rewrite Hau in *.
  split_and!; simpl; try done; auto. by eapply room_of_proper.
Qed.

(** C30: A room is made by a known user who may, closes within 183 days, is proper and is the only change;
    a request that is refused makes no room. *)
Theorem rooms_are_made_by_the_allowed (from_template base : option str) (form : RoomSettingsForm) (s : Session)
    (db : Db) (now : Z) :
  ends False (eq now) (create_room_submit new_v4 fmt cfg index_manager admin_rooms_only from_template base form s) db
    (fun r db' => match r with
      | Ok rid => rid = new_v4 (drawn db) /\
          exists room, made_by s now rid db room /\ db' = with_rooms <[rid := room]> (draw db)
      | Err _ => db' = db \/ db' = draw db
      end).
Proof.
  unfold create_room_submit. apply ends_bind. eapply ends_weaken; [apply check_creation_allowed_ends|].
  intros [[]|e] db' [-> Hmay]; simpl; [|by left]. walk; auto.
  all: repeat match goal with Hr : raised _ = Ok _ |- _ => apply raised_ok in Hr end; user_known; subst.
  all: match goal with Hf : validate_room_form _ _ = Ok _, Hi : index_for _ _ = Ok _, Hme : user_id _ = Some _,
      Hn : to_new_room _ _ _ _ _ _ _ = Ok ?n, Hd : validate_close_date _ _ _ = Ok _, Hu : users _ !! _ = Some _ |- _ =>
    destruct (created_room _ _ _ _ _ _ _ _ _ _ _ db (default None (nr_from_template_id n)) Hf Hi (Hmay eq_refl) Hme Hn Hd
                (mk_is_Some _ _ Hu)) as [Hid Hmade] end.
  all: simpl; rewrite Hid in *; eauto.
Qed.

Lemma put_yamls_rooms clk ys (db : Db) :
  ends True clk (E := failure) (put_yamls ys) db (fun _ db' => rooms db' = rooms db).
Proof.
  revert db. induction ys as [|y ys IH]; intros db; simpl; walk; [done|]. eapply ends_weaken; [apply IH|]. simpl. by intros _ db' ->.
Qed.

Lemma revalidate_room_rooms room old now (db : Db) :
  ends True (eq now) (E := failure)
    (revalidate_room read_yaml hash_iter otlp queue_error_text q index_manager room old) db
    (fun r db' => rooms db' = rooms db /\ (yaml_validation (settings room) = false -> yamls db' = yamls db)).
Proof.
  unfold revalidate_room. walk_any; try done; try (by rewrite <- negb_true_iff in *; congruence).
  all: match goal with Hv : negb _ = false |- _ => apply negb_false_iff in Hv; rewrite Hv end.
  all: eapply ends_weaken; [apply put_yamls_rooms|]; simpl; by intros _ db' ->.
Qed.

(** How a room comes out of an edit. *)
Definition edit_of (now : Z) (old room : Room) : Prop :=
  room_id room = room_id old /\ author_id (settings room) = author_id (settings old) /\ ap_version room = ap_version old /\
  created_at (settings room) = created_at (settings old) /\ from_template_id room = from_template_id old /\
  ((close_date (settings room) <= now + days MAX_DAYS_UNTIL_CLOSE)%Z \/
   to_the_minute (close_date (settings old)) = to_the_minute (close_date (settings room))) /\
  proper index_manager room.

Lemma edited_room f form rid index old n t u :
  validate_room_form fmt form = Ok f -> index_for index_manager (ap_version old) = Ok index ->
  to_new_room fmt f rid index (ap_version old) None None = Ok n ->
  validate_close_date (nr_close_date n) (Some (close_date (settings old))) t = Ok u -> room_id old = rid ->
  nr_id n = rid /\ edit_of t old (room_of n (default (author_id (settings old)) (nr_author_id n))
                                  (created_at (settings old)) t (default (from_template_id old) (nr_from_template_id n))).
Proof.
  intros Hf Hindex Hn Hdate Hold. apply validate_room_form_checked in Hf.
  pose proof (to_new_room_is _ _ _ _ _ _ _ _ Hn) as (Hid & _ & Hau & Hv & Hfrom & _). split; [done|].
  unfold edit_of. simpl. rewrite Hau, Hfrom, Hv, Hid. simpl. split_and!; try done; [|by eapply room_of_proper].
  apply validate_close_date_ok in Hdate as [Hdate|(? & [= <-] & Hsame)]; auto.
Qed.

(** C24: A room is edited by its author or an administrator.  Whatever the answer, the room is as it was or
    it has new settings that are proper, with the author, the base and the template as before, and
    closes when it did or within 183 days; no other room changes.  Without validation no YAML is
    validated any more. *)
Theorem room_edits_are_proper (rid : str) (form : RoomSettingsForm) (s : Session) (db : Db) (now : Z) (old : Room)
    (Hroom : rooms db !! rid = Some old) (Hid : room_id old = rid) :
  ends True (eq now) (edit_room_submit read_yaml hash_iter otlp queue_error_text fmt q index_manager rid form s) db
    (fun r db' =>
      (is_Err r /\ db' = db) \/
      exists room, is_my_room s old = true /\ edit_of now old room /\ rooms db' = <[rid := room]> (rooms db) /\
        (yaml_validation (settings room) = false ->
           yamls db' = (fun row => if bool_decide (row_room row = rid) then no_validation now row else row) <$> yamls db)).
Proof.
  unfold edit_room_submit. walk; simplify_eq; try (left; split; [by eexists|done]).
  all: apply raised_ok in Heqr0.
  all: destruct (edited_room _ _ _ _ _ _ _ _ Heqr Heqr0 Heqr1 Heqr2 eq_refl) as [Hid Hedit]; rewrite Hid in *.
  all: try (simpl in *; congruence).
  all: cbn [rooms with_yamls] in *; simplify_eq.
  all: eapply ends_weaken; [apply revalidate_room_rooms|]; simpl; intros r db' [Hrooms Hyamls]; right.
  all: eexists; refine (conj _ (conj Hedit (conj Hrooms _))); [done|]; simpl in *; rewrite H4 in *; try done.
Qed.
End rooms.

Section witnesses.
#[local] Existing Instance example_semver.
#[local] Existing Instance ascii_lowercase.
#[local] Existing Instance example_ids.
#[local] Existing Instance example_codecs.

Definition sample_form : RoomSettingsForm :=
  {| f_room_name := lit "new"; f_room_description := []; f_close_date := []; f_tz_offset := 0; f_room_url := [];
     f_yaml_validation := false; f_allow_unsupported := false; f_allow_invalid_yamls := false;
     f_yaml_limit_per_user := false; f_yaml_limit_per_user_nb := 0; f_yaml_limit_bypass_list := [];
     f_show_apworlds := true; f_me := {| mf_new_apworld_policy := []; mf_enabled := ∅; mf_version := ∅ |};
     f_meta_file := []; f_is_bundle_room := false; f_locked := false |}.

(** User 1 edits the room. *)
Lemma room_edits_are_proper_witness :
  ends True (eq 50%Z) (edit_room_submit (fun _ => Err []) (fun _ => []) ∅ (fun _ => []) sample_formats (sample_queue _ _)
      pinned_set (lit "open") sample_form (sample_user 1)) sample_db (fun r db' =>
    (is_Err r /\ db' = sample_db) \/
    exists room, author_id (settings room) = 1%Z /\ proper pinned_set room /\
      rooms db' = <[lit "open" := room]> (rooms sample_db)).
Proof.
  eapply ends_weaken; [apply (room_edits_are_proper (fun _ => Err []) (fun _ => []) ∅ (fun _ => []) sample_formats
    (sample_queue _ _) pinned_set (lit "open") sample_form (sample_user 1) sample_db 50 (sample_room "open" 1 100));
    [apply sample_room_open|reflexivity]|].
  intros r db' [Hr|(room & _ & (_ & Ha & _ & _ & _ & _ & Hp) & Hrooms & _)]; [by left|right]. by exists room.
Defined.
End witnesses.
